(* ===== verification/_CoqProject ===== *)
-Q . S2P
Prelude.v
GoStrings.v
GoTime.v
GoPath.v
GoHeap.v
HeapCopy.v
HeapOwn.v
Kube.v
Scheduling.v
Ledger.v
LedgerFit.v
Reservations.v
Rules.v
Inflight.v
Templates.v
Status.v
Release.v
PodHeap.v
Sync.v
Rebuild.v
Reconcile.v
DeepCopy.v
StatusHeap.v
Decisions.v
Safety.v
Webhook.v
Scheme.v
Metrics.v
Bounds.v
Capacity.v
Lifecycle.v
Cluster.v
Certgen.v
CertInstances.v
CertSafety.v
Replicas.v
Manager.v
