(* ===== verification/Prelude.v ===== *)
(** * Kompakt: a verification library

    Kompakt is a Kubernetes controller that holds pods back with scheduling
    gates until capacity for them exists.  An admission webhook puts one gate
    per rule of the pod's PackingProfile on every pod whose label names a
    profile.  The controller reconciles gated pods one at a time: it rebuilds
    a ledger of node capacity from the cluster, asks the profile's rules
    whether the pod may go, and either removes the gates (pinning the pod to a
    node when the rules chose one) or holds the pod and asks to be called
    again a second later.  This library models the Go code of the controller,
    the ledger, the rules, the detectors of in-flight nodes, the webhook and
    the provisioning of the webhook's certificates, and proves what a cluster
    can rely on.

    ** The program and the files

    - [Prelude]: machine integers with their wrap-around, Go's maps with
      missing keys read as zero, [range] loops whose order is a parameter, the
      [result] type, and the generic lemmas on loops.
    - [GoStrings], [GoTime], [GoPath]: the functions of Go's standard library
      that the code calls ([strings], [strconv], [regexp], [fmt]; [time] and
      [float64]; [path/filepath]).
    - [GoHeap]: slices, maps and pointers as references into a heap, with the
      operations of the language on them, and the class [Deep] of what a value
      denotes there.  [HeapCopy] has the statements generated deep copies are
      made of and what they achieve; [HeapOwn] says what a value owns and has
      the rules that compose operations on parts of it.
    - [DeepCopy]: [api/v1alpha1/zz_generated.deepcopy.go] on the heap, every
      [DeepCopyInto], [DeepCopy] and [DeepCopyObject]; [Scheme]:
      [api/v1alpha1/groupversion_info.go] and the [init] of the manager.
    - [Kube]: the Kubernetes objects' fields in use, the types of
      [api/v1alpha1/packingprofile_types.go], [internal/kompakt/labels.go],
      and the class [Kube] of what is taken from the API machinery, which is
      the type [Quantity] with its [MilliValue].
    - [Scheduling]: [internal/scheduling/tolerations.go].
    - [Ledger]: [internal/ledger/ledger.go], the record [NodeLedger] and one
      definition per method.  [LedgerFit] is the specification of its searches
      and their refinement, [Reservations] the capacity contract it offers.
    - [Rules]: [internal/rules], the interface as a record of functions, the
      registry, [ExtractDemand] and the two rules.
    - [Inflight]: [internal/inflight], the three detectors with their parsers.
    - [Templates], [Status], [Release], [Sync], [Reconcile]:
      [internal/controller/packingprofile_controller.go], cut into the
      enrichment of in-flight nodes, the status conditions, the writes to
      pods, [syncLedger] and [Reconcile].  [Rebuild] says what [syncLedger]
      leaves entry by entry, [Decisions] gives the decision table of
      [Reconcile] as a relation, and [Safety] has the theorems on whole
      reconciliations and on sequences of them.  [Bounds] and [Capacity]
      follow the ledger over sequences of reconciliations: its amounts, and
      what all the pods sent to a node take together.
    - [Lifecycle]: the calls for one pod, each on the pod the previous one
      left, as controller-runtime makes them from the results of [Reconcile].
    - [StatusHeap], [PodHeap]: the writes of a status update and those to a
      pod through the pointer the cache handed out, on the heap, as
      refinements of [Status] and [Release].
    - [Cluster]: users who create and edit pods, the webhook, the controller
      on cached reads, other controllers and the scheduler on one cluster, as
      a transition system.
    - [Metrics]: [internal/metrics/metrics.go], the collectors and their
      registration, and the discipline of the updates the handlers make.
    - [Webhook]: [internal/webhook/mutating.go] and
      [internal/matcher/matcher.go].
    - [Certgen]: [internal/certgen/provisioner.go], over the classes [Crypto]
      (x509, PEM, TLS) and [Api] (the API server's secrets and webhook
      configurations) with their laws.  [CertInstances] has instances of both,
      [CertSafety] and [Replicas] the theorems, on one replica and on several,
      proved against the classes.
    - [Manager]: [cmd/manager/main.go] and [SetupWithManager], from the
      kubeconfig to the running manager: [main] on the outcome of each library
      call, and what it registers.

    The files of a component require those of the components it calls.
    [Reconcile] calls the webhook nowhere: the two meet in the gates on the
    pod ([Webhook.inject_then_release], [Cluster.bound_where_released]).  The
    provisioner runs beside both and meets the webhook in the files it serves from.

    ** State and effects

    The state the controller keeps between calls is the record
    [Sync.Reconciler]: the ledger, the detectors (one of them remembers
    whether it saw a lack of stock), the name of the active detector and the
    handle of its API reader ([Sync.ClientReader]).  A
    handler runs in the monad [Sync.M], from a reconciler to a reconciler, a
    list of effects and a result.  The effects are the pod patches, status
    updates, events and metric updates in the order the code makes them.  What
    the cluster answers is the record [Sync.Env], one per reconciliation,
    whose fields are arbitrary: it also says what is read through each
    handle, every read can fail, every write can be refused, and the clock
    ([GoTime.Clock]) may say anything at each of its readings.

    The ledger's methods hold a mutex for their whole body, so each is one
    atomic function on [NodeLedger].  One reconciliation is one step of
    [Safety.reconcile_step]: the set-up allows one concurrent reconciliation
    ([Manager.setup_controller]).  A step of [Cluster.cluster_step] is one
    admission, one reconciliation, one binding or one change by others; steps
    come in any order.  A reconciliation there reads from a cache, so it may
    decide on any earlier version of the pod; its patches are merged into the
    pod the API server has by then ([Cluster.merged]).  Others may change a
    pod in every way the API server allows ([Cluster.user_edit]), down to
    taking Kompakt's gates away as the guides describe; only the annotations
    of the trace, the node and the reason they leave alone.  The bindings of
    the system are those of a scheduler that respects gates and affinity.

    Go leaves the order of [range] over a map open; here the class [MapOrder]
    gives, for each tagged loop, any permutation of the map's
    entries, and every theorem holds for all of them.  Where the outcome
    depends on the order ([FindFit] among equally good nodes, the first
    template that fits) the theorem states the set of outcomes.

    Values of the model are immutable.  Where the code writes through pointers
    into shared objects, the heap of [GoHeap] says why that is right: a read
    from the cache is a deep copy ([DeepCopy.deep_copies_independent]), and
    what is written through it is what [Status] and [Release] compute on
    values, with the cache as it was ([StatusHeap.status_update_keeps_cache],
    [PodHeap.patch_from_copy]).

    The provisioner keeps no state of its own: a run is a function in the
    monad [Certgen.P] on the API server's state and the replica's disk, with
    its clock, keys and disk failures in [Certgen.CertEnv].  Replicas share
    the API server's state ([Replicas.Fleet]) and interleave between calls
    ([Replicas.replicas_diverge]).

    ** Integers, fuel and bounds

    Amounts are Go [int64] values: additions and subtractions are [add64] and
    [sub64] of this file, which wrap; counters in a status are [int32] and use
    [wrap32].  Theorems that need exact arithmetic say so by a range on the
    amounts; [Reservations.reachable_ledger_bounded] shows that amounts of at
    most [2^61] keep every operation of the ledger exact, and
    [Bounds.reconciles_never_wrap] that no sequence of reconciliations leaves
    that range while the cluster reports amounts in it.  The loops of the
    code are structural recursions on their lists.  The one loop that is not,
    that of [time.ParseDuration], takes the length of the string as fuel, and
    [GoTime.parseComponents_fuel] shows that more fuel changes nothing.

    ** What the theorems show

    - Releases ([Safety]): [Reconcile] follows its decision table; a pod is
      sent only to a listed node on which its constraints hold and its demand
      fits; it writes only gated pods, of those only three annotations, the
      gates and the affinity, and removes only Kompakt's gates; no pod is held past its timeout; the status says what the ledger holds; the
      ledger stays well formed over any sequence of reconciliations.
    - Pods together ([Capacity], [Cluster]): all the pods sent to a node while
      it stays in the rebuilds fit on it side by side; on a cluster where
      everybody acts in any order and Kompakt on reads of any age, a pod
      Kompakt gated is bound only after a recorded release or after its gates
      were taken by hand, and to a node whose hostname is what the release
      named.
    - Memory ([DeepCopy], [StatusHeap], [PodHeap]): deep copies share nothing
      with their originals; status updates and patches leave the cache alone,
      and a patch is the difference between the pod that was read and the one
      [Release] describes.
    - Termination ([Lifecycle]): the calls for a held pod end with its
      release, at the latest with the first one past its timeout on a readable
      cluster; with a call each second that is at most the timeout's seconds
      and two.
    - The ledger ([LedgerFit], [Reservations]): [FindFit] has exactly the
      outcomes of the specification [best_fit]; [Reserve] takes all or
      nothing and never overcommits; releasing undoes reserving; reservations
      survive a rebuild; clearing one profile leaves the others alone.
    - The rules ([Rules]): the decisions of both rules in terms of the
      specification of a search, and the demand of a pod.
    - Detection ([Inflight], [Templates]): round trips of the two parsers,
      what each detector reports, the order of the chain, the template that is
      chosen for a node.
    - Rebuilding ([Rebuild], [Status]): the exact ledger and the conditions
      that a rebuild and a status update leave.
    - Admission ([Webhook]): the responses of the handler, and that a release
      removes exactly what an admission added.
    - Certificates ([CertSafety]): what a successful check publishes, that a
      renewed certificate is served and trusted, and that the renewal is due
      after 80 percent of the lifetime, to the second; replicas that take turns
      agree ([Replicas]).
    - The process ([Manager], [Metrics]): a running manager serves the stored
      certificate, wakes the controller for gated pods only, one at a time,
      and starts from an empty ledger; no metric update can panic, and the
      values of the labels are the documented ones, but for the profile, which
      is what the label of the pod says.
    - Surprises: a held pod reserves again at each evaluation and exhausts the
      node it waits for ([Rules.held_pod_exhausts_inflight]); two rules
      reserve twice ([Safety.both_rules_reserve_twice]); a rule that holds
      masks the ones after it ([Safety.packing_first_masks_scale_up]); nodes
      that are left out of a rebuild lose their reservations
      ([Rebuild.left_out_reservations_lost]); a node that has arrived is still
      counted as in flight ([Rebuild.arrived_node_counted_twice]); in-flight
      nodes count once per profile ([Rebuild.inflight_counted_per_profile]);
      a profile with additional resources is never Ready
      ([Status.additional_resources_never_ready]); the lack of stock is never
      seen ([Inflight.no_stock_hidden_by_selection]); gates of rules without
      an implementation release at once ([Webhook.unimplemented_rules_release]);
      a failed patch of the CA bundle is not retried
      ([CertSafety.failed_patch_not_retried]) and two replicas can publish
      certificates that do not belong together
      ([Replicas.replicas_diverge]); capacity is never read from node labels,
      whatever the profile says ([Rebuild.capacity_source_ignored]); a release
      of a pod without profile is counted under any name its label has
      ([Metrics.missing_profile_counted]); a release decided on an old version of
      a pod removes all gates of the pod that has its name now
      ([Cluster.stale_release_drops_gates]).

    ** Not modelled

    Flag parsing and log lines of [cmd/manager/main.go]; the help texts of the
    metrics; the test suites.  The JSON codec, the uuid library and the quoting
    of strings are parameters of [Webhook]; the copies of the library's types
    and the scheme are parameters of [DeepCopy], [PodHeap] and [Scheme].  In
    [Reconcile] the copy a patch is computed against is the first pod of a
    [PatchPod] effect.  What the client decodes into an object after a patch
    or an update is left out; the handlers return without reading it.  What
    controller-runtime does between calls (rate limits, caches) is left open:
    [Lifecycle] takes any sequence of calls. *)

From stdpp Require Export base tactics gmap strings list fin_maps pretty.

Declare Scope go_scope.
Delimit Scope go_scope with go.
Open Scope Z_scope.

(** ** Machine integers

    A Go [int64] is a [Z] in [min_int64, max_int64]; every arithmetic result
    is wrapped explicitly, as Go's two's complement arithmetic does. *)

Definition min_int64 : Z := - 2 ^ 63.
Definition max_int64 : Z := 2 ^ 63 - 1.

Definition in_int64 (z : Z) : Prop := min_int64 ≤ z ≤ max_int64.

Definition wrap64 (z : Z) : Z := (z + 2 ^ 63) mod 2 ^ 64 - 2 ^ 63.

Definition add64 (a b : Z) : Z := wrap64 (a + b).
Definition sub64 (a b : Z) : Z := wrap64 (a - b).

Notation "a ⊕ b" := (add64 a b) (at level 50, left associativity) : go_scope.
Notation "a ⊖ b" := (sub64 a b) (at level 50, left associativity) : go_scope.
Open Scope go_scope.

(** [int32(x)] for an integer conversion. *)
Definition wrap32 (z : Z) : Z := (z + 2 ^ 31) mod 2 ^ 32 - 2 ^ 31.

Create HintDb int64 discriminated.

Lemma wrap32_add_l a b : wrap32 (wrap32 a + b) = wrap32 (a + b).
Proof.
  unfold wrap32. f_equal.
  replace ((a + 2 ^ 31) mod 2 ^ 32 - 2 ^ 31 + b + 2 ^ 31) with ((a + 2 ^ 31) mod 2 ^ 32 + b) by lia.
  rewrite Zplus_mod_idemp_l. f_equal. lia.
Qed.

#[global] Instance in_int64_dec z : Decision (in_int64 z).
Proof. unfold in_int64. apply _. Defined.

Lemma wrap64_range z : in_int64 (wrap64 z).
Proof.
  unfold in_int64, wrap64, min_int64, max_int64.
  pose proof (Z.mod_pos_bound (z + 2 ^ 63) (2 ^ 64)). lia.
Qed.

Lemma wrap64_id z : in_int64 z → wrap64 z = z.
Proof.
  unfold in_int64, wrap64, min_int64, max_int64. intros H.
  rewrite Z.mod_small; lia.
Qed.

Lemma wrap64_cong a b : a mod 2 ^ 64 = b mod 2 ^ 64 → wrap64 a = wrap64 b.
Proof.
  unfold wrap64. intros H.
  rewrite (Z.add_mod a), (Z.add_mod b), H by lia. done.
Qed.

Lemma wrap64_mod z : wrap64 z mod 2 ^ 64 = z mod 2 ^ 64.
Proof.
  unfold wrap64. rewrite Zminus_mod_idemp_l. f_equal. lia.
Qed.

Lemma wrap64_add_l a b : wrap64 (wrap64 a + b) = wrap64 (a + b).
Proof.
  apply wrap64_cong. rewrite Z.add_mod, wrap64_mod, <- Z.add_mod by lia. done.
Qed.

Lemma wrap64_add_r a b : wrap64 (a + wrap64 b) = wrap64 (a + b).
Proof. rewrite Z.add_comm, wrap64_add_l. f_equal. lia. Qed.

Lemma wrap64_sub_l a b : wrap64 (wrap64 a - b) = wrap64 (a - b).
Proof. rewrite <- !Z.add_opp_r. apply wrap64_add_l. Qed.

Lemma wrap64_sub_r a b : wrap64 (a - wrap64 b) = wrap64 (a - b).
Proof.
  apply wrap64_cong. rewrite Zminus_mod, wrap64_mod, <- Zminus_mod. done.
Qed.

Lemma wrap64_idem z : wrap64 (wrap64 z) = wrap64 z.
Proof. apply wrap64_id, wrap64_range. Qed.

Create Rewrite HintDb wrap64.
#[export] Hint Rewrite wrap64_add_l wrap64_add_r wrap64_sub_l wrap64_sub_r
  wrap64_idem : wrap64.

(** Normalises a goal or hypotheses about wrapped arithmetic: inner wraps are
    removed, so that two wrapped expressions with the same value modulo 2^64
    become syntactically equal up to [lia]. *)
Ltac wrap64_simpl :=
  unfold add64, sub64 in *; autorewrite with wrap64 in *.

(** Closes an equation between two wrapped linear expressions. *)
Ltac wrap64_lia :=
  wrap64_simpl;
  match goal with |- wrap64 ?a = wrap64 ?b => replace a with b by lia end;
  reflexivity.

Ltac int64_lia :=
  unfold in_int64, min_int64, max_int64 in *; lia.

Lemma add64_range a b : in_int64 (a ⊕ b).
Proof. apply wrap64_range. Qed.

Lemma sub64_range a b : in_int64 (a ⊖ b).
Proof. apply wrap64_range. Qed.

#[export] Hint Resolve wrap64_range add64_range sub64_range : int64.

Lemma add64_exact a b : in_int64 (a + b) → a ⊕ b = a + b.
Proof. apply wrap64_id. Qed.

Lemma sub64_exact a b : in_int64 (a - b) → a ⊖ b = a - b.
Proof. apply wrap64_id. Qed.

(** ** Sums of integers over lists *)

Fixpoint sum_list_Z (l : list Z) : Z :=
  match l with
  | [] => 0
  | x :: l => x + sum_list_Z l
  end.

Lemma sum_list_Z_app l k : sum_list_Z (l ++ k) = sum_list_Z l + sum_list_Z k.
Proof. induction l; simpl; lia. Qed.

#[global] Instance sum_list_Z_perm : Proper ((≡ₚ) ==> (=)) sum_list_Z.
Proof. intros l k H. induction H; simpl; lia. Qed.

(** A loop [acc += f x] over a list computes the wrapped sum. *)
Lemma foldl_add64 {A} (f : A → Z) (l : list A) acc :
  in_int64 acc →
  foldl (λ a x, a ⊕ f x) acc l = wrap64 (acc + sum_list_Z (f <$> l)).
Proof.
  revert acc. induction l as [|x l IH]; intros acc Hacc; csimpl.
  - rewrite Z.add_0_r. symmetry. by apply wrap64_id.
  - rewrite IH by auto with int64. wrap64_lia.
Qed.

(** ** Go maps

    A map with [int64] values is a [gmap string Z]; reading an absent key
    gives 0.  A map whose being [nil] the code tests or copies is a
    [strmap]: [None] is the [nil] map. *)

Definition getZ (m : gmap string Z) (k : string) : Z := default 0 (m !! k).
Notation "m ⟦ k ⟧" := (getZ m k) (at level 1, format "m ⟦ k ⟧") : go_scope.

(** [m[k] += v] on an [int64]-valued map. *)
Definition map_add64 (m : gmap string Z) (k : string) (v : Z) : gmap string Z :=
  <[k := m⟦k⟧ ⊕ v]> m.

Abbreviation strmap := (option (gmap string string)).

Definition smap (m : strmap) : gmap string string := default ∅ m.
Definition slookup (m : strmap) (k : string) : option string := smap m !! k.
Definition sget (m : strmap) (k : string) : string := default "" (slookup m k).

(** ** The order of a [range] over a map

    Go visits the entries of a map in an unspecified order that may differ
    from one loop to the next.  A [MapOrder] is one choice of the orders of
    all the loops of an execution: a loop is named by a path of tags, and
    every order it may take is a permutation of the map's entries.  Theorems
    quantify over all [MapOrder]s. *)

Class MapOrder := {
  mo_range : ∀ V : Type, list string → gmap string V → list (string * V);
  mo_perm : ∀ V p (m : gmap string V), mo_range V p m ≡ₚ map_to_list m
}.

Definition range {O : MapOrder} {V} (tag : string) (m : gmap string V) :
  list (string * V) := mo_range V [tag] m.

(** The orders of the loops run inside the call named [tag]. *)
Definition sub_order (O : MapOrder) (tag : string) : MapOrder := {|
  mo_range V p m := @mo_range O V (tag :: p) m;
  mo_perm V p m := @mo_perm O V (tag :: p) m
|}.

(** Two orders used to evaluate the model: the one of [map_to_list], and its
    reverse. *)
Definition order_forward : MapOrder := {|
  mo_range V p m := map_to_list m;
  mo_perm V p m := Permutation_refl _
|}.

Definition order_backward : MapOrder := {|
  mo_range V p m := reverse (map_to_list m);
  mo_perm V p m := reverse_Permutation _
|}.

Section range.
Context {O : MapOrder} {V : Type}.
Implicit Types m : gmap string V.

Lemma range_perm t m : range t m ≡ₚ map_to_list m.
Proof. apply mo_perm. Qed.

Lemma elem_of_range t m k v : (k, v) ∈ range t m ↔ m !! k = Some v.
Proof. rewrite range_perm. apply elem_of_map_to_list. Qed.

Lemma range_NoDup t m : NoDup (range t m).*1.
Proof. rewrite range_perm. apply NoDup_fst_map_to_list. Qed.

Lemma range_empty t : range t (∅ : gmap string V) = [].
Proof.
  apply Permutation_nil_r. rewrite range_perm, map_to_list_empty. done.
Qed.

Lemma range_singleton t k (v : V) : range t {[k := v]} = [(k, v)].
Proof.
  apply Permutation_singleton_r. by rewrite range_perm, map_to_list_singleton.
Qed.
End range.

(** ** Errors

    A Go [(value, error)] pair of which callers read the value only when the
    error is nil is a [result].  An error keeps what the code observes of it:
    whether [errors.IsNotFound] holds, and its text. *)

Record goerror := GoError { err_NotFound : bool; err_Error : string }.

Inductive result (A : Type) :=
  | Ok (a : A)
  | Err (e : goerror).
Arguments Ok {_} _.
Arguments Err {_} _.

Definition is_Ok {A} (r : result A) : bool :=
  match r with Ok _ => true | Err _ => false end.

Definition errors_New (msg : string) : goerror := GoError false msg.

(** ** Generic facts on lists *)

(** A [for] loop that appends the kept elements. *)
Lemma foldl_filter_app {A} (P : A → bool) (l acc : list A) :
  foldl (λ acc x, if P x then acc ++ [x] else acc) acc l =
  acc ++ List.filter P l.
Proof.
  revert acc. induction l as [|x l IH]; intros acc; simpl.
  - by rewrite app_nil_r.
  - rewrite IH. destruct (P x); [|done]. by rewrite <- app_assoc.
Qed.

(** A [for] loop that sets a flag and breaks. *)
Lemma existsb_elem {A} (P : A → bool) (l : list A) :
  existsb P l = true ↔ ∃ x, x ∈ l ∧ P x = true.
Proof.
  rewrite existsb_exists. split; intros (x & Hx & HP); exists x;
    by rewrite list_elem_of_In in *.
Qed.

Lemma forallb_elem {A} (P : A → bool) (l : list A) :
  forallb P l = true ↔ ∀ x, x ∈ l → P x = true.
Proof.
  rewrite forallb_forall. split; intros H x Hx; apply H;
    by rewrite list_elem_of_In in *.
Qed.

Lemma forallb_perm {A} (P : A → bool) (l k : list A) :
  l ≡ₚ k → forallb P l = forallb P k.
Proof.
  intros H. apply Bool.eq_iff_eq_true. rewrite !forallb_elem.
  by setoid_rewrite H.
Qed.

Lemma existsb_perm {A} (P : A → bool) (l k : list A) :
  l ≡ₚ k → existsb P l = existsb P k.
Proof.
  intros H. apply Bool.eq_iff_eq_true. rewrite !existsb_elem.
  by setoid_rewrite H.
Qed.

(** ** Loops over maps

    A loop over the entries of a map whose body touches, of some state, only
    the part that belongs to the entry's key: every key of the map gets the
    body's effect exactly once, in any order. *)

Section keyed_loop.
Context {St X V : Type}.
Context (look : St → string → X) (body : St → string * V → St).
Context (effect : string → V → X → X).
Hypothesis body_other : ∀ s k v k', k ≠ k' → look (body s (k, v)) k' = look s k'.
Hypothesis body_own : ∀ s k v, look (body s (k, v)) k = effect k v (look s k).

Lemma foldl_keyed_other (l : list (string * V)) s k :
  k ∉ l.*1 → look (foldl body s l) k = look s k.
Proof.
  revert s. induction l as [|[k' v] l IH]; intros s Hk; csimpl in *; [done|].
  rewrite IH by set_solver. apply body_other. set_solver.
Qed.

Lemma foldl_keyed_own (l : list (string * V)) s k v :
  NoDup l.*1 → (k, v) ∈ l → look (foldl body s l) k = effect k v (look s k).
Proof.
  revert s. induction l as [|[k' v'] l IH]; intros s Hnd Hin;
    csimpl in *; [by apply not_elem_of_nil in Hin|].
  apply NoDup_cons in Hnd as [Hk' Hnd].
  apply elem_of_cons in Hin as [[= -> ->]|Hin].
  - rewrite foldl_keyed_other by done. apply body_own.
  - rewrite IH, body_other; [done| |done|done].
    intros ->. apply Hk', list_elem_of_fmap. by exists (k, v).
Qed.

Lemma foldl_keyed_range {O : MapOrder} t (m : gmap string V) s k :
  look (foldl body s (range t m)) k =
  match m !! k with Some v => effect k v (look s k) | None => look s k end.
Proof.
  destruct (m !! k) as [v|] eqn:Hk.
  - apply foldl_keyed_own; [apply range_NoDup|by apply elem_of_range].
  - apply foldl_keyed_other. intros ([k' v] & -> & Hin)%list_elem_of_fmap.
    apply elem_of_range in Hin. by simpl in *; congruence.
Qed.
End keyed_loop.

(** [for k, v := range m { c[k] = v }] copies [m]. *)
Lemma foldl_insert_range {O : MapOrder} {V} t (m : gmap string V) :
  foldl (λ c '(k, v), <[k := v]> c) ∅ (range t m) = m.
Proof.
  apply map_eq. intros k.
  rewrite (foldl_keyed_range (λ m k, m !! k) _ (λ _ v _, Some v)).
  - rewrite lookup_empty. by destruct (m !! k).
  - intros. by apply lookup_insert_ne.
  - intros. apply lookup_insert_eq.
Qed.

(** [for k, v := range d { r[k] = f(r[k], v) }] *)
Definition map_upd (f : Z → Z → Z) (r d : gmap string Z) : gmap string Z :=
  merge (λ x y, match y with Some v => Some (f (default 0 x) v) | None => x end) r d.

Lemma lookup_map_upd f r d k :
  map_upd f r d !! k =
  match d !! k with Some v => Some (f (r⟦k⟧) v) | None => r !! k end.
Proof. unfold map_upd, getZ. rewrite lookup_merge. by destruct (r !! k), (d !! k). Qed.

Lemma getZ_map_upd f r d k :
  (map_upd f r d)⟦k⟧ = match d !! k with Some v => f (r⟦k⟧) v | None => r⟦k⟧ end.
Proof. unfold getZ at 1. rewrite lookup_map_upd. by destruct (d !! k). Qed.

Lemma foldl_upd_range {O : MapOrder} t f (r d : gmap string Z) :
  foldl (λ r '(k, v), <[k := f (r⟦k⟧) v]> r) r (range t d) = map_upd f r d.
Proof.
  apply map_eq. intros k. rewrite lookup_map_upd.
  rewrite (foldl_keyed_range (λ m k, m !! k) _ (λ _ v o, Some (f (default 0 o) v))).
  - done.
  - intros. by apply lookup_insert_ne.
  - intros. apply lookup_insert_eq.
Qed.

Lemma existsb_range {O : MapOrder} {V} t (P : string * V → bool) (m : gmap string V) :
  existsb P (range t m) = true ↔ ∃ k v, m !! k = Some v ∧ P (k, v) = true.
Proof.
  rewrite existsb_elem. split.
  - intros ([k v] & Hin%elem_of_range & HP). eauto.
  - intros (k & v & Hk & HP). exists (k, v). by rewrite elem_of_range.
Qed.

Lemma forallb_range {O : MapOrder} {V} t (P : string * V → bool) (m : gmap string V) :
  forallb P (range t m) = true ↔ ∀ k v, m !! k = Some v → P (k, v) = true.
Proof.
  rewrite forallb_elem. split.
  - intros H k v Hk. apply H. by apply elem_of_range.
  - intros H [k v] Hin%elem_of_range. by apply H.
Qed.

(** [len(m) == 0] *)
Definition map_empty {V} (m : gmap string V) : bool := (size m =? 0)%nat.

Lemma map_empty_spec {V} (m : gmap string V) : map_empty m = true ↔ m = ∅.
Proof. unfold map_empty. rewrite Nat.eqb_eq. apply map_size_empty_iff. Qed.

Lemma map_empty_false {V} (m : gmap string V) : map_empty m = false ↔ m ≠ ∅.
Proof. rewrite <- map_empty_spec. by destruct (map_empty m). Qed.

(** ** Loops that keep the first strict minimum

    [for x := range l { if key x < best { best = x } }] over the elements
    that have a key: the result is the start when nothing beats it, else the
    first element of least key. *)

Section first_min.
Context {St A : Type} (val : St → Z) (mk : A → Z → St) (key : A → option Z).
Hypothesis val_mk : ∀ x s, val (mk x s) = s.

Definition min_step (b : St) (x : A) : St :=
  match key x with
  | Some s => if s <? val b then mk x s else b
  | None => b
  end.

Lemma foldl_min_step (l : list A) (b : St) :
  (foldl min_step b l = b ∧ ∀ x s, x ∈ l → key x = Some s → val b ≤ s) ∨
  (∃ l1 x l2 s, l = l1 ++ x :: l2 ∧ key x = Some s ∧
     foldl min_step b l = mk x s ∧ s < val b ∧
     (∀ y s', y ∈ l1 → key y = Some s' → s < s') ∧
     (∀ y s', y ∈ l2 → key y = Some s' → s ≤ s')).
Proof.
  induction l as [|x l IH] using rev_ind.
  { left. split; [done|]. by intros x s Hx%not_elem_of_nil. }
  rewrite foldl_snoc. revert IH. generalize (foldl min_step b l) as b'. intros b' IH.
  unfold min_step.
  destruct (key x) as [s|] eqn:Hk; [destruct (Z.ltb_spec s (val b')) as [Hs|Hs]|].
  - right. exists l, x, [], s. split_and!; [done..| | |].
    + destruct IH as [[-> _]|(l1 & y & l2 & s' & _ & _ & E & Hs' & _)]; [done|].
      rewrite E, val_mk in Hs. lia.
    + intros y s' Hy Hks. destruct IH as [[E Hle]|(l1 & z & l2 & t & -> & Hz & E & _ & H1 & H2)];
        rewrite E in Hs; [specialize (Hle y s' Hy Hks); lia|]. rewrite val_mk in Hs.
      apply elem_of_app in Hy as [Hy|[->|Hy]%elem_of_cons].
      * specialize (H1 y s' Hy Hks). lia.
      * rewrite Hz in Hks. injection Hks. lia.
      * specialize (H2 y s' Hy Hks). lia.
    + by intros y s' Hy%not_elem_of_nil.
  - destruct IH as [[E Hle]|(l1 & z & l2 & t & -> & Hz & E & Ht & H1 & H2)].
    + left. split; [done|]. rewrite E in Hs. intros y s' [Hy| ->%list_elem_of_singleton]%elem_of_app Hks;
        [by eapply Hle|]. rewrite Hk in Hks. injection Hks. lia.
    + right. exists l1, z, (l2 ++ [x]), t. rewrite <- app_assoc. split_and!; try done.
      intros y s' [Hy| ->%list_elem_of_singleton]%elem_of_app Hks; [by eapply H2|].
      rewrite E, val_mk in Hs. rewrite Hk in Hks. injection Hks. lia.
  - destruct IH as [[E Hle]|(l1 & z & l2 & t & -> & Hz & E & Ht & H1 & H2)].
    + left. split; [done|]. intros y s' [Hy| ->%list_elem_of_singleton]%elem_of_app Hks;
        [by eapply Hle|congruence].
    + right. exists l1, z, (l2 ++ [x]), t. rewrite <- app_assoc. split_and!; try done.
      intros y s' [Hy| ->%list_elem_of_singleton]%elem_of_app Hks; [by eapply H2|congruence].
Qed.
End first_min.

(** An order that visits the entry of [first] before the others, in every
    loop. *)
Definition order_first (first : string) : MapOrder.
Proof.
  refine {| mo_range V p m := match m !! first with
    | Some v => (first, v) :: map_to_list (delete first m)
    | None => map_to_list m
    end |}.
  intros V p m. destruct (m !! first) as [v|] eqn:E; [|done].
  by apply map_to_list_delete.
Defined.

(** Proves a decidable proposition on closed data by evaluating it. *)
Ltac decide_true :=
  match goal with
  | |- ?P => refine (bool_decide_unpack P _); vm_compute; exact I
  end.
