(* ===== verification/GoStrings.v ===== *)
(** * The Go standard library's string functions

    A Go [string] is a sequence of bytes, here Rocq's [string] whose [ascii]
    characters are the bytes.  This file holds the functions of [strings],
    [strconv], [regexp] and [fmt] that Kompakt calls, for the arguments it
    calls them with, and the lemmas on them that the components share:
    prefixes, splitting and joining, trimming, decimal round trips and the
    greedy matcher. *)

From Stdlib Require Import String Ascii.
From S2P Require Import Prelude.


Open Scope Z_scope.

#[global] Arguments String.append !_ _ /.

(** ** Prefixes and slices *)

(** [strings.HasPrefix(s, p)] *)
Definition HasPrefix (s p : string) : bool := String.prefix p s.

(** [s[n:]], for [n] at most the length. *)
Fixpoint drop_str (n : nat) (s : string) : string :=
  match n, s with
  | S n, String _ s => drop_str n s
  | _, _ => s
  end.

(** [s[:n]] *)
Fixpoint take_str (n : nat) (s : string) : string :=
  match n, s with
  | S n, String a s => String a (take_str n s)
  | _, _ => ""
  end.

(** [strings.TrimPrefix(s, p)] *)
Definition TrimPrefix (s p : string) : string :=
  if HasPrefix s p then drop_str (String.length p) s else s.

(** [strings.Index(s, sub)]; [None] is -1. *)
Definition Index (s sub : string) : option nat := String.index 0 sub s.

(** [strings.Contains(s, sub)] *)
Definition Contains (s sub : string) : bool :=
  match Index s sub with Some _ => true | None => false end.

(** ** Split and Join *)

(** [strings.Split(s, sep)] for a separator of one byte. *)
Fixpoint Split (sep : ascii) (s : string) : list string :=
  match s with
  | "" => [""]
  | String a s' =>
      if Ascii.eqb a sep then "" :: Split sep s'
      else match Split sep s' with
           | [] => [String a ""]
           | w :: ws => String a w :: ws
           end
  end.

(** [strings.Join(elems, sep)] *)
Fixpoint Join (elems : list string) (sep : string) : string :=
  match elems with
  | [] => ""
  | [e] => e
  | e :: es => e +:+ sep +:+ Join es sep
  end.

(** ** TrimSpace

    [unicode.IsSpace] on the UTF-8 encodings: six ASCII bytes, two encodings of two
    bytes and seventeen of three. *)

Definition byte (a : ascii) : N := N_of_ascii a.

Definition space1 (a : ascii) : bool :=
  let n := byte a in ((9 <=? n) && (n <=? 13) || (n =? 32))%N.

Definition space2 (a b : ascii) : bool :=
  ((byte a =? 194) && ((byte b =? 133) || (byte b =? 160)))%N.

Definition space3 (a b c : ascii) : bool :=
  ((byte a =? 225) && (byte b =? 154) && (byte c =? 128)
   || (byte a =? 226) && (byte b =? 128) &&
      ((128 <=? byte c) && (byte c <=? 138)
       || (byte c =? 168) || (byte c =? 169) || (byte c =? 175))
   || (byte a =? 226) && (byte b =? 129) && (byte c =? 159)
   || (byte a =? 227) && (byte b =? 128) && (byte c =? 128))%N.

(** Drops the leading runes that [p1], [p2] or [p3] recognise. *)
Fixpoint trim_front (p1 : ascii → bool) (p2 : ascii → ascii → bool)
    (p3 : ascii → ascii → ascii → bool) (l : list ascii) : list ascii :=
  match l with
  | [] => []
  | a :: l1 =>
      if p1 a then trim_front p1 p2 p3 l1
      else match l1 with
           | [] => l
           | b :: l2 =>
               if p2 a b then trim_front p1 p2 p3 l2
               else match l2 with
                    | [] => l
                    | c :: l3 => if p3 a b c then trim_front p1 p2 p3 l3 else l
                    end
           end
  end.

Definition trim_left (l : list ascii) : list ascii :=
  trim_front space1 space2 space3 l.

Definition trim_right (l : list ascii) : list ascii :=
  reverse (trim_front space1 (λ b a, space2 a b) (λ c b a, space3 a b c) (reverse l)).

(** [strings.TrimSpace(s)] *)
Definition TrimSpace (s : string) : string :=
  string_of_list_ascii (trim_right (trim_left (list_ascii_of_string s))).

(** ** strconv *)

Inductive num_error := ErrSyntax | ErrRange.

Definition is_digit (a : ascii) : bool := ((48 <=? byte a) && (byte a <=? 57))%N.
Definition digit_val (a : ascii) : Z := Z.of_N (byte a) - 48.

(** The digit loop of [strconv.ParseUint(s, 10, 64)]: a value past 2^64 ends
    the loop with a range error before the rest of the string is read. *)
Fixpoint ParseUint_go (s : string) (n : Z) : Z * option num_error :=
  match s with
  | "" => (n, None)
  | String a s =>
      if is_digit a then
        if (2 ^ 64 - 1) / 10 + 1 <=? n then (2 ^ 64 - 1, Some ErrRange)
        else if 2 ^ 64 <=? n * 10 + digit_val a then (2 ^ 64 - 1, Some ErrRange)
        else ParseUint_go s (n * 10 + digit_val a)
      else (0, Some ErrSyntax)
  end.

Definition ParseUint (s : string) : Z * option num_error :=
  match s with "" => (0, Some ErrSyntax) | _ => ParseUint_go s 0 end.

Definition parse_sign (s : string) : bool * string :=
  match s with
  | String "+" u => (false, u)
  | String "-" u => (true, u)
  | _ => (false, s)
  end.

(** [strconv.ParseInt(s, 10, 64)]: the value saturates on a range error and
    is 0 on a syntax error. *)
Definition ParseInt (s : string) : Z * option num_error :=
  let '(neg, u) := parse_sign s in
  match s with
  | "" => (0, Some ErrSyntax)
  | _ =>
      match ParseUint u with
      | (_, Some ErrSyntax) => (0, Some ErrSyntax)
      | (un, _) =>
          if negb neg && (2 ^ 63 <=? un) then (2 ^ 63 - 1, Some ErrRange)
          else if neg && (2 ^ 63 <? un) then (- 2 ^ 63, Some ErrRange)
          else (if neg then - un else un, None)
      end
  end.

(** [strconv.Atoi(s)] on a 64-bit platform gives [ParseInt]'s value and error. *)
Definition Atoi (s : string) : Z * option num_error := ParseInt s.

(** ** regexp

    The matcher for patterns that are a sequence of literals and captured
    greedy repetitions [(c+)] of a byte class, with Go's leftmost-first
    semantics: the leftmost start, and at each repetition the longest run
    for which the rest matches. *)

Inductive re_item :=
  | Lit (s : string)
  | Cap (cls : ascii → bool).

(** The length of the longest prefix of [s] in the class. *)
Fixpoint run_length (cls : ascii → bool) (s : string) : nat :=
  match s with
  | "" => 0
  | String a s => if cls a then S (run_length cls s) else 0
  end.

(** The captures, from the start of [s]. *)
Fixpoint match_here (items : list re_item) (s : string) : option (list string) :=
  match items with
  | [] => Some []
  | Lit l :: items =>
      if HasPrefix s l then match_here items (drop_str (String.length l) s) else None
  | Cap cls :: items =>
      (fix longest (n : nat) : option (list string) :=
         match n with
         | O => None
         | S n' =>
             match match_here items (drop_str n s) with
             | Some caps => Some (take_str n s :: caps)
             | None => longest n'
             end
         end) (run_length cls s)
  end.

(** The submatches 1, 2, ... of [FindStringSubmatch]; [None] is its nil. *)
Fixpoint FindStringSubmatch (items : list re_item) (s : string) :
  option (list string) :=
  match match_here items s with
  | Some caps => Some caps
  | None =>
      match s with
      | "" => None
      | String _ s => FindStringSubmatch items s
      end
  end.

(** The classes [\S] and [.] *)
Definition re_nonspace (a : ascii) : bool :=
  let n := byte a in
  negb ((n =? 9) || (n =? 10) || (n =? 12) || (n =? 13) || (n =? 32))%N.
Definition re_dot (a : ascii) : bool := negb (byte a =? 10)%N.

(** ** Lemmas *)

Create HintDb gostr discriminated.

Lemma string_app_nil_r (s : string) : s +:+ "" = s.
Proof. induction s; simpl; congruence. Qed.

Lemma string_app_assoc (s t u : string) : (s +:+ t) +:+ u = s +:+ t +:+ u.
Proof. induction s; simpl; congruence. Qed.

Lemma string_length_app (s t : string) :
  String.length (s +:+ t) = (String.length s + String.length t)%nat.
Proof. induction s; simpl; congruence. Qed.

Lemma HasPrefix_app p s : HasPrefix (p +:+ s) p = true.
Proof.
  unfold HasPrefix. induction p as [|a p IH]; simpl; [by destruct s|].
  by destruct (ascii_dec a a).
Qed.

Lemma drop_str_app p s : drop_str (String.length p) (p +:+ s) = s.
Proof. induction p; simpl; [by destruct s|done]. Qed.

Lemma take_str_app p s : take_str (String.length p) (p +:+ s) = p.
Proof. induction p; simpl; [by destruct s|congruence]. Qed.

Lemma HasPrefix_spec s p : HasPrefix s p = true ↔ ∃ t, s = p +:+ t.
Proof.
  split; [|intros [t ->]; apply HasPrefix_app].
  unfold HasPrefix. revert s. induction p as [|a p IH]; intros s; simpl.
  - intros _. by exists s.
  - destruct s as [|b s]; [done|]. simpl.
    destruct (ascii_dec a b) as [->|]; [|done].
    intros [t ->]%IH. by exists t.
Qed.

Lemma TrimPrefix_app p s : TrimPrefix (p +:+ s) p = s.
Proof. unfold TrimPrefix. by rewrite HasPrefix_app, drop_str_app. Qed.

(** *** Character predicates on strings *)

Fixpoint all_chars (P : ascii → bool) (s : string) : bool :=
  match s with
  | "" => true
  | String a s => P a && all_chars P s
  end.

Lemma all_chars_app P s t :
  all_chars P (s +:+ t) = all_chars P s && all_chars P t.
Proof. induction s; simpl; [done|]. by rewrite IHs, andb_assoc. Qed.

Lemma all_chars_impl (P Q : ascii → bool) s :
  (∀ a, P a = true → Q a = true) → all_chars P s = true → all_chars Q s = true.
Proof.
  intros HPQ. induction s as [|a s IH]; simpl; [done|].
  intros [Ha Hs]%andb_prop. by rewrite HPQ, IH.
Qed.

(** Printable ASCII other than the space: what names of node groups, nodes
    and instance types are made of. *)
Definition graphic (a : ascii) : bool := ((33 <=? byte a) && (byte a <=? 126))%N.

Definition not_char (c a : ascii) : bool := negb (Ascii.eqb a c).

(** A token: graphic characters only. *)
Definition word (s : string) : bool := all_chars graphic s.

Lemma byte_inj a b : byte a = byte b → a = b.
Proof.
  intros H%(f_equal ascii_of_N). unfold byte in H.
  by rewrite !ascii_N_embedding in H.
Qed.

Lemma graphic_not_char c a : graphic c = false → graphic a = true → not_char c a = true.
Proof.
  unfold not_char. intros Hc Ha. destruct (Ascii.eqb_spec a c); [congruence|done].
Qed.

Lemma word_not_char c s : graphic c = false → word s = true → all_chars (not_char c) s = true.
Proof. intros Hc. apply all_chars_impl. intros a. by apply graphic_not_char. Qed.

Lemma is_digit_graphic a : is_digit a = true → graphic a = true.
Proof. unfold is_digit, graphic. rewrite !andb_true_iff, !N.leb_le. lia. Qed.

(** *** Index *)

Lemma index_cons_ne n a sub b s :
  a ≠ b → String.index 0 (String a sub) s = Some n →
  String.index 0 (String a sub) (String b s) = Some (S n).
Proof.
  intros Hne H. simpl. destruct (ascii_dec a b); [done|]. by rewrite H.
Qed.

Lemma Index_first_char a sub s :
  all_chars (not_char a) s = true → Index s (String a sub) = None.
Proof.
  unfold Index. induction s as [|b s IH]; simpl; [done|].
  intros [Hb Hs]%andb_prop. unfold not_char in Hb.
  destruct (Ascii.eqb_spec b a); [done|]. destruct (ascii_dec a b); [congruence|].
  by rewrite IH.
Qed.

(** *** Split *)

Lemma Split_no_sep c s : all_chars (not_char c) s = true → Split c s = [s].
Proof.
  induction s as [|a s IH]; simpl; [done|].
  intros [Ha Hs]%andb_prop. unfold not_char in Ha.
  destruct (Ascii.eqb a c); [done|]. by rewrite IH.
Qed.

Lemma Split_cons_sep c s t :
  all_chars (not_char c) s = true → Split c (s +:+ String c t) = s :: Split c t.
Proof.
  induction s as [|a s IH]; simpl.
  - intros _. by rewrite Ascii.eqb_refl.
  - intros [Ha Hs]%andb_prop. unfold not_char in Ha.
    destruct (Ascii.eqb a c); [done|]. by rewrite IH.
Qed.

Lemma Split_nonempty c s : Split c s ≠ [].
Proof. induction s as [|a s IH]; simpl; repeat case_match; done. Qed.

(** Splitting a joined list of separator-free parts gives the parts. *)
Lemma Split_Join c ws :
  ws ≠ [] → Forall (λ w, all_chars (not_char c) w = true) ws →
  Split c (Join ws (String c "")) = ws.
Proof.
  intros Hne H. induction H as [|w ws Hw Hws IH]; [done|].
  destruct ws as [|w' ws]; simpl; [by apply Split_no_sep|].
  rewrite Split_cons_sep by done. f_equal. by apply IH.
Qed.

Lemma Join_Split c s : Join (Split c s) (String c "") = s.
Proof.
  induction s as [|a s IH]; simpl; [done|].
  pose proof (Split_nonempty c s). destruct (Ascii.eqb_spec a c) as [->|].
  - destruct (Split c s) as [|w ws] eqn:E; [done|]. by rewrite <- IH.
  - destruct (Split c s) as [|w [|w' ws]] eqn:E; [done|..]; by rewrite <- IH.
Qed.

(** *** TrimSpace *)

Definition plain_byte (a : ascii) : bool := (byte a <=? 127)%N.

Lemma graphic_plain a : graphic a = true → plain_byte a = true.
Proof. unfold graphic, plain_byte. rewrite andb_true_iff, !N.leb_le. lia. Qed.

Lemma graphic_not_space1 a : graphic a = true → space1 a = false.
Proof.
  unfold graphic, space1. rewrite andb_true_iff, !N.leb_le. intros.
  apply orb_false_iff; split; [apply andb_false_iff; right; apply N.leb_gt|
    apply N.eqb_neq]; lia.
Qed.

Lemma plain_not_space2 a b : plain_byte a = true → space2 a b = false.
Proof.
  unfold plain_byte, space2. rewrite N.leb_le. intros.
  replace (byte a =? 194)%N with false by (symmetry; apply N.eqb_neq; lia). done.
Qed.

Lemma plain_not_space3 a b c : plain_byte a = true → space3 a b c = false.
Proof.
  unfold plain_byte, space3. rewrite N.leb_le. intros.
  replace (byte a =? 225)%N with false by (symmetry; apply N.eqb_neq; lia).
  replace (byte a =? 226)%N with false by (symmetry; apply N.eqb_neq; lia).
  replace (byte a =? 227)%N with false by (symmetry; apply N.eqb_neq; lia). done.
Qed.

Lemma plain_not_space2_r a b : plain_byte b = true → space2 a b = false.
Proof.
  unfold plain_byte, space2. rewrite N.leb_le. intros.
  replace (byte b =? 133)%N with false by (symmetry; apply N.eqb_neq; lia).
  replace (byte b =? 160)%N with false by (symmetry; apply N.eqb_neq; lia).
  by rewrite andb_false_r.
Qed.

Lemma plain_not_space3_r a b c : plain_byte c = true → space3 a b c = false.
Proof.
  unfold plain_byte, space3. rewrite N.leb_le. intros.
  replace (128 <=? byte c)%N with false by (symmetry; apply N.leb_gt; lia).
  rewrite !(proj2 (N.eqb_neq (byte c) _)) by lia.
  by rewrite !andb_false_r.
Qed.

(** Trimming stops at the first graphic character. *)
Lemma trim_left_graphic a l : graphic a = true → trim_left (a :: l) = a :: l.
Proof.
  intros Ha. unfold trim_left. simpl. rewrite graphic_not_space1 by done.
  apply graphic_plain in Ha. destruct l as [|b l]; [done|].
  rewrite plain_not_space2 by done. destruct l; [done|].
  by rewrite plain_not_space3.
Qed.

Lemma trim_right_graphic l a : graphic a = true → trim_right (l ++ [a]) = l ++ [a].
Proof.
  intros Ha. unfold trim_right. rewrite reverse_snoc. simpl.
  rewrite graphic_not_space1 by done. apply graphic_plain in Ha.
  assert (reverse (a :: reverse l) = l ++ [a]) as Hr
    by (by rewrite reverse_cons, reverse_involutive).
  destruct (reverse l) as [|b k]; [done|].
  rewrite plain_not_space2_r by done.
  destruct k; [done|]. by rewrite plain_not_space3_r.
Qed.

Lemma list_ascii_app s t :
  list_ascii_of_string (s +:+ t) =
  (list_ascii_of_string s ++ list_ascii_of_string t)%list.
Proof. induction s; simpl; congruence. Qed.

Lemma string_app_inj_r s1 s2 t : s1 +:+ t = s2 +:+ t → s1 = s2.
Proof.
  intros H%(f_equal list_ascii_of_string). rewrite !list_ascii_app in H.
  apply app_inv_tail in H. apply (f_equal string_of_list_ascii) in H.
  by rewrite !string_of_list_ascii_of_string in H.
Qed.

Definition last_char (s : string) (a : ascii) : Prop := ∃ t, s = t +:+ String a "".

(** A string that starts and ends with graphic characters is left alone; so
    is one after a leading space. *)
Lemma TrimSpace_graphic s a b t :
  s = String a t → last_char s b → graphic a = true → graphic b = true →
  TrimSpace s = s.
Proof.
  intros -> [u Hu] Ha Hb. unfold TrimSpace. simpl. rewrite trim_left_graphic by done.
  change (a :: list_ascii_of_string t) with (list_ascii_of_string (String a t)).
  rewrite Hu, list_ascii_app. simpl. rewrite trim_right_graphic by done.
  change [b] with (list_ascii_of_string (String b "")).
  by rewrite <- list_ascii_app, string_of_list_ascii_of_string.
Qed.

Lemma TrimSpace_space s : TrimSpace (String " " s) = TrimSpace s.
Proof. done. Qed.

Lemma word_last_char s : word s = true → s ≠ "" → ∃ a, graphic a = true ∧ last_char s a.
Proof.
  induction s as [|a s IH]; simpl; [done|]. intros [Ha Hs]%andb_prop _.
  destruct s as [|b s].
  - exists a. split; [done|]. by exists "".
  - destruct IH as (c & Hc & u & Hu); [done..|]. exists c. split; [done|].
    exists (String a u). by rewrite Hu.
Qed.

Lemma last_char_app s t a : last_char t a → last_char (s +:+ t) a.
Proof. intros [u ->]. exists (s +:+ u). by rewrite string_app_assoc. Qed.

Lemma TrimSpace_app_word a s w :
  graphic a = true → word w = true → w ≠ "" →
  TrimSpace (String a s +:+ w) = String a s +:+ w.
Proof.
  intros Ha Hw Hne. destruct (word_last_char w Hw Hne) as (b & Hb & Hl).
  eapply TrimSpace_graphic; [done|by apply last_char_app|done|done].
Qed.

Lemma TrimSpace_word w : word w = true → TrimSpace w = w.
Proof.
  destruct w as [|a s] eqn:E; [done|]. rewrite <- E. intros Hw.
  destruct (word_last_char w) as (b & Hb & Hl); [done|by subst|].
  eapply TrimSpace_graphic; [done..| |done]. subst. simpl in Hw.
  by apply andb_prop in Hw as [? _].
Qed.

(** *** Decimal round trips *)

Lemma pretty_N_char_digit x :
  (x < 10)%N →
  is_digit (pretty_N_char x) = true ∧ digit_val (pretty_N_char x) = Z.of_N x.
Proof.
  intros H. assert (x = 0 ∨ x = 1 ∨ x = 2 ∨ x = 3 ∨ x = 4 ∨ x = 5 ∨ x = 6 ∨ x = 7
    ∨ x = 8 ∨ x = 9)%N as Hx by lia.
  repeat (destruct Hx as [->|Hx]; [done|]). by subst.
Qed.

Lemma ParseUint_go_pretty n s :
  Z.of_N n < 2 ^ 64 →
  ParseUint_go (pretty_N_go n s) 0 = ParseUint_go s (Z.of_N n).
Proof.
  revert s. induction (N.lt_wf_0 n) as [n _ IH]; intros s Hn.
  destruct (decide (n = 0%N)) as [->|Hn0]; [done|].
  rewrite pretty_N_go_step by lia.
  rewrite IH by (first [apply N.div_lt; lia|pose proof (N.Div0.div_le_mono n); rewrite ?N2Z.inj_div; apply Z.div_lt_upper_bound; lia]).
  pose proof (N.mod_lt n 10 ltac:(done)) as Hm.
  destruct (pretty_N_char_digit (n `mod` 10)) as [Hd Hv]; [done|].
  pose proof (N.div_mod n 10 ltac:(done)) as Hdm.
  cbn [ParseUint_go]. rewrite Hd, Hv.
  change ((2 ^ 64 - 1) / 10 + 1) with 1844674407370955162.
  revert Hdm Hm. generalize (n `div` 10)%N (n `mod` 10)%N. intros q r Hdm Hm.
  rewrite (proj2 (Z.leb_gt _ _)) by lia.
  rewrite (proj2 (Z.leb_gt _ _)) by lia.
  f_equal. lia.
Qed.

Lemma pretty_N_go_digits n s :
  all_chars is_digit (pretty_N_go n s) = all_chars is_digit s.
Proof.
  revert s. induction (N.lt_wf_0 n) as [n _ IH]; intros s.
  destruct (decide (n = 0%N)) as [->|Hn0]; [done|].
  rewrite pretty_N_go_step, IH by (first [lia|apply N.div_lt; lia]).
  simpl. pose proof (N.mod_lt n 10 ltac:(done)) as Hm.
  by destruct (pretty_N_char_digit (n `mod` 10)) as [-> _].
Qed.

Lemma pretty_N_digits (n : N) : all_chars is_digit (pretty n) = true.
Proof.
  unfold pretty, pretty_N. case_decide; [done|]. by rewrite pretty_N_go_digits.
Qed.

Lemma pretty_N_go_cons_ne n a s : pretty_N_go n (String a s) ≠ "".
Proof.
  revert a s. induction (N.lt_wf_0 n) as [n _ IH]; intros a s.
  destruct (decide (n = 0%N)) as [->|Hn0]; [done|].
  rewrite pretty_N_go_step by lia. apply IH, N.div_lt; lia.
Qed.

Lemma pretty_N_nonempty (n : N) : pretty n ≠ "".
Proof.
  unfold pretty, pretty_N. case_decide; [done|].
  rewrite pretty_N_go_step by lia. apply pretty_N_go_cons_ne.
Qed.

Lemma pretty_Z_nonneg z : 0 ≤ z → pretty z = pretty (Z.to_N z).
Proof. by destruct z. Qed.

Lemma parse_sign_digit a s :
  is_digit a = true → parse_sign (String a s) = (false, String a s).
Proof. by destruct a as [[] [] [] [] [] [] [] []]. Qed.

Lemma ParseUint_pretty (n : N) :
  Z.of_N n < 2 ^ 64 → ParseUint (pretty n) = (Z.of_N n, None).
Proof.
  intros Hn. unfold ParseUint. pose proof (pretty_N_nonempty n) as Hne.
  destruct (pretty n) as [|a s] eqn:E; [done|]. rewrite <- E. clear E Hne.
  unfold pretty, pretty_N. case_decide as H0; [by subst|].
  by rewrite ParseUint_go_pretty.
Qed.

Lemma ParseInt_digits (n : N) :
  Z.of_N n < 2 ^ 63 → ParseInt (pretty n) = (Z.of_N n, None).
Proof.
  intros Hn. unfold ParseInt. pose proof (pretty_N_nonempty n) as Hne.
  pose proof (pretty_N_digits n) as Hd. pose proof (ParseUint_pretty n ltac:(lia)) as Hp.
  destruct (pretty n) as [|a s] eqn:E; [done|].
  rewrite parse_sign_digit by (by apply andb_prop in Hd as [? _]).
  rewrite Hp, (proj2 (Z.leb_gt _ _)) by lia. done.
Qed.

(** Parsing what [%d] prints gives the number back. *)
Lemma ParseInt_pretty z : in_int64 z → ParseInt (pretty z) = (z, None).
Proof.
  intros Hz. destruct z as [|p|p]; [done| |].
  - change (pretty (Z.pos p)) with (pretty (N.pos p)).
    rewrite ParseInt_digits; [done|]. change (Z.of_N (N.pos p)) with (Z.pos p). int64_lia.
  - change (pretty (Z.neg p)) with (String "-" (pretty (N.pos p))).
    unfold ParseInt. cbn [parse_sign].
    rewrite ParseUint_pretty by (change (Z.of_N (N.pos p)) with (Z.pos p); int64_lia).
    change (Z.of_N (N.pos p)) with (Z.pos p). cbn [negb andb].
    by rewrite (proj2 (Z.ltb_ge _ _)) by int64_lia.
Qed.

Lemma Atoi_pretty z : 0 ≤ z < 2 ^ 63 → Atoi (pretty z) = (z, None).
Proof. intros. apply ParseInt_pretty. int64_lia. Qed.

Lemma pretty_word z : 0 ≤ z → word (pretty z) = true ∧ pretty z ≠ "".
Proof.
  intros Hz. rewrite pretty_Z_nonneg by lia.
  split; [|apply pretty_N_nonempty].
  eapply all_chars_impl; [apply is_digit_graphic|apply pretty_N_digits].
Qed.

(** *** The matcher *)

Lemma run_length_app cls w a s :
  all_chars cls w = true → cls a = false →
  run_length cls (w +:+ String a s) = String.length w.
Proof.
  intros Hw Ha. induction w as [|b w IH]; simpl in *; [by rewrite Ha|].
  apply andb_prop in Hw as [-> Hw]. by rewrite IH.
Qed.

Lemma run_length_all cls w :
  all_chars cls w = true → run_length cls w = String.length w.
Proof.
  induction w as [|b w IH]; simpl; [done|].
  intros [-> Hw]%andb_prop. by rewrite IH.
Qed.

(** A greedy repetition takes the longest run after which the rest matches. *)
Lemma match_here_Cap cls items s n caps :
  (0 < n ≤ run_length cls s)%nat →
  match_here items (drop_str n s) = Some caps →
  (∀ m, (n < m ≤ run_length cls s)%nat → match_here items (drop_str m s) = None) →
  match_here (Cap cls :: items) s = Some (take_str n s :: caps).
Proof.
  intros Hn Hmatch Hlonger. simpl. revert Hn Hlonger.
  generalize (run_length cls s) as k. induction k as [|k IH]; intros Hn Hl; [lia|].
  destruct (decide (n = S k)) as [->|Hne]; [by rewrite Hmatch|].
  rewrite Hl by lia. apply IH; [lia|]. intros m Hm. apply Hl. lia.
Qed.

(** Capturing a token that ends where its class does. *)
Lemma match_here_Cap_token cls items w a s caps :
  all_chars cls w = true → cls a = false → w ≠ "" →
  match_here items (String a s) = Some caps →
  match_here (Cap cls :: items) (w +:+ String a s) = Some (w :: caps).
Proof.
  intros Hw Ha Hne Hm.
  rewrite (match_here_Cap _ _ _ (String.length w) caps).
  - by rewrite take_str_app.
  - rewrite run_length_app by done. split; [destruct w; [done|simpl; lia]|lia].
  - by rewrite drop_str_app.
  - rewrite run_length_app by done. lia.
Qed.

Lemma match_here_Lit l items s : match_here (Lit l :: items) (l +:+ s) = match_here items s.
Proof. simpl. by rewrite HasPrefix_app, drop_str_app. Qed.

Lemma FindStringSubmatch_here items s caps :
  match_here items s = Some caps → FindStringSubmatch items s = Some caps.
Proof. intros H. destruct s; simpl; by rewrite H. Qed.

Lemma graphic_re_nonspace a : graphic a = true → re_nonspace a = true.
Proof.
  unfold graphic, re_nonspace. rewrite andb_true_iff, !N.leb_le. intros.
  rewrite !(proj2 (N.eqb_neq (byte a) _)) by lia. done.
Qed.
