(* ===== verification/GoTime.v ===== *)
(** * The Go standard library's [time] and [float64]

    A [time.Time] is the number of nanoseconds since January 1 of year 1, UTC,
    so the zero time is 0; a [time.Duration] is an int64 number of
    nanoseconds.  Subtraction saturates, addition moves the instant.
    [ParseDuration] is the library's parser, with its fractions computed in
    IEEE double precision as the library computes them. *)

From Stdlib Require Import String Ascii SpecFloat.
From S2P Require Import Prelude GoStrings.

Open Scope Z_scope.

Definition Nanosecond : Z := 1.
Definition Microsecond : Z := 1000 * Nanosecond.
Definition Millisecond : Z := 1000 * Microsecond.
Definition Second : Z := 1000 * Millisecond.
Definition Minute : Z := 60 * Second.
Definition Hour : Z := 60 * Minute.

(** The readings of the clock: [time.Now()] at the place a tag names, at the
    n-th turn of the loop it stands in. *)
Definition Clock : Type := string → nat → Z.

(** [t.IsZero()] *)
Definition IsZero (t : Z) : bool := t =? 0.

(** [t.Sub(u)]: the difference, saturated to the range of a Duration. *)
Definition time_Sub (t u : Z) : Z :=
  let d := t - u in
  if d <? min_int64 then min_int64 else if max_int64 <? d then max_int64 else d.

(** [t.Add(d)] *)
Definition time_Add (t d : Z) : Z := t + d.

(** [t.Before(u)], [t.After(u)] *)
Definition time_Before (t u : Z) : bool := t <? u.
Definition time_After (t u : Z) : bool := u <? t.

Lemma time_Sub_int64 t u : in_int64 (time_Sub t u).
Proof. unfold time_Sub. repeat case_match; int64_lia. Qed.

Lemma time_Sub_exact t u : in_int64 (t - u) → time_Sub t u = t - u.
Proof.
  unfold time_Sub. intros H.
  destruct (Z.ltb_spec (t - u) min_int64); [int64_lia|].
  destruct (Z.ltb_spec max_int64 (t - u)); [int64_lia|done].
Qed.

(** Saturation does not change comparisons with a Duration below the top. *)
Lemma time_Sub_gt t u d :
  in_int64 d → d < max_int64 → d < time_Sub t u ↔ d < t - u.
Proof.
  unfold time_Sub. intros Hd Hm.
  destruct (Z.ltb_spec (t - u) min_int64); [int64_lia|].
  destruct (Z.ltb_spec max_int64 (t - u)); int64_lia.
Qed.

(** ** float64 *)

Abbreviation float64 := spec_float.
Definition float_prec : Z := 53.
Definition float_emax : Z := 1024.

(** [float64(z)]: the nearest double. *)
Definition float_of_Z (z : Z) : float64 :=
  binary_normalize float_prec float_emax z 0 false.
Definition float_mul : float64 → float64 → float64 := SFmul float_prec float_emax.
Definition float_div : float64 → float64 → float64 := SFdiv float_prec float_emax.

Definition float_add : float64 → float64 → float64 := SFadd float_prec float_emax.

(** [d.Seconds()] *)
Definition Seconds (d : Z) : float64 :=
  float_add (float_of_Z (Z.quot d Second))
    (float_div (float_of_Z (Z.rem d Second)) (float_of_Z 1000000000)).

(** An integer conversion of a finite double drops the fraction. *)
Definition float_trunc (f : float64) : Z :=
  match f with
  | S754_finite s m e =>
      let a := if 0 <=? e then Z.pos m * 2 ^ e else Z.pos m / 2 ^ (- e) in
      if s then - a else a
  | _ => 0
  end.

(** ** ParseDuration *)

(** [leadingInt]: the value and the rest, or an overflow. *)
Fixpoint leadingInt (s : string) (x : Z) : option (Z * string) :=
  match s with
  | String c s' =>
      if is_digit c then
        if 2 ^ 63 / 10 <? x then None
        else let y := x * 10 + digit_val c in
             if 2 ^ 63 <? y then None else leadingInt s' y
      else Some (x, s)
  | "" => Some (x, s)
  end.

(** [leadingFraction]: the digits, their scale and the rest; digits past
    int64 are skipped. *)
Fixpoint leadingFraction (s : string) (x : Z) (scale : float64) (overflow : bool) :
  Z * float64 * string :=
  match s with
  | String c s' =>
      if is_digit c then
        if overflow then leadingFraction s' x scale true
        else if (2 ^ 63 - 1) / 10 <? x then leadingFraction s' x scale true
        else let y := x * 10 + digit_val c in
             if 2 ^ 63 <? y then leadingFraction s' x scale true
             else leadingFraction s' y (float_mul scale (float_of_Z 10)) false
      else (x, scale, s)
  | "" => (x, scale, s)
  end.

(** The unit: everything up to the next digit or period. *)
Fixpoint leadingUnit (s : string) : string * string :=
  match s with
  | String c s' =>
      if (is_digit c || Ascii.eqb c ".")%bool then ("", s)
      else let '(u, r) := leadingUnit s' in (String c u, r)
  | "" => ("", "")
  end.

Definition unitMap (u : string) : option Z :=
  if decide (u = "ns") then Some Nanosecond
  else if decide (u = "us") then Some Microsecond
  else if decide (u = String "194" (String "181" "s")) then Some Microsecond
  else if decide (u = String "206" (String "188" "s")) then Some Microsecond
  else if decide (u = "ms") then Some Millisecond
  else if decide (u = "s") then Some Second
  else if decide (u = "m") then Some Minute
  else if decide (u = "h") then Some Hour
  else None.

(** One turn of the loop of [ParseDuration]: a number, a fraction and a unit,
    giving its nanoseconds and the rest of the string. *)
Definition parseComponent (s : string) : option (Z * string) :=
  match s with
  | "" => None
  | String c _ =>
      if negb (is_digit c || Ascii.eqb c ".") then None
      else
        '(v, s1) ← leadingInt s 0;
        let pre := negb (String.length s1 =? String.length s)%nat in
        let '(f, scale, s2, post) :=
          match s1 with
          | String "." s1' =>
              let '(f, scale, r) := leadingFraction s1' 0 (float_of_Z 1) false in
              (f, scale, r, negb (String.length r =? String.length s1')%nat)
          | _ => (0, float_of_Z 1, s1, false)
          end in
        if negb pre && negb post then None
        else
          let '(u, s3) := leadingUnit s2 in
          if decide (u = "") then None
          else
            unit ← unitMap u;
            if 2 ^ 63 / unit <? v then None
            else
              let v := v * unit in
              let v := if 0 <? f
                       then v + float_trunc (float_mul (float_of_Z f)
                                  (float_div (float_of_Z unit) scale))
                       else v in
              if 2 ^ 63 <? v then None else Some (v, s3)
  end.

(** The loop, with the length of the string as fuel: every turn consumes at
    least one byte.  The sum is a uint64: it wraps once, from twice [2 ^ 63]
    to 0. *)
Fixpoint parseComponents (fuel : nat) (s : string) (d : Z) : option Z :=
  match s with
  | "" => Some d
  | _ =>
      match fuel with
      | O => None
      | S fuel =>
          '(v, s') ← parseComponent s;
          let d := (d + v) mod 2 ^ 64 in
          if 2 ^ 63 <? d then None else parseComponents fuel s' d
      end
  end.

(** [time.ParseDuration(s)]; [None] is an error. *)
Definition ParseDuration (s : string) : option Z :=
  let '(neg, s) :=
    match s with
    | String "-" s' => (true, s')
    | String "+" s' => (false, s')
    | _ => (false, s)
    end in
  if decide (s = "0") then Some 0
  else if decide (s = "") then None
  else
    d ← parseComponents (String.length s) s 0;
    if neg then Some (- d)
    else if 2 ^ 63 - 1 <? d then None
    else Some d.

(** ** Termination of the parser

    Every turn consumes at least the unit, so the length of the string is
    enough fuel, and the parser's answer does not depend on it. *)

Lemma leadingInt_length s x v r :
  leadingInt s x = Some (v, r) → (String.length r ≤ String.length s)%nat.
Proof.
  revert x. induction s as [|c s IH]; intros x; cbn [leadingInt].
  { by intros [= <- <-]. }
  destruct (is_digit c); [|by intros [= <- <-]].
  destruct (2 ^ 63 / 10 <? x); [done|]. destruct (2 ^ 63 <? _); [done|].
  intros H%IH. cbn. lia.
Qed.

Lemma leadingFraction_length s x scale o :
  (String.length (leadingFraction s x scale o).2 ≤ String.length s)%nat.
Proof.
  revert x scale o. induction s as [|c s IH]; intros x scale o; cbn [leadingFraction]; [done|].
  destruct (is_digit c); [|done]. cbn [String.length].
  repeat case_match; (etrans; [apply IH|lia]).
Qed.

Lemma leadingUnit_length s :
  (String.length (leadingUnit s).1 + String.length (leadingUnit s).2)%nat = String.length s.
Proof.
  induction s as [|c s IH]; cbn [leadingUnit]; [done|].
  destruct (_ || _); [done|]. destruct (leadingUnit s) as [u r]. cbn in *. lia.
Qed.

Lemma parseComponent_length s v s' :
  parseComponent s = Some (v, s') → (String.length s' < String.length s)%nat.
Proof.
  unfold parseComponent. destruct s as [|c s0] eqn:Es; [done|]. rewrite <- Es. clear s0 Es.
  destruct (negb _); [done|].
  destruct (leadingInt s 0) as [[x s1]|] eqn:Hi; [|done]. apply leadingInt_length in Hi.
  cbn [mbind option_bind].
  set (frac := match s1 with
    | String "." s1' => _ | _ => (0, float_of_Z 1, s1, false) end).
  assert (String.length frac.1.2 ≤ String.length s1)%nat as Hf.
  { unfold frac. destruct s1 as [|[[] [] [] [] [] [] [] []] s1']; cbn; try lia.
    pose proof (leadingFraction_length s1' 0 (float_of_Z 1) false).
    destruct (leadingFraction s1' 0 _ false) as [[? ?] ?]. cbn in *. lia. }
  destruct frac as [[[f scale] s2] post]. cbn [fst snd] in Hf.
  destruct (_ && _); [done|].
  pose proof (leadingUnit_length s2) as Hu. destruct (leadingUnit s2) as [u s3]. cbn in Hu.
  destruct (decide (u = "")) as [|Hne]; [done|].
  destruct (unitMap u); [|done]. cbn [mbind option_bind].
  destruct (_ <? x); [done|]. destruct (_ <? _); [done|]. intros [= _ <-].
  assert (0 < String.length u)%nat by (destruct u; [done|cbn; lia]). lia.
Qed.

Lemma parseComponents_fuel n m s d :
  (String.length s ≤ n)%nat → (String.length s ≤ m)%nat →
  parseComponents n s d = parseComponents m s d.
Proof.
  revert m s d. induction n as [|n IH]; intros m s d Hn Hm.
  { destruct s; [|cbn in Hn; lia]. by destruct m. }
  destruct s as [|c s0] eqn:Es; [by destruct m|]. destruct m as [|m]; [cbn in Hm; lia|].
  cbn [parseComponents]. rewrite <- Es in *. clear Es s0.
  destruct (parseComponent s) as [[v s']|] eqn:E; [|done]. cbn [mbind option_bind].
  apply parseComponent_length in E. destruct (_ <? _); [done|]. apply IH; lia.
Qed.
