(* ===== verification/GoPath.v ===== *)
(** * The Go standard library's [path/filepath]

    [filepath.Join] on a Unix system: the lexical cleaning of a path, and the
    fact that two plain file names in one directory are two paths when their
    last characters differ. *)

From Stdlib Require Import String Ascii.
From S2P Require Import Prelude GoStrings.

Definition slash : ascii := "/".

(** The elements that [filepath.Clean] keeps, latest first. *)
Fixpoint clean_elems (rooted : bool) (out es : list string) : list string :=
  match es with
  | [] => out
  | e :: es =>
      if bool_decide (e = "") || bool_decide (e = ".") then clean_elems rooted out es
      else if bool_decide (e = "..") then
        match out with
        | [] => clean_elems rooted (if rooted then [] else [".."]) es
        | d :: out' =>
            if bool_decide (d = "..") then clean_elems rooted (".." :: out) es
            else clean_elems rooted out' es
        end
      else clean_elems rooted (e :: out) es
  end.

(** [filepath.Clean(path)] *)
Definition Clean (path : string) : string :=
  if bool_decide (path = "") then "."
  else
    let rooted := HasPrefix path "/" in
    let body := Join (reverse (clean_elems rooted [] (Split slash path))) "/" in
    if rooted then "/" +:+ body
    else if bool_decide (body = "") then "." else body.

(** [filepath.Join(dir, file)] for a file name that is not empty. *)
Definition filepath_Join (dir file : string) : string :=
  if bool_decide (dir = "") then Clean file else Clean (dir +:+ "/" +:+ file).

(** A file name: no separator in it, and not one of the special names. *)
Definition plain_name (file : string) : Prop :=
  all_chars (not_char slash) file = true ∧ file ≠ "" ∧ file ≠ "." ∧ file ≠ "..".

Lemma clean_elems_snoc rooted out es file :
  plain_name file → clean_elems rooted out (es ++ [file]) = file :: clean_elems rooted out es.
Proof.
  intros (_ & H1 & H2 & H3). revert out. induction es as [|e es IH]; intros out; cbn.
  - by rewrite !(bool_decide_false (file = _)).
  - repeat case_match; apply IH.
Qed.

Lemma Split_snoc dir file :
  all_chars (not_char slash) file = true →
  Split slash (dir +:+ "/" +:+ file) = Split slash dir ++ [file].
Proof.
  intros Hf. change ("/" +:+ file) with (String slash file).
  induction dir as [|a dir IH]; cbn [String.append Split].
  - rewrite Ascii.eqb_refl. cbn. f_equal. by apply Split_no_sep.
  - rewrite IH. destruct (Ascii.eqb a slash); [done|].
    by destruct (Split slash dir) eqn:E; [destruct (Split_nonempty slash dir)|].
Qed.

Lemma Join_snoc es file c :
  last_char file c → last_char (Join (es ++ [file]) "/") c.
Proof.
  intros Hf. induction es as [|e es IH]; [done|]. cbn [app].
  destruct es as [|e' es]; cbn [app Join] in *;
    by apply last_char_app, (last_char_app "/").
Qed.

Lemma last_char_inj s a b : last_char s a → last_char s b → a = b.
Proof.
  intros [t ->] [u H%(f_equal list_ascii_of_string)]. rewrite !list_ascii_app in H.
  by apply app_inj_2 in H as [_ [= ->]].
Qed.

(** The last character of a file's path is that of its name. *)
Lemma filepath_Join_last dir file c :
  plain_name file → last_char file c → last_char (filepath_Join dir file) c.
Proof.
  intros Hp Hc. pose proof Hp as (Hs & Hne & _).
  assert (∀ path es, path ≠ "" → Split slash path = es ++ [file] → last_char (Clean path) c)
    as H.
  { intros path es Hpath E. unfold Clean. rewrite bool_decide_false by done. rewrite E.
    rewrite clean_elems_snoc by done. rewrite reverse_cons.
    pose proof (Join_snoc (reverse (clean_elems (HasPrefix path "/") [] es)) file c Hc) as HJ.
    destruct (HasPrefix path "/"); [by apply last_char_app|].
    case_bool_decide as Hb; [|done]. rewrite Hb in HJ. destruct HJ as [[|] HJ]; done. }
  unfold filepath_Join. case_bool_decide as Hd.
  - apply (H _ []); [done|]. by apply Split_no_sep.
  - apply (H _ (Split slash dir)); [by destruct dir|]. by apply Split_snoc.
Qed.

Lemma filepath_Join_ne dir file1 file2 a b :
  plain_name file1 → plain_name file2 → last_char file1 a → last_char file2 b → a ≠ b →
  filepath_Join dir file1 ≠ filepath_Join dir file2.
Proof.
  intros H1 H2 Ha Hb Hab E. apply Hab. apply (filepath_Join_last dir) in Ha, Hb; [|done..].
  rewrite E in Ha. by eapply last_char_inj.
Qed.

Example Join_cert_dir :
  filepath_Join "/tmp//k8s-webhook-server/./serving-certs/" "tls.crt" =
  "/tmp/k8s-webhook-server/serving-certs/tls.crt".
Proof. reflexivity. Qed.

Example Join_parent : filepath_Join "../a/.." "tls.key" = "../tls.key".
Proof. reflexivity. Qed.
