(* ===== verification/GoHeap.v ===== *)
(** * Go's heap

    Slices, maps and pointers as references into a heap of objects, with the
    operations of the language on them: [new], [make], [copy], [append],
    element and field assignment, and panics.  What a value denotes is read
    off the heap by the class [Deep], together with the locations the reading
    depends on; a deep copy denotes the same and depends on fresh locations
    only. *)

From S2P Require Import Prelude.

Abbreviation loc := positive.

(** References, by what they refer to; [None] is nil.  A slice is an array,
    the index of its first element, and its length. *)
Record ptr (T : Type) := Ptr { ptr_at : option loc }.
Record slice (T : Type) := Slice { slice_at : option (loc * nat * nat) }.
Record mapref (T : Type) := MapRef { map_at : option loc }.
Arguments Ptr {T} ptr_at.
Arguments ptr_at {T} _.
Arguments Slice {T} slice_at.
Arguments slice_at {T} _.
Arguments MapRef {T} map_at.
Arguments map_at {T} _.

Section heap.
Context {cell : Type}.

(** The objects: arrays and maps of cells; a variable is an array of one. *)
Inductive object :=
  | Arr (cs : list cell)
  | Map (m : gmap string cell).

Abbreviation heap := (gmap loc object).

(** The types whose values fit a cell, with their zero values. *)
Class Cell (T : Type) := {
  to_cell : T → cell;
  of_cell : cell → option T;
  zero : T;
  of_to_cell x : of_cell (to_cell x) = Some x
}.

(** Allocation finds some free location. *)
Class Allocator := {
  new_loc : heap → loc;
  new_loc_fresh h : h !! new_loc h = None
}.

(** ** The monad: a heap to a heap and a result, or a panic *)

Definition H (A : Type) : Type := heap → option (heap * A).

#[global] Instance H_ret : MRet H := λ A a h, Some (h, a).
#[global] Instance H_bind : MBind H := λ A B f m h,
  match m h with Some (h, a) => f a h | None => None end.

Lemma heap_bind {A B} (m : H A) (f : A → H B) h h1 a :
  m h = Some (h1, a) → (m ≫= f) h = f a h1.
Proof. intros E. unfold mbind, H_bind. by rewrite E. Qed.

Definition panic {A} : H A := λ _, None.

(** ** The operations *)

Section operations.
Context {AL : Allocator}.

Definition alloc (o : object) : H loc := λ h, Some (<[new_loc h := o]> h, new_loc h).

Definition read_cells (l : loc) : H (list cell) := λ h,
  match h !! l with Some (Arr cs) => Some (h, cs) | _ => None end.

Definition write_cells (l : loc) (cs : list cell) : H unit := λ h, Some (<[l := Arr cs]> h, tt).

(** A cell read at its type. *)
Definition typed `{Cell T} (c : option cell) : H T :=
  match c ≫= of_cell with Some v => mret v | None => panic end.

(** [new(T)], [*p] and [*p = v] *)
Definition new (T : Type) `{Cell T} : H (ptr T) :=
  l ← alloc (Arr [to_cell (zero : T)]); mret (Ptr (Some l)).

Definition deref `{Cell T} (p : ptr T) : H T :=
  match ptr_at p with
  | Some l => cs ← read_cells l; typed (cs !! 0%nat)
  | None => panic
  end.

Definition assign `{Cell T} (p : ptr T) (v : T) : H unit :=
  match ptr_at p with
  | Some l => cs ← read_cells l; write_cells l (<[0%nat := to_cell v]> cs)
  | None => panic
  end.

(** [&T{...}] and [[]T{v}] *)
Definition new_of `{Cell T} (v : T) : H (ptr T) :=
  l ← alloc (Arr [to_cell v]); mret (Ptr (Some l)).

Definition slice_of `{Cell T} (v : T) : H (slice T) :=
  l ← alloc (Arr [to_cell v]); mret (Slice (Some (l, 0%nat, 1%nat))).

(** [make([]T, n)], [len(s)], [s[i]], [s[i] = v] *)
Definition make_slice (T : Type) `{Cell T} (n : nat) : H (slice T) :=
  l ← alloc (Arr (replicate n (to_cell (zero : T)))); mret (Slice (Some (l, 0%nat, n))).

Definition len {T} (s : slice T) : nat :=
  match slice_at s with Some (_, _, n) => n | None => 0%nat end.

Definition slice_nil {T} (s : slice T) : bool := bool_decide (slice_at s = None).

Definition elem `{Cell T} (s : slice T) (i : nat) : H T :=
  match slice_at s with
  | Some (l, o, n) =>
      if (i <? n)%nat then cs ← read_cells l; typed (cs !! (o + i)%nat) else panic
  | None => panic
  end.

Definition set_elem `{Cell T} (s : slice T) (i : nat) (v : T) : H unit :=
  match slice_at s with
  | Some (l, o, n) =>
      if (i <? n)%nat then cs ← read_cells l; write_cells l (<[(o + i)%nat := to_cell v]> cs)
      else panic
  | None => panic
  end.

(** [copy(dst, src)]: the first elements, as many as both have. *)
Definition copy_slice {T} (dst src : slice T) : H unit :=
  match slice_at dst, slice_at src with
  | Some (l, o, n), Some (l', o', n') =>
      cs' ← read_cells l';
      cs ← read_cells l;
      let k := (n `min` n')%nat in
      write_cells l (take o cs ++ take k (drop o' cs') ++ drop (o + k) cs)
  | _, _ => mret tt
  end.

(** [append(s, v)]: in place while the array has room, else in a larger
    array, whose spare room the language leaves open. *)
Definition append `{Cell T} (spare : nat) (s : slice T) (v : T) : H (slice T) :=
  match slice_at s with
  | None =>
      l ← alloc (Arr (to_cell v :: replicate spare (to_cell (zero : T))));
      mret (Slice (Some (l, 0%nat, 1%nat)))
  | Some (l, o, n) =>
      cs ← read_cells l;
      if (o + n <? length cs)%nat then
        write_cells l (<[(o + n)%nat := to_cell v]> cs);;
        mret (Slice (Some (l, o, S n)))
      else
        l' ← alloc (Arr (take n (drop o cs) ++ to_cell v :: replicate spare (to_cell (zero : T))));
        mret (Slice (Some (l', 0%nat, S n)))
  end.

(** [make(map[string]T)], [m[key] = val], [delete(m, key)] and [m[key]], whose
    value is [None] for a missing key. *)
Definition make_map (T : Type) : H (mapref T) :=
  l ← alloc (Map ∅); mret (MapRef (Some l)).

Definition read_map (l : loc) : H (gmap string cell) := λ h,
  match h !! l with Some (Map m) => Some (h, m) | _ => None end.

Definition write_map (l : loc) (m : gmap string cell) : H unit := λ h, Some (<[l := Map m]> h, tt).

Definition map_insert {T} (m : mapref T) (k : string) (c : cell) : H unit :=
  match map_at m with
  | Some l => cs ← read_map l; write_map l (<[k := c]> cs)
  | None => panic
  end.

Definition map_delete {T} (m : mapref T) (k : string) : H unit :=
  match map_at m with
  | Some l => cs ← read_map l; write_map l (delete k cs)
  | None => mret tt
  end.

Definition map_get `{Cell T} (m : mapref T) (k : string) : H (option T) :=
  match map_at m with
  | Some l => cs ← read_map l; mret ((cs !! k) ≫= of_cell)
  | None => mret None
  end.
End operations.

(** ** What a value denotes *)

(** The elements of a slice and the value of a variable, when they are typed. *)
Definition slice_elems `{Cell T} (h : heap) (s : slice T) : option (list T) :=
  match slice_at s with
  | None => Some []
  | Some (l, o, n) =>
      match h !! l with
      | Some (Arr cs) =>
          if (o + n <=? length cs)%nat then mapM of_cell (take n (drop o cs)) else None
      | _ => None
      end
  end.

Definition pointee `{Cell T} (h : heap) (p : ptr T) : option T :=
  match ptr_at p with
  | None => None
  | Some l =>
      match h !! l with
      | Some (Arr cs) => (cs !! 0%nat) ≫= of_cell
      | _ => None
      end
  end.

(** The entries of a map, at their type. *)
Definition typed_map {T} `{Cell T} (m : gmap string cell) : gmap string T := omap of_cell m.

(** A value of type [V] denotes a pure value of type [D], nil told apart from
    empty, and the reading depends on some locations of the heap only. *)
Class Deep (V D : Type) := {
  dload : heap → V → option D;
  dfoot : heap → V → list loc;
  dload_local h h' v d :
    dload h v = Some d → (∀ l, l ∈ dfoot h v → h' !! l = h !! l) →
    dload h' v = Some d ∧ dfoot h' v = dfoot h v;
  dfoot_dom h v d l : dload h v = Some d → l ∈ dfoot h v → is_Some (h !! l)
}.

End heap.

Arguments object cell : clear implicits.
Arguments Cell cell T : clear implicits.
Arguments Allocator cell : clear implicits.
Arguments H cell A : clear implicits.
Arguments Deep cell V D : clear implicits.

(** ** Instances *)

Section instances.
Context {cell : Type}.
Abbreviation heap := (gmap loc (object cell)).

(** The denotation of a type without references. *)
Definition flat_deep (T : Type) : Deep cell T T.
Proof.
  refine {| dload _ v := Some v; dfoot _ _ := [] |}; [done|].
  intros h v d l _ Hl. by apply not_elem_of_nil in Hl.
Defined.

(** The denotation of a struct is that of its fields. *)
Definition deep_via {S V D} (f : S → V) (DV : Deep cell V D) : Deep cell S D.
Proof.
  refine {| dload h s := dload h (f s); dfoot h s := dfoot h (f s) |}.
  - intros h h' s d. apply dload_local.
  - intros h s d l. apply dfoot_dom.
Defined.

#[global] Instance pair_deep {V1 D1 V2 D2} (DV1 : Deep cell V1 D1) (DV2 : Deep cell V2 D2) :
  Deep cell (V1 * V2) (D1 * D2).
Proof.
  refine {| dload h v := d1 ← dload h v.1; d2 ← dload h v.2; Some (d1, d2);
            dfoot h v := dfoot h v.1 ++ dfoot h v.2 |}.
  - intros h h' [v1 v2] d; cbn. intros (d1 & H1 & (d2 & H2 & [= <-])%bind_Some)%bind_Some Hl.
    destruct (dload_local h h' v1 d1 H1) as [-> ->]; [intros; apply Hl, elem_of_app; by left|].
    destruct (dload_local h h' v2 d2 H2) as [-> ->]; [intros; apply Hl, elem_of_app; by right|].
    done.
  - intros h [v1 v2] d l; cbn. intros (d1 & H1 & (d2 & H2 & _)%bind_Some)%bind_Some.
    intros [Hl|Hl]%elem_of_app; [exact (dfoot_dom _ _ _ _ H1 Hl)|exact (dfoot_dom _ _ _ _ H2 Hl)].
Defined.

(** *** Lists of values *)

Definition list_load {V D} `{DV : Deep cell V D} (h : heap) (vs : list V) : option (list D) :=
  mapM (dload h) vs.

Definition list_foot {V D} `{DV : Deep cell V D} (h : heap) (vs : list V) : list loc :=
  concat (dfoot h <$> vs).

Section lists.
Context {V D : Type} {DV : Deep cell V D}.

Lemma list_load_local h h' (vs : list V) ds :
  list_load h vs = Some ds → (∀ l, l ∈ list_foot h vs → h' !! l = h !! l) →
  list_load h' vs = Some ds ∧ list_foot h' vs = list_foot h vs.
Proof.
  unfold list_load, list_foot. revert ds. induction vs as [|v vs IH]; intros ds; cbn; [done|].
  intros (d & Hd & (ds' & Hds & [= <-])%bind_Some)%bind_Some Hl.
  destruct (dload_local h h' v d Hd) as [-> ->]; [intros; apply Hl, elem_of_app; by left|].
  destruct (IH ds' Hds) as [-> ->]; [intros; apply Hl, elem_of_app; by right|]. done.
Qed.

Lemma list_foot_dom h (vs : list V) ds l :
  list_load h vs = Some ds → l ∈ list_foot h vs → is_Some (h !! l).
Proof.
  unfold list_load, list_foot. revert ds. induction vs as [|v vs IH]; intros ds; cbn.
  { intros _ Hl. by apply not_elem_of_nil in Hl. }
  intros (d & Hd & (ds' & Hds & _)%bind_Some)%bind_Some [Hl|Hl]%elem_of_app.
  - exact (dfoot_dom _ _ _ _ Hd Hl).
  - by eapply IH.
Qed.

Lemma list_load_app h (vs1 vs2 : list V) ds1 ds2 :
  list_load h vs1 = Some ds1 → list_load h vs2 = Some ds2 →
  list_load h (vs1 ++ vs2) = Some (ds1 ++ ds2).
Proof.
  unfold list_load. rewrite !mapM_Some. apply Forall2_app.
Qed.

Lemma list_foot_app h (vs1 vs2 : list V) :
  list_foot h (vs1 ++ vs2) = list_foot h vs1 ++ list_foot h vs2.
Proof. unfold list_foot. by rewrite fmap_app, concat_app. Qed.
End lists.

(** *** References *)

#[global] Instance slice_deep {V D} `{Cell cell V} (DV : Deep cell V D) :
  Deep cell (slice V) (option (list D)).
Proof.
  refine {| dload h s :=
              match slice_at s with
              | None => Some None
              | Some _ => vs ← slice_elems h s; Some <$> list_load h vs
              end;
            dfoot h s :=
              match slice_at s with
              | None => []
              | Some (l, _, _) => l :: list_foot h (default [] (slice_elems h s))
              end |}.
  - intros h h' [[[[l o] n]|]] d; cbn [slice_at]; [|done].
    intros (vs & Hvs & (ds & Hds & ->)%fmap_Some)%bind_Some Hl. rewrite Hvs in Hl |- *.
    cbn [default from_option id] in *. assert (slice_elems h' (Slice (Some (l, o, n))) = Some vs) as ->.
    { rewrite <- Hvs. unfold slice_elems. cbn. rewrite (Hl l); [done|left]. }
    cbn [default from_option id mbind option_bind].
    destruct (list_load_local h h' vs ds Hds) as [-> ->]; [intros; apply Hl; by right|]. done.
  - intros h [[[[l o] n]|]] d k; cbn [slice_at].
    2:{ intros _ Hl. by apply not_elem_of_nil in Hl. }
    intros (vs & Hvs & (ds & Hds & ->)%fmap_Some)%bind_Some. rewrite Hvs. cbn [default from_option id].
    intros [->|Hk]%elem_of_cons; [|exact (list_foot_dom _ _ _ _ Hds Hk)].
    unfold slice_elems in Hvs. cbn in Hvs. destruct (h !! l); [done|discriminate].
Defined.

#[global] Instance ptr_deep {V D} `{Cell cell V} (DV : Deep cell V D) :
  Deep cell (ptr V) (option D).
Proof.
  refine {| dload h p :=
              match ptr_at p with
              | None => Some None
              | Some _ => v ← pointee h p; Some <$> dload h v
              end;
            dfoot h p :=
              match ptr_at p with
              | None => []
              | Some l => l :: match pointee h p with Some v => dfoot h v | None => [] end
              end |}.
  - intros h h' [[l|]] d; cbn [ptr_at]; [|done].
    intros (v & Hv & (x & Hx & ->)%fmap_Some)%bind_Some Hl. rewrite Hv in Hl |- *.
    assert (pointee h' (Ptr (Some l)) = Some v) as ->.
    { rewrite <- Hv. unfold pointee. cbn. rewrite (Hl l); [done|left]. }
    cbn [mbind option_bind].
    destruct (dload_local h h' v x Hx) as [-> ->]; [intros; apply Hl; by right|]. done.
  - intros h [[l|]] d k; cbn [ptr_at].
    2:{ intros _ Hl. by apply not_elem_of_nil in Hl. }
    intros (v & Hv & (x & Hx & ->)%fmap_Some)%bind_Some. rewrite Hv.
    intros [->|Hk]%elem_of_cons; [|exact (dfoot_dom _ _ _ _ Hx Hk)].
    unfold pointee in Hv. cbn in Hv. destruct (h !! l); [done|discriminate].
Defined.

#[global] Instance mapref_deep {T} : Deep cell (mapref T) (option (gmap string cell)).
Proof.
  refine {| dload h m :=
              match map_at m with
              | None => Some None
              | Some l => match h !! l with Some (Map cs) => Some (Some cs) | _ => None end
              end;
            dfoot _ m := match map_at m with None => [] | Some l => [l] end |}.
  - intros h h' [[l|]] d; cbn [map_at]; [|done]. intros Hm Hl. rewrite (Hl l); [done|left].
  - intros h [[l|]] d k; cbn [map_at].
    + intros Hm ->%list_elem_of_singleton. destruct (h !! l); [done|discriminate].
    + intros _ Hl. by apply not_elem_of_nil in Hl.
Defined.
End instances.
