(* ===== verification/HeapCopy.v ===== *)
(** * Deep copies on the heap

    The statements that a generated [DeepCopyInto] is made of, one definition
    per shape of a field, and what they achieve: the copy denotes what the
    original does, every location it depends on is new, and nothing that was
    there has changed. *)

From S2P Require Import Prelude GoHeap.

Section copying.
Context {cell : Type} {AL : Allocator cell}.
Abbreviation heap := (gmap loc (object cell)).

(** ** The specification *)

(** [v'] in [h'] is a copy of a value that denotes [d], made from [h] on. *)
Record copied `{DV : Deep cell V D} (h : heap) (d : D) (h' : heap) (v' : V) : Prop := {
  cp_keeps : h ⊆ h';
  cp_load : dload h' v' = Some d;
  cp_fresh l : l ∈ dfoot h' v' → h !! l = None;
  cp_nodup : NoDup (dfoot h' v')
}.

Definition copies `{DV : Deep cell V D} (f : V → H cell V) : Prop :=
  ∀ h v d, dload h v = Some d → ∃ h' v', f v h = Some (h', v') ∧ copied h d h' v'.

Section laws.
Context `{DV : Deep cell V D}.

Lemma dload_mono h h' (v : V) d :
  h ⊆ h' → dload h v = Some d → dload h' v = Some d ∧ dfoot h' v = dfoot h v.
Proof.
  intros Hh Hd. apply dload_local; [done|]. intros l Hl.
  destruct (dfoot_dom h v d l Hd Hl) as [x Hx]. rewrite Hx. by eapply lookup_weaken.
Qed.

(** A copy stays one while the heap grows. *)
Lemma copied_mono h d h1 h2 (v : V) : copied h d h1 v → h1 ⊆ h2 → copied h d h2 v.
Proof.
  intros [Hk Hl Hf Hn] Hh. destruct (dload_mono h1 h2 v d Hh Hl) as [Hl' Hfoot].
  split; [by etrans|done| |]; rewrite Hfoot; [exact Hf|exact Hn].
Qed.

Lemma copied_since h0 h d h' (v : V) : h0 ⊆ h → copied h d h' v → copied h0 d h' v.
Proof.
  intros Hh [Hk Hl Hf Hn]. split; [by etrans|done| |done].
  intros l Hl'. by eapply lookup_weaken_None, Hh; apply Hf.
Qed.

Lemma copies_ret h (v : V) d : dload h v = Some d → dfoot h v = [] → copied h d h v.
Proof.
  intros Hd Hf. split; [done|done| |]; rewrite Hf; [|constructor].
  intros l Hl. by apply not_elem_of_nil in Hl.
Qed.
End laws.

Lemma copied_pair `{DV1 : Deep cell V1 D1, DV2 : Deep cell V2 D2} h (d1 : D1) h1 (v1 : V1)
    (d2 : D2) h2 (v2 : V2) :
  copied h d1 h1 v1 → copied h1 d2 h2 v2 → copied h (d1, d2) h2 (v1, v2).
Proof.
  intros H1 H2. pose proof (copied_mono _ _ _ _ _ H1 (cp_keeps _ _ _ _ H2)) as H1'.
  destruct H1' as [Hk1 Hl1 Hf1 Hn1], H2 as [Hk2 Hl2 Hf2 Hn2].
  assert (∀ l, l ∈ dfoot h2 v2 → h !! l = None) as Hf2'.
  { intros l Hl. by eapply lookup_weaken_None, (cp_keeps _ _ _ _ H1); apply Hf2. }
  split; [done| | |]; cbn [dload dfoot pair_deep fst snd].
  - by rewrite Hl1, Hl2.
  - intros l [Hl|Hl]%elem_of_app; auto.
  - apply NoDup_app. split; [done|]. split; [|done]. intros l Hl1' Hl2'.
    destruct (dload_mono h1 h2 v1 d1 Hk2 (cp_load _ _ _ _ H1)) as [_ Hfoot].
    rewrite Hfoot in Hl1'. pose proof (dfoot_dom h1 v1 d1 l (cp_load _ _ _ _ H1) Hl1') as [x Hx].
    specialize (Hf2 l Hl2'). congruence.
Qed.

(** ** The blocks *)

(** [if in.X != nil { out = make([]T, len(in)); copy(out, in) }] *)
Definition copy_flat_block `{Cell cell T} (s : slice T) : H cell (slice T) :=
  if slice_nil s then mret s
  else
    out ← make_slice T (len s);
    copy_slice out s;;
    mret out.

(** [for i := range *in { in[i].DeepCopyInto(&out[i]) }] *)
Fixpoint copy_elems `{Cell cell T} (into : T → H cell T) (s out : slice T) (i n : nat) :
  H cell unit :=
  match n with
  | O => mret tt
  | S n =>
      v ← elem s i;
      v' ← into v;
      set_elem out i v';;
      copy_elems into s out (S i) n
  end.

(** [if in.X != nil { out = make([]T, len(in)); for i := range *in { ... } }] *)
Definition copy_deep_block `{Cell cell T} (into : T → H cell T) (s : slice T) :
  H cell (slice T) :=
  if slice_nil s then mret s
  else
    out ← make_slice T (len s);
    copy_elems into s out 0 (len s);;
    mret out.

(** [if in.X != nil { out = new(T); *out = **in }] *)
Definition copy_ptr_block `{Cell cell T} (p : ptr T) : H cell (ptr T) :=
  match ptr_at p with
  | None => mret p
  | Some _ =>
      out ← new T;
      v ← deref p;
      assign out v;;
      mret out
  end.

(** [for key, val := range *in { out[key] = val }], over the entries in the
    order of the loop. *)
Fixpoint copy_entries {T} (out : mapref T) (entries : list (string * cell)) :
  H cell unit :=
  match entries with
  | [] => mret tt
  | (key, val) :: entries =>
      map_insert out key val;;
      copy_entries out entries
  end.

Definition copy_map_block {T} {O : MapOrder} (m : mapref T) : H cell (mapref T) :=
  match map_at m with
  | None => mret m
  | Some l =>
      out ← make_map T;
      cs ← read_map l;
      copy_entries out (range "deepcopy" cs);;
      mret out
  end.

(** [func (in *T) DeepCopy() *T] *)
Definition copy_ptr `{Cell cell T} (into : T → H cell T) (p : ptr T) : H cell (ptr T) :=
  match ptr_at p with
  | None => mret (Ptr None)
  | Some _ =>
      out ← new T;
      v ← deref p;
      v' ← into v;
      assign out v';;
      mret out
  end.

(** ** Reading and writing *)

Lemma insert_fresh (h : heap) l o : h !! l = None → h ⊆ <[l := o]> h.
Proof. intros Hl. by apply insert_subseteq. Qed.

Lemma update_fresh (h0 h : heap) l o : h0 ⊆ h → h0 !! l = None → h0 ⊆ <[l := o]> h.
Proof. intros Hh Hl. etrans; [exact (insert_fresh h0 l o Hl)|]. by apply insert_mono. Qed.

Lemma slice_elems_mono `{Cell cell T} (h h' : heap) (s : slice T) vs :
  h ⊆ h' → slice_elems h s = Some vs → slice_elems h' s = Some vs.
Proof.
  intros Hh. unfold slice_elems. destruct (slice_at s) as [[[l o] n]|]; [|done].
  destruct (h !! l) as [obj|] eqn:E; [|done]. by rewrite (lookup_weaken _ _ _ _ E Hh).
Qed.

Lemma slice_elems_Some `{Cell cell T} (h : heap) l o n (vs : list T) :
  slice_elems h (Slice (Some (l, o, n))) = Some vs ↔
  ∃ cs, h !! l = Some (Arr cs) ∧ (o + n ≤ length cs)%nat ∧
    mapM of_cell (take n (drop o cs)) = Some vs.
Proof.
  unfold slice_elems. cbn [slice_at]. split.
  - destruct (h !! l) as [[cs|m]|] eqn:E; [|done..].
    destruct (Nat.leb_spec (o + n) (length cs)); [|done]. eauto.
  - intros (cs & -> & Hle & Hvs). destruct (Nat.leb_spec (o + n) (length cs)); [done|lia].
Qed.

Lemma slice_elems_length `{Cell cell T} (h : heap) (s : slice T) vs :
  slice_elems h s = Some vs → length vs = len s.
Proof.
  destruct s as [[[[l o] n]|]]; unfold len; cbn [slice_at]; [|by intros [= <-]].
  intros (cs & _ & Hle & Hvs)%slice_elems_Some. apply length_mapM in Hvs. rewrite <- Hvs.
  rewrite length_take, length_drop. lia.
Qed.

Lemma elem_ok `{Cell cell T} (h : heap) (s : slice T) vs i v :
  slice_elems h s = Some vs → vs !! i = Some v → elem s i h = Some (h, v).
Proof.
  intros Hs Hi. pose proof (slice_elems_length _ _ _ Hs) as Hlen.
  pose proof (lookup_lt_Some _ _ _ Hi) as Hlt. unfold elem, len in *.
  destruct s as [[[[l o] n]|]]; cbn [slice_at] in *; [|lia].
  apply slice_elems_Some in Hs as (cs & Hcs & Hle & Hvs).
  destruct (Nat.ltb_spec i n); [|lia].
  unfold mbind, H_bind, read_cells. rewrite Hcs. unfold typed.
  apply mapM_Some in Hvs. destruct (Forall2_lookup_r _ _ _ _ _ Hvs Hi) as (c & Hc & Hv).
  rewrite lookup_take_lt, lookup_drop in Hc by lia. rewrite Hc. cbn. by rewrite Hv.
Qed.

Lemma mapM_of_to_cell `{Cell cell T} (vs : list T) : mapM of_cell (to_cell <$> vs) = Some vs.
Proof. induction vs as [|v vs IH]; [done|]. cbn. by rewrite of_to_cell, IH. Qed.

Lemma mapM_snoc {T V} (f : T → option V) l k x y :
  mapM f l = Some k → f x = Some y → mapM f (l ++ [x]) = Some (k ++ [y]).
Proof.
  rewrite !mapM_Some. intros Hl Hx. apply Forall2_app; [done|]. by repeat constructor.
Qed.

(** An assignment to an element changes the slice's array only. *)
Lemma set_elem_slice `{Cell cell T} (h : heap) (s : slice T) vs i v :
  slice_elems h s = Some vs → (i < length vs)%nat →
  ∃ l o n obj, slice_at s = Some (l, o, n) ∧
    set_elem s i v h = Some (<[l := obj]> h, tt) ∧
    slice_elems (<[l := obj]> h) s = Some (<[i := v]> vs).
Proof.
  intros Hs Hi. pose proof (slice_elems_length _ _ _ Hs) as Hlen.
  destruct s as [[[[l o] n]|]]; unfold len in Hlen; cbn in Hlen; [|lia].
  pose proof Hs as (cs & Hcs & Hle & Hvs)%slice_elems_Some.
  exists l, o, n, (Arr (<[(o + i)%nat := to_cell v]> cs)). split; [done|]. split.
  - unfold set_elem. cbn [slice_at]. destruct (Nat.ltb_spec i n); [|lia].
    unfold mbind, H_bind, read_cells, write_cells. by rewrite Hcs.
  - apply slice_elems_Some. eexists. rewrite lookup_insert_eq. split; [done|].
    rewrite length_insert. split; [done|]. rewrite drop_insert_ge by lia.
    rewrite take_insert_lt by lia. replace (o + i - o)%nat with i by lia.
    apply mapM_Some. apply mapM_Some in Hvs. apply Forall2_insert; [done|]. apply of_to_cell.
Qed.

(** [append] writes to the slice's array or to a new one. *)
Lemma append_slice `{Cell cell T} spare (h : heap) (s : slice T) vs v :
  slice_elems h s = Some vs →
  ∃ l o n obj, append spare s v h = Some (<[l := obj]> h, Slice (Some (l, o, n))) ∧
    slice_elems (<[l := obj]> h) (Slice (Some (l, o, n))) = Some (vs ++ [v]) ∧
    (h !! l = None ∨ ∃ o' n', slice_at s = Some (l, o', n')).
Proof.
  intros Hs. destruct s as [[[[l o] n]|]].
  - pose proof Hs as (cs & Hcs & Hle & Hvs)%slice_elems_Some. unfold append. cbn [slice_at].
    unfold mbind, H_bind, read_cells, write_cells, alloc, mret, H_ret. rewrite Hcs.
    destruct (Nat.ltb_spec (o + n) (length cs)).
    + exists l, o, (S n), (Arr (<[(o + n)%nat := to_cell v]> cs)). split; [done|]. split; [|eauto].
      apply slice_elems_Some. eexists. rewrite lookup_insert_eq. split; [done|].
      rewrite length_insert. split; [lia|]. rewrite drop_insert_ge by lia.
      replace (o + n - o)%nat with n by lia.
      rewrite (take_S_r _ n (to_cell v)), take_insert_ge by
        (done || apply list_lookup_insert_eq; rewrite length_drop; lia).
      by apply mapM_snoc, of_to_cell.
    + exists (new_loc h), 0%nat, (S n). eexists. split; [done|].
      split; [|left; apply new_loc_fresh].
      apply slice_elems_Some. eexists. rewrite lookup_insert_eq. split; [done|].
      rewrite length_app, length_take, length_drop. cbn. split; [lia|].
      rewrite drop_0, take_app, length_take, length_drop, take_take.
      replace (S n - n `min` (length cs - o))%nat with 1%nat by lia.
      rewrite Nat.min_r by lia. by apply mapM_snoc, of_to_cell.
  - injection Hs as <-. exists (new_loc h), 0%nat, 1%nat. eexists. split; [done|].
    split; [|left; apply new_loc_fresh].
    apply slice_elems_Some. eexists. rewrite lookup_insert_eq. split; [done|]. cbn. split; [lia|].
    by rewrite of_to_cell.
Qed.

(** ** The blocks copy *)

Lemma flat_load {T} (h : heap) (vs : list T) :
  list_load (DV := flat_deep T) h vs = Some vs.
Proof. unfold list_load. induction vs as [|v vs IH]; [done|]. cbn in *. by rewrite IH. Qed.

Lemma flat_foot {T} (h : heap) (vs : list T) : list_foot (DV := flat_deep T) h vs = [].
Proof. unfold list_foot. by induction vs. Qed.

Lemma flat_block_copies `{Cell cell T} :
  copies (DV := slice_deep (flat_deep T)) (copy_flat_block (T := T)).
Proof.
  intros h [[[[l o] n]|]] d Hd; unfold copy_flat_block, slice_nil, len; cbn [slice_at].
  2:{ exists h, (Slice None). split; [done|]. by apply copies_ret. }
  cbn [dload slice_deep slice_at] in Hd. rewrite bool_decide_false by done.
  destruct (slice_elems h _) as [vs|] eqn:Hs; [|done]. cbn in Hd.
  change (mapM (λ v : T, Some v) vs) with (list_load (DV := flat_deep T) h vs) in Hd.
  rewrite flat_load in Hd. injection Hd as <-.
  apply slice_elems_Some in Hs as (cs & Hcs & Hle & Hvs).
  set (l' := new_loc h). pose proof (new_loc_fresh h) as Hnew. fold l' in Hnew.
  assert (l' ≠ l) as Hne by congruence.
  set (h2 := <[l' := Arr (take n (drop o cs))]> h).
  exists h2, (Slice (Some (l', 0%nat, n))). split.
  - unfold make_slice, alloc, copy_slice, mbind, H_bind, read_cells, write_cells, mret, H_ret.
    fold l'. cbn [slice_at]. rewrite lookup_insert_ne, Hcs, lookup_insert_eq by done.
    rewrite Nat.min_id, insert_insert_eq. do 4 f_equal. cbn [take Nat.add app].
    rewrite (drop_ge (replicate _ _)) by (by rewrite length_replicate). apply app_nil_r.
  - assert (slice_elems h2 (Slice (Some (l', 0%nat, n))) = Some vs) as Hs2.
    { apply slice_elems_Some. exists (take n (drop o cs)). unfold h2. rewrite lookup_insert_eq.
      split; [done|]. rewrite length_take, length_drop. split; [lia|].
      by rewrite drop_0, take_take, Nat.min_id. }
    split; cbn [dload dfoot slice_deep slice_at].
    + by apply insert_fresh.
    + rewrite Hs2. cbn. change (mapM (λ v : T, Some v) vs) with (list_load (DV := flat_deep T) h2 vs).
      by rewrite flat_load.
    + rewrite flat_foot. by intros k ->%list_elem_of_singleton.
    + rewrite flat_foot. apply NoDup_singleton.
Qed.

(** The loop over the elements: after some of them, the new array holds their
    copies and zero values. *)
Section loop.
Context `{Cell cell T} `{DV : Deep cell T D} (into : T → H cell T) (s : slice T).
Context (h0 : heap) (l' : loc) (n : nat).

Record filled (h : heap) (done todo : list T) (ds : list D) : Prop := {
  fl_keeps : h0 ⊆ h;
  fl_array : h !! l' = Some (Arr ((to_cell <$> done) ++ replicate (length todo) (to_cell zero)));
  fl_length : (length done + length todo = n)%nat;
  fl_load : list_load h done = Some ds;
  fl_fresh l : l ∈ list_foot h done → h0 !! l = None;
  fl_nodup : NoDup (l' :: list_foot h done)
}.

Lemma set_elem_ok h done v todo ds w :
  filled h done (v :: todo) ds →
  set_elem (Slice (Some (l', 0%nat, n))) (length done) w h =
  Some (<[l' := Arr ((to_cell <$> (done ++ [w])) ++ replicate (length todo) (to_cell zero))]> h, tt).
Proof.
  intros [_ Ha Hlen _ _ _]. cbn [length] in *. unfold set_elem. cbn [slice_at].
  destruct (Nat.ltb_spec (length done) n); [|lia].
  unfold mbind, H_bind, read_cells, write_cells. rewrite Ha. do 4 f_equal. cbn [replicate Nat.add].
  rewrite insert_app_r_alt by (by rewrite length_fmap). rewrite length_fmap, Nat.sub_diag.
  by rewrite fmap_app, <- app_assoc.
Qed.

Lemma filled_step h done v todo ds d :
  h0 !! l' = None → copies into → dload h0 v = Some d → filled h done (v :: todo) ds →
  ∃ h1 v' h2, into v h = Some (h1, v') ∧
    set_elem (Slice (Some (l', 0%nat, n))) (length done) v' h1 = Some (h2, tt) ∧
    filled h2 (done ++ [v']) todo (ds ++ [d]).
Proof.
  intros Hl' Hinto Hd Hf. pose proof Hf as [Hk Ha Hlen Hl Hfr Hn].
  destruct (dload_mono h0 h v d Hk Hd) as [Hdh _].
  destruct (Hinto h v d Hdh) as (h1 & v' & Hv & Hcp). pose proof (cp_keeps _ _ _ _ Hcp) as Hk1.
  assert (filled h1 done (v :: todo) ds) as Hf1.
  { destruct (list_load_local h h1 done ds Hl) as [Hl1 Hfo].
    { intros l Hin. destruct (list_foot_dom h done ds l Hl Hin) as [x Hx]. rewrite Hx.
      by eapply lookup_weaken. }
    split; rewrite ?Hfo; try done; [by etrans|by eapply lookup_weaken]. }
  exists h1, v'. eexists. split; [done|]. split; [by apply (set_elem_ok h1 done v todo ds)|].
  set (o := Arr _). destruct Hf1 as [Hk1' Ha1 _ Hl1 Hfr1 Hn1].
  apply NoDup_cons in Hn1 as [Hnot Hn1].
  assert (h !! l' ≠ None) as Hin by (by rewrite Ha).
  assert (l' ∉ dfoot h1 v') as Hnot'.
  { intros Hx. by apply (cp_fresh _ _ _ _ Hcp) in Hx. }
  assert (∀ l, l ∈ list_foot h1 (done ++ [v']) ↔ l ∈ list_foot h1 done ∨ l ∈ dfoot h1 v') as Hfoot.
  { intros l. rewrite list_foot_app, elem_of_app. unfold list_foot at 2. cbn. by rewrite app_nil_r. }
  destruct (list_load_local h1 (<[l' := o]> h1) (done ++ [v']) (ds ++ [d])) as [Hl2 Hfo2].
  { apply list_load_app; [done|]. unfold list_load. cbn. by rewrite (cp_load _ _ _ _ Hcp). }
  { intros l Hin'%Hfoot. rewrite lookup_insert_ne; [done|]. intros ->. by destruct Hin'. }
  split.
  - by apply update_fresh.
  - apply lookup_insert_eq.
  - rewrite length_app. cbn in *. lia.
  - done.
  - rewrite Hfo2. intros l [Hx|Hx]%Hfoot; [by apply Hfr1|].
    eapply lookup_weaken_None, Hk. by apply (cp_fresh _ _ _ _ Hcp).
  - rewrite Hfo2. apply NoDup_cons. split; [intros Hx%Hfoot; tauto|].
    rewrite list_foot_app. unfold list_foot at 2. cbn. rewrite app_nil_r.
    apply NoDup_app. split; [done|]. split; [|apply (cp_nodup _ _ _ _ Hcp)].
    intros l Hx Hy. apply (cp_fresh _ _ _ _ Hcp) in Hy.
    destruct (list_load_local h h1 done ds Hl) as [_ Hfo].
    { intros k Hk'. destruct (list_foot_dom h done ds k Hl Hk') as [x Hx']. rewrite Hx'.
      by eapply lookup_weaken. }
    rewrite Hfo in Hx. destruct (list_foot_dom h done ds l Hl Hx) as [x Hx']. congruence.
Qed.

Lemma copy_elems_ok todo : ∀ h done ds ds' vs,
  h0 !! l' = None → copies into → slice_elems h0 s = Some vs →
  drop (length done) vs = todo → list_load h0 todo = Some ds' →
  filled h done todo ds →
  ∃ h' vs', copy_elems into s (Slice (Some (l', 0%nat, n))) (length done) (length todo) h =
    Some (h', tt) ∧ filled h' vs' [] (ds ++ ds').
Proof.
  induction todo as [|v todo IH]; intros h done ds ds' vs Hl' Hinto Hs Hdrop Hds Hf.
  - exists h, done. injection Hds as <-. rewrite app_nil_r. split; [done|exact Hf].
  - unfold list_load in Hds. cbn in Hds.
    apply bind_Some in Hds as (d & Hd & (ds1 & Hds1 & [= <-])%bind_Some).
    destruct (filled_step h done v todo ds d Hl' Hinto Hd Hf) as (h1 & v' & h2 & Hv & Hset & Hf2).
    assert (vs !! length done = Some v) as Hi.
    { rewrite <- (Nat.add_0_r (length done)), <- lookup_drop, Hdrop. done. }
    pose proof (slice_elems_mono h0 h s vs (fl_keeps _ _ _ _ Hf) Hs) as Hsh.
    destruct (IH h2 (done ++ [v']) (ds ++ [d]) ds1 vs) as (h' & vs' & Hrun & Hf'); try done.
    { rewrite length_app. cbn. rewrite <- drop_drop, Hdrop. done. }
    exists h', vs'. rewrite <- app_assoc in Hf'. split; [|exact Hf'].
    cbn [length copy_elems]. unfold mbind at 1, H_bind at 1.
    rewrite (elem_ok h s vs _ v Hsh Hi). unfold mbind at 1, H_bind at 1. rewrite Hv.
    unfold mbind at 1, H_bind at 1. rewrite Hset.
    rewrite length_app in Hrun. cbn in Hrun. by rewrite Nat.add_1_r in Hrun.
Qed.
End loop.

Lemma deep_block_copies `{Cell cell T} `{DV : Deep cell T D} (into : T → H cell T) :
  copies into → copies (DV := slice_deep DV) (copy_deep_block into).
Proof.
  intros Hinto h [[[[l o] n]|]] d Hd; unfold copy_deep_block, slice_nil, len; cbn [slice_at].
  2:{ exists h, (Slice None). split; [done|]. by apply copies_ret. }
  cbn [dload slice_deep slice_at] in Hd. rewrite bool_decide_false by done.
  apply bind_Some in Hd as (vs & Hs & (ds & Hds & ->)%fmap_Some).
  pose proof (slice_elems_length _ _ _ Hs) as Hlen. unfold len in Hlen. cbn in Hlen.
  set (l' := new_loc h). pose proof (new_loc_fresh h) as Hnew. fold l' in Hnew.
  set (h1 := <[l' := Arr (replicate n (to_cell zero))]> h).
  destruct (copy_elems_ok into (Slice (Some (l, o, n))) h l' n vs h1 [] [] ds vs)
    as (h' & vs' & Hrun & [Hk Ha Hlen' Hl Hfr Hn]); try done.
  { split; try done.
    - by apply insert_fresh.
    - unfold h1. by rewrite lookup_insert_eq, Hlen.
    - by intros k Hk%not_elem_of_nil.
    - apply NoDup_singleton. }
  cbn [length] in *. rewrite Hlen in Hrun. rewrite Nat.add_0_r in Hlen'.
  exists h', (Slice (Some (l', 0%nat, n))). split.
  - unfold make_slice, alloc, mbind, H_bind, mret, H_ret. fold l' h1.
    unfold mbind, H_bind, mret, H_ret in Hrun. by rewrite Hrun.
  - assert (slice_elems h' (Slice (Some (l', 0%nat, n))) = Some vs') as Hs'.
    { apply slice_elems_Some. exists (to_cell <$> vs'). cbn [replicate] in Ha.
      rewrite app_nil_r in Ha. split; [exact Ha|]. rewrite length_fmap. split; [lia|].
      rewrite drop_0, take_ge by (rewrite length_fmap; lia). apply mapM_of_to_cell. }
    split; cbn [dload dfoot slice_deep slice_at]; rewrite ?Hs'; cbn [default from_option id];
      [done|cbn; by rewrite Hl| |done].
    intros k [->|Hk']%elem_of_cons; [done|by apply Hfr].
Qed.

(** A new variable that holds a copy. *)
Lemma new_var_copied `{Cell cell T} `{DV : Deep cell T D} (h : heap) h1 (d : D) (v : T) :
  let l' := new_loc h in
  copied (<[l' := Arr [to_cell zero]]> h) d h1 v →
  copied (DV := ptr_deep DV) h (Some d) (<[l' := Arr [to_cell v]]> h1) (Ptr (Some l')).
Proof.
  intros l' Hcp. pose proof (new_loc_fresh h) as Hnew. fold l' in Hnew.
  pose proof (insert_fresh h l' (Arr [to_cell zero]) Hnew) as Hk0.
  pose proof (copied_since h _ _ _ _ Hk0 Hcp) as [Hk Hl Hf Hn].
  assert (l' ∉ dfoot h1 v) as Hnot.
  { intros Hx. apply (cp_fresh _ _ _ _ Hcp) in Hx. by rewrite lookup_insert_eq in Hx. }
  set (h2 := <[l' := Arr [to_cell v]]> h1).
  destruct (dload_local h1 h2 v d Hl) as [Hl2 Hfo2].
  { intros k Hin. unfold h2. rewrite lookup_insert_ne; [done|]. by intros ->. }
  assert (pointee h2 (Ptr (Some l')) = Some v) as Hp.
  { unfold pointee, h2. cbn. rewrite lookup_insert_eq. cbn. by rewrite of_to_cell. }
  split; cbn [dload dfoot ptr_deep ptr_at]; rewrite ?Hp.
  - by apply update_fresh.
  - cbn. by rewrite Hl2.
  - rewrite Hfo2. intros k [->|Hin]%elem_of_cons; [done|by apply Hf].
  - rewrite Hfo2. by apply NoDup_cons.
Qed.

Lemma deref_ok `{Cell cell T} (h : heap) (p : ptr T) v :
  pointee h p = Some v → deref p h = Some (h, v).
Proof.
  unfold pointee, deref. destruct (ptr_at p) as [l|]; [|done].
  destruct (h !! l) as [[cs|m]|] eqn:E; [|done..]. intros Hv.
  unfold mbind, H_bind, read_cells. rewrite E. unfold typed. by rewrite Hv.
Qed.

Lemma pointee_mono `{Cell cell T} (h h' : heap) (p : ptr T) v :
  h ⊆ h' → pointee h p = Some v → pointee h' p = Some v.
Proof.
  intros Hh. unfold pointee. destruct (ptr_at p) as [l|]; [|done].
  destruct (h !! l) as [o|] eqn:E; [|done]. by rewrite (lookup_weaken _ _ _ _ E Hh).
Qed.

Lemma ptr_copies `{Cell cell T} `{DV : Deep cell T D} (into : T → H cell T) :
  copies into → copies (DV := ptr_deep DV) (copy_ptr into).
Proof.
  intros Hinto h p d Hd. cbn [dload ptr_deep] in Hd. unfold copy_ptr.
  destruct (ptr_at p) as [l|].
  2:{ injection Hd as <-. exists h, (Ptr None). split; [done|]. by apply copies_ret. }
  apply bind_Some in Hd as (v & Hp & (x & Hx & ->)%fmap_Some).
  set (l' := new_loc h). pose proof (new_loc_fresh h) as Hnew. fold l' in Hnew.
  set (h1 := <[l' := Arr [to_cell zero]]> h).
  assert (h ⊆ h1) as Hk by (by apply insert_fresh).
  destruct (Hinto h1 v x) as (h2 & v' & Hv & Hcp); [by apply (dload_mono h h1 v x Hk Hx)|].
  exists (<[l' := Arr [to_cell v']]> h2), (Ptr (Some l')). split.
  - unfold new, alloc, mbind, H_bind, mret, H_ret. fold l' h1.
    rewrite (deref_ok h1 p v (pointee_mono h h1 p v Hk Hp)), Hv.
    unfold assign, mbind, H_bind, read_cells, write_cells. cbn [ptr_at].
    rewrite (lookup_weaken h1 h2 l' (Arr [to_cell zero])); [done| |apply (cp_keeps _ _ _ _ Hcp)].
    apply lookup_insert_eq.
  - by apply new_var_copied.
Qed.

Lemma mret_copies {T} : copies (DV := flat_deep T) mret.
Proof. intros h v d [= <-]. exists h, v. split; [done|]. by apply copies_ret. Qed.

Lemma copy_ptr_block_eq `{Cell cell T} (p : ptr T) : copy_ptr_block p = copy_ptr mret p.
Proof. destruct p as [[l|]]; done. Qed.

Lemma ptr_block_copies `{Cell cell T} :
  copies (DV := ptr_deep (flat_deep T)) (copy_ptr_block (T := T)).
Proof. intros h p d Hd. rewrite copy_ptr_block_eq. by apply ptr_copies, Hd; apply mret_copies. Qed.

Lemma copy_entries_ok {T} (h : heap) l' entries : ∀ m,
  h !! l' = Some (Map m) →
  copy_entries (MapRef (T := T) (Some l')) entries h =
  Some (<[l' := Map (foldl (λ m '(k, c), <[k := c]> m) m entries)]> h, tt).
Proof.
  revert h. induction entries as [|[k c] entries IH]; intros h m Hl.
  - cbn. by rewrite insert_id.
  - cbn [copy_entries foldl]. unfold mbind, H_bind, map_insert. cbn [map_at].
    unfold mbind, H_bind, read_map, write_map. rewrite Hl.
    rewrite (IH _ (<[k := c]> m)) by apply lookup_insert_eq. by rewrite insert_insert_eq.
Qed.

Lemma map_block_copies {T} {O : MapOrder} : copies (copy_map_block (T := T)).
Proof.
  intros h [[l|]] d; unfold copy_map_block; cbn [dload mapref_deep map_at].
  2:{ intros [= <-]. exists h, (MapRef None). split; [done|]. by apply copies_ret. }
  intros Hd. destruct (h !! l) as [[cs|m]|] eqn:E; [done| |done]. injection Hd as <-.
  set (l' := new_loc h). pose proof (new_loc_fresh h) as Hnew. fold l' in Hnew.
  assert (l' ≠ l) as Hne by congruence.
  exists (<[l' := Map m]> h), (MapRef (Some l')). split.
  - unfold make_map, alloc, mbind, H_bind, mret, H_ret, read_map. fold l'.
    rewrite lookup_insert_ne, E by done.
    pose proof (copy_entries_ok (T := T) (<[l' := Map ∅]> h) l' (range "deepcopy" m) ∅
      (lookup_insert_eq _ _ _)) as Hrun.
    unfold mbind, H_bind in Hrun. rewrite Hrun, insert_insert_eq. by rewrite foldl_insert_range.
  - split; cbn [dload dfoot mapref_deep map_at].
    + by apply insert_fresh.
    + by rewrite lookup_insert_eq.
    + by intros k ->%list_elem_of_singleton.
    + apply NoDup_singleton.
Qed.

(** ** Structs, field by field *)

Definition pair_into {V1 V2} (f : V1 → H cell V1) (g : V2 → H cell V2) (v : V1 * V2) :
  H cell (V1 * V2) :=
  v1 ← f v.1; v2 ← g v.2; mret (v1, v2).

Lemma pair_copies `{DV1 : Deep cell V1 D1, DV2 : Deep cell V2 D2}
    (f : V1 → H cell V1) (g : V2 → H cell V2) :
  copies f → copies g → copies (pair_into f g).
Proof.
  intros Hf Hg h [v1 v2] d Hd. cbn in Hd.
  apply bind_Some in Hd as (d1 & Hd1 & (d2 & Hd2 & [= <-])%bind_Some).
  destruct (Hf h v1 d1 Hd1) as (h1 & v1' & E1 & C1).
  destruct (dload_mono h h1 v2 d2 (cp_keeps _ _ _ _ C1) Hd2) as [Hd2' _].
  destruct (Hg h1 v2 d2 Hd2') as (h2 & v2' & E2 & C2).
  exists h2, (v1', v2'). split; [|by eapply copied_pair].
  unfold pair_into, mbind, H_bind, mret, H_ret. cbn. by rewrite E1, E2.
Qed.

Lemma via_copies {S V D} {DV : Deep cell V D} (tup : S → V) (un : V → S)
    (f : V → H cell V) (into : S → H cell S) :
  copies f → (∀ t, tup (un t) = t) →
  (∀ s h, into s h = match f (tup s) h with Some (h', t) => Some (h', un t) | None => None end) →
  copies (DV := deep_via tup DV) into.
Proof.
  intros Hf Hun Heq h s d Hd. destruct (Hf h (tup s) d Hd) as (h' & t & E & [Hk Hl Hfr Hn]).
  exists h', (un t). split; [by rewrite Heq, E|].
  split; cbn [dload dfoot deep_via]; rewrite ?Hun; done.
Qed.
End copying.

(** Compares two runs that make the same calls. *)
Ltac same_run :=
  cbn; unfold pair_into, mbind, H_bind, mret, H_ret; cbn;
  repeat match goal with
  | |- context [match ?m with Some _ => _ | None => _ end] =>
      lazymatch m with context [match _ with _ => _ end] => fail | _ => idtac end;
      destruct m as [[? ?]|]; cbn
  end; reflexivity.
