(* ===== verification/HeapOwn.v ===== *)
(** * Ownership on the heap

    What an operation may write, and rules to compose operations: a value owns
    the locations it depends on, except those that are shared for reading
    only; an operation on a part of a value is one on the whole. *)

From S2P Require Import Prelude GoHeap HeapCopy.

Section frames.
Context {cell : Type}.
Abbreviation heap := (gmap loc (object cell)).

(** Only some of the locations that were there have changed, and the ones to be
    written next are among them or new. *)
Record frame (h : heap) (w : list loc) (h' : heap) (w' : list loc) : Prop := {
  fr_same k : is_Some (h !! k) → k ∉ w → h' !! k = h !! k;
  fr_next k : k ∈ w' → k ∈ w ∨ h !! k = None;
  fr_dom k : is_Some (h !! k) → is_Some (h' !! k)
}.

Lemma frame_refl h w : frame h w h w.
Proof. split; auto. Qed.

Lemma frame_trans h1 w1 h2 w2 h3 w3 : frame h1 w1 h2 w2 → frame h2 w2 h3 w3 → frame h1 w1 h3 w3.
Proof.
  intros [S1 N1 D1] [S2 N2 D2]. split.
  - intros k Hk Hw. rewrite S2; [by apply S1|by apply D1|]. intros Hw2.
    destruct (N1 k Hw2) as [?|E]; [done|]. rewrite E in Hk. by destruct Hk.
  - intros k Hw3. destruct (N2 k Hw3) as [Hw2|E]; [by apply N1|].
    right. destruct (h1 !! k) eqn:E1; [|done]. destruct (D1 k) as [x Hx]; [by eexists|congruence].
  - auto.
Qed.

Lemma frame_insert (h : heap) w k o w' :
  (k ∈ w ∨ h !! k = None) → (∀ j, j ∈ w' → j ∈ w ∨ h !! j = None) → frame h w (<[k := o]> h) w'.
Proof.
  intros Hk Hw'. split; [|done|].
  - intros j Hj Hw. apply lookup_insert_ne. intros ->. destruct Hk as [?|E]; [done|].
    rewrite E in Hj. by destruct Hj.
  - intros j Hj. rewrite lookup_insert. by case_decide.
Qed.

Lemma frame_weaken h w1 w2 h' w' : w1 ⊆ w2 → frame h w1 h' w' → frame h w2 h' w'.
Proof.
  intros Hw [Fs Fn Fd]. split; [|intros k Hk; destruct (Fn k Hk); auto|done].
  intros k Hk Hn. apply Fs; [done|]. auto.
Qed.

Lemma frame_subseteq h h' w' : frame h [] h' w' → h ⊆ h'.
Proof.
  intros [Fs _ _]. apply map_subseteq_spec. intros k x Hx. rewrite Fs; [done|by eexists|].
  apply not_elem_of_nil.
Qed.

Lemma frame_keep {V D} {DV : Deep cell V D} h w h' w' (v : V) d :
  frame h w h' w' → dload h v = Some d → (∀ k, k ∈ w → k ∉ dfoot h v) →
  dload h' v = Some d ∧ dfoot h' v = dfoot h v.
Proof.
  intros F Hd Hw. apply dload_local; [done|]. intros k Hk.
  apply (fr_same _ _ _ _ F); [exact (dfoot_dom h v d k Hd Hk)|]. intros Hk'. by destruct (Hw k Hk').
Qed.

Lemma frame_load {V D} {DV : Deep cell V D} h w h' w' (v : V) d :
  frame h w h' w' → dload h v = Some d → (∀ k, k ∈ w → k ∉ dfoot h v) →
  dload h' v = Some d ∧ (∀ k, k ∈ w' → k ∉ dfoot h' v).
Proof.
  intros [Fs Fn _] Hd Hw. destruct (dload_local h h' v d Hd) as [Hd' Hf].
  - intros k Hk. apply Fs; [exact (dfoot_dom h v d k Hd Hk)|]. intros Hk'. by destruct (Hw k Hk').
  - split; [done|]. rewrite Hf. intros k Hk' Hk. destruct (Fn k Hk') as [Hk2|E]; [by destruct (Hw k Hk2)|].
    destruct (dfoot_dom h v d k Hd Hk) as [x Hx]. congruence.
Qed.
End frames.

(** ** Writing a variable *)

Section variables.
Context {cell : Type}.
Abbreviation heap := (gmap loc (object cell)).

Lemma assign_ok `{Cell cell T} (h : heap) l (v w : T) :
  pointee h (Ptr (Some l)) = Some v →
  ∃ obj, assign (Ptr (Some l)) w h = Some (<[l := obj]> h, tt) ∧
    pointee (<[l := obj]> h) (Ptr (Some l)) = Some w.
Proof.
  unfold pointee, assign. cbn [ptr_at]. unfold mbind at 2, H_bind, read_cells, write_cells.
  destruct (h !! l) as [[cs|m]|]; [|done..]. intros Hc.
  exists (Arr (<[0%nat := to_cell w]> cs)). split; [done|]. rewrite lookup_insert_eq.
  destruct cs as [|c0 cs]; [done|]. cbn. apply of_to_cell.
Qed.

Lemma pointee_same `{Cell cell T} (h h' : heap) l (v : T) :
  h' !! l = h !! l → pointee h (Ptr (Some l)) = Some v → pointee h' (Ptr (Some l)) = Some v.
Proof. unfold pointee. cbn. by intros ->. Qed.

Lemma pointee_dom `{Cell cell T} (h : heap) l (v : T) :
  pointee h (Ptr (Some l)) = Some v → is_Some (h !! l).
Proof. unfold pointee. cbn. by destruct (h !! l). Qed.
End variables.

(** ** Lists of values *)

#[global] Instance list_deep {cell V D} (DV : Deep cell V D) : Deep cell (list V) (list D).
Proof.
  refine {| dload h vs := list_load h vs; dfoot h vs := list_foot h vs |}.
  - intros h h' vs ds. apply list_load_local.
  - intros h vs ds l. apply list_foot_dom.
Defined.

(** ** Owned values *)

Section owned.
Context {cell : Type} {AL : Allocator cell}.
Abbreviation heap := (gmap loc (object cell)).

(** Locations that are shared and never written. *)
Context (shared : gset loc).

Definition own_foot `{DV : Deep cell V D} (h : heap) (v : V) : list loc :=
  filter (λ l, l ∉ shared) (dfoot h v).

Record owns `{DV : Deep cell V D} (h : heap) (v : V) (d : D) : Prop := {
  own_load : dload h v = Some d;
  own_nodup : NoDup (own_foot h v)
}.

(** From [h] on, writes to the locations [F] and new ones only have led to
    [h'] and a value that is owned there. *)
Record update `{DV : Deep cell V D} (h : heap) (F : list loc) (h' : heap) (v' : V) (d' : D) : Prop := {
  up_owns : owns h' v' d';
  up_frame : frame h F h' (own_foot h' v')
}.

Lemma elem_of_own_foot `{DV : Deep cell V D} h (v : V) l :
  l ∈ own_foot h v ↔ l ∈ dfoot h v ∧ l ∉ shared.
Proof. unfold own_foot. rewrite list_elem_of_filter. tauto. Qed.

Lemma own_foot_all `{DV : Deep cell V D} h (v : V) :
  (∀ l, l ∈ dfoot h v → l ∉ shared) → own_foot h v = dfoot h v.
Proof.
  unfold own_foot. induction (dfoot h v) as [|l ls IH]; intros Hall; [done|].
  rewrite filter_cons_True by (apply Hall; left). f_equal. apply IH. intros k Hk. apply Hall. by right.
Qed.

Lemma own_foot_none `{DV : Deep cell V D} h (v : V) :
  (∀ l, l ∈ dfoot h v → l ∈ shared) → own_foot h v = [].
Proof.
  intros Hall. apply elem_of_nil_inv. intros l [Hl Hn]%elem_of_own_foot. by apply Hn, Hall.
Qed.

Lemma own_foot_dom `{DV : Deep cell V D} h (v : V) d l :
  dload h v = Some d → l ∈ own_foot h v → is_Some (h !! l).
Proof. intros Hd [Hl _]%elem_of_own_foot. exact (dfoot_dom h v d l Hd Hl). Qed.

Section rules.
Context `{DV : Deep cell V D}.

Lemma update_refl h (v : V) d : owns h v d → update h (own_foot h v) h v d.
Proof. intros Ho. split; [done|apply frame_refl]. Qed.

Lemma update_weaken h F1 F2 h' (v' : V) d' : F1 ⊆ F2 → update h F1 h' v' d' → update h F2 h' v' d'.
Proof. intros HF [Ho Hf]. split; [done|]. by eapply frame_weaken. Qed.

Lemma update_trans `{DV0 : Deep cell V0 D0} h F h1 (v1 : V0) d1 h2 (v2 : V) d2 :
  update h F h1 v1 d1 → update h1 (own_foot h1 v1) h2 v2 d2 → update h F h2 v2 d2.
Proof. intros [_ F1] [Ho F2]. split; [done|]. by eapply frame_trans. Qed.

(** Writes elsewhere keep a value. *)
Lemma owns_keep h F h' W (v : V) d :
  frame h F h' W → (∀ l, l ∈ F → l ∉ dfoot h v) → owns h v d →
  owns h' v d ∧ dfoot h' v = dfoot h v ∧ own_foot h' v = own_foot h v.
Proof.
  intros Hf HF [Hd Hn]. destruct (frame_keep h F h' W v d Hf Hd HF) as [Hd' Hfoot].
  assert (own_foot h' v = own_foot h v) as E by (unfold own_foot; by rewrite Hfoot).
  split; [|done]. split; [done|]. by rewrite E.
Qed.
End rules.

(** *** Structs *)

Section pairs.
Context `{DV1 : Deep cell V1 D1, DV2 : Deep cell V2 D2}.

Lemma own_foot_pair h (v1 : V1) (v2 : V2) : own_foot h (v1, v2) = own_foot h v1 ++ own_foot h v2.
Proof. unfold own_foot. cbn. by rewrite filter_app. Qed.

Lemma owns_pair h (v1 : V1) (v2 : V2) d1 d2 :
  owns h (v1, v2) (d1, d2) ↔
  owns h v1 d1 ∧ owns h v2 d2 ∧ ∀ l, l ∈ own_foot h v1 → l ∉ own_foot h v2.
Proof.
  split.
  - intros [Hd Hn]. rewrite own_foot_pair in Hn. apply NoDup_app in Hn as (Hn1 & Hdisj & Hn2).
    cbn in Hd. apply bind_Some in Hd as (x1 & H1 & (x2 & H2 & [= -> ->])%bind_Some).
    by split_and!.
  - intros ([H1 Hn1] & [H2 Hn2] & Hdisj). split; [cbn; by rewrite H1, H2|].
    rewrite own_foot_pair. apply NoDup_app. by split_and!.
Qed.

(** Disjoint in what they own: writes of one do not reach the other. *)
Lemma own_disjoint h (v1 : V1) (v2 : V2) d2 :
  owns h v2 d2 → (∀ l, l ∈ own_foot h v1 → l ∉ own_foot h v2) →
  ∀ l, l ∈ own_foot h v1 → l ∉ dfoot h v2.
Proof.
  intros _ Hd l Hl Hl2. apply (Hd l Hl), elem_of_own_foot. split; [done|].
  by apply elem_of_own_foot in Hl as [_ ?].
Qed.

Lemma pair_update_l h (v1 v1' : V1) (v2 : V2) d1 d1' d2 h' :
  owns h (v1, v2) (d1, d2) → update h (own_foot h v1) h' v1' d1' →
  update h (own_foot h (v1, v2)) h' (v1', v2) (d1', d2).
Proof.
  intros (H1 & H2 & Hdisj)%owns_pair [Ho Hf].
  destruct (owns_keep h _ h' _ v2 d2 Hf (own_disjoint h v1 v2 d2 H2 Hdisj) H2) as (H2' & _ & E).
  split.
  - apply owns_pair. split_and!; [done..|]. rewrite E. intros l Hl Hl2.
    destruct (fr_next _ _ _ _ Hf l Hl) as [Hin|Hnew]; [by destruct (Hdisj l Hin)|].
    destruct (own_foot_dom h v2 d2 l (own_load _ _ _ H2) Hl2) as [x Hx]. congruence.
  - destruct Hf as [Fs Fn Fd]. rewrite !own_foot_pair, E. split; [|intros k [Hk|Hk]%elem_of_app|done].
    + intros k Hk Hn. apply Fs; [done|]. intros Hin. apply Hn, elem_of_app. by left.
    + destruct (Fn k Hk); [left; apply elem_of_app; by left|by right].
    + left. apply elem_of_app. by right.
Qed.

Lemma pair_update_r h (v1 : V1) (v2 v2' : V2) d1 d2 d2' h' :
  owns h (v1, v2) (d1, d2) → update h (own_foot h v2) h' v2' d2' →
  update h (own_foot h (v1, v2)) h' (v1, v2') (d1, d2').
Proof.
  intros (H1 & H2 & Hdisj)%owns_pair [Ho Hf].
  assert (∀ l, l ∈ own_foot h v2 → l ∉ dfoot h v1) as Hdisj'.
  { intros l Hl Hl1. apply (Hdisj l); [|done]. apply elem_of_own_foot. split; [done|].
    by apply elem_of_own_foot in Hl as [_ ?]. }
  destruct (owns_keep h _ h' _ v1 d1 Hf Hdisj' H1) as (H1' & _ & E).
  split.
  - apply owns_pair. split_and!; [done..|]. rewrite E. intros l Hl Hl2.
    destruct (fr_next _ _ _ _ Hf l Hl2) as [Hin|Hnew]; [by destruct (Hdisj l Hl)|].
    destruct (own_foot_dom h v1 d1 l (own_load _ _ _ H1) Hl) as [x Hx]. congruence.
  - destruct Hf as [Fs Fn Fd]. rewrite !own_foot_pair, E. split; [|intros k [Hk|Hk]%elem_of_app|done].
    + intros k Hk Hn. apply Fs; [done|]. intros Hin. apply Hn, elem_of_app. by right.
    + left. apply elem_of_app. by left.
    + destruct (Fn k Hk); [left; apply elem_of_app; by right|by right].
Qed.

Lemma update_pair_flat h F h' (v1 : V1) (v2 : V2) d1 d2 :
  update h F h' v1 d1 → dload h' v2 = Some d2 → own_foot h' v2 = [] →
  update h F h' (v1, v2) (d1, d2).
Proof.
  intros [Ho Hf] Hd He. split.
  - apply owns_pair. split_and!; [done| |]; [split; [done|by rewrite He; constructor]|].
    rewrite He. intros l _ Hl. by apply not_elem_of_nil in Hl.
  - by rewrite own_foot_pair, He, app_nil_r.
Qed.
End pairs.

Section via.
Context {S V D : Type} (f : S → V) (DV : Deep cell V D).

Lemma via_owns h (s : S) d :
  owns (DV := deep_via f DV) h s d ↔ owns h (f s) d.
Proof. split; intros [Hd Hn]; by split. Qed.

Lemma via_update h F h' (s : S) d :
  update (DV := deep_via f DV) h F h' s d ↔ update h F h' (f s) d.
Proof. split; intros [Ho Hf]; (split; [by apply via_owns|exact Hf]). Qed.
End via.

(** *** Lists *)

Section lists.
Context `{DV : Deep cell V D}.

Lemma own_foot_app h (vs1 vs2 : list V) : own_foot h (vs1 ++ vs2) = own_foot h vs1 ++ own_foot h vs2.
Proof. unfold own_foot. cbn. by rewrite list_foot_app, filter_app. Qed.

Lemma own_foot_split h (pre : list V) v post :
  own_foot h (pre ++ v :: post) = own_foot h (pre, (v, post)).
Proof.
  rewrite own_foot_app, !own_foot_pair. f_equal. unfold own_foot. cbn. unfold list_foot. cbn.
  by rewrite filter_app.
Qed.

Lemma owns_split h (pre : list V) v post dpre d dpost :
  length pre = length dpre →
  owns h (pre ++ v :: post) (dpre ++ d :: dpost) ↔ owns h (pre, (v, post)) (dpre, (d, dpost)).
Proof.
  intros Hlen.
  assert (dload h (pre ++ v :: post) = Some (dpre ++ d :: dpost) ↔
    dload h (pre, (v, post)) = Some (dpre, (d, dpost))) as Hd.
  { cbn. unfold list_load. rewrite mapM_Some. split.
    - intros [Hpre Hpost]%Forall2_app_inv; [|done].
      apply Forall2_cons in Hpost as [Hv Hpost].
      apply mapM_Some in Hpre as ->. apply mapM_Some in Hpost as ->. cbn. by rewrite Hv.
    - intros (x & Hx & (y & (z & Hz & (w & Hw & [= <-])%bind_Some)%bind_Some & [= -> -> ->])%bind_Some)%bind_Some.
      apply mapM_Some in Hx, Hw. apply Forall2_app; [done|]. by constructor. }
  split; intros [Hl Hn]; (split; [by apply Hd|]); by rewrite own_foot_split in *.
Qed.

Lemma list_update h (pre post : list V) v v' dpre d d' dpost h' :
  length pre = length dpre → owns h (pre ++ v :: post) (dpre ++ d :: dpost) →
  update h (own_foot h v) h' v' d' →
  update h (own_foot h (pre ++ v :: post)) h' (pre ++ v' :: post) (dpre ++ d' :: dpost).
Proof.
  intros Hlen Ho Hup. apply owns_split in Ho; [|done].
  assert (owns h (v, post) (d, dpost)) as Ho' by (by apply owns_pair in Ho as (_ & ? & _)).
  destruct (pair_update_r h pre (v, post) _ _ _ _ h' Ho (pair_update_l h v v' post _ _ _ h' Ho' Hup))
    as [Ho2 Hf].
  rewrite <- !own_foot_split in Hf. split; [by apply owns_split|done].
Qed.
End lists.

(** *** Variables *)

Section ptrs.
Context `{Cell cell T} `{DV : Deep cell T D}.

Lemma own_foot_ptr h l (v : T) :
  pointee h (Ptr (Some l)) = Some v → l ∉ shared →
  own_foot h (Ptr (Some l) : ptr T) = l :: own_foot h v.
Proof.
  intros Hv Hl. unfold own_foot. cbn [dfoot ptr_deep ptr_at]. rewrite Hv.
  by rewrite filter_cons_True.
Qed.

Lemma owns_ptr h l d :
  l ∉ shared → owns h (Ptr (Some l) : ptr T) (Some d) →
  ∃ v, pointee h (Ptr (Some l)) = Some v ∧ owns h v d ∧ l ∉ own_foot h v ∧
    own_foot h (Ptr (Some l) : ptr T) = l :: own_foot h v.
Proof.
  intros Hl [Hd Hn]. cbn [dload ptr_deep ptr_at] in Hd.
  apply bind_Some in Hd as (v & Hv & (x & Hx & [= ->])%fmap_Some).
  pose proof (own_foot_ptr h l v Hv Hl) as E. rewrite E in Hn. apply NoDup_cons in Hn as [Hn1 Hn2].
  exists v. split_and!; try done.
Qed.

Lemma ptr_intro h F h' l (v : T) d :
  pointee h' (Ptr (Some l)) = Some v → l ∉ shared → l ∉ own_foot h' v → owns h' v d →
  frame h F h' (own_foot h' v) → l ∈ F ∨ h !! l = None →
  update h F h' (Ptr (Some l) : ptr T) (Some d).
Proof.
  intros Hv Hs Hl [Hd Hn] [Fs Fn Fd] HF. pose proof (own_foot_ptr h' l v Hv Hs) as E.
  split; [split|split]; rewrite ?E; try done.
  - cbn [dload ptr_deep ptr_at]. rewrite Hv. cbn. by rewrite Hd.
  - by apply NoDup_cons.
  - intros k [->|Hk]%elem_of_cons; [done|by apply Fn].
Qed.

(** What an update of the value owns can still not be the variable. *)
Lemma update_not_elem `{DV' : Deep cell V' D'} h F h' (v : V') (d : D') l :
  is_Some (h !! l) → l ∉ F → update h F h' v d → l ∉ own_foot h' v.
Proof.
  intros [x Hx] HF [_ Hf] Hin. destruct (fr_next _ _ _ _ Hf l Hin); [done|congruence].
Qed.

Lemma ptr_inside h F h' l (v : T) d :
  pointee h (Ptr (Some l)) = Some v → l ∉ shared → l ∉ F → update h F h' v d →
  update h (l :: F) h' (Ptr (Some l) : ptr T) (Some d).
Proof.
  intros Hv Hs HF Hup. pose proof (pointee_dom h l v Hv) as Hdom.
  apply (ptr_intro h (l :: F) h' l v d); [|done| | | |left; left].
  - apply (pointee_same h); [|done]. by apply (fr_same _ _ _ _ (up_frame _ _ _ _ _ Hup)).
  - by eapply update_not_elem.
  - apply Hup.
  - eapply frame_weaken; [|apply Hup]. intros k Hk. by right.
Qed.

Lemma ptr_assign h F h1 l (w v : T) d :
  pointee h (Ptr (Some l)) = Some w → l ∉ shared → l ∉ F → update h F h1 v d →
  ∃ h2, assign (Ptr (Some l)) v h1 = Some (h2, tt) ∧ pointee h2 (Ptr (Some l)) = Some v ∧
    dfoot h2 v = dfoot h1 v ∧ update h (l :: F) h2 (Ptr (Some l) : ptr T) (Some d).
Proof.
  intros Hw Hs HF Hup. pose proof (pointee_dom h l w Hw) as Hdom.
  pose proof (update_not_elem h F h1 v d l Hdom HF Hup) as Hl.
  assert (pointee h1 (Ptr (Some l)) = Some w) as Hw1.
  { apply (pointee_same h); [|done]. by apply (fr_same _ _ _ _ (up_frame _ _ _ _ _ Hup)). }
  destruct (assign_ok h1 l w v Hw1) as (obj & E & Hv2). eexists. split; [exact E|].
  assert (frame h1 [l] (<[l := obj]> h1) [l]) as F1 by (apply frame_insert; [left; left|by left]).
  destruct (owns_keep h1 _ _ _ v d F1) as (Ho2 & Ef & E2); [|apply Hup|].
  { intros k ->%list_elem_of_singleton Hk. by apply Hl, elem_of_own_foot. }
  split; [exact Hv2|]. split; [exact Ef|].
  apply (ptr_intro h (l :: F) _ l v d); [done|done|by rewrite E2|done| |left; left]. rewrite E2.
  destruct (up_frame _ _ _ _ _ Hup) as [Fs Fn Fd]. split.
  - intros k Hk [Hkl HkF]%not_elem_of_cons. rewrite lookup_insert_ne by done. by apply Fs.
  - intros k Hk. destruct (Fn k Hk); [left; by right|by right].
  - intros k Hk. rewrite lookup_insert. case_decide; [done|]. by apply Fd.
Qed.

Lemma new_of_update h F h1 (v : T) d :
  shared ⊆ dom h → update h F h1 v d →
  ∃ h2 l, new_of v h1 = Some (h2, Ptr (Some l)) ∧ l ∉ shared ∧
    pointee h2 (Ptr (Some l)) = Some v ∧ dfoot h2 v = dfoot h1 v ∧
    update h F h2 (Ptr (Some l) : ptr T) (Some d).
Proof.
  intros Hsh Hup. set (l := new_loc h1). pose proof (new_loc_fresh h1) as Hnew. fold l in Hnew.
  destruct (up_frame _ _ _ _ _ Hup) as [Fs Fn Fd].
  assert (h !! l = None) as Hl.
  { destruct (h !! l) eqn:E; [|done]. destruct (Fd l) as [x Hx]; [by eexists|congruence]. }
  assert (l ∉ shared) as Hls.
  { intros Hin%Hsh%elem_of_dom. rewrite Hl in Hin. by destruct Hin. }
  assert (frame h1 [] (<[l := Arr [to_cell v]]> h1) []) as F1.
  { apply frame_insert; [by right|by left]. }
  destruct (owns_keep h1 _ _ _ v d F1) as (Ho2 & Ef & E2); [by intros k ?%not_elem_of_nil|apply Hup|].
  assert (pointee (<[l := Arr [to_cell v]]> h1) (Ptr (Some l)) = Some v) as Hv.
  { unfold pointee. cbn. rewrite lookup_insert_eq. cbn. apply of_to_cell. }
  exists (<[l := Arr [to_cell v]]> h1), l. split_and!; try done.
  apply (ptr_intro h F _ l v d); [done..| |done| |by right].
  - rewrite E2. intros Hin. destruct (own_foot_dom h1 v d l) as [x Hx]; [apply Hup|done|congruence].
  - rewrite E2. split; [|done|].
    + intros k Hk Hn. rewrite lookup_insert_ne; [by apply Fs|]. intros <-. rewrite Hl in Hk. by destruct Hk.
    + intros k Hk. rewrite lookup_insert. case_decide; [done|]. by apply Fd.
Qed.
End ptrs.

(** *** Slices *)

Section slices.
Context `{Cell cell T} `{DV : Deep cell T D}.

Lemma own_foot_slice h (s : slice T) k o n vs :
  slice_at s = Some (k, o, n) → k ∉ shared → slice_elems h s = Some vs →
  own_foot h s = k :: own_foot h vs.
Proof.
  intros Hat Hk Hvs. unfold own_foot. cbn [dfoot slice_deep]. rewrite Hat, Hvs.
  by rewrite filter_cons_True.
Qed.

Lemma owns_slice h (s : slice T) k o n ds :
  slice_at s = Some (k, o, n) → k ∉ shared → owns h s (Some ds) →
  ∃ vs, slice_elems h s = Some vs ∧ owns h vs ds ∧ k ∉ own_foot h vs ∧
    own_foot h s = k :: own_foot h vs.
Proof.
  intros Hat Hk [Hd Hn]. cbn [dload slice_deep] in Hd. rewrite Hat in Hd.
  apply bind_Some in Hd as (vs & Hvs & (x & Hx & [= ->])%fmap_Some).
  pose proof (own_foot_slice h s k o n vs Hat Hk Hvs) as E. rewrite E in Hn.
  apply NoDup_cons in Hn as [Hn1 Hn2]. exists vs. by split_and!.
Qed.

Lemma slice_intro h F h' (s : slice T) k o n vs ds :
  slice_at s = Some (k, o, n) → slice_elems h' s = Some vs → k ∉ shared → k ∉ own_foot h' vs →
  owns h' vs ds → frame h F h' (own_foot h' vs) → k ∈ F ∨ h !! k = None →
  update h F h' s (Some ds).
Proof.
  intros Hat Hvs Hs Hk [Hd Hn] [Fs Fn Fd] HF.
  pose proof (own_foot_slice h' s k o n vs Hat Hs Hvs) as E.
  split; [split|split]; rewrite ?E; try done.
  - cbn [dload slice_deep]. rewrite Hat, Hvs. cbn. cbn in Hd. by rewrite Hd.
  - by apply NoDup_cons.
  - intros j [->|Hj]%elem_of_cons; [done|by apply Fn].
Qed.

(** [s[i] = v'], after work on what the element owned. *)
Lemma slice_set_elem h (s : slice T) k o n pre v v' post dpre d d' dpost h1 :
  slice_at s = Some (k, o, n) → k ∉ shared → slice_elems h s = Some (pre ++ v :: post) →
  length pre = length dpre → owns h s (Some (dpre ++ d :: dpost)) →
  update h (own_foot h v) h1 v' d' →
  ∃ h2, set_elem s (length pre) v' h1 = Some (h2, tt) ∧
    slice_elems h2 s = Some (pre ++ v' :: post) ∧
    update h (own_foot h s) h2 s (Some (dpre ++ d' :: dpost)).
Proof.
  intros Hat Hs Hvs Hlen Ho Hup.
  destruct (owns_slice h s k o n _ Hat Hs Ho) as (vs & Hvs' & Hol & Hk & E).
  rewrite Hvs in Hvs'. injection Hvs' as <-.
  pose proof (list_update h pre post v v' dpre d d' dpost h1 Hlen Hol Hup) as Hul.
  assert (is_Some (h !! k)) as Hdom.
  { unfold slice_elems in Hvs. rewrite Hat in Hvs. by destruct (h !! k). }
  pose proof (update_not_elem h _ h1 _ _ k Hdom Hk Hul) as Hk1.
  assert (slice_elems h1 s = Some (pre ++ v :: post)) as Hvs1.
  { rewrite <- Hvs. unfold slice_elems. rewrite Hat.
    by rewrite (fr_same _ _ _ _ (up_frame _ _ _ _ _ Hul) k Hdom Hk). }
  destruct (set_elem_slice h1 s _ (length pre) v' Hvs1) as (k2 & o2 & n2 & obj & Hat2 & Hrun & Hvs2).
  { rewrite length_app. cbn. lia. }
  rewrite Hat in Hat2. injection Hat2 as <- <- <-. exists (<[k := obj]> h1). split; [exact Hrun|].
  rewrite insert_app_r_alt, Nat.sub_diag in Hvs2 by lia. cbn in Hvs2. split; [exact Hvs2|].
  assert (frame h1 [k] (<[k := obj]> h1) [k]) as F1 by (apply frame_insert; [left; left|by left]).
  destruct (owns_keep h1 _ _ _ (pre ++ v' :: post) (dpre ++ d' :: dpost) F1) as (Ho2 & _ & E2); [|apply Hul|].
  { intros j ->%list_elem_of_singleton Hj. by apply Hk1, elem_of_own_foot. }
  rewrite E. apply (slice_intro h _ _ s k o n (pre ++ v' :: post)); try done;
    rewrite ?E2; try done; [|left; left].
  destruct (up_frame _ _ _ _ _ Hul) as [Fs Fn Fd]. split.
  - intros j Hj [Hjk HjF]%not_elem_of_cons. rewrite lookup_insert_ne by done. by apply Fs.
  - intros j Hj. destruct (Fn j Hj); [left; by right|by right].
  - intros j Hj. rewrite lookup_insert. case_decide; [done|]. by apply Fd.
Qed.

(** [append(s, v)] of a value that owns nothing. *)
Lemma slice_append spare h (s : slice T) os v d :
  shared ⊆ dom h → (∀ k o n, slice_at s = Some (k, o, n) → k ∉ shared) →
  owns h s os → dload h v = Some d → own_foot h v = [] →
  ∃ h' s', append spare s v h = Some (h', s') ∧
    update h (own_foot h s) h' s' (Some (default [] os ++ [d])).
Proof.
  intros Hsh Hs Ho Hv Hfv.
  assert (∃ vs, slice_elems h s = Some vs ∧ owns h vs (default [] os) ∧
    (∀ k o n, slice_at s = Some (k, o, n) → k ∉ own_foot h vs) ∧
    own_foot h vs ⊆ own_foot h s ∧
    (∀ k o n, slice_at s = Some (k, o, n) → k ∈ own_foot h s)) as (vs & Hvs & Hol & Hk & Hsub & Hin).
  { destruct s as [[[[k o] n]|]].
    - destruct os as [ds|].
      2:{ destruct Ho as [Hd _]. cbn [dload slice_deep slice_at] in Hd.
          by apply bind_Some in Hd as (? & _ & (? & _ & ?)%fmap_Some). }
      destruct (owns_slice h (Slice (Some (k, o, n))) k o n ds eq_refl (Hs k o n eq_refl) Ho) as (vs & Hvs & Hol & Hk & E).
      exists vs. rewrite E. split_and!; try done; [by intros ? ? ? [= <- <- <-]|by right|].
      intros ? ? ? [= <- <- <-]. left.
    - exists []. destruct Ho as [Hd _]. cbn in Hd. injection Hd as <-.
      split_and!; try done. split; [done|constructor]. }
  destruct (append_slice spare h s vs v Hvs) as (l & o & n & obj & Hrun & Hvs' & Hl).
  eexists _, _. split; [exact Hrun|].
  assert (owns h (vs ++ [v]) (default [] os ++ [d]) ∧ own_foot h (vs ++ [v]) = own_foot h vs) as [Hov Ev].
  { assert (own_foot h (vs ++ [v]) = own_foot h vs) as Ev.
    { rewrite own_foot_app. unfold own_foot in *. cbn. unfold list_foot at 2. cbn.
      by rewrite app_nil_r, Hfv, app_nil_r. }
    split; [|done]. destruct Hol as [Hd Hn]. split; [|by rewrite Ev]. cbn in *.
    apply list_load_app; [done|]. unfold list_load. cbn. by rewrite Hv. }
  assert (l ∉ shared) as Hls.
  { destruct Hl as [Hl|(o' & n' & Hl)]; [|by eapply Hs].
    intros Hx%Hsh%elem_of_dom. rewrite Hl in Hx. by destruct Hx. }
  assert (l ∉ own_foot h vs) as Hlv.
  { destruct Hl as [Hl|(o' & n' & Hl)]; [|by eapply Hk].
    intros Hx. destruct (own_foot_dom h vs _ l (own_load _ _ _ Hol) Hx). congruence. }
  assert (frame h [l] (<[l := obj]> h) [l]) as F1 by (apply frame_insert; [left; left|by left]).
  destruct (owns_keep h _ _ _ (vs ++ [v]) (default [] os ++ [d]) F1) as (Ho2 & _ & E2); [|done|].
  { intros j ->%list_elem_of_singleton Hj. apply Hlv. rewrite <- Ev. by apply elem_of_own_foot. }
  apply (slice_intro h _ _ _ l o n (vs ++ [v])); try done; rewrite ?E2, ?Ev; try done.
  - apply frame_insert.
    + destruct Hl as [Hl|(o' & n' & Hl)]; [by right|left; by eapply Hin].
    + intros j Hj. left. by apply Hsub.
  - destruct Hl as [Hl|(o' & n' & Hl)]; [by right|left; by eapply Hin].
Qed.

Lemma slice_of_update h F h1 (v : T) d :
  shared ⊆ dom h → update h F h1 v d →
  ∃ h2 s, slice_of v h1 = Some (h2, s) ∧ update h F h2 s (Some [d]).
Proof.
  intros Hsh Hup. set (l := new_loc h1). pose proof (new_loc_fresh h1) as Hnew. fold l in Hnew.
  destruct (up_frame _ _ _ _ _ Hup) as [Fs Fn Fd].
  assert (h !! l = None) as Hl.
  { destruct (h !! l) eqn:E; [|done]. destruct (Fd l) as [x Hx]; [by eexists|congruence]. }
  assert (frame h1 [] (<[l := Arr [to_cell v]]> h1) []) as F1.
  { apply frame_insert; [by right|by left]. }
  destruct (owns_keep h1 _ _ _ v d F1) as (Ho2 & _ & E2); [by intros k ?%not_elem_of_nil|apply Hup|].
  assert (∀ h', own_foot h' [v] = own_foot h' v) as Ev.
  { intros h'. unfold own_foot. cbn. unfold list_foot. cbn. by rewrite app_nil_r. }
  exists (<[l := Arr [to_cell v]]> h1), (Slice (Some (l, 0%nat, 1%nat))). split; [done|].
  apply (slice_intro h F _ _ l 0%nat 1%nat [v] [d]); rewrite ?Ev, ?E2; [done| | | | | |by right].
  - apply slice_elems_Some. exists [to_cell v]. rewrite lookup_insert_eq. split; [done|].
    split; [done|]. cbn. by rewrite of_to_cell.
  - intros Hin%Hsh%elem_of_dom. rewrite Hl in Hin. by destruct Hin.
  - intros Hin. destruct (own_foot_dom h1 v d l) as [x Hx]; [apply Hup|done|congruence].
  - destruct Ho2 as [Hd Hn]. split; [cbn; unfold list_load; cbn; by rewrite Hd|].
    by rewrite Ev.
  - split; [|done|].
    + intros k Hk Hn. rewrite lookup_insert_ne; [by apply Fs|]. intros <-. rewrite Hl in Hk. by destruct Hk.
    + intros k Hk. rewrite lookup_insert. case_decide; [done|]. by apply Fd.
Qed.
End slices.

(** *** Maps *)

Section maps.
Context {T : Type}.
Abbreviation mapref := (mapref T).

Lemma own_foot_map h l : l ∉ shared → own_foot h (MapRef (Some l) : mapref) = [l].
Proof.
  intros Hl. unfold own_foot. cbn [dfoot mapref_deep map_at]. by rewrite filter_cons_True.
Qed.

Lemma map_write h F h' l m :
  l ∉ shared → h' !! l = Some (Map m) → frame h F h' [l] →
  update h F h' (MapRef (Some l) : mapref) (Some m).
Proof.
  intros Hl Hm Hf. split; [split|]; rewrite ?own_foot_map by done.
  - cbn. by rewrite Hm.
  - apply NoDup_singleton.
  - done.
Qed.

Lemma make_map_update h :
  shared ⊆ dom h → ∃ h' l, make_map T h = Some (h', MapRef (Some l)) ∧ l ∉ shared ∧
    update h [] h' (MapRef (Some l) : mapref) (Some ∅).
Proof.
  intros Hsh. pose proof (new_loc_fresh h) as Hnew.
  assert (new_loc h ∉ shared) as Hl.
  { intros Hx%Hsh%elem_of_dom. rewrite Hnew in Hx. by destruct Hx. }
  eexists _, (new_loc h). split; [done|]. split; [done|].
  apply map_write; [done|apply lookup_insert_eq|]. apply frame_insert; [by right|].
  intros j ->%list_elem_of_singleton. by right.
Qed.

Lemma map_insert_update h l m k c :
  l ∉ shared → dload h (MapRef (Some l) : mapref) = Some (Some m) →
  ∃ h', map_insert (MapRef (Some l) : mapref) k c h = Some (h', tt) ∧
    update h [l] h' (MapRef (Some l) : mapref) (Some (<[k := c]> m)).
Proof.
  intros Hl Hm. cbn in Hm. destruct (h !! l) as [[cs|m']|] eqn:E; [done| |done]. injection Hm as ->.
  eexists. split.
  - unfold map_insert, mbind, H_bind, read_map, write_map. cbn. by rewrite E.
  - apply map_write; [done|apply lookup_insert_eq|]. apply frame_insert; [left; left|by left].
Qed.

Lemma map_delete_update h l m k :
  l ∉ shared → dload h (MapRef (Some l) : mapref) = Some (Some m) →
  ∃ h', map_delete (MapRef (Some l) : mapref) k h = Some (h', tt) ∧
    update h [l] h' (MapRef (Some l) : mapref) (Some (delete k m)).
Proof.
  intros Hl Hm. cbn in Hm. destruct (h !! l) as [[cs|m']|] eqn:E; [done| |done]. injection Hm as ->.
  eexists. split.
  - unfold map_delete, mbind, H_bind, read_map, write_map. cbn. by rewrite E.
  - apply map_write; [done|apply lookup_insert_eq|]. apply frame_insert; [left; left|by left].
Qed.
End maps.
End owned.
