(* ===== verification/Kube.v ===== *)
(** * The Kubernetes objects and the PackingProfile API

    The fields of the core/v1 objects that Kompakt reads or writes, the types
    of [api/v1alpha1/packingprofile_types.go], the shared keys of
    [internal/kompakt/labels.go], and the API client as a record of the
    responses it gives.  Enumerations that are strings in the API stay
    strings. *)

From S2P Require Import Prelude.

(** ** [internal/kompakt/labels.go] *)

Definition LabelProfile : string := "packer.kompakt.io/packing-profile".
Definition LabelExclude : string := "kompakt.io/exclude".
Definition AnnotationPriority : string := "kompakt.io/priority".
Definition AnnotationTraceID : string := "kompakt.io/trace-id".
Definition AnnotationReason : string := "kompakt.io/gate-reason".
Definition AnnotationNode : string := "kompakt.io/target-node".
Definition AnnotationHeldBy : string := "kompakt.io/held-by".
Definition GatePrefix : string := "kompakt.io/".

(** ** core/v1

    [resource.Quantity] belongs to apimachinery: a type and its
    [MilliValue()], an int64, are parameters. *)

Class Kube := {
  Quantity : Type;
  MilliValue : Quantity → Z;
  MilliValue_int64 q : in_int64 (MilliValue q)
}.

Definition TolerationOpExists : string := "Exists".
Definition TolerationOpEqual : string := "Equal".
Definition TaintEffectNoSchedule : string := "NoSchedule".
Definition TaintEffectNoExecute : string := "NoExecute".
Definition NodeSelectorOpIn : string := "In".
Definition NodeReady : string := "Ready".
Definition ConditionTrue : string := "True".
Definition ConditionFalse : string := "False".
Definition PodSucceeded : string := "Succeeded".
Definition PodFailed : string := "Failed".

Record Toleration := {
  tol_Key : string;
  tol_Operator : string;
  tol_Value : string;
  tol_Effect : string
}.

Record Taint := {
  taint_Key : string;
  taint_Value : string;
  taint_Effect : string
}.

Record PodSchedulingGate := { gate_Name : string }.

Record NodeSelectorRequirement := {
  req_Key : string;
  req_Operator : string;
  req_Values : list string
}.

Record NodeSelectorTerm := {
  term_MatchExpressions : list NodeSelectorRequirement;
  term_MatchFields : list NodeSelectorRequirement
}.

Record NodeSelector := { sel_Terms : list NodeSelectorTerm }.

Record NodeAffinity := { na_Required : option NodeSelector }.

Record Affinity := { aff_NodeAffinity : option NodeAffinity }.

#[global] Instance Toleration_eq_dec : EqDecision Toleration.
Proof. solve_decision. Defined.
#[global] Instance Taint_eq_dec : EqDecision Taint.
Proof. solve_decision. Defined.
#[global] Instance PodSchedulingGate_eq_dec : EqDecision PodSchedulingGate.
Proof. solve_decision. Defined.
#[global] Instance NodeSelectorRequirement_eq_dec : EqDecision NodeSelectorRequirement.
Proof. solve_decision. Defined.
#[global] Instance NodeSelectorTerm_eq_dec : EqDecision NodeSelectorTerm.
Proof. solve_decision. Defined.

Record NodeCondition := {
  nc_Type : string;
  nc_Status : string;
  nc_LastTransitionTime : Z
}.

Record ConfigMap := { cm_Data : strmap }.

Record Event := {
  ev_Component : string;
  ev_Reason : string;
  ev_Message : string;
  ev_LastTimestamp : Z;
  ev_CreationTimestamp : Z
}.

Section objects.
Context {K : Kube}.

Record Container := { ctr_Requests : gmap string Quantity }.

Record Pod := {
  pod_Name : string;
  pod_Namespace : string;
  pod_Labels : strmap;
  pod_Annotations : strmap;
  pod_CreationTimestamp : Z;
  pod_Containers : list Container;
  pod_Tolerations : list Toleration;
  pod_NodeSelector : strmap;
  pod_SchedulingGates : list PodSchedulingGate;
  pod_Affinity : option Affinity;
  pod_NodeName : string;
  pod_Phase : string
}.

Record Node := {
  node_Name : string;
  node_Labels : strmap;
  node_CreationTimestamp : Z;
  node_DeletionTimestamp : option Z;
  node_Taints : list Taint;
  node_Allocatable : gmap string Quantity;
  node_Conditions : list NodeCondition
}.

(** The pod with new annotations, gates or affinity. *)
Definition set_Annotations (p : Pod) (a : strmap) : Pod := {|
  pod_Name := pod_Name p; pod_Namespace := pod_Namespace p;
  pod_Labels := pod_Labels p; pod_Annotations := a;
  pod_CreationTimestamp := pod_CreationTimestamp p;
  pod_Containers := pod_Containers p; pod_Tolerations := pod_Tolerations p;
  pod_NodeSelector := pod_NodeSelector p;
  pod_SchedulingGates := pod_SchedulingGates p;
  pod_Affinity := pod_Affinity p; pod_NodeName := pod_NodeName p;
  pod_Phase := pod_Phase p |}.

Definition set_SchedulingGates (p : Pod) (g : list PodSchedulingGate) : Pod := {|
  pod_Name := pod_Name p; pod_Namespace := pod_Namespace p;
  pod_Labels := pod_Labels p; pod_Annotations := pod_Annotations p;
  pod_CreationTimestamp := pod_CreationTimestamp p;
  pod_Containers := pod_Containers p; pod_Tolerations := pod_Tolerations p;
  pod_NodeSelector := pod_NodeSelector p;
  pod_SchedulingGates := g;
  pod_Affinity := pod_Affinity p; pod_NodeName := pod_NodeName p;
  pod_Phase := pod_Phase p |}.

Definition set_Affinity (p : Pod) (a : option Affinity) : Pod := {|
  pod_Name := pod_Name p; pod_Namespace := pod_Namespace p;
  pod_Labels := pod_Labels p; pod_Annotations := pod_Annotations p;
  pod_CreationTimestamp := pod_CreationTimestamp p;
  pod_Containers := pod_Containers p; pod_Tolerations := pod_Tolerations p;
  pod_NodeSelector := pod_NodeSelector p;
  pod_SchedulingGates := pod_SchedulingGates p;
  pod_Affinity := a; pod_NodeName := pod_NodeName p;
  pod_Phase := pod_Phase p |}.
End objects.

(** Assignment [m[k] = v] after the code's nil check, and [delete(m, k)]. *)
Definition sinsert (k v : string) (m : strmap) : strmap := Some (<[k := v]> (smap m)).
Definition sdelete (k : string) (m : strmap) : strmap := delete k <$> m.

Lemma slookup_sinsert k v m k' :
  slookup (sinsert k v m) k' = if decide (k = k') then Some v else slookup m k'.
Proof. unfold slookup. simpl. apply lookup_insert. Qed.

Lemma slookup_sdelete k m k' :
  slookup (sdelete k m) k' = if decide (k = k') then None else slookup m k'.
Proof.
  unfold slookup. destruct m as [m|]; simpl; [apply lookup_delete|].
  rewrite lookup_empty. by case_decide.
Qed.

(** ** [api/v1alpha1] *)

Record DemandSource := {
  ds_Type : string;
  ds_Resources : list string;
  ds_AdditionalResources : list string;
  ds_Annotation : string;
  ds_Unit : string
}.

Record NodeGroupTaint := {
  ngt_Key : string;
  ngt_Value : string;
  ngt_Effect : string
}.

Record NodeGroupTemplate := {
  tmpl_NamePrefix : string;
  tmpl_InstanceType : string;
  tmpl_Allocatable : gmap string Z;
  tmpl_Labels : strmap;
  tmpl_Taints : list NodeGroupTaint
}.

Record LabelRef := { lr_Label : string }.

Record CapacitySource := {
  cs_Type : string;
  cs_Resources : list string;
  cs_Label : string;
  cs_PerDeviceCount : option LabelRef;
  cs_NodeGroupTemplates : list NodeGroupTemplate
}.

Record NodeConditionRequirement := { ncr_Type : string; ncr_Status : string }.

Record ReadinessSignal := {
  rs_NodeConditions : list NodeConditionRequirement;
  rs_RequiredLabels : list string
}.

Record RuleRef := { ruleref_Name : string }.

Record PackingProfileSpec := {
  spec_DemandSource : DemandSource;
  spec_CapacitySource : CapacitySource;
  spec_ReadinessSignal : ReadinessSignal;
  spec_Rules : list RuleRef;
  spec_ReservationTimeout : string
}.

(** [metav1.Condition] *)
Record Condition := {
  cond_Type : string;
  cond_Status : string;
  cond_Reason : string;
  cond_Message : string;
  cond_LastTransitionTime : Z
}.

Record PackingProfileStatus := {
  st_ActiveGates : Z;
  st_InflightNodes : Z;
  st_ActiveDetectors : list string;
  st_Conditions : list Condition
}.

Record PackingProfile := {
  profile_Name : string;
  profile_Spec : PackingProfileSpec;
  profile_Status : PackingProfileStatus
}.

Definition set_Status (p : PackingProfile) (s : PackingProfileStatus) : PackingProfile := {|
  profile_Name := profile_Name p;
  profile_Spec := profile_Spec p;
  profile_Status := s |}.

Definition set_Conditions (p : PackingProfile) (c : list Condition) : PackingProfile :=
  let s := profile_Status p in
  set_Status p {|
    st_ActiveGates := st_ActiveGates s;
    st_InflightNodes := st_InflightNodes s;
    st_ActiveDetectors := st_ActiveDetectors s;
    st_Conditions := c |}.

(** ** Instances used to evaluate the model *)

(** Quantities that are their milli-value. *)
Definition kube_milli : Kube := {|
  Quantity := Z;
  MilliValue q := wrap64 q;
  MilliValue_int64 q := wrap64_range q
|}.
