(* ===== verification/Scheduling.v ===== *)
(** * Tolerations

    [internal/scheduling/tolerations.go], and its agreement with the rule the
    Kubernetes documentation gives for a toleration that passed the API
    server's validation. *)

From S2P Require Import Prelude Kube.

(** The effect test shared by both branches of the loop. *)
Definition effect_matches (t : Toleration) (taint : Taint) : bool :=
  bool_decide (tol_Effect t = "") || bool_decide (tol_Effect t = taint_Effect taint).

(** [TolerateTaint]: the loop returns true at the first toleration that
    passes one of its two tests. *)
Fixpoint TolerateTaint (tolerations : list Toleration) (taint : Taint) : bool :=
  match tolerations with
  | [] => false
  | t :: rest =>
      if bool_decide (tol_Operator t = TolerationOpExists)
         && (bool_decide (tol_Key t = "") || bool_decide (tol_Key t = taint_Key taint))
         && effect_matches t taint
      then true
      else if bool_decide (tol_Key t = taint_Key taint)
              && bool_decide (tol_Value t = taint_Value taint)
              && effect_matches t taint
      then true
      else TolerateTaint rest taint
  end.

(** ** The documented rule

    A toleration matches a taint when the effects match (an empty effect
    matches all), the keys match (an empty key matches all), and either the
    operator is [Exists], or it is [Equal] (also when empty) and the values
    are equal. *)
Definition tolerates (t : Toleration) (taint : Taint) : Prop :=
  (tol_Effect t = "" ∨ tol_Effect t = taint_Effect taint) ∧
  (tol_Key t = "" ∨ tol_Key t = taint_Key taint) ∧
  (tol_Operator t = TolerationOpExists ∨
   (tol_Operator t = "" ∨ tol_Operator t = TolerationOpEqual) ∧
   tol_Value t = taint_Value taint).

(** What the API server's validation enforces: a known operator, no value
    with [Exists], and [Exists] when the key is empty. *)
Definition valid_toleration (t : Toleration) : Prop :=
  (tol_Operator t = "" ∨ tol_Operator t = TolerationOpEqual
   ∨ tol_Operator t = TolerationOpExists) ∧
  (tol_Operator t = TolerationOpExists → tol_Value t = "") ∧
  (tol_Key t = "" → tol_Operator t = TolerationOpExists).

#[global] Instance tolerates_dec t taint : Decision (tolerates t taint).
Proof. unfold tolerates. apply _. Defined.
#[global] Instance valid_toleration_dec t : Decision (valid_toleration t).
Proof. unfold valid_toleration. apply _. Defined.

(** One toleration's test in the loop. *)
Definition toleration_test (taint : Taint) (t : Toleration) : bool :=
  (bool_decide (tol_Operator t = TolerationOpExists)
     && (bool_decide (tol_Key t = "") || bool_decide (tol_Key t = taint_Key taint))
     && effect_matches t taint)
  || (bool_decide (tol_Key t = taint_Key taint)
        && bool_decide (tol_Value t = taint_Value taint)
        && effect_matches t taint).

Lemma TolerateTaint_existsb ts taint :
  TolerateTaint ts taint = existsb (toleration_test taint) ts.
Proof.
  induction ts as [|t ts IH]; [done|]. cbn -[bool_decide]. unfold toleration_test at 1.
  rewrite <- IH. by repeat case_match.
Qed.

Lemma toleration_test_spec taint t :
  valid_toleration t → toleration_test taint t = true ↔ tolerates t taint.
Proof.
  intros (Hop & Hval & Hkey). unfold toleration_test, effect_matches, tolerates.
  rewrite orb_true_iff, !andb_true_iff, !orb_true_iff, !bool_decide_eq_true.
  split.
  - intros [[[Ho Hk] He]|[[Hk Hv] He]]; [by auto|].
    naive_solver.
  - intros (He & Hk & [Ho|[Ho Hv]]); [by auto|].
    destruct Hk as [Hk|Hk]; [|by auto].
    specialize (Hkey Hk). rewrite Hkey in Ho. by destruct Ho.
Qed.

Create HintDb kompakt discriminated.

(** Tolerations are matched as Kubernetes documents.  For tolerations that
    pass the API server's validation, [TolerateTaint] holds exactly when some
    toleration tolerates the taint by the documented rule. *)
Lemma TolerateTaint_spec ts taint :
  Forall valid_toleration ts →
  TolerateTaint ts taint = true ↔ ∃ t, t ∈ ts ∧ tolerates t taint.
Proof.
  intros H. rewrite TolerateTaint_existsb, existsb_elem. rewrite Forall_forall in H.
  split; intros (t & Ht & Hr); exists t; (split; [done|]); by apply toleration_test_spec; auto.
Qed.

