(* ===== verification/Ledger.v ===== *)
(** * The node ledger

    [internal/ledger/ledger.go]: the capacity the controller knows of.  Each
    method holds the ledger's mutex for its whole body, so it is one atomic
    function on the ledger's state; [Reserve] returns the new ledger with its
    error.  A [range] loop takes its order from the [MapOrder] in scope.

    The first part translates the file, the second gives each operation its
    order-free characterisation, on which the other files build. *)

From S2P Require Import Prelude GoStrings Kube Scheduling.

Create Rewrite HintDb kompakt_simpl.

(** ** State *)

Record nodeEntry := NodeEntry {
  allocatable : gmap string Z;
  used : gmap string Z;
  reserved : gmap string Z;
  labels : strmap;
  taints : list Taint
}.

Record PodSchedulingConstraints := {
  psc_Tolerations : list Toleration;
  psc_NodeSelector : strmap
}.

Record NodeLedger := MkLedger {
  nodes : gmap string nodeEntry;
  inflight : gmap string nodeEntry
}.

Record LedgerSnapshot := {
  NodeCount : Z;
  InflightCount : Z;
  TotalAllocatable : gmap string Z
}.

Definition errNoFit : goerror := errors_New "no node with sufficient capacity".

Definition available (n : nodeEntry) (resource : string) : Z :=
  (allocatable n)⟦resource⟧ ⊖ (used n)⟦resource⟧ ⊖ (reserved n)⟦resource⟧.

Definition set_used (n : nodeEntry) (u : gmap string Z) : nodeEntry :=
  NodeEntry (allocatable n) u (reserved n) (labels n) (taints n).
Definition set_reserved (n : nodeEntry) (r : gmap string Z) : nodeEntry :=
  NodeEntry (allocatable n) (used n) r (labels n) (taints n).
Definition set_nodes (l : NodeLedger) (m : gmap string nodeEntry) : NodeLedger :=
  MkLedger m (inflight l).
Definition set_inflight (l : NodeLedger) (m : gmap string nodeEntry) : NodeLedger :=
  MkLedger (nodes l) m.

(** [New] *)
Definition New : NodeLedger := MkLedger ∅ ∅.

(** [findEntry]: existing nodes hide in-flight nodes of the same name. *)
Definition findEntry (l : NodeLedger) (name : string) : option nodeEntry :=
  match nodes l !! name with
  | Some n => Some n
  | None => inflight l !! name
  end.

(** Writing through the pointer that [findEntry] returned. *)
Definition writeEntry (l : NodeLedger) (name : string) (n : nodeEntry) : NodeLedger :=
  match nodes l !! name with
  | Some _ => set_nodes l (<[name := n]> (nodes l))
  | None => set_inflight l (<[name := n]> (inflight l))
  end.

Section operations.
Context {O : MapOrder}.

Definition copyMap (m : gmap string Z) : gmap string Z :=
  foldl (λ c '(k, v), <[k := v]> c) ∅ (range "copyMap" m).

Definition copyStringMap (m : strmap) : strmap :=
  match m with
  | None => None
  | Some m => Some (foldl (λ c '(k, v), <[k := v]> c) ∅ (range "copyStringMap" m))
  end.

(** [toleratesTaint] delegates to the scheduling package. *)
Definition toleratesTaint (tolerations : list Toleration) (taint : Taint) : bool :=
  TolerateTaint tolerations taint.

(** The loop over a node's taints: false at the first NoSchedule or
    NoExecute taint that is not tolerated. *)
Fixpoint taints_tolerated (ts : list Taint) (tolerations : list Toleration) : bool :=
  match ts with
  | [] => true
  | taint :: ts =>
      if negb (bool_decide (taint_Effect taint = TaintEffectNoSchedule))
         && negb (bool_decide (taint_Effect taint = TaintEffectNoExecute))
      then taints_tolerated ts tolerations
      else if toleratesTaint tolerations taint then taints_tolerated ts tolerations
      else false
  end.

(** The loop over the selector: false at the first label that differs. *)
Fixpoint selector_matches (sel : list (string * string)) (ls : strmap) : bool :=
  match sel with
  | [] => true
  | (key, val) :: sel =>
      if bool_decide (sget ls key = val) then selector_matches sel ls else false
  end.

Definition nodeMatchesConstraints (n : nodeEntry)
    (constraints : option PodSchedulingConstraints) : bool :=
  match constraints with
  | None => true
  | Some c =>
      if taints_tolerated (taints n) (psc_Tolerations c)
      then selector_matches (range "nodeSelector" (smap (psc_NodeSelector c))) (labels n)
      else false
  end.

Definition AddNode (l : NodeLedger) (name : string) (alloc : gmap string Z)
    (ls : strmap) (ts : list Taint) : NodeLedger :=
  set_nodes l (<[name := {| allocatable := copyMap alloc; used := ∅; reserved := ∅;
    labels := copyStringMap ls; taints := ts |}]> (nodes l)).

Definition ClearNodes (l : NodeLedger) : NodeLedger := set_nodes l ∅.

Definition ClearInflight (l : NodeLedger) : NodeLedger := set_inflight l ∅.

Definition ClearInflightByPrefix (l : NodeLedger) (prefix : string) : NodeLedger :=
  set_inflight l
    (foldl (λ m '(name, _), if HasPrefix name prefix then delete name m else m)
      (inflight l) (range "ClearInflightByPrefix" (inflight l))).

(** One loop of [SnapshotReservations]. *)
Definition snapshot_loop (es : list (string * nodeEntry))
    (snap : gmap string (gmap string Z)) : gmap string (gmap string Z) :=
  foldl (λ snap '(name, n),
      if map_empty (reserved n) then snap
      else <[name := copyMap (reserved n)]> snap) snap es.

Definition SnapshotReservations (l : NodeLedger) : gmap string (gmap string Z) :=
  snapshot_loop (range "inflight" (inflight l))
    (snapshot_loop (range "nodes" (nodes l)) ∅).

Definition restore_one (l : NodeLedger) (name : string) (res : gmap string Z) :
  NodeLedger :=
  let l :=
    match nodes l !! name with
    | Some n => set_nodes l (<[name := set_reserved n (copyMap res)]> (nodes l))
    | None => l
    end in
  match inflight l !! name with
  | Some n => set_inflight l (<[name := set_reserved n (copyMap res)]> (inflight l))
  | None => l
  end.

Definition RestoreReservations (l : NodeLedger)
    (snap : gmap string (gmap string Z)) : NodeLedger :=
  foldl (λ l '(name, res), restore_one l name res) l (range "snap" snap).

Definition RemoveNode (l : NodeLedger) (name : string) : NodeLedger :=
  set_nodes l (delete name (nodes l)).

Definition UpdateUsage (l : NodeLedger) (name : string) (u : gmap string Z) :
  NodeLedger :=
  match nodes l !! name with
  | Some n => set_nodes l (<[name := set_used n (copyMap u)]> (nodes l))
  | None => l
  end.

Definition AddInflightNode (l : NodeLedger) (name : string) (alloc : gmap string Z)
    (ls : strmap) (ts : list Taint) : NodeLedger :=
  set_inflight l (<[name := {| allocatable := copyMap alloc; used := ∅; reserved := ∅;
    labels := copyStringMap ls; taints := ts |}]> (inflight l)).

Definition RemoveInflightNode (l : NodeLedger) (name : string) : NodeLedger :=
  set_inflight l (delete name (inflight l)).

(** The first loop of [Reserve]: an error at the first shortage. *)
Fixpoint check_demand (n : nodeEntry) (demand : list (string * Z)) : bool :=
  match demand with
  | [] => true
  | (res, qty) :: demand =>
      if available n res <? qty then false else check_demand n demand
  end.

Definition Reserve (l : NodeLedger) (nodeName : string) (demand : gmap string Z) :
  NodeLedger * option goerror :=
  match findEntry l nodeName with
  | None => (l, Some errNoFit)
  | Some n =>
      if check_demand n (range "check" demand) then
        let r := foldl (λ r '(res, qty), <[res := r⟦res⟧ ⊕ qty]> r) (reserved n)
                   (range "reserve" demand) in
        (writeEntry l nodeName (set_reserved n r), None)
      else (l, Some errNoFit)
  end.

Definition ReleaseReservation (l : NodeLedger) (nodeName : string)
    (demand : gmap string Z) : NodeLedger :=
  match findEntry l nodeName with
  | None => l
  | Some n =>
      let r := foldl (λ r '(res, qty),
                   <[res := let x := r⟦res⟧ ⊖ qty in if x <? 0 then 0 else x]> r)
                 (reserved n) (range "demand" demand) in
      writeEntry l nodeName (set_reserved n r)
  end.

(** The loop over the demand in [FindFit] and [FindFitExisting]: [None]
    when some resource does not fit, else the accumulated slack. *)
Fixpoint slack_loop (n : nodeEntry) (demand : list (string * Z)) (totalSlack : Z) :
  option Z :=
  match demand with
  | [] => Some totalSlack
  | (res, qty) :: demand =>
      let avail := available n res in
      if avail <? qty then None
      else slack_loop n demand (totalSlack ⊕ (avail ⊖ qty))
  end.

Record best := Best { bestName : string; bestSlack : Z; bestInflight : bool }.

(** The closure [check] of [FindFit]. *)
Definition check (demand : gmap string Z)
    (constraints : option PodSchedulingConstraints) (infl : bool) (b : best)
    (entry : string * nodeEntry) : best :=
  let '(nodeName, n) := entry in
  if negb (nodeMatchesConstraints n constraints) then b
  else
    match slack_loop n
            (range ((if infl then "inflight/" else "nodes/") +:+ nodeName) demand) 0 with
    | None => b
    | Some totalSlack =>
        if (totalSlack <? bestSlack b)
           || (totalSlack =? bestSlack b) && negb infl && bestInflight b
        then Best nodeName totalSlack infl
        else b
    end.

Definition FindFit (l : NodeLedger) (demand : gmap string Z)
    (constraints : option PodSchedulingConstraints) : result (string * bool) :=
  let b := Best "" max_int64 false in
  let b := foldl (check demand constraints false) b (range "nodes" (nodes l)) in
  let b := foldl (check demand constraints true) b (range "inflight" (inflight l)) in
  if bool_decide (bestName b = "") then Err errNoFit
  else Ok (bestName b, bestInflight b).

(** The body of the loop of [FindFitExisting], with [(bestName, bestSlack)]. *)
Definition check_existing (demand : gmap string Z)
    (constraints : option PodSchedulingConstraints) (b : string * Z)
    (entry : string * nodeEntry) : string * Z :=
  let '(name, n) := entry in
  if negb (nodeMatchesConstraints n constraints) then b
  else
    match slack_loop n (range ("nodes/" +:+ name) demand) 0 with
    | Some totalSlack => if totalSlack <? b.2 then (name, totalSlack) else b
    | None => b
    end.

Definition FindFitExisting (l : NodeLedger) (demand : gmap string Z)
    (constraints : option PodSchedulingConstraints) : result string :=
  let b := foldl (check_existing demand constraints) ("", max_int64)
             (range "nodes" (nodes l)) in
  if bool_decide (b.1 = "") then Err errNoFit else Ok b.1.

Definition Snapshot (l : NodeLedger) : LedgerSnapshot := {|
  NodeCount := Z.of_nat (size (nodes l));
  InflightCount := Z.of_nat (size (inflight l));
  TotalAllocatable :=
    foldl (λ total '(name, n),
        foldl (λ total '(res, qty), map_add64 total res qty) total
          (range ("alloc/" +:+ name) (allocatable n)))
      ∅ (range "nodes" (nodes l)) |}.

Definition HasInflightSignal (l : NodeLedger) (prefix : string) : bool :=
  existsb (λ '(name, n), HasPrefix name prefix && map_empty (allocatable n))
    (range "inflight" (inflight l)).
End operations.

(** ** Characterisations

    What each loop computes, whatever its order. *)

(** The demand fits on the node. *)
Definition fits (n : nodeEntry) (demand : gmap string Z) : Prop :=
  map_Forall (λ res qty, qty ≤ available n res) demand.

#[global] Instance fits_dec n demand : Decision (fits n demand).
Proof. unfold fits. apply _. Defined.

(** The node's slack: the unreserved capacity the demand leaves, summed over
    the demanded resources modulo 2^64. *)
Definition slack (n : nodeEntry) (demand : gmap string Z) : Z :=
  wrap64 (sum_list_Z ((λ '(res, qty), available n res - qty) <$> map_to_list demand)).

(** The constraints hold on the node. *)
Definition node_matches (n : nodeEntry) (c : PodSchedulingConstraints) : Prop :=
  (∀ t, t ∈ taints n →
     taint_Effect t = TaintEffectNoSchedule ∨ taint_Effect t = TaintEffectNoExecute →
     TolerateTaint (psc_Tolerations c) t = true) ∧
  (∀ k v, slookup (psc_NodeSelector c) k = Some v → sget (labels n) k = v).

Lemma available_int64 n r : in_int64 (available n r).
Proof. apply wrap64_range. Qed.

Lemma available_wrap n r :
  available n r = wrap64 ((allocatable n)⟦r⟧ - (used n)⟦r⟧ - (reserved n)⟦r⟧).
Proof. unfold available. wrap64_lia. Qed.

#[export] Hint Resolve available_int64 : int64.

Section characterisations.
Context {O : MapOrder}.

Lemma copyMap_id m : copyMap m = m.
Proof. apply foldl_insert_range. Qed.

Lemma copyStringMap_id m : copyStringMap m = m.
Proof. destruct m; [|done]. simpl. by rewrite foldl_insert_range. Qed.

Lemma taints_tolerated_spec ts tols :
  taints_tolerated ts tols = true ↔
  ∀ t, t ∈ ts →
    taint_Effect t = TaintEffectNoSchedule ∨ taint_Effect t = TaintEffectNoExecute →
    TolerateTaint tols t = true.
Proof.
  induction ts as [|t ts IH]; cbn [taints_tolerated].
  { split; [|done]. intros _ t Ht. by apply not_elem_of_nil in Ht. }
  setoid_rewrite elem_of_cons. unfold toleratesTaint.
  destruct (decide (taint_Effect t = TaintEffectNoSchedule
    ∨ taint_Effect t = TaintEffectNoExecute)) as [He|He].
  - assert (negb (bool_decide (taint_Effect t = TaintEffectNoSchedule))
      && negb (bool_decide (taint_Effect t = TaintEffectNoExecute)) = false) as ->.
    { repeat case_bool_decide; tauto. }
    destruct (TolerateTaint tols t) eqn:Ht; [rewrite IH|]; split.
    + intros H t' [->|Hin]; auto.
    + auto.
    + done.
    + intros H. rewrite <- Ht. auto.
  - rewrite !bool_decide_false by tauto. cbn. rewrite IH. split; [|by auto].
    intros H t' [->|Hin]; [tauto|auto].
Qed.

Lemma selector_matches_forallb sel ls :
  selector_matches sel ls = forallb (λ '(k, v), bool_decide (sget ls k = v)) sel.
Proof. induction sel as [|[k v] sel IH]; simpl; [done|]. by case_bool_decide. Qed.

Lemma nodeMatchesConstraints_spec n c :
  nodeMatchesConstraints n c = true ↔ ∀ c', c = Some c' → node_matches n c'.
Proof.
  destruct c as [c|]; [|by split]. unfold nodeMatchesConstraints, node_matches.
  pose proof (taints_tolerated_spec (taints n) (psc_Tolerations c)) as Ht.
  destruct (taints_tolerated _ _).
  - rewrite selector_matches_forallb, forallb_range. setoid_rewrite bool_decide_eq_true.
    split; [intros H c' [= <-]; split; [by apply Ht|]; exact H|].
    intros H. by apply (H c).
  - split; [done|]. intros H. apply Ht. by apply (H c).
Qed.

Lemma check_demand_forallb n d :
  check_demand n d = forallb (λ '(r, q), q <=? available n r) d.
Proof.
  induction d as [|[r q] d IH]; simpl; [done|].
  destruct (Z.ltb_spec (available n r) q), (Z.leb_spec q (available n r)); lia || done.
Qed.

Lemma check_demand_spec n t demand :
  check_demand n (range t demand) = bool_decide (fits n demand).
Proof.
  apply Bool.eq_iff_eq_true. rewrite check_demand_forallb, forallb_range.
  rewrite bool_decide_eq_true. unfold fits, map_Forall.
  split; intros H k v Hk; specialize (H k v Hk); simpl in *; lia.
Qed.

Lemma slack_loop_list n d s :
  in_int64 s →
  slack_loop n d s =
  if forallb (λ '(r, q), q <=? available n r) d
  then Some (wrap64 (s + sum_list_Z ((λ '(r, q), available n r - q) <$> d)))
  else None.
Proof.
  revert s. induction d as [|[r q] d IH]; intros s Hs; csimpl.
  { by rewrite Z.add_0_r, wrap64_id. }
  destruct (Z.ltb_spec (available n r) q), (Z.leb_spec q (available n r));
    [lia|done| |lia]. simpl.
  rewrite IH by auto with int64. destruct (forallb _ _); [|done].
  f_equal. wrap64_lia.
Qed.

Lemma slack_loop_spec n t demand :
  slack_loop n (range t demand) 0 =
  if decide (fits n demand) then Some (slack n demand) else None.
Proof.
  rewrite slack_loop_list by done.
  rewrite <- check_demand_forallb, check_demand_spec.
  case_bool_decide; case_decide; [|done..].
  unfold slack. by rewrite range_perm.
Qed.

Lemma Reserve_spec l name demand :
  Reserve l name demand =
  match findEntry l name with
  | Some n =>
      if decide (fits n demand)
      then (writeEntry l name (set_reserved n (map_upd add64 (reserved n) demand)), None)
      else (l, Some errNoFit)
  | None => (l, Some errNoFit)
  end.
Proof.
  unfold Reserve. destruct (findEntry l name) as [n|]; [|done].
  rewrite check_demand_spec, foldl_upd_range.
  by case_bool_decide; case_decide.
Qed.

Definition release64 (x q : Z) : Z := let y := x ⊖ q in if y <? 0 then 0 else y.

Lemma ReleaseReservation_spec l name demand :
  ReleaseReservation l name demand =
  match findEntry l name with
  | Some n => writeEntry l name (set_reserved n (map_upd release64 (reserved n) demand))
  | None => l
  end.
Proof.
  unfold ReleaseReservation. destruct (findEntry l name) as [n|]; [|done].
  by rewrite (foldl_upd_range "demand" release64).
Qed.

Lemma snapshot_loop_lookup t m snap k :
  snapshot_loop (range t m) snap !! k =
  match m !! k with
  | Some n => if map_empty (reserved n) then snap !! k else Some (reserved n)
  | None => snap !! k
  end.
Proof.
  unfold snapshot_loop.
  apply (foldl_keyed_range (λ m k, m !! k) _
    (λ _ n o, if map_empty (reserved n) then o else Some (reserved n))).
  - intros s k1 v k' Hne. destruct (map_empty _); [done|]. by apply lookup_insert_ne.
  - intros s k1 v. destruct (map_empty _); [done|].
    by rewrite lookup_insert_eq, copyMap_id.
Qed.

Lemma SnapshotReservations_lookup l k :
  SnapshotReservations l !! k =
  match inflight l !! k with
  | Some n => if map_empty (reserved n) then
      match nodes l !! k with
      | Some n => if map_empty (reserved n) then None else Some (reserved n)
      | None => None
      end else Some (reserved n)
  | None =>
      match nodes l !! k with
      | Some n => if map_empty (reserved n) then None else Some (reserved n)
      | None => None
      end
  end.
Proof.
  unfold SnapshotReservations. rewrite !snapshot_loop_lookup, lookup_empty. done.
Qed.

Lemma RestoreReservations_lookup l snap k :
  nodes (RestoreReservations l snap) !! k =
    match snap !! k with
    | Some r => (λ n, set_reserved n r) <$> nodes l !! k
    | None => nodes l !! k
    end ∧
  inflight (RestoreReservations l snap) !! k =
    match snap !! k with
    | Some r => (λ n, set_reserved n r) <$> inflight l !! k
    | None => inflight l !! k
    end.
Proof.
  unfold RestoreReservations.
  pose (look := λ l k, (nodes l !! k, inflight l !! k)).
  pose (eff := λ (_ : string) r (x : option nodeEntry * option nodeEntry),
    ((λ n, set_reserved n r) <$> x.1, (λ n, set_reserved n r) <$> x.2)).
  assert (look (foldl (λ l '(name, res), restore_one l name res) l (range "snap" snap)) k
    = match snap !! k with Some r => eff k r (look l k) | None => look l k end) as H.
  { apply foldl_keyed_range; unfold look, eff.
    - intros s k1 v k' Hne. unfold restore_one.
      destruct (nodes s !! k1), (inflight s !! k1) eqn:E; simpl; rewrite ?E; simpl;
        rewrite ?lookup_insert_ne by done; done.
    - intros s k1 v. unfold restore_one. rewrite copyMap_id.
      destruct (nodes s !! k1) eqn:E1; simpl;
        destruct (inflight s !! k1) eqn:E2; simpl;
        rewrite ?lookup_insert_eq, ?E1, ?E2; done. }
  unfold look, eff in H. destruct (snap !! k); by inversion H.
Qed.

Lemma ClearInflightByPrefix_lookup l p k :
  inflight (ClearInflightByPrefix l p) !! k =
  if HasPrefix k p then None else inflight l !! k.
Proof.
  unfold ClearInflightByPrefix; simpl.
  rewrite (foldl_keyed_range (λ m k, m !! k) _
    (λ k _ o, if HasPrefix k p then None else o)).
  - destruct (inflight l !! k); by destruct (HasPrefix k p).
  - intros s k1 v k' Hne. destruct (HasPrefix k1 p); [|done]. by apply lookup_delete_ne.
  - intros s k1 v. destruct (HasPrefix k1 p); [|done]. by apply lookup_delete_eq.
Qed.

Lemma HasInflightSignal_spec l p :
  HasInflightSignal l p = true ↔
  ∃ k n, inflight l !! k = Some n ∧ HasPrefix k p = true ∧ allocatable n = ∅.
Proof.
  unfold HasInflightSignal. rewrite existsb_range.
  by setoid_rewrite andb_true_iff; setoid_rewrite map_empty_spec.
Qed.
End characterisations.

(** ** Entries after a write *)

Lemma findEntry_write_same l name n n' :
  findEntry l name = Some n → findEntry (writeEntry l name n') name = Some n'.
Proof.
  unfold findEntry, writeEntry. intros H.
  destruct (nodes l !! name) eqn:E; simpl.
  - by rewrite lookup_insert_eq.
  - by rewrite E, lookup_insert_eq.
Qed.

Lemma findEntry_write_other l name name' n' :
  name ≠ name' → findEntry (writeEntry l name n') name' = findEntry l name'.
Proof.
  unfold findEntry, writeEntry. intros H.
  destruct (nodes l !! name) eqn:E; simpl; by rewrite lookup_insert_ne.
Qed.

Lemma writeEntry_nodes l name n' k :
  nodes (writeEntry l name n') !! k =
  if decide (name = k) then (λ _, n') <$> nodes l !! k else nodes l !! k.
Proof.
  unfold writeEntry. destruct (nodes l !! name) eqn:E; simpl.
  - rewrite lookup_insert. case_decide; [|done]. subst. by rewrite E.
  - case_decide; [|done]. subst. by rewrite E.
Qed.

Lemma writeEntry_inflight l name n' k :
  inflight (writeEntry l name n') !! k =
  if decide (name = k ∧ nodes l !! name = None) then Some n' else inflight l !! k.
Proof.
  unfold writeEntry. destruct (nodes l !! name) eqn:E; simpl.
  - by rewrite decide_False by naive_solver.
  - rewrite lookup_insert. repeat case_decide; naive_solver.
Qed.

Lemma available_set_reserved n r' r :
  available (set_reserved n r') r =
  wrap64 ((allocatable n)⟦r⟧ - (used n)⟦r⟧ - r'⟦r⟧).
Proof. by rewrite available_wrap. Qed.

(** A reservation lowers what is available by the demand, and a release
    raises it, modulo 2^64. *)
Lemma available_reserve n demand r :
  available (set_reserved n (map_upd add64 (reserved n) demand)) r =
  match demand !! r with
  | Some q => available n r ⊖ q
  | None => available n r
  end.
Proof.
  rewrite available_set_reserved, getZ_map_upd, available_wrap.
  destruct (demand !! r); [|done]. wrap64_lia.
Qed.

#[export] Hint Rewrite @copyMap_id @copyStringMap_id : kompakt_simpl.
