(* ===== verification/LedgerFit.v ===== *)
(** * Best fit

    What [FindFit] and [FindFitExisting] of [internal/ledger/ledger.go]
    promise: the abstract specification [best_fit] of a search, the theorem
    that the outcomes of [FindFit] over all iteration orders are exactly the
    ones it allows, and what a fit means for a reservation that follows. *)

From S2P Require Import Prelude GoStrings Kube Scheduling Ledger.

(** ** The specification *)

Definition side (l : NodeLedger) (infl : bool) : gmap string nodeEntry :=
  if infl then inflight l else nodes l.

(** The slack a node offers to a demand, when its constraints hold and the
    demand fits. *)
Definition offer (n : nodeEntry) (demand : gmap string Z)
    (c : option PodSchedulingConstraints) : option Z :=
  if @nodeMatchesConstraints order_forward n c && bool_decide (fits n demand)
  then Some (slack n demand) else None.

Definition candidate (l : NodeLedger) (demand : gmap string Z)
    (c : option PodSchedulingConstraints) (infl : bool) (name : string) (s : Z) : Prop :=
  ∃ n, side l infl !! name = Some n ∧ offer n demand c = Some s.

(** A search may return any candidate of least slack, an existing one if
    there is a tie with an in-flight one, and fails only if every candidate
    has the largest slack an int64 holds. *)
Definition best_fit (l : NodeLedger) (demand : gmap string Z)
    (c : option PodSchedulingConstraints) (r : option (string * bool)) : Prop :=
  match r with
  | Some (name, infl) =>
      ∃ s, candidate l demand c infl name s ∧ s < max_int64 ∧
        ∀ infl' name' s', candidate l demand c infl' name' s' →
          s ≤ s' ∧ (infl = true → infl' = false → s < s')
  | None => ∀ infl name s, candidate l demand c infl name s → s = max_int64
  end.

Definition result_option {A} (r : result A) : option A :=
  match r with Ok a => Some a | Err _ => None end.

(** Node names are not empty, as the API server requires. *)
Definition named (l : NodeLedger) : Prop :=
  nodes l !! "" = None ∧ inflight l !! "" = None.

#[global] Instance named_dec l : Decision (named l).
Proof. unfold named. apply _. Defined.

(** ** The loops *)

Lemma nodeMatchesConstraints_order (O1 O2 : MapOrder) n c :
  @nodeMatchesConstraints O1 n c = @nodeMatchesConstraints O2 n c.
Proof. apply Bool.eq_iff_eq_true. by rewrite !nodeMatchesConstraints_spec. Qed.

Lemma offer_spec n demand c s :
  offer n demand c = Some s ↔
  (∀ c', c = Some c' → node_matches n c') ∧ fits n demand ∧ s = slack n demand.
Proof.
  unfold offer. rewrite <- (@nodeMatchesConstraints_spec order_forward).
  destruct (nodeMatchesConstraints n c), (bool_decide_reflect (fits n demand));
    simpl; naive_solver.
Qed.

Lemma offer_le_max n demand c s : offer n demand c = Some s → s ≤ max_int64.
Proof.
  intros (_ & _ & ->)%offer_spec. pose proof (wrap64_range (sum_list_Z
    ((λ '(res, qty), available n res - qty) <$> map_to_list demand))) as H.
  apply H.
Qed.

Section search.
Context {O : MapOrder}.
Context (demand : gmap string Z) (c : option PodSchedulingConstraints).

(** Entries of both loops, tagged with the map they come from. *)
Definition tagged (l : NodeLedger) : list (bool * (string * nodeEntry)) :=
  (pair false <$> range "nodes" (nodes l)) ++
  (pair true <$> range "inflight" (inflight l)).

Definition entry_offer (e : bool * (string * nodeEntry)) : option Z :=
  offer e.2.2 demand c.

Definition best_of (e : bool * (string * nodeEntry)) (s : Z) : best :=
  Best e.2.1 s e.1.

Lemma check_offer infl b name n :
  check demand c infl b (name, n) =
  match offer n demand c with
  | Some s =>
      if (s <? bestSlack b) || (s =? bestSlack b) && negb infl && bestInflight b
      then Best name s infl else b
  | None => b
  end.
Proof.
  unfold check, offer.
  rewrite (nodeMatchesConstraints_order order_forward O).
  destruct (nodeMatchesConstraints n c); [|done]. simpl.
  rewrite slack_loop_spec. by case_decide; case_bool_decide.
Qed.

(** The tie-breaking clause of [check] never decides: existing nodes are
    visited before in-flight ones. *)
Lemma foldl_check_nodes b es :
  bestInflight b = false →
  foldl (check demand c false) b es =
  foldl (min_step bestSlack best_of entry_offer) b (pair false <$> es) ∧
  bestInflight (foldl (check demand c false) b es) = false.
Proof.
  revert b. induction es as [|[name n] es IH]; intros b Hb; [done|].
  rewrite fmap_cons. cbn [foldl]. rewrite check_offer.
  unfold min_step at 2, entry_offer at 2, best_of at 2. cbn [fst snd negb].
  destruct (offer n demand c) as [s|]; [|by apply IH].
  rewrite Hb, andb_false_r, orb_false_r. destruct (s <? bestSlack b); by apply IH.
Qed.

Lemma foldl_check_inflight b es :
  foldl (check demand c true) b es =
  foldl (min_step bestSlack best_of entry_offer) b (pair true <$> es).
Proof.
  revert b. induction es as [|[name n] es IH]; intros b; [done|].
  rewrite fmap_cons. cbn [foldl]. rewrite check_offer.
  unfold min_step at 2, entry_offer at 2, best_of at 2. cbn [fst snd negb].
  rewrite IH. destruct (offer n demand c) as [s|]; [|done].
  by rewrite andb_false_r, orb_false_r.
Qed.

Definition start : best := Best "" max_int64 false.

Definition FindFit_best (l : NodeLedger) : best :=
  foldl (min_step bestSlack best_of entry_offer) start (tagged l).

Lemma FindFit_min l :
  FindFit l demand c =
  if bool_decide (bestName (FindFit_best l) = "") then Err errNoFit
  else Ok (bestName (FindFit_best l), bestInflight (FindFit_best l)).
Proof.
  unfold FindFit, FindFit_best, tagged.
  rewrite foldl_app, <- foldl_check_inflight.
  by rewrite <- (proj1 (foldl_check_nodes start (range "nodes" (nodes l)) eq_refl)).
Qed.

Lemma elem_of_tagged l infl name n :
  (infl, (name, n)) ∈ tagged l ↔ side l infl !! name = Some n.
Proof.
  unfold tagged. rewrite elem_of_app, !list_elem_of_fmap. split.
  - intros [([? ?] & [= -> -> ->] & H)|([? ?] & [= -> -> ->] & H)];
      by apply elem_of_range in H.
  - destruct infl; simpl; intros H; [right|left]; exists (name, n);
      by rewrite elem_of_range.
Qed.

Lemma tagged_candidate l x s :
  x ∈ tagged l → entry_offer x = Some s → candidate l demand c x.1 x.2.1 s.
Proof.
  destruct x as [infl [name n]]. intros Hin Ho. exists n. split; [|done].
  by apply elem_of_tagged.
Qed.

Lemma candidate_tagged l infl name s :
  candidate l demand c infl name s →
  ∃ n, (infl, (name, n)) ∈ tagged l ∧ entry_offer (infl, (name, n)) = Some s.
Proof. intros (n & Hn & Ho). exists n. by rewrite elem_of_tagged. Qed.
End search.

(** ** The outcomes of a search *)

Lemma candidate_named l demand c infl name s :
  named l → candidate l demand c infl name s → name ≠ "".
Proof. intros [H1 H2] (n & Hn & _) ->. destruct infl; simpl in Hn; congruence. Qed.

Lemma candidate_le_max l demand c infl name s :
  candidate l demand c infl name s → s ≤ max_int64.
Proof. intros (n & _ & Ho). by eapply offer_le_max. Qed.

(** The result of the combined loop. *)
Lemma FindFit_best_cases {O : MapOrder} demand c l :
  (FindFit_best demand c l = start ∧
     ∀ infl name s, candidate l demand c infl name s → s = max_int64) ∨
  (∃ infl name s, FindFit_best demand c l = Best name s infl ∧
     candidate l demand c infl name s ∧ s < max_int64 ∧
     ∃ l1 n l2, tagged l = l1 ++ (infl, (name, n)) :: l2 ∧
       (∀ y s', y ∈ l1 → entry_offer demand c y = Some s' → s < s') ∧
       (∀ y s', y ∈ l2 → entry_offer demand c y = Some s' → s ≤ s')).
Proof.
  unfold FindFit_best.
  destruct (foldl_min_step bestSlack best_of (entry_offer demand c)
    (λ _ _, eq_refl) (tagged l) start)
    as [[-> H]|(l1 & [infl [name n]] & l2 & s & Hl & Ho & -> & Hs & H1 & H2)].
  - left. split; [done|]. intros infl name s Hc.
    pose proof (candidate_le_max _ _ _ _ _ _ Hc).
    destruct (candidate_tagged demand c l infl name s Hc) as (n & Hin & Ho).
    specialize (H _ _ Hin Ho). simpl in H. lia.
  - right. exists infl, name, s. split; [done|]. split.
    { apply (tagged_candidate demand c l (infl, (name, n))); [|done].
      rewrite Hl. set_solver. }
    split; [done|]. by exists l1, n, l2.
Qed.

(** In the combined list every existing node comes before every in-flight
    one. *)
Lemma tagged_existing_first {O : MapOrder} l l1 n name l2 y :
  tagged l = l1 ++ (true, (name, n)) :: l2 → y ∈ l2 → y.1 = true.
Proof.
  unfold tagged. generalize (range "nodes" (nodes l)) as a. intros a.
  revert l1. induction a as [|e a IH]; intros l1; simpl.
  - intros H Hy. assert (y ∈ l1 ++ (true, (name, n)) :: l2) as Hin by set_solver.
    rewrite <- H in Hin. by apply list_elem_of_fmap in Hin as (? & -> & _).
  - destruct l1 as [|x l1]; simpl; [done|]. intros [= _ H]. by eapply IH.
Qed.

Lemma FindFit_allowed {O : MapOrder} l demand c :
  named l → best_fit l demand c (result_option (FindFit l demand c)).
Proof.
  intros Hnamed. rewrite FindFit_min.
  destruct (FindFit_best_cases demand c l)
    as [[-> H]|(infl & name & s & -> & Hc & Hs & l1 & n & l2 & Hl & H1 & H2)]; simpl.
  { done. }
  rewrite bool_decide_false by (by eapply candidate_named). simpl.
  exists s. split; [done|]. split; [done|]. intros infl' name' s' Hc'.
  destruct (candidate_tagged demand c l infl' name' s' Hc') as (n' & Hin & Ho).
  pose proof (proj1 (elem_of_tagged l infl' name' n') Hin) as Hn'.
  rewrite Hl in Hin. apply elem_of_app in Hin as [Hin|[E|Hin]%elem_of_cons].
  - specialize (H1 _ _ Hin Ho). split; [lia|done].
  - injection E as -> -> ->. destruct Hc as (n2 & Hn2 & Ho2).
    unfold entry_offer in Ho; simpl in Ho. simplify_eq. split; [lia|congruence].
  - specialize (H2 _ _ Hin Ho). split; [done|]. intros -> ->.
    by apply (tagged_existing_first _ _ _ _ _ _ Hl) in Hin.
Qed.

(** Every allowed outcome occurs, when the loops visit it first. *)
Lemma range_order_first {V} (m : gmap string V) t k v :
  m !! k = Some v →
  @range (order_first k) V t m = (k, v) :: map_to_list (delete k m).
Proof. unfold range. simpl. by intros ->. Qed.

(** With that order the entry comes before all others of its map. *)
Lemma tagged_order_first l infl name n :
  side l infl !! name = Some n →
  ∃ a r, @tagged (order_first name) l = a ++ (infl, (name, n)) :: r ∧
    ∀ e, e ∈ a → e.1 = false ∧ infl = true.
Proof.
  intros Hn. unfold tagged. destruct infl; simpl in Hn.
  - rewrite (range_order_first _ "inflight" _ _ Hn), fmap_cons. eexists _, _.
    split; [done|]. by intros e (? & -> & _)%list_elem_of_fmap.
  - rewrite (range_order_first _ "nodes" _ _ Hn), fmap_cons. exists [].
    eexists. split; [done|]. by intros e He%not_elem_of_nil.
Qed.

Lemma app_split_tagged {B} (a : list (bool * B)) x r l1 y l2 :
  (∀ e, e ∈ a → e.1 = false ∧ y.1 = true) →
  a ++ x :: r = l1 ++ y :: l2 → ∃ l1', l1 = a ++ l1' ∧ x :: r = l1' ++ y :: l2.
Proof.
  revert l1. induction a as [|e a IH]; intros l1 Ha H; [by exists l1|].
  destruct l1 as [|e' l1]; simpl in *.
  - injection H as -> _. destruct (Ha y); [set_solver|congruence].
  - injection H as -> H. destruct (IH l1) as (l1' & -> & ?); [|done|by exists l1'].
    intros e He. apply Ha. set_solver.
Qed.

Lemma FindFit_attained l demand c name infl :
  named l → best_fit l demand c (Some (name, infl)) →
  @FindFit (order_first name) l demand c = Ok (name, infl).
Proof.
  intros Hnamed (s & Hc & Hs & Hmin). rewrite (@FindFit_min (order_first name)).
  destruct (@FindFit_best_cases (order_first name) demand c l)
    as [[_ H]|(infl1 & name1 & s1 & -> & Hc1 & Hs1 & l1 & n1 & l2 & Hl & H1 & H2)].
  { apply H in Hc. lia. }
  cbn [bestName bestInflight]. rewrite bool_decide_false by (by eapply candidate_named).
  destruct (Hmin _ _ _ Hc1) as [Hle Htie]. destruct Hc as (n & Hn & Ho).
  destruct (tagged_order_first l infl name n Hn) as (a & r & Ha & Hfalse).
  assert (∀ x, x ∈ l1 → x ≠ (infl, (name, n))) as Hnot.
  { intros x Hx ->. specialize (H1 _ s Hx Ho). lia. }
  assert (s1 ≤ s) as Hge.
  { assert ((infl, (name, n)) ∈ @tagged (order_first name) l) as Hin by (rewrite Ha; set_solver).
    rewrite Hl in Hin. apply elem_of_app in Hin as [Hin|[E|Hin]%elem_of_cons].
    - by destruct (Hnot _ Hin).
    - destruct Hc1 as (n' & Hn' & Ho'). injection E as -> -> ->. by simplify_eq.
    - by apply (H2 _ _ Hin). }
  rewrite Ha in Hl. apply app_split_tagged in Hl as ([|x l1'] & -> & Hl).
  - by injection Hl as -> -> -> _.
  - injection Hl as <- _. exfalso. apply (Hnot (infl, (name, n))); set_solver.
  - intros e [He Hi]%Hfalse. split; [done|]. simpl. destruct infl1; [done|].
    specialize (Htie Hi eq_refl). lia.
Qed.

Lemma FindFit_None_order {O : MapOrder} l demand c :
  named l → best_fit l demand c None → result_option (FindFit l demand c) = None.
Proof.
  intros Hn Hnone. pose proof (FindFit_allowed l demand c Hn) as Hok.
  destruct (FindFit l demand c) as [[name infl]|e]; [|done]. simpl in Hok.
  destruct Hok as (s & Hc & Hs & _). apply Hnone in Hc. lia.
Qed.

(** What a caller may rely on after a successful search. *)
Lemma FindFit_sound {O : MapOrder} l demand c name infl :
  named l → FindFit l demand c = Ok (name, infl) →
  ∃ n, side l infl !! name = Some n ∧ fits n demand ∧
    ∀ c', c = Some c' → node_matches n c'.
Proof.
  intros Hn HF. pose proof (FindFit_allowed l demand c Hn) as H.
  rewrite HF in H. destruct H as (s & (n & Hside & Ho) & _).
  exists n. apply offer_spec in Ho as (? & ? & _). done.
Qed.

Lemma FindFit_error {O : MapOrder} l demand c e :
  FindFit l demand c = Err e → e = errNoFit.
Proof. unfold FindFit. by case_bool_decide; intros [=]. Qed.

(** ** FindFitExisting *)

Definition mk_existing (e : string * nodeEntry) (s : Z) : string * Z := (e.1, s).

Lemma check_existing_offer {O : MapOrder} demand c b e :
  check_existing demand c b e =
  min_step snd mk_existing (λ e, offer e.2 demand c) b e.
Proof.
  destruct e as [name n]. unfold check_existing, min_step, offer. simpl.
  rewrite (nodeMatchesConstraints_order order_forward O).
  destruct (nodeMatchesConstraints n c); [|done]. simpl.
  rewrite slack_loop_spec. by case_decide; case_bool_decide.
Qed.

(** The two searches run the same loop over the existing nodes. *)
Lemma existing_loop {O : MapOrder} demand c es name s :
  foldl (check_existing demand c) (name, s) es =
  (λ b, (bestName b, bestSlack b))
    (foldl (check demand c false) (Best name s false) es).
Proof.
  revert name s. induction es as [|[k n] es IH]; intros name s; [done|].
  cbn [foldl]. rewrite check_existing_offer, check_offer. unfold min_step. simpl.
  destruct (offer n demand c) as [t|]; [|apply IH].
  rewrite andb_false_r, orb_false_r. destruct (t <? s); apply IH.
Qed.

Lemma FindFitExisting_FindFit {O : MapOrder} l demand c :
  FindFitExisting l demand c =
  match FindFit (set_inflight l ∅) demand c with
  | Ok (name, _) => Ok name
  | Err e => Err e
  end.
Proof.
  unfold FindFitExisting, FindFit. rewrite existing_loop. simpl.
  rewrite range_empty. simpl. by case_bool_decide.
Qed.

Lemma named_no_inflight l : named l → named (set_inflight l ∅).
Proof. intros [H _]. split; [done|apply lookup_empty]. Qed.

Lemma FindFitExisting_sound {O : MapOrder} l demand c name :
  named l → FindFitExisting l demand c = Ok name →
  ∃ n, nodes l !! name = Some n ∧ fits n demand ∧
    ∀ c', c = Some c' → node_matches n c'.
Proof.
  intros Hn. rewrite FindFitExisting_FindFit.
  destruct (FindFit (set_inflight l ∅) demand c) as [[k infl]|] eqn:E; [|done].
  intros [= ->]. apply FindFit_sound in E as (n & Hs & ? & ?);
    [|by apply named_no_inflight].
  exists n. destruct infl; simpl in Hs; [by rewrite lookup_empty in Hs|done].
Qed.

(** ** Properties *)

(** C5: [FindFit] implements the best-fit specification exactly: over all
    orders in which Go may visit its maps, the outcomes of [FindFit] are the
    ones [best_fit] allows, no more and no fewer.  A returned node exists, its
    taints are tolerated and its labels selected, the demand fits on it, no
    other candidate has less slack and a tie with an in-flight node goes to
    the existing one; an error means there is no candidate with a slack below
    the largest int64. *)
Theorem FindFit_refines_best_fit l demand c r :
  named l →
  best_fit l demand c r ↔ ∃ O, result_option (@FindFit O l demand c) = r.
Proof.
  intros Hn. split.
  - destruct r as [[name infl]|]; intros H.
    + exists (order_first name). by rewrite (FindFit_attained l demand c name infl).
    + exists order_forward. by apply FindFit_None_order.
  - intros [O <-]. by apply FindFit_allowed.
Qed.

(** A ledger with two equal nodes and a tighter in-flight one. *)
Definition example_entry (cpu : Z) : nodeEntry :=
  NodeEntry {["cpu" := cpu]} ∅ ∅ None [].
Definition example_ledger : NodeLedger :=
  MkLedger (<["a" := example_entry 4000]> {["b" := example_entry 4000]})
           {["p/x" := example_entry 9000]}.

Lemma FindFit_refines_best_fit_witness :
  named example_ledger ∧
  (best_fit example_ledger {["cpu" := 1000]} None (Some ("b", false)) ↔
   ∃ O, result_option (@FindFit O example_ledger {["cpu" := 1000]} None) = Some ("b", false)).
Proof.
  assert (named example_ledger) as H by (split; vm_compute; reflexivity).
  split; [exact H|].
  exact (FindFit_refines_best_fit example_ledger {["cpu" := 1000]} None (Some ("b", false)) H).
Defined.

(** Ties are decided by the iteration order. *)
Example tie_forward :
  @FindFit order_forward example_ledger {["cpu" := 1000]} None = Ok ("b", false) ∨
  @FindFit order_forward example_ledger {["cpu" := 1000]} None = Ok ("a", false).
Proof. vm_compute. auto. Qed.

Example tie_orders_differ :
  @FindFit order_forward example_ledger {["cpu" := 1000]} None ≠
  @FindFit order_backward example_ledger {["cpu" := 1000]} None.
Proof. vm_compute. congruence. Qed.

(** [FindFitExisting] is [FindFit] on the existing nodes alone: for the
    same iteration order it returns the node [FindFit] returns when there are
    no in-flight nodes, and fails when [FindFit] fails. *)
Theorem FindFitExisting_is_FindFit_without_inflight {O : MapOrder} l demand c :
  FindFitExisting l demand c =
    match FindFit (set_inflight l ∅) demand c with
    | Ok (name, _) => Ok name
    | Err e => Err e
    end ∧
  (∀ name infl, FindFit (set_inflight l ∅) demand c = Ok (name, infl) →
     named l → infl = false).
Proof.
  split; [apply FindFitExisting_FindFit|].
  intros name infl HF Hn.
  destruct (FindFit_sound _ _ _ _ _ (named_no_inflight _ Hn) HF) as (n & Hs & _).
  destruct infl; [|done]. simpl in Hs. by rewrite lookup_empty in Hs.
Qed.

(** ** Admission *)

(** What Kubernetes asks of a node before the pod may run there: no taint with
    a scheduling effect that the pod does not tolerate, and each label of the
    node selector on the node. *)
Definition node_admits (n : nodeEntry) (c : PodSchedulingConstraints) : Prop :=
  (∀ taint, taint ∈ taints n →
     taint_Effect taint = TaintEffectNoSchedule ∨ taint_Effect taint = TaintEffectNoExecute →
     ∃ t, t ∈ psc_Tolerations c ∧ tolerates t taint) ∧
  smap (psc_NodeSelector c) ⊆ smap (labels n).

(** A selector without empty values: for those, reading an absent label gives
    the value asked for. *)
Definition selector_valued (c : PodSchedulingConstraints) : Prop :=
  map_Forall (λ _ v, v ≠ "") (smap (psc_NodeSelector c)).

(** C29: a node is a candidate exactly when Kubernetes would admit the pod
    there.  For validated tolerations and a selector without empty values, in
    any iteration order, [nodeMatchesConstraints] decides the documented rule;
    with an empty value in the selector it also accepts nodes that lack the
    label. *)
Theorem nodeMatchesConstraints_admits {O : MapOrder} n c :
  Forall valid_toleration (psc_Tolerations c) → selector_valued c →
  nodeMatchesConstraints n (Some c) = true ↔ node_admits n c.
Proof.
  intros Ht Hs. rewrite nodeMatchesConstraints_spec. unfold node_admits.
  assert (∀ taint, TolerateTaint (psc_Tolerations c) taint = true ↔
    ∃ t, t ∈ psc_Tolerations c ∧ tolerates t taint) as Htol
    by (intros taint; by apply TolerateTaint_spec).
  assert ((∀ k v, slookup (psc_NodeSelector c) k = Some v → sget (labels n) k = v) ↔
    smap (psc_NodeSelector c) ⊆ smap (labels n)) as Hsel.
  { rewrite map_subseteq_spec. unfold sget, slookup.
    split; intros H k v Hk; specialize (H k v Hk); [|by rewrite H].
    specialize (Hs k v Hk). destruct (smap (labels n) !! k); simpl in *; congruence. }
  rewrite <- Hsel. setoid_rewrite <- Htol. split; [intros H; by apply (H c)|].
  by intros H c' [= <-].
Qed.

Lemma nodeMatchesConstraints_admits_witness :
  let c := {| psc_Tolerations := []; psc_NodeSelector := Some {["zone" := "a"]} |} in
  let n := NodeEntry ∅ ∅ ∅ (Some {["zone" := "a"]}) [] in
  Forall valid_toleration (psc_Tolerations c) ∧ selector_valued c ∧
  (@nodeMatchesConstraints order_forward n (Some c) = true ↔ node_admits n c).
Proof.
  intros c n. assert (Forall valid_toleration (psc_Tolerations c)) as Ht by constructor.
  assert (selector_valued c) as Hs by (apply map_Forall_singleton; discriminate).
  split; [exact Ht|]. split; [exact Hs|].
  exact (@nodeMatchesConstraints_admits order_forward n c Ht Hs).
Defined.
