(* ===== verification/Reservations.v ===== *)
(** * Reservations

    The capacity contract the ledger offers its clients, and the theorems on
    [Reserve], [ReleaseReservation], [SnapshotReservations],
    [RestoreReservations] and the per-profile clearing of
    [internal/ledger/ledger.go]: no overcommitment, undoing, survival across
    a rebuild, isolation of profiles and the range invariant under which no
    int64 operation of the ledger wraps. *)

From Stdlib Require Import Ascii.
From stdpp Require Import relations.
From S2P Require Import Prelude GoStrings Kube Scheduling Ledger LedgerFit.

(** ** The contract

    A store of capacities per node and resource, from which a demand is
    reserved as a whole or not at all.  [cap_reserve] succeeds exactly when
    the node is known and each demanded resource is available in full; it
    then takes the demand from that node and nothing from anywhere else. *)

Class CapacityStore (L : Type) := {
  cap_known : L → string → bool;
  cap_avail : L → string → string → Z;
  cap_reserve : L → string → gmap string Z → option L
}.

Definition nonneg (demand : gmap string Z) : Prop := map_Forall (λ _ q, 0 ≤ q) demand.

#[global] Instance nonneg_dec demand : Decision (nonneg demand).
Proof. unfold nonneg. apply _. Defined.

Definition cap_fits `{CapacityStore L} (l : L) (name : string)
    (demand : gmap string Z) : Prop :=
  cap_known l name = true ∧ map_Forall (λ r q, q ≤ cap_avail l name r) demand.

Class CapacityContract (L : Type) `{CapacityStore L} := {
  cap_reserve_iff (l : L) name demand :
    is_Some (cap_reserve l name demand) ↔ cap_fits l name demand;
  cap_reserve_own (l l' : L) name demand r :
    nonneg demand → cap_reserve l name demand = Some l' →
    cap_avail l' name r = cap_avail l name r - demand⟦r⟧;
  cap_reserve_other (l l' : L) name demand name' r :
    cap_reserve l name demand = Some l' → name ≠ name' →
    cap_avail l' name' r = cap_avail l name' r;
  cap_reserve_known (l l' : L) name demand name' :
    cap_reserve l name demand = Some l' → cap_known l' name' = cap_known l name'
}.

(** A client that makes a list of requests, each granted or refused. *)
Section client.
Context `{CapacityContract L}.

Fixpoint serve (reqs : list (string * gmap string Z)) (l : L) :
  L * list (string * gmap string Z) :=
  match reqs with
  | [] => (l, [])
  | (name, demand) :: reqs =>
      match cap_reserve l name demand with
      | Some l' => let '(l'', granted) := serve reqs l' in
                   (l'', (name, demand) :: granted)
      | None => serve reqs l
      end
  end.

(** What was granted of a resource on a node. *)
Definition granted_on (name r : string) (g : list (string * gmap string Z)) : Z :=
  sum_list_Z ((λ '(n, d), if decide (n = name) then d⟦r⟧ else 0) <$> g).

Lemma granted_on_cons name r n d g :
  granted_on name r ((n, d) :: g) =
  (if decide (n = name) then d⟦r⟧ else 0) + granted_on name r g.
Proof. done. Qed.

Lemma serve_accounts reqs l l' g name r :
  Forall (λ q, nonneg q.2) reqs → serve reqs l = (l', g) →
  cap_avail l' name r = cap_avail l name r - granted_on name r g.
Proof.
  revert l l' g. induction reqs as [|[n d] reqs IH]; intros l l' g Hf Hs.
  { injection Hs as <- <-. unfold granted_on. simpl. lia. }
  apply Forall_cons in Hf as [Hd Hf]. simpl in Hs, Hd.
  destruct (cap_reserve l n d) as [l1|] eqn:Hr; [|by eapply IH].
  destruct (serve reqs l1) as [l2 g2] eqn:Hs2. injection Hs as <- <-.
  rewrite (IH _ _ _ Hf Hs2), granted_on_cons. case_decide as Hn.
  - subst n. rewrite (cap_reserve_own _ _ _ _ r Hd Hr). lia.
  - rewrite (cap_reserve_other _ _ _ _ _ r Hr Hn). lia.
Qed.

Lemma serve_within reqs l l' g name r :
  Forall (λ q, nonneg q.2) reqs → serve reqs l = (l', g) →
  0 ≤ granted_on name r g ∧
  (0 < granted_on name r g → granted_on name r g ≤ cap_avail l name r).
Proof.
  revert l l' g. induction reqs as [|[n d] reqs IH]; intros l l' g Hf Hs.
  { injection Hs as <- <-. unfold granted_on. simpl. lia. }
  apply Forall_cons in Hf as [Hd Hf]. simpl in Hs, Hd.
  destruct (cap_reserve l n d) as [l1|] eqn:Hr; [|by eapply IH].
  destruct (serve reqs l1) as [l2 g2] eqn:Hs2. injection Hs as <- <-.
  destruct (IH _ _ _ Hf Hs2) as [H2 H3]. rewrite granted_on_cons. case_decide as Hn.
  - subst n. rewrite (cap_reserve_own _ _ _ _ r Hd Hr) in H3.
    assert (is_Some (cap_reserve l name d)) as [_ Hfit]%cap_reserve_iff by eauto.
    unfold getZ in *. destruct (d !! r) as [q|] eqn:Hq; simpl in *; [|lia].
    specialize (Hfit r q Hq). specialize (Hd r q Hq). simpl in *. lia.
  - rewrite (cap_reserve_other _ _ _ _ _ r Hr Hn) in H3. lia.
Qed.
End client.

(** ** The ledger is such a store *)

Definition ledger_avail (l : NodeLedger) (name r : string) : Z :=
  match findEntry l name with Some n => available n r | None => 0 end.

#[global] Instance ledger_store {O : MapOrder} : CapacityStore NodeLedger := {
  cap_known l name := bool_decide (is_Some (findEntry l name));
  cap_avail := ledger_avail;
  cap_reserve l name demand :=
    match Reserve l name demand with (l', None) => Some l' | _ => None end
}.

Lemma ledger_reserve_Some {O : MapOrder} l name demand l' :
  cap_reserve l name demand = Some l' ↔
  ∃ n, findEntry l name = Some n ∧ fits n demand ∧
    l' = writeEntry l name (set_reserved n (map_upd add64 (reserved n) demand)).
Proof.
  simpl. rewrite Reserve_spec. destruct (findEntry l name) as [n|]; [|naive_solver].
  case_decide; split; [intros [= <-]; eauto| |done|]; by intros (? & [= <-] & ? & ->).
Qed.

#[global] Instance ledger_contract {O : MapOrder} : CapacityContract NodeLedger.
Proof.
  split.
  - intros l name demand. unfold cap_fits. split.
    + intros [l' (n & Hn & Hf & _)%ledger_reserve_Some]. simpl.
      rewrite bool_decide_true by eauto. split; [done|].
      intros r q Hq. unfold ledger_avail. rewrite Hn. by apply Hf.
    + simpl. intros [[n Hn]%bool_decide_eq_true Hf]. rewrite Reserve_spec, Hn.
      rewrite decide_True; [by eexists|]. intros r q Hq.
      specialize (Hf r q Hq). unfold ledger_avail in Hf. by rewrite Hn in Hf.
  - intros l l' name demand r Hd (n & Hn & Hf & ->)%ledger_reserve_Some. simpl.
    unfold ledger_avail. rewrite (findEntry_write_same _ _ n _ Hn), Hn, available_reserve.
    unfold getZ. destruct (demand !! r) as [q|] eqn:Hq; simpl; [|lia].
    specialize (Hf r q Hq). specialize (Hd r q Hq). simpl in *.
    apply sub64_exact. pose proof (available_int64 n r). int64_lia.
  - intros l l' name demand name' r (n & Hn & Hf & ->)%ledger_reserve_Some Hne. simpl.
    unfold ledger_avail. by rewrite findEntry_write_other.
  - intros l l' name demand name' (n & Hn & Hf & ->)%ledger_reserve_Some. simpl.
    destruct (decide (name = name')) as [<-|Hne].
    + by rewrite (findEntry_write_same _ _ n _ Hn), Hn.
    + by rewrite findEntry_write_other.
Qed.

(** ** Ledgers that agree on every amount

    Reserving and releasing may leave a zero entry in a [reserved] map where
    there was none.  [ledger_equiv] identifies such ledgers: the same entries,
    whose reserved amounts agree on every resource.  Every fit decision
    respects it. *)

Definition amounts_equiv (r1 r2 : gmap string Z) : Prop := ∀ k, r1⟦k⟧ = r2⟦k⟧.

Definition entry_equiv (n1 n2 : nodeEntry) : Prop :=
  allocatable n1 = allocatable n2 ∧ used n1 = used n2 ∧
  labels n1 = labels n2 ∧ taints n1 = taints n2 ∧
  amounts_equiv (reserved n1) (reserved n2).

Definition ledger_equiv (l1 l2 : NodeLedger) : Prop :=
  ∀ infl k, option_relation entry_equiv (λ _, False) (λ _, False)
    (side l1 infl !! k) (side l2 infl !! k).

#[global] Instance entry_equiv_equivalence : Equivalence entry_equiv.
Proof.
  split.
  - by intros n.
  - intros n1 n2 (? & ? & ? & ? & H). by split_and!; [symmetry..|intros k; rewrite H].
  - intros n1 n2 n3 (? & ? & ? & ? & E12) (? & ? & ? & ? & E23).
    split_and!; [congruence..|]. intros k. by rewrite E12.
Qed.

#[global] Instance ledger_equiv_equivalence : Equivalence ledger_equiv.
Proof.
  split.
  - intros l infl k. by destruct (side l infl !! k); simpl.
  - intros l1 l2 H infl k. specialize (H infl k).
    destruct (side l1 infl !! k), (side l2 infl !! k); simpl in *; try done.
  - intros l1 l2 l3 H1 H2 infl k. specialize (H1 infl k). specialize (H2 infl k).
    destruct (side l1 infl !! k), (side l2 infl !! k), (side l3 infl !! k);
      simpl in *; try done. by etrans.
Qed.

#[global] Instance available_proper : Proper (entry_equiv ==> (=) ==> (=)) available.
Proof.
  intros n1 n2 (Ha & Hu & _ & _ & Hr) r ? <-. unfold available. by rewrite Ha, Hu, Hr.
Qed.

#[global] Instance fits_proper : Proper (entry_equiv ==> (=) ==> iff) fits.
Proof.
  intros n1 n2 He d ? <-. unfold fits, map_Forall. by setoid_rewrite He.
Qed.

#[global] Instance slack_proper : Proper (entry_equiv ==> (=) ==> (=)) slack.
Proof.
  intros n1 n2 He d ? <-. unfold slack. do 2 f_equal. apply list_fmap_ext.
  intros _ [r q] _. by rewrite He.
Qed.

#[global] Instance node_matches_proper : Proper (entry_equiv ==> (=) ==> iff) node_matches.
Proof.
  intros n1 n2 (_ & _ & Hl & Ht & _) c ? <-. unfold node_matches. by rewrite Hl, Ht.
Qed.

#[global] Instance offer_proper : Proper (entry_equiv ==> (=) ==> (=) ==> (=)) offer.
Proof.
  intros n1 n2 He d ? <- c ? <-.
  assert (∀ s, offer n1 d c = Some s ↔ offer n2 d c = Some s) as H.
  { intros s. rewrite !offer_spec. by setoid_rewrite He. }
  destruct (offer n1 d c) as [s|]; [symmetry; by apply H|].
  destruct (offer n2 d c) as [s|]; [|done]. by apply (H s).
Qed.

Lemma candidate_equiv l1 l2 d c infl name s :
  ledger_equiv l1 l2 → candidate l1 d c infl name s → candidate l2 d c infl name s.
Proof.
  intros He (n & Hn & Ho). specialize (He infl name). rewrite Hn in He.
  destruct (side l2 infl !! name) as [n2|] eqn:E; simpl in He; [|done].
  exists n2. split; [done|]. by rewrite <- He.
Qed.

#[global] Instance best_fit_proper :
  Proper (ledger_equiv ==> (=) ==> (=) ==> (=) ==> iff) best_fit.
Proof.
  assert (∀ l1 l2 d c r, ledger_equiv l1 l2 → best_fit l1 d c r → best_fit l2 d c r) as H.
  { intros l1 l2 d c r He. unfold best_fit. destruct r as [[name infl]|].
    - intros (s & Hc & Hs & Hm). exists s. split; [by eapply candidate_equiv|].
      split; [done|]. intros i n' s' Hc'. apply (Hm i n').
      eapply candidate_equiv; [by symmetry|done].
    - intros Hn i n' s Hc. apply (Hn i n'). eapply candidate_equiv; [by symmetry|done]. }
  intros l1 l2 He d ? <- c ? <- r ? <-. split; apply H; [done|by symmetry].
Qed.

(** Undoing a reservation. *)
Lemma findEntry_side l name n :
  findEntry l name = Some n → ∃ infl, side l infl !! name = Some n ∧
    ∀ n', side (writeEntry l name n') infl = <[name := n']> (side l infl) ∧
          side (writeEntry l name n') (negb infl) = side l (negb infl).
Proof.
  unfold findEntry, writeEntry. destruct (nodes l !! name) eqn:E.
  - intros [= ->]. by exists false.
  - intros H. by exists true.
Qed.

Lemma write_equiv l name n n' :
  findEntry l name = Some n → entry_equiv n n' → ledger_equiv l (writeEntry l name n').
Proof.
  intros (infl & Hn & Hw)%findEntry_side He i k. specialize (Hw n') as [H1 H2].
  destruct (decide (i = infl)) as [->|Hi].
  - rewrite H1, lookup_insert. case_decide as Hk; [subst k; by rewrite Hn|].
    by destruct (side l infl !! k); simpl.
  - replace i with (negb infl) by (by destruct i, infl). rewrite H2.
    by destruct (side l (negb infl) !! k); simpl.
Qed.

Lemma write_write l name n1 n2 :
  is_Some (findEntry l name) →
  writeEntry (writeEntry l name n1) name n2 = writeEntry l name n2.
Proof.
  intros _. unfold writeEntry. destruct (nodes l !! name) eqn:E; simpl.
  - rewrite lookup_insert_eq. unfold set_nodes. simpl. by rewrite insert_insert_eq.
  - rewrite E. unfold set_inflight. simpl. by rewrite insert_insert_eq.
Qed.

Lemma release64_add64 x q : in_int64 x → 0 ≤ x → release64 (x ⊕ q) q = x.
Proof.
  intros Hx H0. unfold release64. wrap64_simpl.
  replace (x + q - q) with x by lia. rewrite wrap64_id by done.
  by destruct (Z.ltb_spec x 0); [lia|].
Qed.

Definition amounts_wf (m : gmap string Z) : Prop := map_Forall (λ _ x, 0 ≤ x ∧ in_int64 x) m.

#[global] Instance amounts_wf_dec m : Decision (amounts_wf m).
Proof. unfold amounts_wf. apply _. Defined.

Lemma amounts_wf_get m r : amounts_wf m → 0 ≤ m⟦r⟧ ∧ in_int64 (m⟦r⟧).
Proof.
  intros H. unfold getZ. destruct (m !! r) as [x|] eqn:E; [by apply (H r x)|done].
Qed.

Lemma reserve_release_equiv {O1 O2 : MapOrder} l l' name demand :
  (∀ n, findEntry l name = Some n → amounts_wf (reserved n)) →
  @Reserve O1 l name demand = (l', None) →
  ledger_equiv l (@ReleaseReservation O2 l' name demand).
Proof.
  intros Hwf. rewrite Reserve_spec. destruct (findEntry l name) as [n|] eqn:Hn; [|done].
  case_decide as Hf; [|done]. intros [= <-].
  rewrite ReleaseReservation_spec, (findEntry_write_same _ _ n _ Hn), write_write by eauto.
  eapply write_equiv; [done|]. specialize (Hwf n eq_refl).
  split_and!; [done..|]. intros k. simpl. rewrite !getZ_map_upd.
  destruct (demand !! k) as [q|]; [|done].
  destruct (amounts_wf_get _ k Hwf). by rewrite release64_add64.
Qed.

(** ** The range invariant

    All amounts lie between 0 and [amount_bound], 2^61: two exbi-units, in
    milli-bytes about two pebibytes.  The operations preserve this, so along
    any execution no int64 operation on a node's amounts wraps. *)

Definition amount_bound : Z := 2 ^ 61.

Definition amounts_bounded (m : gmap string Z) : Prop :=
  map_Forall (λ _ x, 0 ≤ x ≤ amount_bound) m.

Definition entry_bounded (n : nodeEntry) : Prop :=
  amounts_bounded (allocatable n) ∧ amounts_bounded (used n) ∧ amounts_bounded (reserved n).

Definition ledger_bounded (l : NodeLedger) : Prop :=
  ∀ infl, map_Forall (λ _ n, entry_bounded n) (side l infl).

Definition snap_bounded (s : gmap string (gmap string Z)) : Prop :=
  map_Forall (λ _ r, amounts_bounded r) s.

#[global] Instance amounts_bounded_dec m : Decision (amounts_bounded m).
Proof. unfold amounts_bounded. apply _. Defined.

Lemma amounts_bounded_get m r : amounts_bounded m → 0 ≤ m⟦r⟧ ≤ amount_bound.
Proof.
  intros H. unfold getZ. destruct (m !! r) as [x|] eqn:E; [by apply (H r x)|done].
Qed.

Lemma amounts_bounded_empty : amounts_bounded ∅.
Proof. apply map_Forall_empty. Qed.

Lemma amounts_bounded_wf m : amounts_bounded m → amounts_wf m.
Proof.
  intros H k x Hx. specialize (H k x Hx). unfold amount_bound in H. simpl in H.
  int64_lia.
Qed.

(** Within the bounds, what is available is the exact difference. *)
Lemma available_exact n r :
  entry_bounded n →
  available n r = (allocatable n)⟦r⟧ - (used n)⟦r⟧ - (reserved n)⟦r⟧.
Proof.
  intros (Ha & Hu & Hr). apply amounts_bounded_get with (r := r) in Ha, Hu, Hr.
  rewrite available_wrap. apply wrap64_id. unfold amount_bound in *. int64_lia.
Qed.

(** One operation of the ledger, with the arguments the controller gives. *)
Inductive ledger_step : NodeLedger → NodeLedger → Prop :=
  | step_AddNode O l name alloc ls ts :
      amounts_bounded alloc → ledger_step l (@AddNode O l name alloc ls ts)
  | step_AddInflightNode O l name alloc ls ts :
      amounts_bounded alloc → ledger_step l (@AddInflightNode O l name alloc ls ts)
  | step_ClearNodes l : ledger_step l (ClearNodes l)
  | step_ClearInflight l : ledger_step l (ClearInflight l)
  | step_ClearInflightByPrefix O l p : ledger_step l (@ClearInflightByPrefix O l p)
  | step_RemoveNode l name : ledger_step l (RemoveNode l name)
  | step_RemoveInflightNode l name : ledger_step l (RemoveInflightNode l name)
  | step_UpdateUsage O l name u :
      amounts_bounded u → ledger_step l (@UpdateUsage O l name u)
  | step_Reserve O l name demand :
      amounts_wf demand → ledger_step l (@Reserve O l name demand).1
  | step_ReleaseReservation O l name demand :
      amounts_wf demand → ledger_step l (@ReleaseReservation O l name demand)
  | step_RestoreReservations O l snap :
      snap_bounded snap → ledger_step l (@RestoreReservations O l snap).

Lemma bounded_insert l infl name n :
  ledger_bounded l → entry_bounded n →
  map_Forall (λ _ n, entry_bounded n) (<[name := n]> (side l infl)).
Proof. intros Hl Hn. by apply map_Forall_insert_2. Qed.

Lemma bounded_set_nodes l m :
  ledger_bounded l → map_Forall (λ _ n, entry_bounded n) m → ledger_bounded (set_nodes l m).
Proof. intros Hl Hm [|]; [apply (Hl true)|done]. Qed.

Lemma bounded_set_inflight l m :
  ledger_bounded l → map_Forall (λ _ n, entry_bounded n) m → ledger_bounded (set_inflight l m).
Proof. intros Hl Hm [|]; [done|apply (Hl false)]. Qed.

Lemma bounded_find l name n : ledger_bounded l → findEntry l name = Some n → entry_bounded n.
Proof.
  intros Hl (infl & Hn & _)%findEntry_side. by apply (Hl infl name n).
Qed.

Lemma bounded_write l name n :
  ledger_bounded l → entry_bounded n → ledger_bounded (writeEntry l name n).
Proof.
  intros Hl Hn. unfold writeEntry. destruct (nodes l !! name).
  - apply bounded_set_nodes; [done|]. by apply (bounded_insert l false).
  - apply bounded_set_inflight; [done|]. by apply (bounded_insert l true).
Qed.

Lemma bounded_reserve n demand :
  entry_bounded n → amounts_wf demand → fits n demand →
  entry_bounded (set_reserved n (map_upd add64 (reserved n) demand)).
Proof.
  intros Hn Hd Hf. pose proof Hn as (Ha & Hu & Hr). split_and!; [done..|].
  intros k x. simpl. rewrite lookup_map_upd.
  destruct (demand !! k) as [q|] eqn:Hq; [|by apply Hr]. intros [= <-].
  specialize (Hd k q Hq). specialize (Hf k q Hq). simpl in *.
  rewrite available_exact in Hf by done.
  apply amounts_bounded_get with (r := k) in Ha, Hu, Hr.
  rewrite add64_exact by (unfold amount_bound in *; int64_lia). lia.
Qed.

Lemma bounded_release n demand :
  entry_bounded n → amounts_wf demand →
  entry_bounded (set_reserved n (map_upd release64 (reserved n) demand)).
Proof.
  intros (Ha & Hu & Hr) Hd. split_and!; [done..|].
  intros k x. simpl. rewrite lookup_map_upd.
  destruct (demand !! k) as [q|] eqn:Hq; [|by apply Hr]. intros [= <-].
  specialize (Hd k q Hq). simpl in Hd. apply amounts_bounded_get with (r := k) in Hr.
  unfold release64. rewrite sub64_exact by (unfold amount_bound in *; int64_lia).
  destruct (Z.ltb_spec ((reserved n)⟦k⟧ - q) 0); unfold amount_bound in *; lia.
Qed.

Lemma bounded_step l l' : ledger_step l l' → ledger_bounded l → ledger_bounded l'.
Proof.
  intros Hs Hl. destruct Hs as [O l name alloc ls ts Ha|O l name alloc ls ts Ha|l|l|O l p
    |l name|l name|O l name u Hu|O l name demand Hd|O l name demand Hd|O l snap Hsnap].
  - apply bounded_set_nodes; [done|]. apply (bounded_insert l false); [done|].
    rewrite copyMap_id. by split_and!; [|apply amounts_bounded_empty..].
  - apply bounded_set_inflight; [done|]. apply (bounded_insert l true); [done|].
    rewrite copyMap_id. by split_and!; [|apply amounts_bounded_empty..].
  - apply bounded_set_nodes; [done|]. apply map_Forall_empty.
  - apply bounded_set_inflight; [done|]. apply map_Forall_empty.
  - apply bounded_set_inflight; [done|]. intros k n.
    pose proof (ClearInflightByPrefix_lookup l p k) as Hk. simpl in Hk. rewrite Hk.
    destruct (HasPrefix k p); [done|]. apply (Hl true).
  - apply bounded_set_nodes; [done|]. apply map_Forall_delete, (Hl false).
  - apply bounded_set_inflight; [done|]. apply map_Forall_delete, (Hl true).
  - unfold UpdateUsage. destruct (nodes l !! name) as [n|] eqn:Hn; [|done].
    apply bounded_set_nodes; [done|]. apply (bounded_insert l false); [done|].
    rewrite copyMap_id. by destruct (Hl false name n Hn) as (? & _ & ?).
  - rewrite Reserve_spec. destruct (findEntry l name) as [n|] eqn:Hn; [|done].
    case_decide; [|done]. apply bounded_write; [done|].
    apply bounded_reserve; [by eapply bounded_find|done..].
  - rewrite ReleaseReservation_spec. destruct (findEntry l name) as [n|] eqn:Hn; [|done].
    apply bounded_write; [done|]. apply bounded_release; [by eapply bounded_find|done].
  - assert (∀ infl k n, side l infl !! k = Some n →
      entry_bounded (match snap !! k with Some r => set_reserved n r | None => n end)) as H.
    { intros infl k n Hn. destruct (Hl infl k n Hn) as (? & ? & ?).
      destruct (snap !! k) as [r|] eqn:Hr; [|done]. split_and!; [done..|].
      by apply (Hsnap k r). }
    intros infl k n. destruct (RestoreReservations_lookup l snap k) as [Hn Hi].
    destruct infl; simpl; rewrite ?Hn, ?Hi; specialize (H true k) as H1';
      specialize (H false k) as H2'; simpl in *;
      destruct (snap !! k); rewrite ?fmap_Some; naive_solver.
Qed.

Lemma bounded_New : ledger_bounded New.
Proof. by intros [|]; apply map_Forall_empty. Qed.

Lemma bounded_steps l l' : rtc ledger_step l l' → ledger_bounded l → ledger_bounded l'.
Proof. induction 1; eauto using bounded_step. Qed.

Lemma bounded_reachable l : rtc ledger_step New l → ledger_bounded l.
Proof. intros H. eapply bounded_steps; [done|apply bounded_New]. Qed.

Lemma bounded_snapshot {O : MapOrder} l : ledger_bounded l → snap_bounded (SnapshotReservations l).
Proof.
  intros Hl k r. rewrite SnapshotReservations_lookup.
  destruct (inflight l !! k) as [n1|] eqn:E1; destruct (nodes l !! k) as [n2|] eqn:E2;
    repeat case_match; intros [= <-]; first [by apply (Hl true k _ E1)|by apply (Hl false k _ E2)].
Qed.

(** ** Rebuilding the ledger *)

(** The amounts reserved under a name, in either map. *)
Definition reserved_at (l : NodeLedger) (name : string) : gmap string Z :=
  match findEntry l name with Some n => reserved n | None => ∅ end.

Lemma set_reserved_id n r : reserved n = r → set_reserved n r = n.
Proof. destruct n. simpl. by intros ->. Qed.

Lemma snapshot_disjoint {O : MapOrder} l k :
  nodes l ##ₘ inflight l →
  SnapshotReservations l !! k =
  if map_empty (reserved_at l k) then None else Some (reserved_at l k).
Proof.
  intros Hd. rewrite SnapshotReservations_lookup. unfold reserved_at, findEntry.
  destruct (nodes l !! k) as [n|] eqn:E1.
  - by rewrite (map_disjoint_Some_l _ _ _ _ Hd E1).
  - by destruct (inflight l !! k).
Qed.

(** An entry of the rebuilt ledger that is new, or was kept with its
    reservations, gets the amounts its name had before. *)
Lemma restore_snapshot {O1 O2 : MapOrder} l l1 infl k n :
  nodes l ##ₘ inflight l → side l1 infl !! k = Some n →
  reserved n = ∅ ∨ reserved n = reserved_at l k →
  side (@RestoreReservations O2 l1 (@SnapshotReservations O1 l)) infl !! k =
    Some (set_reserved n (reserved_at l k)).
Proof.
  intros Hd Hn Hr.
  pose proof (@RestoreReservations_lookup O2 l1 (@SnapshotReservations O1 l) k) as [H1 H2].
  rewrite (@snapshot_disjoint O1 l k Hd) in H1, H2.
  assert (∀ m : gmap string nodeEntry, m !! k = Some n →
    match (if map_empty (reserved_at l k) then None else Some (reserved_at l k)) with
    | Some r => (λ n, set_reserved n r) <$> m !! k | None => m !! k end
    = Some (set_reserved n (reserved_at l k))) as H.
  { intros m ->. destruct (map_empty (reserved_at l k)) eqn:E; [|done].
    apply map_empty_spec in E. rewrite set_reserved_id; [done|].
    destruct Hr; congruence. }
  destruct infl; cbn [side]; [rewrite H2|rewrite H1]; by apply H.
Qed.

Lemma restore_snapshot_dropped {O1 O2 : MapOrder} l l1 infl k :
  side l1 infl !! k = None →
  side (@RestoreReservations O2 l1 (@SnapshotReservations O1 l)) infl !! k = None.
Proof.
  intros Hn. pose proof (@RestoreReservations_lookup O2 l1 (@SnapshotReservations O1 l) k) as [H1 H2].
  destruct infl; cbn [side] in *; [rewrite H2|rewrite H1];
    rewrite Hn; by destruct (@SnapshotReservations O1 l !! k).
Qed.

(** ** Profiles *)

(** Kubernetes object names hold no slash. *)
Definition object_name (s : string) : bool := all_chars (not_char "/"%char) s.

(** The key of an in-flight node of a profile. *)
Definition inflight_key (profile name : string) : string := (profile +:+ "/") +:+ name.

Lemma inflight_key_owner p1 p2 name :
  object_name p1 = true → object_name p2 = true →
  HasPrefix (inflight_key p1 name) (p2 +:+ "/") = bool_decide (p1 = p2).
Proof.
  unfold inflight_key, object_name. intros H1 H2. case_bool_decide as Hp.
  { subst. apply HasPrefix_app. }
  apply not_true_is_false. intros [t Ht]%HasPrefix_spec. apply Hp. clear Hp.
  rewrite !string_app_assoc in Ht. simpl in Ht.
  revert p2 H1 H2 Ht. induction p1 as [|a p1 IH]; intros [|b p2] H1 H2 Ht; simpl in *.
  - done.
  - injection Ht as <- _. done.
  - injection Ht as -> _. done.
  - injection Ht as -> Ht. apply andb_prop in H1 as [_ H1], H2 as [_ H2].
    f_equal. by apply IH.
Qed.

Lemma inflight_key_inj p n1 n2 : inflight_key p n1 = inflight_key p n2 → n1 = n2.
Proof.
  unfold inflight_key. intros H. apply (f_equal (drop_str (String.length (p +:+ "/")))) in H.
  by rewrite !drop_str_app in H.
Qed.

Lemma inflight_key_nonempty p n : inflight_key p n ≠ "".
Proof. unfold inflight_key. by destruct p. Qed.

(** ** Totals *)

Lemma foldl_totals {O : MapOrder} tag (es : list (string * nodeEntry)) total r :
  in_int64 (total⟦r⟧) →
  (foldl (λ total '(name, n),
      foldl (λ total '(res, qty), map_add64 total res qty) total
        (range (tag name) (allocatable n))) total es)⟦r⟧ =
  wrap64 (total⟦r⟧ + sum_list_Z ((λ '(_, n), (allocatable n)⟦r⟧) <$> es)).
Proof.
  revert total. induction es as [|[name n] es IH]; intros total Ht.
  { simpl. by rewrite Z.add_0_r, wrap64_id. }
  rewrite fmap_cons. cbn [foldl]. unfold map_add64 in *.
  rewrite (foldl_upd_range (tag name) add64).
  assert ((map_upd add64 total (allocatable n))⟦r⟧ = total⟦r⟧ ⊕ (allocatable n)⟦r⟧) as Hr.
  { rewrite getZ_map_upd. unfold getZ at 4. destruct (allocatable n !! r); [done|].
    simpl. by rewrite add64_exact; rewrite Z.add_0_r. }
  rewrite IH by (rewrite Hr; auto with int64). rewrite Hr. simpl. wrap64_lia.
Qed.

(** ** Reserving on the node a search returned *)

(** The ledgers the controller builds: names are not empty and an in-flight
    key is never a node's name. *)
Definition ledger_wf (l : NodeLedger) : Prop := named l ∧ nodes l ##ₘ inflight l.

#[global] Instance ledger_wf_dec l : Decision (ledger_wf l).
Proof.
  refine (cast_if (decide (named l ∧ (dom (nodes l) : gset string) ## dom (inflight l))));
    [destruct_and!; split; [done|by apply map_disjoint_dom_2]|].
  intros [Hn Hd%map_disjoint_dom_1]. tauto.
Defined.

Definition reserve_at (l : NodeLedger) (name : string) (demand : gmap string Z) : NodeLedger :=
  match findEntry l name with
  | Some n => writeEntry l name (set_reserved n (map_upd add64 (reserved n) demand))
  | None => l
  end.

Lemma findEntry_of_side l infl name n :
  nodes l ##ₘ inflight l → side l infl !! name = Some n → findEntry l name = Some n.
Proof.
  unfold findEntry. destruct infl; simpl; intros Hd Hn.
  - by rewrite (map_disjoint_Some_r _ _ _ _ Hd Hn).
  - by rewrite Hn.
Qed.

Lemma reserve_at_wf l name demand : ledger_wf l → ledger_wf (reserve_at l name demand).
Proof.
  intros [[H1 H2] Hd]. unfold reserve_at.
  destruct (findEntry l name) as [n|] eqn:Hn; [|done].
  apply findEntry_side in Hn as (infl & Hn & Hw).
  destruct (Hw (set_reserved n (map_upd add64 (reserved n) demand))) as [E1 E2].
  assert (name ≠ "") as Hne by (intros ->; destruct infl; simpl in Hn; congruence).
  destruct infl; simpl in *; split; unfold named; rewrite ?E1, ?E2;
    rewrite ?lookup_insert_ne by done; try done;
    [apply map_disjoint_insert_r_2|apply map_disjoint_insert_l_2]; try done;
    first [by eapply map_disjoint_Some_r|by eapply map_disjoint_Some_l].
Qed.

(** A search followed by a reservation on the same ledger cannot fail. *)
Lemma Reserve_after_FindFit {O1 O2 : MapOrder} l demand c name infl :
  ledger_wf l → @FindFit O1 l demand c = Ok (name, infl) →
  @Reserve O2 l name demand = (reserve_at l name demand, None).
Proof.
  intros [Hn Hd] HF. apply FindFit_sound in HF as (n & Hs & Hf & _); [|done].
  unfold reserve_at. rewrite Reserve_spec, (findEntry_of_side _ _ _ _ Hd Hs).
  by rewrite decide_True.
Qed.

Lemma Reserve_after_FindFitExisting {O1 O2 : MapOrder} l demand c name :
  ledger_wf l → @FindFitExisting O1 l demand c = Ok name →
  @Reserve O2 l name demand = (reserve_at l name demand, None).
Proof.
  intros [Hn Hd] HF. apply FindFitExisting_sound in HF as (n & Hs & Hf & _); [|done].
  unfold reserve_at. rewrite Reserve_spec, (findEntry_of_side _ false _ _ Hd Hs).
  by rewrite decide_True.
Qed.

(** ** Properties *)

(** [Reserve] is all or nothing.  It succeeds exactly when the name is
    known and every demanded resource is available in full; it then lowers
    what is available on that entry by exactly the demand, touches no other
    entry and keeps the set of names.  Otherwise it returns [errNoFit] and
    leaves the ledger as it was. *)
Theorem Reserve_all_or_nothing {O : MapOrder} l name demand :
  nonneg demand →
  (∃ l', Reserve l name demand = (l', None) ∧
     (∃ n, findEntry l name = Some n ∧ fits n demand) ∧
     (∀ r, ledger_avail l' name r = ledger_avail l name r - demand⟦r⟧) ∧
     (∀ name' r, name ≠ name' → ledger_avail l' name' r = ledger_avail l name' r) ∧
     (∀ name', is_Some (findEntry l' name') ↔ is_Some (findEntry l name'))) ∨
  (Reserve l name demand = (l, Some errNoFit) ∧
     ∀ n, findEntry l name = Some n → ¬ fits n demand).
Proof.
  intros Hd. destruct (cap_reserve l name demand) as [l'|] eqn:Hr.
  - left. exists l'. pose proof Hr as (n & Hn & Hf & _)%ledger_reserve_Some.
    split_and!.
    + cbn [cap_reserve ledger_store] in Hr.
      destruct (Reserve l name demand) as [l1 [e|]]; by simplify_eq.
    + by exists n.
    + intros r. apply (cap_reserve_own l l' name demand r Hd Hr).
    + intros name' r Hne. apply (cap_reserve_other l l' name demand name' r Hr Hne).
    + intros name'. pose proof (cap_reserve_known l l' name demand name' Hr) as Hk.
      cbn [cap_known ledger_store] in Hk.
      rewrite <- (bool_decide_eq_true (is_Some (findEntry l' name'))), Hk.
      apply bool_decide_eq_true.
  - right. cbn [cap_reserve ledger_store] in Hr. rewrite Reserve_spec in *.
    destruct (findEntry l name) as [n|]; [|done].
    case_decide as Hf; [done|]. split; [done|]. by intros ? [= <-].
Qed.

Lemma Reserve_all_or_nothing_witness :
  nonneg {["cpu" := 1000]} ∧
  ((∃ l', @Reserve order_forward example_ledger "a" {["cpu" := 1000]} = (l', None) ∧
     (∃ n, findEntry example_ledger "a" = Some n ∧ fits n {["cpu" := 1000]}) ∧
     (∀ r, ledger_avail l' "a" r = ledger_avail example_ledger "a" r - {["cpu" := 1000]}⟦r⟧) ∧
     (∀ name' r, "a" ≠ name' → ledger_avail l' name' r = ledger_avail example_ledger name' r) ∧
     (∀ name', is_Some (findEntry l' name') ↔ is_Some (findEntry example_ledger name'))) ∨
  (@Reserve order_forward example_ledger "a" {["cpu" := 1000]} = (example_ledger, Some errNoFit) ∧
     ∀ n, findEntry example_ledger "a" = Some n → ¬ fits n {["cpu" := 1000]})).
Proof.
  assert (nonneg {["cpu" := 1000]}) as Hd by (decide_true).
  split; [exact Hd|].
  exact (@Reserve_all_or_nothing order_forward example_ledger "a" {["cpu" := 1000]} Hd).
Defined.

(** C6: no overcommitment.  After any list of requests with non-negative
    demands, each granted by [Reserve] or refused, what is left of a resource
    on an entry is what there was less everything granted there, and whenever
    something was granted the total stays within what was available at the
    start. *)
Theorem ledger_no_overcommit {O : MapOrder} reqs l l' granted name r :
  Forall (λ q, nonneg q.2) reqs → serve reqs l = (l', granted) →
  ledger_avail l' name r = ledger_avail l name r - granted_on name r granted ∧
  0 ≤ granted_on name r granted ∧
  (0 < granted_on name r granted →
   granted_on name r granted ≤ ledger_avail l name r ∧ 0 ≤ ledger_avail l' name r).
Proof.
  intros Hf Hs. pose proof (serve_accounts reqs l l' granted name r Hf Hs) as Ha.
  destruct (serve_within reqs l l' granted name r Hf Hs) as [H0 H1].
  change (@cap_avail NodeLedger ledger_store) with ledger_avail in *.
  split; [done|]. split; [done|]. intros Hpos. specialize (H1 Hpos). lia.
Qed.

Definition example_requests : list (string * gmap string Z) :=
  [("a", {["cpu" := 3000]}); ("a", {["cpu" := 3000]}); ("a", {["cpu" := 1000]})].

Lemma ledger_no_overcommit_witness :
  Forall (λ q, nonneg q.2) example_requests ∧
  ledger_avail (@serve _ (@ledger_store order_forward) example_requests example_ledger).1 "a" "cpu" = 0 ∧
  ledger_avail (@serve _ (@ledger_store order_forward) example_requests example_ledger).1 "a" "cpu" =
    ledger_avail example_ledger "a" "cpu" -
    granted_on "a" "cpu" (@serve _ (@ledger_store order_forward) example_requests example_ledger).2.
Proof.
  assert (Forall (λ q, nonneg q.2) example_requests) as Hf
    by (decide_true).
  split; [exact Hf|]. split; [vm_compute; reflexivity|].
  exact (proj1 (@ledger_no_overcommit order_forward example_requests example_ledger _ _ "a" "cpu"
    Hf (surjective_pairing _))).
Defined.

(** Releasing undoes reserving.  When the amounts reserved on an entry are
    non-negative, a [ReleaseReservation] of the demand a [Reserve] took gives
    back a ledger that agrees with the first on every entry and amount, and so
    allows the same outcomes of every search. *)
Theorem release_undoes_reserve {O1 O2 : MapOrder} l l' name demand :
  (∀ n, findEntry l name = Some n → amounts_wf (reserved n)) →
  @Reserve O1 l name demand = (l', None) →
  ledger_equiv l (@ReleaseReservation O2 l' name demand) ∧
  ∀ d c r, best_fit (@ReleaseReservation O2 l' name demand) d c r ↔ best_fit l d c r.
Proof.
  intros Hwf HR. assert (ledger_equiv l (@ReleaseReservation O2 l' name demand)) as He
    by (by eapply (@reserve_release_equiv O1 O2)).
  split; [done|]. intros d c r. by rewrite <- He.
Qed.

Lemma release_undoes_reserve_witness :
  @Reserve order_forward example_ledger "a" {["cpu" := 1000]} =
    ((@Reserve order_forward example_ledger "a" {["cpu" := 1000]}).1, None) ∧
  ledger_equiv example_ledger
    (@ReleaseReservation order_backward
      (@Reserve order_forward example_ledger "a" {["cpu" := 1000]}).1 "a" {["cpu" := 1000]}).
Proof.
  assert (@Reserve order_forward example_ledger "a" {["cpu" := 1000]} =
    ((@Reserve order_forward example_ledger "a" {["cpu" := 1000]}).1, None)) as HR
    by (vm_compute; reflexivity).
  split; [exact HR|].
  refine (proj1 (@release_undoes_reserve order_forward order_backward _ _ _ _ _ HR)).
  intros n Hn. change (Some (example_entry 4000) = Some n) in Hn.
  injection Hn as <-. decide_true.
Defined.

(** The range invariant.  In every ledger the operations reach from an
    empty one, with allocatable and used amounts and demands within their
    bounds, all amounts stay between 0 and 2^61; so a reserved amount is never
    negative and [available] is the exact difference, without a wrap. *)
Theorem reachable_ledger_bounded l :
  rtc ledger_step New l →
  ledger_bounded l ∧
  ∀ name n r, findEntry l name = Some n →
    0 ≤ (reserved n)⟦r⟧ ≤ amount_bound ∧
    available n r = (allocatable n)⟦r⟧ - (used n)⟦r⟧ - (reserved n)⟦r⟧.
Proof.
  intros H%bounded_reachable. split; [done|]. intros name n r Hn.
  pose proof (bounded_find l name n H Hn) as Hb.
  split; [|by apply available_exact]. destruct Hb as (_ & _ & Hr).
  by apply amounts_bounded_get.
Qed.

Lemma reachable_ledger_bounded_witness :
  rtc ledger_step New (@AddNode order_forward New "a" {["cpu" := 4000]} None []) ∧
  ledger_bounded (@AddNode order_forward New "a" {["cpu" := 4000]} None []).
Proof.
  assert (rtc ledger_step New (@AddNode order_forward New "a" {["cpu" := 4000]} None [])) as H.
  { apply rtc_once, step_AddNode. decide_true. }
  split; [exact H|]. exact (proj1 (reachable_ledger_bounded _ H)).
Defined.

(** Reservations survive a rebuild.  When a ledger whose existing and
    in-flight names differ is snapshotted, rebuilt and restored, every entry
    of the rebuilt ledger that is fresh, or was kept with its reservations,
    carries exactly the amounts reserved under its name before; a name that
    the rebuild left out stays out, its reservations dropped. *)
Theorem rebuild_keeps_reservations {O1 O2 : MapOrder} l l1 infl k :
  nodes l ##ₘ inflight l →
  (∀ n, side l1 infl !! k = Some n → reserved n = ∅ ∨ reserved n = reserved_at l k) →
  side (@RestoreReservations O2 l1 (@SnapshotReservations O1 l)) infl !! k =
    (λ n, set_reserved n (reserved_at l k)) <$> side l1 infl !! k.
Proof.
  intros Hd Hr. destruct (side l1 infl !! k) as [n|] eqn:Hn; simpl.
  - apply restore_snapshot; [done..|]. by apply Hr.
  - by apply restore_snapshot_dropped.
Qed.

Definition example_reserved : NodeLedger :=
  (@Reserve order_forward example_ledger "a" {["cpu" := 1000]}).1.

Lemma rebuild_keeps_reservations_witness :
  nodes example_reserved ##ₘ inflight example_reserved ∧
  side (@RestoreReservations order_forward example_ledger
    (@SnapshotReservations order_backward example_reserved)) false !! "a" =
  (λ n, set_reserved n (reserved_at example_reserved "a")) <$> side example_ledger false !! "a".
Proof.
  assert (nodes example_reserved ##ₘ inflight example_reserved) as Hd
    by (apply map_disjoint_dom_2; decide_true).
  split; [exact Hd|].
  apply (@rebuild_keeps_reservations order_backward order_forward example_reserved
    example_ledger false "a" Hd).
  intros n Hn. change (Some (example_entry 4000) = Some n) in Hn.
  injection Hn as <-. left. reflexivity.
Defined.

(** Profiles are isolated.  Clearing the in-flight entries of a profile
    removes exactly the entries keyed by that profile and leaves the existing
    nodes and the entries of every other profile; and an in-flight signal seen
    for a profile comes from an entry without capacity that the profile owns:
    entries keyed by other profiles never raise it. *)
Theorem profiles_isolated {O : MapOrder} l p :
  object_name p = true →
  let l' := ClearInflightByPrefix l (p +:+ "/") in
  nodes l' = nodes l ∧
  (∀ name, inflight l' !! inflight_key p name = None) ∧
  (∀ q name, object_name q = true → q ≠ p →
     inflight l' !! inflight_key q name = inflight l !! inflight_key q name) ∧
  (HasInflightSignal l (p +:+ "/") = true ↔
     ∃ name n, inflight l !! inflight_key p name = Some n ∧ allocatable n = ∅) ∧
  HasInflightSignal l' (p +:+ "/") = false.
Proof.
  intros Hp l'. split_and!.
  - done.
  - intros name. unfold l'. rewrite ClearInflightByPrefix_lookup, inflight_key_owner by done.
    by rewrite bool_decide_true.
  - intros q name Hq Hne. unfold l'.
    rewrite ClearInflightByPrefix_lookup, inflight_key_owner by done.
    by rewrite bool_decide_false.
  - rewrite HasInflightSignal_spec. split.
    + intros (k & n & Hk & [t ->]%HasPrefix_spec & Ha). by exists t, n.
    + intros (name & n & Hk & Ha). exists (inflight_key p name), n.
      split; [done|]. split; [|done]. apply HasPrefix_app.
  - apply not_true_is_false. intros (k & n & Hk & Hpre & _)%HasInflightSignal_spec.
    unfold l' in Hk. by rewrite ClearInflightByPrefix_lookup, Hpre in Hk.
Qed.

Lemma profiles_isolated_witness :
  object_name "p" = true ∧
  inflight (@ClearInflightByPrefix order_forward example_ledger ("p" +:+ "/")) !!
    inflight_key "p" "x" = None.
Proof.
  assert (object_name "p" = true) as H by reflexivity. split; [exact H|].
  exact (proj1 (proj2 (@profiles_isolated order_forward example_ledger "p" H)) "x").
Defined.

(** The snapshot for metrics counts the entries of each map, and its total
    of a resource is the sum of the existing nodes' allocatable amounts modulo
    2^64, whatever the iteration order; in-flight capacity is not in it. *)
Lemma Snapshot_totals {O : MapOrder} l r :
  NodeCount (Snapshot l) = Z.of_nat (size (nodes l)) ∧
  InflightCount (Snapshot l) = Z.of_nat (size (inflight l)) ∧
  (TotalAllocatable (Snapshot l))⟦r⟧ =
    wrap64 (sum_list_Z ((λ '(_, n), (allocatable n)⟦r⟧) <$> map_to_list (nodes l))).
Proof.
  split; [done|]. split; [done|]. unfold Snapshot. cbn [TotalAllocatable].
  rewrite (foldl_totals (λ name, "alloc/" +:+ name)) by done.
  rewrite range_perm. f_equal.
Qed.
