(* ===== verification/Rules.v ===== *)
(** * The rule plugins

    [internal/rules]: the [Rule] interface and its registry, the extraction of
    a pod's demand, and the two rules [WaitForWorkloadPacking] and
    [WaitForNodeReady].  A rule reads and updates the ledger, so [Evaluate]
    returns the new ledger beside the three results of the Go method. *)

From S2P Require Import Prelude GoStrings Kube Scheduling Ledger LedgerFit Reservations.

Section rules.
Context {K : Kube}.

(** ** [rule.go] *)

Record verdict := Verdict {
  v_release : bool;
  v_nodeName : string;
  v_err : option goerror
}.

Record Rule := {
  rule_Name : string;
  rule_Evaluate : MapOrder → Pod → NodeLedger → PackingProfile → verdict * NodeLedger
}.

(** [Register] on the global map. *)
Definition Register (registry : gmap string Rule) (r : Rule) : gmap string Rule :=
  <[rule_Name r := r]> registry.

(** ** [demand.go] *)

Definition extractConstraints (pod : Pod) : PodSchedulingConstraints := {|
  psc_Tolerations := pod_Tolerations pod;
  psc_NodeSelector := pod_NodeSelector pod |}.

(** The body of the loops: one resource of one container. *)
Definition add_request (container : Container) (demand : gmap string Z) (res : string) :
  gmap string Z :=
  match ctr_Requests container !! res with
  | None => demand
  | Some qty => map_add64 demand res (MilliValue qty)
  end.

Definition extractFromRequests (pod : Pod) (resources : list string) : gmap string Z :=
  foldl (λ demand container, foldl (add_request container) demand resources)
    ∅ (pod_Containers pod).

Definition extractFromAnnotation (pod : Pod) (annotation : string) : gmap string Z :=
  match slookup (pod_Annotations pod) annotation with
  | None => ∅
  | Some val =>
      match ParseInt val with
      | (_, Some _) => ∅
      | (qty, None) => {[annotation := qty]}
      end
  end.

Definition ExtractDemand (pod : Pod) (source : DemandSource) : gmap string Z :=
  if decide (ds_Type source = "ResourceRequest") then
    match ds_Resources source with
    | _ :: _ => extractFromRequests pod (ds_Resources source)
    | [] =>
        extractFromRequests pod (["cpu"; "memory"] ++ ds_AdditionalResources source)
    end
  else if decide (ds_Type source = "Annotation") then
    extractFromAnnotation pod (ds_Annotation source)
  else ∅.

(** ** [binpack.go] *)

Definition WaitForWorkloadPacking_Evaluate (O : MapOrder) (pod : Pod)
    (l : NodeLedger) (profile : PackingProfile) : verdict * NodeLedger :=
  let demand := ExtractDemand pod (spec_DemandSource (profile_Spec profile)) in
  if map_empty demand then (Verdict true "" None, l)
  else
    let constraints := extractConstraints pod in
    match FindFitExisting l demand (Some constraints) with
    | Err _ => (Verdict false "" None, l)
    | Ok nodeName =>
        match Reserve l nodeName demand with
        | (l, Some _) => (Verdict false "" None, l)
        | (l, None) => (Verdict true nodeName None, l)
        end
    end.

Definition WaitForWorkloadPacking : Rule := {|
  rule_Name := "WaitForWorkloadPacking";
  rule_Evaluate := WaitForWorkloadPacking_Evaluate |}.

(** ** [scaleup.go] *)

Definition WaitForNodeReady_Evaluate (O : MapOrder) (pod : Pod)
    (l : NodeLedger) (profile : PackingProfile) : verdict * NodeLedger :=
  let demand := ExtractDemand pod (spec_DemandSource (profile_Spec profile)) in
  if map_empty demand then (Verdict true "" None, l)
  else
    let constraints := extractConstraints pod in
    match FindFit l demand (Some constraints) with
    | Err _ =>
        if HasInflightSignal l (profile_Name profile +:+ "/")
        then (Verdict false "" None, l)
        else (Verdict true "" None, l)
    | Ok (nodeName, isInflight) =>
        if isInflight then
          match Reserve l nodeName demand with
          | (l, Some _) => (Verdict true "" None, l)
          | (l, None) => (Verdict false "" None, l)
          end
        else
          match Reserve l nodeName demand with
          | (l, Some _) => (Verdict false "" None, l)
          | (l, None) => (Verdict true nodeName None, l)
          end
    end.

Definition WaitForNodeReady : Rule := {|
  rule_Name := "WaitForNodeReady";
  rule_Evaluate := WaitForNodeReady_Evaluate |}.

(** The registry after the two [init] functions. *)
Definition Registry : gmap string Rule :=
  Register (Register ∅ WaitForWorkloadPacking) WaitForNodeReady.

(** ** Demand *)

(** The requests of a resource over the containers. *)
Definition requested (pod : Pod) (res : string) : Z :=
  sum_list_Z ((λ c, match ctr_Requests c !! res with
                    | Some q => MilliValue q | None => 0 end) <$> pod_Containers pod).

Definition occurrences (res : string) (resources : list string) : Z :=
  Z.of_nat (length (List.filter (λ r, bool_decide (r = res)) resources)).

Lemma foldl_add_request c resources demand res :
  in_int64 (demand⟦res⟧) →
  (foldl (add_request c) demand resources)⟦res⟧ =
  wrap64 (demand⟦res⟧ + occurrences res resources *
    match ctr_Requests c !! res with Some q => MilliValue q | None => 0 end).
Proof.
  unfold occurrences. revert demand. induction resources as [|r rs IH]; intros demand Hd.
  { simpl. rewrite Z.mul_0_l, Z.add_0_r. by rewrite wrap64_id. }
  cbn [foldl List.filter].
  assert ((add_request c demand r)⟦res⟧ = if bool_decide (r = res) then
    wrap64 (demand⟦res⟧ + match ctr_Requests c !! res with Some q => MilliValue q | None => 0 end)
    else demand⟦res⟧) as Hstep.
  { unfold add_request, map_add64, getZ. case_bool_decide as Hr; [subst r|].
    - destruct (ctr_Requests c !! res); [by rewrite lookup_insert_eq|].
      by rewrite Z.add_0_r, wrap64_id.
    - destruct (ctr_Requests c !! r); [|done]. by rewrite lookup_insert_ne. }
  rewrite IH by (rewrite Hstep; case_bool_decide; auto with int64). rewrite Hstep.
  case_bool_decide; [|done]. rewrite wrap64_add_l. f_equal. cbn [length]. lia.
Qed.

Lemma extractFromRequests_amount pod resources res :
  (extractFromRequests pod resources)⟦res⟧ =
  wrap64 (occurrences res resources * requested pod res).
Proof.
  unfold extractFromRequests, requested.
  assert (∀ cs demand, in_int64 (demand⟦res⟧) →
    (foldl (λ demand c, foldl (add_request c) demand resources) demand cs)⟦res⟧ =
    wrap64 (demand⟦res⟧ + occurrences res resources * sum_list_Z
      ((λ c, match ctr_Requests c !! res with Some q => MilliValue q | None => 0 end) <$> cs))) as H.
  { induction cs as [|c cs IH]; intros demand Hd.
    - simpl. rewrite Z.mul_0_r, Z.add_0_r. by rewrite wrap64_id.
    - rewrite fmap_cons. cbn [foldl sum_list_Z].
      rewrite IH; rewrite foldl_add_request by done; [|auto with int64].
      rewrite wrap64_add_l. f_equal. lia. }
  rewrite H by done. by rewrite Z.add_0_l.
Qed.

(** A resource is in the demand when it is tracked and some container
    requests it, be it an amount of zero. *)
Lemma foldl_add_request_some c resources demand res :
  is_Some (foldl (add_request c) demand resources !! res) ↔
  is_Some (demand !! res) ∨ (res ∈ resources ∧ is_Some (ctr_Requests c !! res)).
Proof.
  revert demand. induction resources as [|r rs IH]; intros demand; cbn [foldl].
  { rewrite elem_of_nil. tauto. }
  rewrite IH, elem_of_cons. unfold add_request, map_add64.
  destruct (ctr_Requests c !! r) eqn:E.
  - rewrite lookup_insert. case_decide; [subst r; rewrite E|]; naive_solver.
  - split; [naive_solver|]. intros [?|[[->|?] [q Hq]]]; [by left|congruence|right; eauto].
Qed.

Lemma extractFromRequests_some pod resources res :
  is_Some (extractFromRequests pod resources !! res) ↔
  res ∈ resources ∧ ∃ c, c ∈ pod_Containers pod ∧ is_Some (ctr_Requests c !! res).
Proof.
  unfold extractFromRequests.
  assert (∀ cs demand,
    is_Some (foldl (λ demand c, foldl (add_request c) demand resources) demand cs !! res) ↔
    is_Some (demand !! res) ∨
    (res ∈ resources ∧ ∃ c, c ∈ cs ∧ is_Some (ctr_Requests c !! res))) as H.
  { induction cs as [|c cs IH]; intros demand; cbn [foldl].
    - setoid_rewrite elem_of_nil. naive_solver.
    - rewrite IH, foldl_add_request_some. setoid_rewrite elem_of_cons. naive_solver. }
  rewrite H, lookup_empty, is_Some_alt. tauto.
Qed.
End rules.

(** ** Decisions

    What the two rules decide, without iteration orders and without the
    branches that a reservation after a search on the same ledger cannot
    take. *)

Section decisions.
Context {K : Kube}.

Definition signal (l : NodeLedger) (prefix : string) : Prop :=
  ∃ k n, inflight l !! k = Some n ∧ HasPrefix k prefix = true ∧ allocatable n = ∅.

(** The three states of the scale-up rule; the third one of the Go comment
    is [nr_place], the first splits on the in-flight signal. *)
Inductive node_ready (l : NodeLedger) (demand : gmap string Z)
    (c : PodSchedulingConstraints) (prefix : string) : bool → string → NodeLedger → Prop :=
  | nr_trigger :
      best_fit l demand (Some c) None → ¬ signal l prefix →
      node_ready l demand c prefix true "" l
  | nr_await_signal :
      best_fit l demand (Some c) None → signal l prefix →
      node_ready l demand c prefix false "" l
  | nr_await_inflight name :
      best_fit l demand (Some c) (Some (name, true)) →
      node_ready l demand c prefix false "" (reserve_at l name demand)
  | nr_place name :
      best_fit l demand (Some c) (Some (name, false)) →
      node_ready l demand c prefix true name (reserve_at l name demand).

Inductive packing (l : NodeLedger) (demand : gmap string Z)
    (c : PodSchedulingConstraints) : bool → string → NodeLedger → Prop :=
  | pk_wait :
      best_fit (set_inflight l ∅) demand (Some c) None →
      packing l demand c false "" l
  | pk_place name :
      best_fit (set_inflight l ∅) demand (Some c) (Some (name, false)) →
      packing l demand c true name (reserve_at l name demand).

Context {O : MapOrder}.

Lemma WaitForNodeReady_cases pod l profile :
  ledger_wf l →
  let demand := ExtractDemand pod (spec_DemandSource (profile_Spec profile)) in
  WaitForNodeReady_Evaluate O pod l profile =
  if map_empty demand then (Verdict true "" None, l)
  else match FindFit l demand (Some (extractConstraints pod)) with
       | Err _ => (Verdict (negb (HasInflightSignal l (profile_Name profile +:+ "/"))) "" None, l)
       | Ok (name, true) => (Verdict false "" None, reserve_at l name demand)
       | Ok (name, false) => (Verdict true name None, reserve_at l name demand)
       end.
Proof.
  intros Hwf demand. unfold WaitForNodeReady_Evaluate. fold demand.
  destruct (map_empty demand); [done|].
  destruct (FindFit l demand (Some (extractConstraints pod))) as [[name infl]|e] eqn:HF.
  - rewrite (Reserve_after_FindFit _ _ _ _ _ Hwf HF). by destruct infl.
  - by destruct (HasInflightSignal l (profile_Name profile +:+ "/")).
Qed.

Lemma WaitForWorkloadPacking_cases pod l profile :
  ledger_wf l →
  let demand := ExtractDemand pod (spec_DemandSource (profile_Spec profile)) in
  WaitForWorkloadPacking_Evaluate O pod l profile =
  if map_empty demand then (Verdict true "" None, l)
  else match FindFitExisting l demand (Some (extractConstraints pod)) with
       | Err _ => (Verdict false "" None, l)
       | Ok name => (Verdict true name None, reserve_at l name demand)
       end.
Proof.
  intros Hwf demand. unfold WaitForWorkloadPacking_Evaluate. fold demand.
  destruct (map_empty demand); [done|].
  destruct (FindFitExisting l demand (Some (extractConstraints pod))) as [name|e] eqn:HF; [|done].
  by rewrite (Reserve_after_FindFitExisting _ _ _ _ Hwf HF).
Qed.

Lemma FindFitExisting_allowed l demand c :
  named l →
  best_fit (set_inflight l ∅) demand c
    (match FindFitExisting l demand c with Ok name => Some (name, false) | Err _ => None end).
Proof.
  intros Hn. pose proof (FindFit_allowed (set_inflight l ∅) demand c
    (named_no_inflight l Hn)) as Hf.
  rewrite FindFitExisting_FindFit.
  destruct (FindFit (set_inflight l ∅) demand c) as [[name [|]]|e] eqn:HF; try done.
  apply FindFit_sound in HF as (n & Hs & _); [|by apply named_no_inflight].
  simpl in Hs. by rewrite lookup_empty in Hs.
Qed.

Lemma ledger_avail_reserve_at l name n demand r :
  findEntry l name = Some n → nonneg demand → fits n demand →
  ledger_avail (reserve_at l name demand) name r = available n r - demand⟦r⟧.
Proof.
  intros Hn Hd Hf. assert (cap_reserve l name demand = Some (reserve_at l name demand)) as Hr.
  { apply ledger_reserve_Some. exists n. unfold reserve_at. by rewrite Hn. }
  pose proof (cap_reserve_own l _ name demand r Hd Hr) as H. simpl in H.
  rewrite H. unfold ledger_avail. by rewrite Hn.
Qed.

Lemma Evaluate_wf pod l profile r :
  r = WaitForNodeReady_Evaluate ∨ r = WaitForWorkloadPacking_Evaluate →
  ledger_wf l → ledger_wf (r O pod l profile).2.
Proof.
  intros [->| ->] Hwf; rewrite ?WaitForNodeReady_cases, ?WaitForWorkloadPacking_cases by done;
    repeat case_match; simpl; auto using reserve_at_wf.
Qed.

Lemma Evaluate_no_error pod l profile r :
  r = WaitForNodeReady_Evaluate ∨ r = WaitForWorkloadPacking_Evaluate →
  v_err (r O pod l profile).1 = None.
Proof.
  intros [->| ->]; unfold WaitForNodeReady_Evaluate, WaitForWorkloadPacking_Evaluate;
    repeat case_match; done.
Qed.
End decisions.

(** ** Properties *)

Section properties.
Context {K : Kube}.

(** The resources a ResourceRequest source tracks. *)
Definition tracked (source : DemandSource) : list string :=
  match ds_Resources source with
  | [] => ["cpu"; "memory"] ++ ds_AdditionalResources source
  | rs => rs
  end.

(** The demand of a ResourceRequest source.  The amount of a resource is
    the sum of the containers' requests in milli-units, modulo 2^64, once for
    each time the resource is listed; a resource has an entry exactly when it
    is listed and some container requests it.  The deprecated explicit list,
    when there is one, replaces cpu, memory and the additional resources. *)
Theorem ExtractDemand_requests pod source res :
  ds_Type source = "ResourceRequest" →
  (ExtractDemand pod source)⟦res⟧ =
    wrap64 (occurrences res (tracked source) * requested pod res) ∧
  (is_Some (ExtractDemand pod source !! res) ↔
    res ∈ tracked source ∧ ∃ c, c ∈ pod_Containers pod ∧ is_Some (ctr_Requests c !! res)).
Proof.
  intros Ht. unfold ExtractDemand, tracked. rewrite decide_True by done.
  destruct (ds_Resources source);
    (split; [apply extractFromRequests_amount|apply extractFromRequests_some]).
Qed.

(** C8: the scale-up rule implements its three-state contract.  On a
    well-formed ledger, for a pod with a demand and any iteration order, it
    returns no error and one of: release without a node, when nothing fits
    and no in-flight node of unknown capacity is announced for the profile;
    hold, when nothing fits and one is; hold with the demand reserved, when
    the best fit is in flight; release to the best fit with the demand
    reserved, when that is an existing node.  A failed reservation never
    decides, and the ledger stays well formed. *)
Theorem WaitForNodeReady_three_state {O : MapOrder} pod l profile :
  ledger_wf l →
  let demand := ExtractDemand pod (spec_DemandSource (profile_Spec profile)) in
  let '(v, l') := WaitForNodeReady_Evaluate O pod l profile in
  v_err v = None ∧ ledger_wf l' ∧
  (demand = ∅ → v = Verdict true "" None ∧ l' = l) ∧
  (demand ≠ ∅ →
    node_ready l demand (extractConstraints pod) (profile_Name profile +:+ "/")
      (v_release v) (v_nodeName v) l').
Proof.
  intros Hwf demand.
  pose proof (Evaluate_wf (O := O) pod l profile _ (or_introl eq_refl) Hwf) as Hwf'.
  rewrite WaitForNodeReady_cases in * by done. fold demand in Hwf' |- *.
  destruct (map_empty demand) eqn:He.
  { apply map_empty_spec in He. by split_and!. }
  apply map_empty_false in He.
  pose proof (FindFit_allowed l demand (Some (extractConstraints pod)) (proj1 Hwf)) as Hf.
  destruct (FindFit l demand (Some (extractConstraints pod))) as [[name infl]|e]; simpl in Hf.
  - destruct infl; (split_and!; [done..|by intros ->|intros _]); by constructor.
  - split_and!; [done..|by intros ->|intros _]. simpl.
    destruct (HasInflightSignal l (profile_Name profile +:+ "/")) eqn:Hs; constructor;
      try done; unfold signal; rewrite <- HasInflightSignal_spec; by rewrite Hs.
Qed.

(** C9: the packing rule releases exactly when an existing node fits: on a
    well-formed ledger, for a pod with a demand, it returns no error and
    either holds the gate and leaves the ledger alone, when no existing node
    fits, or releases to a best fit among the existing nodes with the demand
    reserved there, whose resources then all stay at zero or more. *)
Theorem WaitForWorkloadPacking_decides {O : MapOrder} pod l profile :
  ledger_wf l →
  let demand := ExtractDemand pod (spec_DemandSource (profile_Spec profile)) in
  let '(v, l') := WaitForWorkloadPacking_Evaluate O pod l profile in
  v_err v = None ∧ ledger_wf l' ∧
  (demand = ∅ → v = Verdict true "" None ∧ l' = l) ∧
  (demand ≠ ∅ → packing l demand (extractConstraints pod) (v_release v) (v_nodeName v) l') ∧
  (demand ≠ ∅ → v_release v = true → nonneg demand →
    ∀ r q, demand !! r = Some q → 0 ≤ ledger_avail l' (v_nodeName v) r).
Proof.
  intros Hwf demand.
  pose proof (Evaluate_wf (O := O) pod l profile _ (or_intror eq_refl) Hwf) as Hwf'.
  rewrite WaitForWorkloadPacking_cases in * by done. fold demand in Hwf' |- *.
  destruct (map_empty demand) eqn:He.
  { apply map_empty_spec in He. by split_and!. }
  apply map_empty_false in He.
  pose proof (FindFitExisting_allowed l demand (Some (extractConstraints pod)) (proj1 Hwf)) as Hf.
  destruct (FindFitExisting l demand (Some (extractConstraints pod))) as [name|e] eqn:HF;
    cbn [fst snd v_err v_release v_nodeName].
  - split_and!; [done..|by intros ->|intros _; by constructor|].
    intros _ _ Hd r q Hq. apply FindFitExisting_sound in HF as (n & Hn & Hfit & _); [|apply Hwf].
    rewrite (ledger_avail_reserve_at l name n) by (try done; unfold findEntry; by rewrite Hn).
    specialize (Hfit r q Hq). unfold getZ. rewrite Hq. cbn in Hfit |- *. lia.
  - split_and!; [done..|by intros ->|intros _; by constructor|done].
Qed.

(** The demand of an Annotation source.  A value that is the decimal form
    of an int64 is the demand, also when it is negative; without the
    annotation, or with a value that does not parse, there is no demand.  A
    negative demand that a node grants raises what is available there. *)
Theorem ExtractDemand_annotation pod source :
  ds_Type source = "Annotation" →
  (∀ z, in_int64 z → slookup (pod_Annotations pod) (ds_Annotation source) = Some (pretty z) →
     ExtractDemand pod source = {[ds_Annotation source := z]}) ∧
  (slookup (pod_Annotations pod) (ds_Annotation source) = None →
     ExtractDemand pod source = ∅) ∧
  (∀ v e, slookup (pod_Annotations pod) (ds_Annotation source) = Some v →
     (ParseInt v).2 = Some e → ExtractDemand pod source = ∅) ∧
  (∀ (O : MapOrder) l l' name n z,
     Reserve l name {[ds_Annotation source := z]} = (l', None) →
     findEntry l name = Some n → entry_bounded n → - amount_bound ≤ z < 0 →
     ledger_avail l name (ds_Annotation source) < ledger_avail l' name (ds_Annotation source)).
Proof.
  intros Ht. unfold ExtractDemand. rewrite Ht, decide_False, decide_True by done.
  unfold extractFromAnnotation. split_and!.
  - intros z Hz ->. by rewrite ParseInt_pretty.
  - by intros ->.
  - intros v e ->. destruct (ParseInt v) as [? [?|]]; [done|]. by intros [=].
  - intros O l l' name n z HR Hn Hb Hz. rewrite Reserve_spec, Hn in HR.
    case_decide; [|done]. injection HR as <-. unfold ledger_avail.
    rewrite (findEntry_write_same _ _ _ _ Hn), Hn, available_reserve, lookup_singleton_eq.
    rewrite available_exact by done. destruct Hb as (Ha & Hu & Hr).
    apply amounts_bounded_get with (r := ds_Annotation source) in Ha, Hu, Hr.
    rewrite sub64_exact by (unfold amount_bound in *; int64_lia). lia.
Qed.

(** The ledger after a pod's evaluation by the scale-up rule has been
    repeated [i] times. *)
Fixpoint evaluated {O : MapOrder} (i : nat) (pod : Pod) (profile : PackingProfile)
    (l : NodeLedger) : NodeLedger :=
  match i with
  | O => l
  | S i => (WaitForNodeReady_Evaluate _ pod (evaluated i pod profile l) profile).2
  end.

(** What a node offers to a demand for one resource. *)
Lemma lone_offer n r d c :
  node_matches n c → 0 < d →
  offer n {[r := d]} (Some c) =
  if decide (d ≤ available n r) then Some (available n r - d) else None.
Proof.
  intros Hm Hd. unfold offer.
  rewrite (proj2 (nodeMatchesConstraints_spec (O := order_forward) n (Some c)))
    by (by intros ? [= <-]).
  assert (fits n {[r := d]} ↔ d ≤ available n r) as Hf
    by (unfold fits; by rewrite map_Forall_singleton).
  case_decide; cbn [andb].
  - rewrite (bool_decide_true (fits n _)) by (by apply Hf). f_equal.
    unfold slack. rewrite map_to_list_singleton. cbn. rewrite Z.add_0_r.
    apply wrap64_id. pose proof (available_int64 n r). int64_lia.
  - by rewrite (bool_decide_false (fits n _)) by (by rewrite Hf).
Qed.

(** A search for one resource when the only node is in flight. *)
Lemma lone_inflight_fit {O : MapOrder} key n r d c :
  key ≠ "" → node_matches n c → 0 < d →
  FindFit (MkLedger ∅ {[key := n]}) {[r := d]} (Some c) =
  if decide (d ≤ available n r) then Ok (key, true) else Err errNoFit.
Proof.
  intros Hk Hm Hd. unfold FindFit. cbn [nodes inflight].
  rewrite range_empty, range_singleton. cbn [foldl]. rewrite check_offer.
  rewrite lone_offer by done. pose proof (available_int64 n r) as Ha.
  case_decide; [|done]. cbn [bestSlack bestInflight bestName negb andb].
  rewrite (proj2 (Z.ltb_lt _ _)) by int64_lia. cbn. by rewrite bool_decide_false.
Qed.

(** The same for an existing node. *)
Lemma lone_existing_fit {O : MapOrder} key n r d c :
  key ≠ "" → node_matches n c → 0 < d →
  FindFit (MkLedger {[key := n]} ∅) {[r := d]} (Some c) =
  if decide (d ≤ available n r) then Ok (key, false) else Err errNoFit.
Proof.
  intros Hk Hm Hd. unfold FindFit. cbn [nodes inflight].
  rewrite range_empty, range_singleton. cbn [foldl]. rewrite check_offer.
  rewrite lone_offer by done. pose proof (available_int64 n r) as Ha.
  case_decide; [|done]. cbn [bestSlack bestInflight bestName negb andb].
  rewrite (proj2 (Z.ltb_lt _ _)) by int64_lia. cbn. by rewrite bool_decide_false.
Qed.

(** One more evaluation reserves once more, until nothing fits. *)
Lemma held_step {O : MapOrder} pod profile key n r d :
  ExtractDemand pod (spec_DemandSource (profile_Spec profile)) = {[r := d]} →
  key ≠ "" → node_matches n (extractConstraints pod) → 0 < d → allocatable n ≠ ∅ →
  WaitForNodeReady_Evaluate O pod (MkLedger ∅ {[key := n]}) profile =
  if decide (d ≤ available n r)
  then (Verdict false "" None,
        MkLedger ∅ {[key := set_reserved n (map_upd add64 (reserved n) {[r := d]})]})
  else (Verdict true "" None, MkLedger ∅ {[key := n]}).
Proof.
  intros He Hk Hm Hd Ha. assert (ledger_wf (MkLedger ∅ {[key := n]})) as Hwf.
  { split; [split|]; [apply lookup_empty|by apply lookup_singleton_ne|apply map_disjoint_empty_l]. }
  rewrite WaitForNodeReady_cases, He, lone_inflight_fit by done.
  rewrite (proj2 (map_empty_false _)) by apply map_non_empty_singleton.
  case_decide.
  - unfold reserve_at, findEntry, writeEntry. cbn [nodes inflight].
    rewrite lookup_empty, lookup_singleton_eq. unfold set_inflight. cbn [nodes inflight].
    by rewrite insert_singleton_eq.
  - destruct (HasInflightSignal (MkLedger ∅ {[key := n]}) _) eqn:Hs; [exfalso|done].
    apply HasInflightSignal_spec in Hs as (k & n' & Hn & _ & He'). cbn [inflight] in Hn.
    by apply lookup_singleton_Some in Hn as [-> ->].
Qed.

Lemma evaluated_lone {O : MapOrder} pod profile key n r d i :
  ExtractDemand pod (spec_DemandSource (profile_Spec profile)) = {[r := d]} →
  key ≠ "" → node_matches n (extractConstraints pod) → 0 < d → allocatable n ≠ ∅ →
  0 ≤ available n r → Z.of_nat i ≤ available n r / d →
  ∃ n', evaluated i pod profile (MkLedger ∅ {[key := n]}) = MkLedger ∅ {[key := n']} ∧
    node_matches n' (extractConstraints pod) ∧ allocatable n' ≠ ∅ ∧
    available n' r = available n r - Z.of_nat i * d.
Proof.
  intros He Hk Hm Hd Ha Hav. induction i as [|i IH]; intros Hi.
  { exists n. split_and!; [done..|lia]. }
  destruct IH as (n' & E & Hm' & Ha' & Hav'); [lia|].
  cbn [evaluated]. rewrite E, (held_step _ _ _ n' r d) by done.
  assert (d ≤ available n' r) as Hle.
  { rewrite Hav'. pose proof (Z.mul_div_le (available n r) d Hd). nia. }
  rewrite decide_True by done. eexists. split; [done|]. split_and!; [done..|].
  rewrite available_reserve, lookup_singleton_eq, sub64_exact; [lia|].
  pose proof (available_int64 n' r). int64_lia.
Qed.

(** C36: a held pod exhausts the node it waits for.  When the only node is in
    flight with a known capacity, the scale-up rule reserves a pod's demand on
    it again at every evaluation of the same pod: after as many evaluations as
    the demand fits into what is available, the rule does not hold the gate
    any more but releases the pod without a node, as if there were no
    capacity. *)
Theorem held_pod_exhausts_inflight {O : MapOrder} pod profile key n r d i :
  ExtractDemand pod (spec_DemandSource (profile_Spec profile)) = {[r := d]} →
  key ≠ "" → node_matches n (extractConstraints pod) → 0 < d → allocatable n ≠ ∅ →
  0 ≤ available n r →
  let l := evaluated i pod profile (MkLedger ∅ {[key := n]}) in
  (Z.of_nat i < available n r / d →
     (WaitForNodeReady_Evaluate O pod l profile).1 = Verdict false "" None) ∧
  (Z.of_nat i = available n r / d →
     (WaitForNodeReady_Evaluate O pod l profile).1 = Verdict true "" None).
Proof.
  intros He Hk Hm Hd Ha Hav l. pose proof (Z.mul_div_le (available n r) d Hd).
  pose proof (Z.mul_succ_div_gt (available n r) d Hd).
  split; intros Hi;
    destruct (evaluated_lone pod profile key n r d i He Hk Hm Hd Ha Hav) as (n' & E & ? & ? & Ea);
    try lia; unfold l; rewrite E, (held_step _ _ _ n' r d) by done.
  - rewrite decide_True; [done|]. rewrite Ea. nia.
  - rewrite decide_False; [done|]. rewrite Ea. nia.
Qed.

Lemma Registry_lookup name :
  Registry !! name =
    if decide (name = "WaitForNodeReady") then Some WaitForNodeReady
    else if decide (name = "WaitForWorkloadPacking") then Some WaitForWorkloadPacking
    else None.
Proof.
  unfold Registry, Register. rewrite !lookup_insert, lookup_empty.
  cbn [rule_Name WaitForNodeReady WaitForWorkloadPacking].
  repeat case_decide; congruence.
Qed.

(** Both registered rules are among the two. *)
Lemma Registry_Evaluate name rule :
  Registry !! name = Some rule →
  rule_Evaluate rule = WaitForNodeReady_Evaluate ∨
  rule_Evaluate rule = WaitForWorkloadPacking_Evaluate.
Proof. rewrite Registry_lookup. repeat case_decide; intros [= <-]; auto. Qed.

End properties.

(** ** Witnesses *)

Definition example_pod (cpu : Z) : Pod (K := kube_milli) := {|
  pod_Name := "p"; pod_Namespace := "default";
  pod_Labels := Some {[LabelProfile := "p"]}; pod_Annotations := None;
  pod_CreationTimestamp := 0;
  pod_Containers := [{| ctr_Requests := {["cpu" := cpu : Quantity (Kube := kube_milli)]} |}];
  pod_Tolerations := []; pod_NodeSelector := None; pod_SchedulingGates := [];
  pod_Affinity := None; pod_NodeName := ""; pod_Phase := "Pending" |}.

Definition example_source : DemandSource := {|
  ds_Type := "ResourceRequest"; ds_Resources := []; ds_AdditionalResources := [];
  ds_Annotation := ""; ds_Unit := "" |}.

Definition example_profile : PackingProfile := {|
  profile_Name := "p";
  profile_Spec := {|
    spec_DemandSource := example_source;
    spec_CapacitySource := {| cs_Type := "Allocatable"; cs_Resources := []; cs_Label := "";
      cs_PerDeviceCount := None; cs_NodeGroupTemplates := [] |};
    spec_ReadinessSignal := {| rs_NodeConditions := []; rs_RequiredLabels := [] |};
    spec_Rules := [{| ruleref_Name := "WaitForNodeReady" |}];
    spec_ReservationTimeout := "3m" |};
  profile_Status := {| st_ActiveGates := 0; st_InflightNodes := 0; st_ActiveDetectors := [];
    st_Conditions := [] |} |}.

Lemma ExtractDemand_requests_witness :
  ds_Type example_source = "ResourceRequest" ∧
  (ExtractDemand (K := kube_milli) (example_pod 500) example_source)⟦"cpu"⟧ =
    wrap64 (occurrences "cpu" (tracked example_source) * requested (example_pod 500) "cpu").
Proof.
  split; [reflexivity|].
  exact (proj1 (ExtractDemand_requests (K := kube_milli) (example_pod 500) example_source "cpu" eq_refl)).
Defined.

Lemma example_ledger_wf : ledger_wf example_ledger.
Proof. decide_true. Qed.

Lemma WaitForNodeReady_three_state_witness :
  ledger_wf example_ledger ∧
  let '(v, l') := WaitForNodeReady_Evaluate (K := kube_milli) order_forward (example_pod 500)
    example_ledger example_profile in
  v_err v = None ∧ ledger_wf l'.
Proof.
  split; [exact example_ledger_wf|].
  pose proof (WaitForNodeReady_three_state (K := kube_milli) (O := order_forward)
    (example_pod 500) example_ledger example_profile example_ledger_wf) as H.
  cbv zeta in H. destruct (WaitForNodeReady_Evaluate _ _ _ _) as [v l'].
  exact (conj (proj1 H) (proj1 (proj2 H))).
Defined.

Lemma WaitForWorkloadPacking_decides_witness :
  ledger_wf example_ledger ∧
  let '(v, l') := WaitForWorkloadPacking_Evaluate (K := kube_milli) order_forward (example_pod 500)
    example_ledger example_profile in
  v_err v = None ∧ ledger_wf l'.
Proof.
  split; [exact example_ledger_wf|].
  pose proof (WaitForWorkloadPacking_decides (K := kube_milli) (O := order_forward)
    (example_pod 500) example_ledger example_profile example_ledger_wf) as H.
  cbv zeta in H. destruct (WaitForWorkloadPacking_Evaluate _ _ _ _) as [v l'].
  exact (conj (proj1 H) (proj1 (proj2 H))).
Defined.

Definition example_annotated : Pod (K := kube_milli) :=
  set_Annotations (example_pod 0) (Some {["gpu" := "-5"]}).

Lemma ExtractDemand_annotation_witness :
  let source := {| ds_Type := "Annotation"; ds_Resources := []; ds_AdditionalResources := [];
    ds_Annotation := "gpu"; ds_Unit := "" |} in
  ExtractDemand example_annotated source = {["gpu" := -5]}.
Proof.
  intros source.
  refine (proj1 (ExtractDemand_annotation (K := kube_milli) example_annotated source eq_refl)
    (-5) _ _); [decide_true|vm_compute; reflexivity].
Defined.

Lemma held_pod_exhausts_inflight_witness :
  ExtractDemand (K := kube_milli) (example_pod 3000) example_source = {["cpu" := 3000]} ∧
  (WaitForNodeReady_Evaluate (K := kube_milli) order_forward (example_pod 3000)
    (evaluated (O := order_forward) 3 (example_pod 3000) example_profile
      (MkLedger ∅ {["p/x" := example_entry 9000]})) example_profile).1 = Verdict true "" None.
Proof.
  assert (ExtractDemand (K := kube_milli) (example_pod 3000) example_source = {["cpu" := 3000]})
    as He by (vm_compute; reflexivity).
  split; [exact He|].
  refine (proj2 (held_pod_exhausts_inflight (K := kube_milli) (O := order_forward)
    (example_pod 3000) example_profile "p/x" (example_entry 9000) "cpu" 3000 3
    He _ _ _ _ _) _); try done.
  split; [|done]. intros t Ht. by apply not_elem_of_nil in Ht.
Defined.
