(* ===== verification/Inflight.v ===== *)
(** * Detection of in-flight nodes

    [internal/inflight]: the three detectors the manager can configure, each
    reading the cluster through an uncached client.  [ClusterAutoscaler]
    parses a status ConfigMap, [GOATScaler] parses events,
    [NotReadyNodeDetector] looks for nodes that were never ready. *)

From Stdlib Require Import Ascii.
From S2P Require Import Prelude GoStrings GoTime Kube.

(** ** [detector.go] *)

Record InflightNode := {
  in_Name : string;
  in_Allocatable : gmap string Z;
  in_Labels : strmap;
  in_InstanceType : string;
  in_DetectedAt : Z
}.

(** The responses of the API server to the reads of a [client.Reader]:
    ConfigMaps by namespace and name, all nodes, events by reason or all. *)
Record Reader {K : Kube} := {
  rd_GetConfigMap : string → string → result ConfigMap;
  rd_ListNodes : result (list Node);
  rd_ListEvents : option string → result (list Event)
}.

Definition extractValue (s prefix : string) : string :=
  match Index s prefix with
  | None => ""
  | Some idx => TrimSpace (drop_str (idx + String.length prefix) s)
  end.

(** The body of the loop of [parseHealthLine], on (ready, target). *)
Definition health_part (acc : Z * Z) (p : string) : Z * Z :=
  let p := TrimSpace p in
  let ready := if Contains p "ready=" then (Atoi (extractValue p "ready=")).1
               else acc.1 in
  let target := if Contains p "cloudProviderTarget="
                then (Atoi (extractValue p "cloudProviderTarget=")).1
                else acc.2 in
  (ready, target).

Definition parseHealthLine (line : string) : Z * Z :=
  foldl health_part (0, 0) (Split ","%char line).

(** [fmt.Sprintf("%s-pending-%d", currentGroup, i)] with no capacity. *)
Definition pending_node (currentGroup : string) (i : nat) : InflightNode := {|
  in_Name := currentGroup +:+ "-pending-" +:+ pretty (Z.of_nat i);
  in_Allocatable := ∅;
  in_Labels := None;
  in_InstanceType := "";
  in_DetectedAt := 0 |}.

(** [for i := 0; i < pending; i++] *)
Definition pending_nodes (currentGroup : string) (pending : Z) : list InflightNode :=
  pending_node currentGroup <$> seq 0 (Z.to_nat pending).

(** The body of the loop of [parseCAStatus], on (nodes, currentGroup). *)
Definition status_line (acc : list InflightNode * string) (line : string) :
  list InflightNode * string :=
  let '(nodes, currentGroup) := acc in
  let line := TrimSpace line in
  if HasPrefix line "Name:" then (nodes, TrimSpace (TrimPrefix line "Name:"))
  else if HasPrefix line "Health:" && negb (bool_decide (currentGroup = "")) then
    let '(ready, target) := parseHealthLine line in
    let pending := target ⊖ ready in
    (nodes ++ pending_nodes currentGroup pending, "")
  else (nodes, currentGroup).

Definition newline : ascii := "010"%char.

Definition parseCAStatus (status : string) : list InflightNode :=
  (foldl status_line ([], "") (Split newline status)).1.

Section detectors.
Context {K : Kube}.

Definition ClusterAutoscalerDetector_Detect (reader : Reader) : list InflightNode :=
  match rd_GetConfigMap reader "kube-system" "cluster-autoscaler-status" with
  | Err _ => []
  | Ok cm =>
      match slookup (cm_Data cm) "status" with
      | None => []
      | Some status => parseCAStatus status
      end
  end.
End detectors.

(** ** [goatscaler.go] *)

Definition goatscalerComponent : string := "GOATScaler".
Definition provisionNodeReason : string := "ProvisionNode".
Definition notTriggerScaleUpReason : string := "NotTriggerScaleUp".
Definition noStockSignal : string := "NodePool NoStock".
Definition DefaultEventMaxAge : Z := 15 * Minute.

Definition provisionNodeRegex : list re_item :=
  [Lit "Provision node "; Cap re_nonspace; Lit " in Zone: "; Cap re_nonspace;
   Lit " with InstanceType: "; Cap re_nonspace; Lit ", Triggered time "; Cap re_dot].

(** Node name, zone and instance type. *)
Definition parseProvisionNodeMessage (msg : string) : result (string * string * string) :=
  match FindStringSubmatch provisionNodeRegex msg with
  | Some (nodeName :: zone :: instanceType :: _) => Ok (nodeName, zone, instanceType)
  | _ => Err (errors_New "message does not match ProvisionNode format")
  end.

Record GOATScalerDetector := {
  EventMaxAge : Z;
  NoStockDetected : bool
}.

(** The body of the loop over the events, on (seen, nodes, NoStockDetected). *)
Definition goat_event (cutoff : Z) (acc : gset string * list InflightNode * bool)
    (ev : Event) : gset string * list InflightNode * bool :=
  let '(seen, nodes, noStock) := acc in
  if negb (bool_decide (ev_Component ev = goatscalerComponent)) then acc
  else
    let evTime := if IsZero (ev_LastTimestamp ev) then ev_CreationTimestamp ev
                  else ev_LastTimestamp ev in
    if time_Before evTime cutoff then acc
    else if bool_decide (ev_Reason ev = notTriggerScaleUpReason)
            && Contains (ev_Message ev) noStockSignal then (seen, nodes, true)
    else if negb (bool_decide (ev_Reason ev = provisionNodeReason)) then acc
    else
      match parseProvisionNodeMessage (ev_Message ev) with
      | Err _ => acc
      | Ok (nodeName, _, instanceType) =>
          if bool_decide (nodeName ∈ seen) then acc
          else ({[nodeName]} ∪ seen,
                nodes ++ [{| in_Name := nodeName; in_Allocatable := ∅; in_Labels := None;
                             in_InstanceType := instanceType; in_DetectedAt := evTime |}],
                noStock)
      end.

Section goatscaler.
Context {K : Kube}.

(** The events: by reason when the reader can select, else all of them. *)
Definition goat_list (reader : Reader) : result (list Event) :=
  match rd_ListEvents reader (Some provisionNodeReason) with
  | Ok evs => Ok evs
  | Err _ => rd_ListEvents reader None
  end.

Definition goat_cutoff (d : GOATScalerDetector) (now : Clock) : Z :=
  let maxAge := if EventMaxAge d =? 0 then DefaultEventMaxAge else EventMaxAge d in
  time_Add (now "goatscaler" 0%nat) (wrap64 (- maxAge)).

Definition GOATScalerDetector_Detect (d : GOATScalerDetector) (reader : Reader)
    (now : Clock) : GOATScalerDetector * list InflightNode :=
  match goat_list reader with
  | Err _ => (d, [])
  | Ok events =>
      let '(_, nodes, noStock) := foldl (goat_event (goat_cutoff d now)) (∅, [], false) events in
      ({| EventMaxAge := EventMaxAge d; NoStockDetected := noStock |}, nodes)
  end.
End goatscaler.

(** ** [notready.go] *)

Definition neverReadyThreshold : Z := 10 * Second.
Definition maxNotReadyAge : Z := 15 * Minute.
Definition instanceTypeLabel : string := "node.kubernetes.io/instance-type".

(** [-delta] on an int64 when negative. *)
Definition duration_abs (delta : Z) : Z := if delta <? 0 then wrap64 (- delta) else delta.

Section notready.
Context {K : Kube}.

(** The loop of [isNeverReady]. *)
Fixpoint never_ready_conditions (conds : list NodeCondition) (created : Z) : bool :=
  match conds with
  | [] => true
  | cond :: conds =>
      if negb (bool_decide (nc_Type cond = NodeReady))
      then never_ready_conditions conds created
      else if bool_decide (nc_Status cond = ConditionTrue) then false
      else duration_abs (time_Sub (nc_LastTransitionTime cond) created)
             <=? neverReadyThreshold
  end.

Definition isNeverReady (node : Node) : bool :=
  never_ready_conditions (node_Conditions node) (node_CreationTimestamp node).

Context {O : MapOrder}.

(** [alloc[string(res)] = qty.MilliValue()] over a resource list. *)
Definition milli_alloc (tag : string) (m : gmap string Quantity) : gmap string Z :=
  foldl (λ alloc '(res, qty), <[res := MilliValue qty]> alloc) ∅ (range tag m).

Definition notready_node (node : Node) : InflightNode := {|
  in_Name := node_Name node;
  in_Allocatable := milli_alloc ("notready/" +:+ node_Name node) (node_Allocatable node);
  in_Labels := Some (foldl (λ ls '(k, v), <[k := v]> ls) ∅
                      (range ("notready-labels/" +:+ node_Name node) (smap (node_Labels node))));
  in_InstanceType := sget (node_Labels node) instanceTypeLabel;
  in_DetectedAt := node_CreationTimestamp node |}.

(** The loop over the nodes; the clock is read for each one that was never
    ready. *)
Fixpoint notready_loop (i : nat) (items : list Node) (now : Clock) : list InflightNode :=
  match items with
  | [] => []
  | node :: items =>
      if negb (isNeverReady node) then notready_loop (S i) items now
      else if maxNotReadyAge <? time_Sub (now "notready" i) (node_CreationTimestamp node)
      then notready_loop (S i) items now
      else notready_node node :: notready_loop (S i) items now
  end.

Definition NotReadyNodeDetector_Detect (reader : Reader) (now : Clock) : list InflightNode :=
  match rd_ListNodes reader with
  | Err _ => []
  | Ok items => notready_loop 0 items now
  end.
End notready.

(** ** The interface *)

(** [Detector]: the three implementations, and any other one, which may fail. *)
Inductive Detector {K : Kube} :=
  | DetectorClusterAutoscaler
  | DetectorGOATScaler (d : GOATScalerDetector)
  | DetectorNotReady
  | DetectorOther (name : string)
      (detect : Reader → Clock → result (list InflightNode)).

Definition Detector_Name {K : Kube} (d : Detector) : string :=
  match d with
  | DetectorClusterAutoscaler => "cluster-autoscaler"
  | DetectorGOATScaler _ => "goatscaler"
  | DetectorNotReady => "not-ready-nodes"
  | DetectorOther name _ => name
  end.

(** [Detect], with the detector it leaves. *)
Definition Detector_Detect {K : Kube} {O : MapOrder} (d : Detector) (reader : Reader)
    (now : Clock) : Detector * result (list InflightNode) :=
  match d with
  | DetectorClusterAutoscaler => (d, Ok (ClusterAutoscalerDetector_Detect reader))
  | DetectorGOATScaler g =>
      let '(g, nodes) := GOATScalerDetector_Detect g reader now in
      (DetectorGOATScaler g, Ok nodes)
  | DetectorNotReady => (d, Ok (NotReadyNodeDetector_Detect reader now))
  | DetectorOther _ detect => (d, detect reader now)
  end.

(** ** The status format *)

(** A node group as the status reports it. *)
Record group := Group { g_name : string; g_ready : Z; g_target : Z }.

(** Names of node groups are words, counts fit in an int. *)
Definition group_ok (g : group) : Prop :=
  word (g_name g) = true ∧ g_name g ≠ "" ∧
  0 ≤ g_ready g < 2 ^ 63 ∧ 0 ≤ g_target g < 2 ^ 63.

#[global] Instance group_ok_dec g : Decision (group_ok g).
Proof. unfold group_ok. apply _. Defined.

(** The format documented at [parseCAStatus]. *)
Definition health_line (g : group) : string :=
  ("Health: ready=" +:+ pretty (g_ready g)) +:+
    String "," (" cloudProviderTarget=" +:+ pretty (g_target g)).

Definition group_lines (g : group) : list string := ["Name: " +:+ g_name g; health_line g].

Definition render_status (gs : list group) : string :=
  Join (gs ≫= group_lines) (String newline "").

Definition group_pending (g : group) : list InflightNode :=
  pending_nodes (g_name g) (g_target g - g_ready g).

(** Looking for a pattern in a literal prefix followed by a string free of
    the pattern's first byte. *)
Lemma Contains_Index s sub n : Index s sub = Some n → Contains s sub = true.
Proof. unfold Contains. by intros ->. Qed.

Lemma Contains_None s sub : Index s sub = None → Contains s sub = false.
Proof. unfold Contains. by intros ->. Qed.

Lemma pretty_digits z : 0 ≤ z → all_chars is_digit (pretty z) = true.
Proof. intros. rewrite pretty_Z_nonneg by done. apply pretty_N_digits. Qed.

Lemma digits_not_char c s :
  is_digit c = false → all_chars is_digit s = true → all_chars (not_char c) s = true.
Proof.
  intros Hc. apply all_chars_impl. intros a Ha. unfold not_char.
  destruct (Ascii.eqb_spec a c); [congruence|done].
Qed.

Lemma prefix_nil s : String.prefix "" s = true.
Proof. by destruct s. Qed.

Lemma Index_ready w :
  Index ("Health: ready=" +:+ w) "ready=" = Some 8%nat.
Proof. unfold Index. simpl. by rewrite prefix_nil. Qed.

Lemma Index_target w :
  Index ("cloudProviderTarget=" +:+ w) "cloudProviderTarget=" = Some 0%nat.
Proof. unfold Index. simpl. by rewrite prefix_nil. Qed.

Lemma Index_ready_target w :
  all_chars is_digit w = true → Index ("cloudProviderTarget=" +:+ w) "ready=" = None.
Proof.
  intros Hw. pose proof (Index_first_char "r" "eady=" w) as H.
  unfold Index in *. simpl. rewrite H; [done|by apply digits_not_char].
Qed.

Lemma Index_target_ready w :
  all_chars is_digit w = true →
  Index ("Health: ready=" +:+ w) "cloudProviderTarget=" = None.
Proof.
  intros Hw. pose proof (Index_first_char "c" "loudProviderTarget=" w) as H.
  unfold Index in *. simpl. rewrite H; [done|by apply digits_not_char].
Qed.

(** The two parts of a health line. *)
Lemma health_part_ready acc r :
  0 ≤ r < 2 ^ 63 → health_part acc ("Health: ready=" +:+ pretty r) = (r, acc.2).
Proof.
  intros Hr. destruct (pretty_word r) as [Hw Hne]; [lia|].
  pose proof (pretty_digits r ltac:(lia)) as Hd. unfold health_part.
  replace (TrimSpace ("Health: ready=" +:+ pretty r)) with ("Health: ready=" +:+ pretty r)
    by (symmetry; by apply (TrimSpace_app_word "H" "ealth: ready=")).
  rewrite (Contains_Index _ _ _ (Index_ready _)), (Contains_None _ _ (Index_target_ready _ Hd)).
  unfold extractValue. rewrite Index_ready.
  change (8 + String.length "ready=")%nat with (String.length "Health: ready=").
  by rewrite drop_str_app, TrimSpace_word, Atoi_pretty.
Qed.

Lemma health_part_target acc t :
  0 ≤ t < 2 ^ 63 → health_part acc (" cloudProviderTarget=" +:+ pretty t) = (acc.1, t).
Proof.
  intros Ht. destruct (pretty_word t) as [Hw Hne]; [lia|].
  pose proof (pretty_digits t ltac:(lia)) as Hd. unfold health_part.
  replace (TrimSpace (" cloudProviderTarget=" +:+ pretty t))
    with ("cloudProviderTarget=" +:+ pretty t).
  2:{ symmetry. etrans; [apply (TrimSpace_space ("cloudProviderTarget=" +:+ pretty t))|].
      by apply (TrimSpace_app_word "c" "loudProviderTarget="). }
  rewrite (Contains_Index _ _ _ (Index_target _)), (Contains_None _ _ (Index_ready_target _ Hd)).
  unfold extractValue. rewrite Index_target.
  change (0 + String.length "cloudProviderTarget=")%nat
    with (String.length "cloudProviderTarget=").
  by rewrite drop_str_app, TrimSpace_word, Atoi_pretty.
Qed.

Lemma parseHealthLine_render g :
  group_ok g → parseHealthLine (health_line g) = (g_ready g, g_target g).
Proof.
  intros (_ & _ & Hr & Ht). unfold parseHealthLine, health_line.
  pose proof (pretty_digits (g_ready g) ltac:(lia)) as Hdr.
  pose proof (pretty_digits (g_target g) ltac:(lia)) as Hdt.
  rewrite Split_cons_sep by
    (rewrite all_chars_app; apply andb_true_intro; split; [done|by apply digits_not_char]).
  rewrite Split_no_sep by
    (rewrite all_chars_app; apply andb_true_intro; split; [done|by apply digits_not_char]).
  cbn [foldl]. by rewrite health_part_ready, health_part_target.
Qed.

Lemma TrimSpace_health g : group_ok g → TrimSpace (health_line g) = health_line g.
Proof.
  intros (_ & _ & Hr & Ht). destruct (pretty_word (g_target g)) as [Hw Hne]; [lia|].
  unfold health_line. rewrite string_app_assoc.
  change ("Health: ready=" +:+ ?x) with (String "H" ("ealth: ready=" +:+ x)).
  replace (String "H" ("ealth: ready=" +:+
      (pretty (g_ready g) +:+ String "," (" cloudProviderTarget=" +:+ pretty (g_target g)))))
    with (String "H" ("ealth: ready=" +:+ (pretty (g_ready g) +:+ ", cloudProviderTarget=")) +:+
      pretty (g_target g)); [by apply TrimSpace_app_word|].
  cbn. do 14 f_equal. by rewrite string_app_assoc.
Qed.

Lemma status_name acc g :
  group_ok g → status_line acc ("Name: " +:+ g_name g) = (acc.1, g_name g).
Proof.
  intros (Hw & Hne & _). unfold status_line. destruct acc as [nodes cur].
  replace (TrimSpace ("Name: " +:+ g_name g)) with ("Name:" +:+ String " " (g_name g))
    by (symmetry; by apply (TrimSpace_app_word "N" "ame: ")).
  rewrite HasPrefix_app, TrimPrefix_app, TrimSpace_space. by rewrite TrimSpace_word.
Qed.

Lemma status_health nodes g :
  group_ok g →
  status_line (nodes, g_name g) (health_line g) = (nodes ++ group_pending g, "").
Proof.
  intros Hg. pose proof Hg as (Hw & Hne & Hr & Ht). unfold status_line.
  rewrite TrimSpace_health by done.
  change (HasPrefix (health_line g) "Name:") with false.
  replace (HasPrefix (health_line g) "Health:") with true
    by (symmetry; unfold HasPrefix, health_line; cbn; by rewrite ?prefix_nil).
  rewrite bool_decide_false by done. cbn [negb andb].
  rewrite parseHealthLine_render by done. unfold group_pending.
  by rewrite sub64_exact by int64_lia.
Qed.

Lemma status_groups nodes gs :
  Forall group_ok gs → ∀ cur, ∃ cur',
  foldl status_line (nodes, cur) (gs ≫= group_lines) = (nodes ++ (gs ≫= group_pending), cur').
Proof.
  intros H. revert nodes. induction H as [|g gs Hg Hgs IH]; intros nodes cur.
  { exists cur. by rewrite app_nil_r. }
  rewrite !bind_cons. unfold group_lines at 1. cbn [app foldl].
  rewrite status_name by done. cbn [fst]. rewrite status_health by done.
  destruct (IH (nodes ++ group_pending g) "") as [cur' ->]. exists cur'.
  by rewrite <- app_assoc.
Qed.

Lemma group_lines_no_newline gs :
  Forall group_ok gs →
  Forall (λ w, all_chars (not_char newline) w = true) (gs ≫= group_lines).
Proof.
  intros H. induction H as [|g gs (Hw & _ & Hr & Ht) Hgs IH]; [constructor|].
  rewrite bind_cons. repeat constructor; [| |done].
  - apply andb_true_intro. split; [done|]. by apply word_not_char.
  - pose proof (pretty_digits (g_ready g) ltac:(lia)) as Hdr.
    pose proof (pretty_digits (g_target g) ltac:(lia)) as Hdt.
    unfold health_line. rewrite !all_chars_app. cbn [all_chars]. rewrite !all_chars_app.
    rewrite (digits_not_char newline (pretty (g_ready g))) by done.
    by rewrite (digits_not_char newline (pretty (g_target g))) by done.
Qed.

(** *** The names of pending nodes *)

Lemma digits_suffix_inj c s1 s2 d1 d2 :
  is_digit c = false → all_chars is_digit d1 = true → all_chars is_digit d2 = true →
  s1 +:+ String c d1 = s2 +:+ String c d2 → s1 = s2 ∧ d1 = d2.
Proof.
  intros Hc H1 H2.
  assert (∀ d s e, all_chars is_digit d = true → d ≠ s +:+ String c e) as Hno.
  { intros d s e Hd ->. rewrite all_chars_app in Hd. cbn [all_chars] in Hd.
    rewrite Hc, andb_false_r in Hd. done. }
  revert s2. induction s1 as [|a s1 IH]; intros [|b s2] H; simpl in H.
  - by injection H as ->.
  - injection H as <- H. by destruct (Hno d1 s2 d2).
  - injection H as -> H. by destruct (Hno d2 s1 d1).
  - injection H as -> H. destruct (IH s2 H) as [-> ->]. done.
Qed.

Lemma pending_node_inj g1 g2 i j :
  in_Name (pending_node g1 i) = in_Name (pending_node g2 j) → g1 = g2 ∧ i = j.
Proof.
  unfold pending_node. cbn [in_Name]. intros H.
  assert (∀ g k, g +:+ "-pending-" +:+ pretty (Z.of_nat k) =
    (g +:+ "-pending") +:+ String "-" (pretty (Z.of_nat k))) as E
    by (intros; by rewrite string_app_assoc).
  rewrite !E in H. apply digits_suffix_inj in H as [Hg Hp];
    [|done|apply pretty_digits; lia..].
  apply (inj pretty) in Hp. split; [by apply string_app_inj_r in Hg|lia].
Qed.

Lemma pending_names_NoDup gs :
  NoDup (g_name <$> gs) → NoDup (in_Name <$> (gs ≫= group_pending)).
Proof.
  induction gs as [|g gs IH]; [constructor|].
  rewrite fmap_cons, bind_cons, fmap_app. intros [Hg Hgs]%NoDup_cons. apply NoDup_app.
  split; [|split; [|by apply IH]].
  - unfold group_pending, pending_nodes. rewrite <- list_fmap_compose.
    apply NoDup_fmap_2; [|apply NoDup_seq]. intros i j H. by apply pending_node_inj in H as [_ ?].
  - intros x (n & -> & (i & -> & _)%list_elem_of_fmap)%list_elem_of_fmap Hx.
    apply list_elem_of_fmap in Hx as (n & Hn & (g' & Hn' & Hg')%list_elem_of_bind).
    apply list_elem_of_fmap in Hn' as (j & -> & _).
    apply pending_node_inj in Hn as [Hn _]. apply Hg. rewrite Hn. by apply list_elem_of_fmap_2.
Qed.

(** ** Events *)

Definition event_time (ev : Event) : Z :=
  if IsZero (ev_LastTimestamp ev) then ev_CreationTimestamp ev else ev_LastTimestamp ev.

(** An event of the autoscaler that is not too old. *)
Definition goat_recent (cutoff : Z) (ev : Event) : Prop :=
  ev_Component ev = goatscalerComponent ∧ cutoff ≤ event_time ev.

(** The node a provisioning message announces. *)
Inductive announces (cutoff : Z) (ev : Event) : InflightNode → Prop :=
  | announces_intro name zone instanceType :
      goat_recent cutoff ev → ev_Reason ev = provisionNodeReason →
      parseProvisionNodeMessage (ev_Message ev) = Ok (name, zone, instanceType) →
      announces cutoff ev {| in_Name := name; in_Allocatable := ∅; in_Labels := None;
        in_InstanceType := instanceType; in_DetectedAt := event_time ev |}.

Definition no_stock (cutoff : Z) (ev : Event) : Prop :=
  goat_recent cutoff ev ∧ ev_Reason ev = notTriggerScaleUpReason ∧
  Contains (ev_Message ev) noStockSignal = true.

(** [n] is announced in [events], and nothing of its name earlier. *)
Definition first_announced (cutoff : Z) (events : list Event) (n : InflightNode) : Prop :=
  ∃ l1 ev l2, events = l1 ++ ev :: l2 ∧ announces cutoff ev n ∧
    ∀ ev' n', ev' ∈ l1 → announces cutoff ev' n' → in_Name n' ≠ in_Name n.

(** What one event does: it announces a node, or it reports a shortage, or
    neither. *)
Lemma goat_event_cases cutoff seen nodes noStock ev :
  (∃ n, announces cutoff ev n ∧ ¬ no_stock cutoff ev ∧
     goat_event cutoff (seen, nodes, noStock) ev =
       if bool_decide (in_Name n ∈ seen) then (seen, nodes, noStock)
       else ({[in_Name n]} ∪ seen, nodes ++ [n], noStock)) ∨
  ((∀ n, ¬ announces cutoff ev n) ∧
     ((no_stock cutoff ev ∧
         goat_event cutoff (seen, nodes, noStock) ev = (seen, nodes, true)) ∨
      (¬ no_stock cutoff ev ∧
         goat_event cutoff (seen, nodes, noStock) ev = (seen, nodes, noStock)))).
Proof.
  assert (notTriggerScaleUpReason ≠ provisionNodeReason) as Hne by done.
  unfold goat_event, no_stock, goat_recent. fold (event_time ev).
  case_bool_decide as Hc; cbn [negb].
  2:{ right. split; [intros n []; unfold goat_recent in *; tauto|right; tauto]. }
  unfold time_Before. destruct (Z.ltb_spec (event_time ev) cutoff) as [Ht|Ht].
  { right. split; [intros n []; unfold goat_recent in *; lia|right]. split; [lia|done]. }
  case_bool_decide as Hr; cbn [andb].
  - destruct (Contains _ _) eqn:Hm.
    + right. split; [intros n []; congruence|by left].
    + rewrite bool_decide_false by congruence. cbn [negb].
      right. split; [intros n []; congruence|right]. split; [|done]. intros (_ & _ & ?). done.
  - case_bool_decide as Hp; cbn [negb].
    2:{ right. split; [intros n []; congruence|right]. tauto. }
    destruct (parseProvisionNodeMessage (ev_Message ev)) as [[[name zone] ty]|e] eqn:Hparse.
    + left. eexists. split; [by eapply announces_intro|]. split; [tauto|]. done.
    + right. split; [intros n []; congruence|right]. tauto.
Qed.

Lemma announces_det cutoff ev n n' : announces cutoff ev n → announces cutoff ev n' → n = n'.
Proof. intros [] []. congruence. Qed.

Lemma first_announced_snoc cutoff events ev n :
  first_announced cutoff (events ++ [ev]) n ↔
  first_announced cutoff events n ∨
  (announces cutoff ev n ∧
   ∀ ev' n', ev' ∈ events → announces cutoff ev' n' → in_Name n' ≠ in_Name n).
Proof.
  split.
  - intros (l1 & ev0 & l2 & H & Ha & Hf). destruct l2 as [|x l2 _] using rev_ind.
    + apply app_inj_tail in H as [-> ->]. by right.
    + rewrite app_comm_cons, app_assoc in H. apply app_inj_tail in H as [-> ->].
      left. by exists l1, ev0, l2.
  - intros [(l1 & ev0 & l2 & -> & Ha & Hf)|[Ha Hf]].
    + exists l1, ev0, (l2 ++ [ev]). by rewrite <- app_assoc.
    + by exists events, ev, [].
Qed.

(** The names seen are the ones announced, and the nodes are the first
    announcements. *)
Lemma goat_fold cutoff events :
  let '(seen, nodes, noStock) := foldl (goat_event cutoff) (∅, [], false) events in
  (∀ x, x ∈ seen ↔ ∃ ev n, ev ∈ events ∧ announces cutoff ev n ∧ in_Name n = x) ∧
  (∀ n, n ∈ nodes ↔ first_announced cutoff events n) ∧
  NoDup (in_Name <$> nodes) ∧
  (noStock = true ↔ ∃ ev, ev ∈ events ∧ no_stock cutoff ev).
Proof.
  induction events as [|ev events IH] using rev_ind.
  { cbn. setoid_rewrite elem_of_nil. split_and!; [set_solver| |constructor|naive_solver].
    intros n. split; [done|]. intros (l1 & ev & l2 & H & _). by destruct l1. }
  rewrite foldl_snoc.
  destruct (foldl (goat_event cutoff) (∅, [], false) events) as [[seen nodes] noStock].
  destruct IH as (Hseen & Hnodes & Hnd & Hstock).
  assert (∀ n, in_Name n ∈ in_Name <$> nodes → in_Name n ∈ seen) as Hin.
  { intros n (n' & E & (l1 & ev' & l2 & -> & Ha & _)%Hnodes)%list_elem_of_fmap.
    apply Hseen. exists ev', n'. set_solver. }
  assert (∀ P : Event → Prop, (∃ e, e ∈ events ++ [ev] ∧ P e) ↔ (∃ e, e ∈ events ∧ P e) ∨ P ev)
    as Hex by (intros P; setoid_rewrite elem_of_app; setoid_rewrite list_elem_of_singleton; naive_solver).
  destruct (goat_event_cases cutoff seen nodes noStock ev)
    as [(n & Ha & Hns & ->)|(Hna & [[Hns ->]|[Hns ->]])].
  - assert (∀ x, (∃ e m, e ∈ events ++ [ev] ∧ announces cutoff e m ∧ in_Name m = x) ↔
      x ∈ seen ∨ x = in_Name n) as Hs.
    { intros x. rewrite Hseen. setoid_rewrite elem_of_app. setoid_rewrite list_elem_of_singleton.
      split; [|naive_solver]. intros (e & m & [He| ->] & Hm & <-); [naive_solver|].
      right. f_equal. by eapply announces_det. }
    case_bool_decide as Hd.
    + split_and!; [|intros n'; rewrite first_announced_snoc, Hnodes|done|rewrite Hex; tauto].
      * intros x. rewrite Hs. naive_solver.
      * split; [tauto|]. intros [?|[Ha' Hf]]; [done|exfalso].
        apply Hseen in Hd as (e & m & He & Hm & E).
        rewrite (announces_det _ _ _ _ Ha' Ha) in Hf. by apply (Hf e m).
    + split_and!; [| | |rewrite Hex; tauto].
      * intros x. rewrite Hs. set_solver.
      * intros n'. rewrite elem_of_app, list_elem_of_singleton, first_announced_snoc, Hnodes.
        split; [|intros [?|[Ha' _]]; [by left|right; by eapply announces_det]].
        intros [?| ->]; [by left|right]. split; [done|]. intros e m He Hm E.
        apply Hd, Hseen. by exists e, m.
      * rewrite fmap_app. apply NoDup_app. split; [done|]. split; [|repeat constructor; set_solver].
        intros x Hx ->%list_elem_of_singleton. by apply Hd, Hin.
  - split_and!; [|intros n'; rewrite first_announced_snoc, Hnodes|done|rewrite Hex; tauto].
    + intros x. rewrite Hseen. setoid_rewrite elem_of_app.
      setoid_rewrite list_elem_of_singleton. naive_solver.
    + split; [tauto|]. intros [?|[Ha _]]; [done|]. by apply Hna in Ha.
  - split_and!; [|intros n'; rewrite first_announced_snoc, Hnodes|done|rewrite Hex; tauto].
    + intros x. rewrite Hseen. setoid_rewrite elem_of_app.
      setoid_rewrite list_elem_of_singleton. naive_solver.
    + split; [tauto|]. intros [?|[Ha _]]; [done|]. by apply Hna in Ha.
Qed.

(** ** Nodes that were never ready *)

Definition first_ready (conds : list NodeCondition) : option NodeCondition :=
  List.find (λ c, bool_decide (nc_Type c = NodeReady)) conds.

(** Born not ready: no Ready condition yet, or one that is not True and last
    changed within ten seconds of the creation.  A change more than 292 years
    before the creation, such as the zero time, also counts: negating the
    saturated difference overflows. *)
Definition born_not_ready {K : Kube} (node : Node) : Prop :=
  match first_ready (node_Conditions node) with
  | None => True
  | Some c =>
      nc_Status c ≠ ConditionTrue ∧
      (Z.abs (nc_LastTransitionTime c - node_CreationTimestamp node) ≤ neverReadyThreshold ∨
       nc_LastTransitionTime c - node_CreationTimestamp node ≤ min_int64)
  end.

Lemma duration_abs_le d :
  in_int64 d → duration_abs d ≤ neverReadyThreshold ↔
  Z.abs d ≤ neverReadyThreshold ∨ d = min_int64.
Proof.
  intros Hd. unfold duration_abs. destruct (Z.ltb_spec d 0).
  - destruct (decide (d = min_int64)) as [->|].
    { split; [by right|]. intros _. vm_compute. congruence. }
    rewrite wrap64_id by int64_lia. change neverReadyThreshold with 10000000000. lia.
  - unfold min_int64. lia.
Qed.

Lemma isNeverReady_spec {K : Kube} node : isNeverReady node = true ↔ born_not_ready node.
Proof.
  unfold isNeverReady, born_not_ready, first_ready.
  induction (node_Conditions node) as [|c cs IH]; cbn [never_ready_conditions List.find]; [done|].
  case_bool_decide as Ht; cbn [negb]; [|done].
  case_bool_decide as Hs; [split; [done|]; tauto|].
  rewrite Z.leb_le, duration_abs_le by apply time_Sub_int64. unfold time_Sub.
  destruct (Z.ltb_spec (nc_LastTransitionTime c - node_CreationTimestamp node) min_int64).
  { split; [intros _; split; [done|right; lia]|]. intros _. by right. }
  destruct (Z.ltb_spec max_int64 (nc_LastTransitionTime c - node_CreationTimestamp node)).
  { change neverReadyThreshold with 10000000000. split; [|intros [_ Hb]]; int64_lia. }
  split; [intros H'; split; [done|]|intros [_ H']]; lia.
Qed.

Lemma milli_alloc_fmap {K : Kube} {O : MapOrder} t m : milli_alloc t m = MilliValue <$> m.
Proof.
  apply map_eq. intros k. rewrite lookup_fmap. unfold milli_alloc.
  rewrite (foldl_keyed_range (λ m k, m !! k) _ (λ _ v _, Some (MilliValue v))).
  - rewrite lookup_empty. by destruct (m !! k).
  - intros. by apply lookup_insert_ne.
  - intros. apply lookup_insert_eq.
Qed.

Lemma notready_node_fields {K : Kube} {O : MapOrder} node :
  notready_node node = {|
    in_Name := node_Name node;
    in_Allocatable := MilliValue <$> node_Allocatable node;
    in_Labels := Some (smap (node_Labels node));
    in_InstanceType := sget (node_Labels node) instanceTypeLabel;
    in_DetectedAt := node_CreationTimestamp node |}.
Proof. unfold notready_node. by rewrite milli_alloc_fmap, foldl_insert_range. Qed.

Lemma notready_loop_spec {K : Kube} {O : MapOrder} k items now n :
  n ∈ notready_loop k items now ↔
  ∃ i node, items !! i = Some node ∧ born_not_ready node ∧
    now "notready" (k + i)%nat - node_CreationTimestamp node ≤ maxNotReadyAge ∧
    n = notready_node node.
Proof.
  revert k. induction items as [|node items IH]; intros k; cbn [notready_loop].
  { split; [by intros ?%not_elem_of_nil|]. by intros (i & ? & ? & _). }
  assert (∀ P : nat → Node → Prop, (∃ i nd, (node :: items) !! i = Some nd ∧ P i nd) ↔
    P 0%nat node ∨ ∃ i nd, items !! i = Some nd ∧ P (S i) nd) as Hsplit.
  { intros P. split.
    - intros ([|i] & nd & Hi & HP); [left|right; by eauto]. by injection Hi as ->.
    - intros [HP|(i & nd & Hi & HP)]; [by exists 0%nat, node|by exists (S i), nd]. }
  rewrite Hsplit, Nat.add_0_r.
  setoid_rewrite <- Nat.add_succ_comm. rewrite <- IH.
  pose proof (isNeverReady_spec node) as Hb.
  pose proof (time_Sub_gt (now "notready" k) (node_CreationTimestamp node) maxNotReadyAge
    ltac:(done) ltac:(done)) as Ht.
  destruct (isNeverReady node); cbn [negb].
  2:{ split; [by right|]. intros [(?%Hb & _)|?]; done. }
  destruct (Z.ltb_spec maxNotReadyAge
    (time_Sub (now "notready" k) (node_CreationTimestamp node))).
  { split; [by right|]. intros [(_ & ? & _)|?]; [lia|done]. }
  rewrite elem_of_cons. apply or_iff_compat_r. split; [intros ->|by intros (_ & _ & ->)].
  split_and!; [by apply Hb| |done]. lia.
Qed.

(** ** Properties *)

(** C30: the status parser inverts the documented format.  For a status that
    lists node groups whose names are words and whose counts fit in an int, it
    finds for each group, in order, one pending node per missing one (target
    minus ready, none when that is not positive), named
    [group-pending-0], [group-pending-1] and so on; and when the group names
    differ so do all the node names, so that no pending node overwrites
    another in the ledger. *)
Theorem parseCAStatus_render gs :
  Forall group_ok gs →
  parseCAStatus (render_status gs) = gs ≫= group_pending ∧
  (NoDup (g_name <$> gs) → NoDup (in_Name <$> parseCAStatus (render_status gs))).
Proof.
  intros H. assert (parseCAStatus (render_status gs) = gs ≫= group_pending) as E.
  { destruct gs as [|g gs']; [done|]. unfold parseCAStatus, render_status.
    rewrite Split_Join; [|done|by apply group_lines_no_newline].
    destruct (status_groups [] _ H "") as [cur' ->]. done. }
  split; [done|]. rewrite E. apply pending_names_NoDup.
Qed.

Definition example_groups : list group := [Group "pool-a" 3 5; Group "pool-b" 1 1; Group "pool-c" 0 1].

Lemma parseCAStatus_render_witness :
  Forall group_ok example_groups ∧
  parseCAStatus (render_status example_groups) = example_groups ≫= group_pending.
Proof.
  assert (Forall group_ok example_groups) as H by decide_true.
  split; [exact H|]. exact (proj1 (parseCAStatus_render example_groups H)).
Defined.

(** The format of the repository's tests, and one line that is not in it: the
    status the autoscaler writes itself has no commas between the counts. *)
Example parseCAStatus_test :
  in_Name <$> parseCAStatus ("Name: my-pool" +:+ String newline
    "Health: ready=1, cloudProviderTarget=3") = ["my-pool-pending-0"; "my-pool-pending-1"].
Proof. vm_compute. reflexivity. Qed.

Example parseHealthLine_autoscaler :
  parseHealthLine "Health: Healthy (ready=3 unready=0 cloudProviderTarget=5 (minSize=0, maxSize=10))"
  = (0, 0).
Proof. vm_compute. reflexivity. Qed.

(** The last two items of the pattern. *)
Lemma match_type_time ty a time :
  word ty = true → ty ≠ "" → re_dot a = true → ∃ t,
  match_here [Cap re_nonspace; Lit ", Triggered time "; Cap re_dot]
    (ty +:+ ", Triggered time " +:+ String a time) = Some [ty; t].
Proof.
  intros Hw Hne Ha.
  assert (∃ t, match_here [Cap re_dot] (String a time) = Some [t]) as [t Ht].
  { exists (take_str (run_length re_dot (String a time)) (String a time)).
    apply match_here_Cap; [|done|lia]. simpl. rewrite Ha. lia. }
  exists t.
  assert (run_length re_nonspace (ty +:+ ", Triggered time " +:+ String a time)
    = String.length ty + 1)%nat as Hrun.
  { change (ty +:+ ", Triggered time " +:+ String a time)
      with (ty +:+ "," +:+ String " " ("Triggered time " +:+ String a time)).
    rewrite <- string_app_assoc, run_length_app; [|rewrite all_chars_app|done].
    - by rewrite string_length_app.
    - apply andb_true_intro. split; [|done].
      eapply all_chars_impl; [apply graphic_re_nonspace|done]. }
  replace [ty; t] with
    [take_str (String.length ty) (ty +:+ ", Triggered time " +:+ String a time); t]
    by (by rewrite take_str_app).
  apply match_here_Cap; rewrite ?Hrun.
  - destruct ty; [done|simpl; lia].
  - by rewrite drop_str_app, match_here_Lit.
  - intros m Hm. replace m with (String.length (ty +:+ ","))
      by (rewrite string_length_app; simpl; lia).
    change (ty +:+ ", Triggered time " +:+ String a time)
      with (ty +:+ "," +:+ (" Triggered time " +:+ String a time)).
    by rewrite <- string_app_assoc, drop_str_app.
Qed.

(** C31: the message parser inverts the format of the autoscaler's events: node
    name, zone and instance type come back when they are words, whatever text
    that does not start with a newline stands for the time. *)
Theorem parseProvisionNodeMessage_render name zone ty (a : ascii) time :
  word name = true → name ≠ "" → word zone = true → zone ≠ "" →
  word ty = true → ty ≠ "" → re_dot a = true →
  parseProvisionNodeMessage
    ("Provision node " +:+ name +:+ " in Zone: " +:+ zone +:+
     " with InstanceType: " +:+ ty +:+ ", Triggered time " +:+ String a time) =
  Ok (name, zone, ty).
Proof.
  intros Hn Hne Hz Hze Ht Hte Ha. unfold parseProvisionNodeMessage, provisionNodeRegex.
  destruct (match_type_time ty a time Ht Hte Ha) as [t Hm].
  rewrite (FindStringSubmatch_here _ _ [name; zone; ty; t]); [done|].
  assert (∀ w, word w = true → all_chars re_nonspace w = true) as Hns
    by (intros w; apply all_chars_impl, graphic_re_nonspace).
  rewrite match_here_Lit.
  apply (match_here_Cap_token re_nonspace _ name " " ("in Zone: " +:+ _)); [by apply Hns|done..|].
  change (String " " ("in Zone: " +:+ ?x)) with (" in Zone: " +:+ x).
  rewrite match_here_Lit.
  apply (match_here_Cap_token re_nonspace _ zone " " ("with InstanceType: " +:+ _));
    [by apply Hns|done..|].
  change (String " " ("with InstanceType: " +:+ ?x)) with (" with InstanceType: " +:+ x).
  by rewrite match_here_Lit.
Qed.

Lemma parseProvisionNodeMessage_render_witness :
  word "goat-1" = true ∧
  parseProvisionNodeMessage "Provision node goat-1 in Zone: z-a with InstanceType: ecs.g7, Triggered time 12:00"
  = Ok ("goat-1", "z-a", "ecs.g7").
Proof.
  split; [reflexivity|].
  exact (parseProvisionNodeMessage_render "goat-1" "z-a" "ecs.g7" "1" "2:00"
    eq_refl ltac:(discriminate) eq_refl ltac:(discriminate) eq_refl ltac:(discriminate) eq_refl).
Defined.

(** C32: what the event detector reports.  Whenever it can list the events, the
    nodes it returns are exactly the first announcements: a node for every
    provisioning event of the autoscaler that is recent enough and parses,
    unless an earlier such event has its name.  So no two nodes have the same
    name.  The shortage flag is reset by every run and set exactly when a recent
    event reports a shortage.  An event is recent when it is no older than the
    configured age, or fifteen minutes where none is configured. *)
Theorem GOATScalerDetector_spec {K : Kube} d reader now events :
  goat_list reader = Ok events →
  let '(d', nodes) := GOATScalerDetector_Detect d reader now in
  let cutoff := goat_cutoff d now in
  (∀ n, n ∈ nodes ↔ first_announced cutoff events n) ∧
  NoDup (in_Name <$> nodes) ∧
  EventMaxAge d' = EventMaxAge d ∧
  (NoStockDetected d' = true ↔ ∃ ev, ev ∈ events ∧ no_stock cutoff ev) ∧
  (0 ≤ EventMaxAge d < 2 ^ 63 → cutoff = now "goatscaler" 0%nat -
     (if decide (EventMaxAge d = 0) then 15 * 60 * 1000000000 else EventMaxAge d)).
Proof.
  assert (0 ≤ EventMaxAge d < 2 ^ 63 → goat_cutoff d now = now "goatscaler" 0%nat -
     (if decide (EventMaxAge d = 0) then 15 * 60 * 1000000000 else EventMaxAge d)) as Hcut.
  { intros Hm. unfold goat_cutoff, time_Add. case_decide as E; [by rewrite E|].
    rewrite (proj2 (Z.eqb_neq _ _)) by done.
    rewrite wrap64_id by (unfold in_int64, min_int64, max_int64; lia). lia. }
  intros He. unfold GOATScalerDetector_Detect. rewrite He.
  pose proof (goat_fold (goat_cutoff d now) events) as H.
  destruct (foldl _ _ _) as [[seen nodes] noStock]. by destruct H as (_ & ? & ? & ?).
Qed.

Definition example_event (reason msg : string) (t : Z) : Event := {|
  ev_Component := "GOATScaler"; ev_Reason := reason; ev_Message := msg;
  ev_LastTimestamp := t; ev_CreationTimestamp := 0 |}.

(** A reader of some events, which selects by reason as the API server does. *)
Definition example_reader {K : Kube} (events : list Event) : Reader := {|
  rd_GetConfigMap _ _ := Err (GoError true "not found");
  rd_ListNodes := Ok [];
  rd_ListEvents reason := Ok (match reason with
    | Some r => List.filter (λ ev, bool_decide (ev_Reason ev = r)) events
    | None => events
    end) |}.

Definition example_events : list Event :=
  let msg := "Provision node goat-1 in Zone: z with InstanceType: t, Triggered time 1" in
  [example_event "NotTriggerScaleUp" "NodePool NoStock" (2 * Hour);
   example_event "ProvisionNode" msg Hour;
   example_event "ProvisionNode" msg (2 * Hour);
   example_event "ProvisionNode" msg (2 * Hour)].

Definition example_detector : GOATScalerDetector :=
  {| EventMaxAge := 0; NoStockDetected := false |}.

Lemma GOATScalerDetector_spec_witness :
  goat_list (K := kube_milli) (example_reader example_events) =
    Ok (List.filter (λ ev, bool_decide (ev_Reason ev = provisionNodeReason)) example_events) ∧
  length (GOATScalerDetector_Detect (K := kube_milli) example_detector
    (example_reader example_events) (λ _ _, 2 * Hour)).2 = 1%nat ∧
  NoDup (in_Name <$> (GOATScalerDetector_Detect (K := kube_milli) example_detector
    (example_reader example_events) (λ _ _, 2 * Hour)).2).
Proof.
  assert (goat_list (K := kube_milli) (example_reader example_events) =
    Ok (List.filter (λ ev, bool_decide (ev_Reason ev = provisionNodeReason)) example_events))
    as He by reflexivity.
  split; [exact He|]. split; [vm_compute; reflexivity|].
  exact (proj1 (proj2 (GOATScalerDetector_spec example_detector _ (λ _ _, 2 * Hour) _ He))).
Defined.

(** A shortage is never seen by a reader that selects events by reason.
    When the list by reason succeeds and holds only events of that reason, the
    shortage flag is false after every run, whatever the cluster's events: the
    events that report shortages have another reason. *)
Theorem no_stock_hidden_by_selection {K : Kube} d reader now events :
  rd_ListEvents reader (Some provisionNodeReason) = Ok events →
  Forall (λ ev, ev_Reason ev = provisionNodeReason) events →
  NoStockDetected (GOATScalerDetector_Detect d reader now).1 = false.
Proof.
  intros He Hf. unfold GOATScalerDetector_Detect, goat_list. rewrite He.
  pose proof (goat_fold (goat_cutoff d now) events) as H.
  destruct (foldl _ _ _) as [[seen nodes] noStock]. destruct H as (_ & _ & _ & H).
  apply not_true_is_false. cbn [fst NoStockDetected]. intros (ev & Hev & _ & Hr & _)%H.
  rewrite Forall_forall in Hf. specialize (Hf ev Hev).
  assert (notTriggerScaleUpReason ≠ provisionNodeReason) by done. congruence.
Qed.

Lemma no_stock_hidden_by_selection_witness :
  Forall (λ ev, ev_Reason ev = provisionNodeReason)
    (List.filter (λ ev, bool_decide (ev_Reason ev = provisionNodeReason)) example_events) ∧
  NoStockDetected (GOATScalerDetector_Detect (K := kube_milli) example_detector
    (example_reader example_events) (λ _ _, 2 * Hour)).1 = false.
Proof.
  assert (Forall (λ ev, ev_Reason ev = provisionNodeReason)
    (List.filter (λ ev, bool_decide (ev_Reason ev = provisionNodeReason)) example_events))
    as Hf by decide_true.
  split; [exact Hf|].
  exact (no_stock_hidden_by_selection (K := kube_milli) example_detector
    (example_reader example_events) (λ _ _, 2 * Hour) _ eq_refl Hf).
Defined.

(** C33: what the universal detector reports.  Whenever it can list the nodes,
    it returns exactly the ones that were born not ready and are at most
    fifteen minutes old when it looks at them, each with its allocatable
    amounts in milli-units, its labels and its instance type. *)
Theorem NotReadyNodeDetector_spec {K : Kube} {O : MapOrder} reader now items n :
  rd_ListNodes reader = Ok items →
  n ∈ NotReadyNodeDetector_Detect reader now ↔
  ∃ i node, items !! i = Some node ∧ born_not_ready node ∧
    now "notready" i - node_CreationTimestamp node ≤ maxNotReadyAge ∧
    n = {| in_Name := node_Name node;
           in_Allocatable := MilliValue <$> node_Allocatable node;
           in_Labels := Some (smap (node_Labels node));
           in_InstanceType := sget (node_Labels node) instanceTypeLabel;
           in_DetectedAt := node_CreationTimestamp node |}.
Proof.
  intros Hi. unfold NotReadyNodeDetector_Detect. rewrite Hi, notready_loop_spec.
  by setoid_rewrite notready_node_fields.
Qed.

(** A node without a transition time, as an API client may create it. *)
Definition example_node (status : string) (changed created : Z) : Node (K := kube_milli) := {|
  node_Name := "n1"; node_Labels := None; node_CreationTimestamp := created;
  node_DeletionTimestamp := None; node_Taints := [];
  node_Allocatable := {["cpu" := 4000 : Quantity (Kube := kube_milli)]};
  node_Conditions := [{| nc_Type := "Ready"; nc_Status := status;
                         nc_LastTransitionTime := changed |}] |}.

Definition example_nodes_reader (items : list (Node (K := kube_milli))) : Reader (K := kube_milli) := {|
  rd_GetConfigMap _ _ := Err (GoError true "not found");
  rd_ListNodes := Ok items;
  rd_ListEvents _ := Ok [] |}.

Lemma NotReadyNodeDetector_spec_witness :
  rd_ListNodes (example_nodes_reader [example_node "False" Hour Hour]) =
    Ok [example_node "False" Hour Hour] ∧
  @notready_node kube_milli order_forward (example_node "False" Hour Hour) ∈
    @NotReadyNodeDetector_Detect kube_milli order_forward
      (example_nodes_reader [example_node "False" Hour Hour]) (λ _ _, Hour + Minute).
Proof.
  assert (rd_ListNodes (example_nodes_reader [example_node "False" Hour Hour]) =
    Ok [example_node "False" Hour Hour]) as Hi by reflexivity.
  split; [exact Hi|].
  apply (@NotReadyNodeDetector_spec kube_milli order_forward _ (λ _ _, Hour + Minute) _
    (@notready_node kube_milli order_forward (example_node "False" Hour Hour)) Hi).
  exists 0%nat, (example_node "False" Hour Hour).
  split; [reflexivity|]. split; [|split].
  - apply isNeverReady_spec. vm_compute. reflexivity.
  - vm_compute. discriminate.
  - vm_compute. reflexivity.
Defined.

(** A node that lost readiness long after its birth is not in flight; one with
    no recorded transition time counts as never ready. *)
Example lost_readiness :
  isNeverReady (example_node "Unknown" (Hour + Minute) Hour) = false.
Proof. vm_compute. reflexivity. Qed.

Example no_transition_time :
  isNeverReady (example_node "Unknown" 0 (2024 * 365 * 24 * Hour)) = true.
Proof. vm_compute. reflexivity. Qed.
