(* ===== verification/Templates.v ===== *)
(** * Node-group templates

    The part of [internal/controller/packingprofile_controller.go] that
    completes an in-flight node of unknown capacity from the profile's
    templates: the first template that describes the node, else the first one
    the pod could run on. *)

From S2P Require Import Prelude GoStrings Kube Scheduling Ledger LedgerFit Inflight.

Definition template_identifier (t : NodeGroupTemplate) : string :=
  if negb (bool_decide (tmpl_InstanceType t = "")) then "instanceType=" +:+ tmpl_InstanceType t
  else if negb (bool_decide (tmpl_NamePrefix t = "")) then "namePrefix=" +:+ tmpl_NamePrefix t
  else "<empty>".

Definition templateIdentifiers (templates : list NodeGroupTemplate) : list string :=
  template_identifier <$> templates.

Definition templateTaintsToCoreTaints (ts : list NodeGroupTaint) : list Taint :=
  match ts with
  | [] => []
  | _ => (λ t, {| taint_Key := ngt_Key t; taint_Value := ngt_Value t;
                  taint_Effect := ngt_Effect t |}) <$> ts
  end.

Definition copyTemplateAllocatable {O : MapOrder} (m : gmap string Z) : gmap string Z :=
  foldl (λ alloc '(k, v), <[k := v]> alloc) ∅ (range "copyTemplateAllocatable" m).

(** The loop over the pod's selector: false at the first label that differs. *)
Fixpoint template_selector (sel : list (string * string)) (t : NodeGroupTemplate) : bool :=
  match sel with
  | [] => true
  | (key, val) :: sel =>
      if bool_decide (sget (tmpl_Labels t) key = val) then template_selector sel t else false
  end.

(** The loop over the template's taints. *)
Fixpoint template_taints (ts : list Taint) (tolerations : list Toleration) : bool :=
  match ts with
  | [] => true
  | taint :: ts =>
      if negb (bool_decide (taint_Effect taint = TaintEffectNoSchedule))
         && negb (bool_decide (taint_Effect taint = TaintEffectNoExecute))
      then template_taints ts tolerations
      else if negb (TolerateTaint tolerations taint) then false
      else template_taints ts tolerations
  end.

Fixpoint findTemplateForPod {K : Kube} {O : MapOrder} (pod : Pod)
    (templates : list NodeGroupTemplate) : option NodeGroupTemplate :=
  match templates with
  | [] => None
  | t :: rest =>
      if negb (template_selector (range "nodeSelector" (smap (pod_NodeSelector pod))) t)
      then findTemplateForPod pod rest
      else if negb (template_taints (templateTaintsToCoreTaints (tmpl_Taints t))
                      (pod_Tolerations pod))
      then findTemplateForPod pod rest
      else Some t
  end.

(** The two loops of [findMatchingTemplate]. *)
Fixpoint find_instance_type (instanceType : string) (templates : list NodeGroupTemplate) :
  option NodeGroupTemplate :=
  match templates with
  | [] => None
  | t :: rest =>
      if negb (bool_decide (tmpl_InstanceType t = ""))
         && bool_decide (tmpl_InstanceType t = instanceType)
      then Some t else find_instance_type instanceType rest
  end.

Fixpoint find_name_prefix (name : string) (templates : list NodeGroupTemplate) :
  option NodeGroupTemplate :=
  match templates with
  | [] => None
  | t :: rest =>
      if negb (bool_decide (tmpl_NamePrefix t = "")) && HasPrefix name (tmpl_NamePrefix t)
      then Some t else find_name_prefix name rest
  end.

Definition findMatchingTemplate (node : InflightNode) (templates : list NodeGroupTemplate) :
  option NodeGroupTemplate :=
  let by_type :=
    if negb (bool_decide (in_InstanceType node = ""))
    then find_instance_type (in_InstanceType node) templates else None in
  match by_type with
  | Some t => Some t
  | None => find_name_prefix (in_Name node) templates
  end.

(** The template of an in-flight node: by its identity, else by the pod. *)
Definition choose_template {K : Kube} {O : MapOrder} (n : InflightNode) (pod : Pod)
    (templates : list NodeGroupTemplate) : option NodeGroupTemplate :=
  match findMatchingTemplate n templates with
  | Some t => Some t
  | None => findTemplateForPod pod templates
  end.

(** The amounts, labels and taints under which an in-flight node enters the
    ledger: the template fills what the detector left empty. *)
Definition enrich {K : Kube} {O : MapOrder} (n : InflightNode) (pod : Pod)
    (templates : list NodeGroupTemplate) : gmap string Z * strmap * list Taint :=
  let alloc := in_Allocatable n in
  let nodeLabels := in_Labels n in
  match choose_template n pod templates with
  | Some tmpl =>
      (if map_empty alloc then copyTemplateAllocatable (tmpl_Allocatable tmpl) else alloc,
       if map_empty (smap nodeLabels) then tmpl_Labels tmpl else nodeLabels,
       templateTaintsToCoreTaints (tmpl_Taints tmpl))
  | None => (alloc, nodeLabels, [])
  end.

(** ** Specification *)

Lemma copyTemplateAllocatable_id {O : MapOrder} m : copyTemplateAllocatable m = m.
Proof. apply foldl_insert_range. Qed.

Lemma templateTaintsToCoreTaints_fmap ts :
  templateTaintsToCoreTaints ts =
  (λ t, {| taint_Key := ngt_Key t; taint_Value := ngt_Value t; taint_Effect := ngt_Effect t |})
    <$> ts.
Proof. by destruct ts. Qed.

(** The node a template stands for, as the ledger would hold it. *)
Definition template_entry (t : NodeGroupTemplate) : nodeEntry :=
  NodeEntry (tmpl_Allocatable t) ∅ ∅ (tmpl_Labels t) (templateTaintsToCoreTaints (tmpl_Taints t)).

Definition describes (t : NodeGroupTemplate) (n : InflightNode) : Prop :=
  tmpl_NamePrefix t ≠ "" ∧ HasPrefix (in_Name n) (tmpl_NamePrefix t) = true.

Definition same_type (t : NodeGroupTemplate) (n : InflightNode) : Prop :=
  tmpl_InstanceType t ≠ "" ∧ tmpl_InstanceType t = in_InstanceType n.

(** [t] is the first element with a property. *)
Definition is_first {A} (P : A → Prop) (l : list A) (t : A) : Prop :=
  ∃ l1 l2, l = l1 ++ t :: l2 ∧ P t ∧ Forall (λ x, ¬ P x) l1.

Lemma is_first_cons {A} (P : A → Prop) x l t :
  is_first P (x :: l) t ↔ (P x ∧ x = t) ∨ (¬ P x ∧ is_first P l t).
Proof.
  split.
  - intros ([|y l1] & l2 & E & Ht & Hf).
    + injection E as -> ->. by left.
    + injection E as -> ->. apply Forall_cons in Hf as [Hx Hf]. right. split; [done|].
      by exists l1, l2.
  - intros [[Hx ->]|[Hx (l1 & l2 & -> & Ht & Hf)]].
    + exists [], l. by split_and!.
    + exists (x :: l1), l2. split_and!; [done..|by constructor].
Qed.

Lemma is_first_nil {A} (P : A → Prop) t : ¬ is_first P [] t.
Proof. intros ([|] & l2 & E & _); done. Qed.

(** A search loop that tests each element finds the first one. *)
Lemma find_first {A} (P : A → Prop) (b : A → bool) (f : list A → option A) :
  f [] = None → (∀ x l, f (x :: l) = if b x then Some x else f l) →
  (∀ x, b x = true ↔ P x) →
  ∀ l, (∀ t, f l = Some t ↔ is_first P l t) ∧ (f l = None ↔ Forall (λ x, ¬ P x) l).
Proof.
  intros Hnil Hcons Hb l. induction l as [|x l [IH1 IH2]].
  { rewrite Hnil. split; [|by split]. intros t. split; [done|]. by intros ?%is_first_nil. }
  rewrite Hcons. destruct (b x) eqn:E.
  - apply Hb in E. split.
    + intros t. rewrite is_first_cons. split; [intros [= ->]; by left|naive_solver].
    + split; [done|]. intros [H _]%Forall_cons. done.
  - assert (¬ P x) as Hn by (intros H%Hb; congruence). split.
    + intros t. rewrite is_first_cons, IH1. naive_solver.
    + rewrite Forall_cons, IH2. naive_solver.
Qed.

(** Without an instance type the loop is skipped, and would find nothing. *)
Lemma find_instance_type_first n templates :
  let by_type := if negb (bool_decide (in_InstanceType n = ""))
    then find_instance_type (in_InstanceType n) templates else None in
  (∀ t, by_type = Some t ↔ is_first (λ t, same_type t n) templates t) ∧
  (by_type = None ↔ Forall (λ t, ¬ same_type t n) templates).
Proof.
  assert ((if negb (bool_decide (in_InstanceType n = ""))
    then find_instance_type (in_InstanceType n) templates else None) =
    find_instance_type (in_InstanceType n) templates) as ->.
  { case_bool_decide as He; [|done]. rewrite He. clear He.
    induction templates as [|t ts IH]; [done|]. cbn [find_instance_type].
    by case_bool_decide. }
  apply (find_first (λ t, same_type t n) (λ t, negb (bool_decide (tmpl_InstanceType t = ""))
    && bool_decide (tmpl_InstanceType t = in_InstanceType n))); [done..|].
  intros x. unfold same_type. rewrite andb_true_iff, negb_true_iff.
  by rewrite bool_decide_eq_false, bool_decide_eq_true.
Qed.

Lemma find_name_prefix_first n templates :
  (∀ t, find_name_prefix (in_Name n) templates = Some t ↔
    is_first (λ t, describes t n) templates t) ∧
  (find_name_prefix (in_Name n) templates = None ↔ Forall (λ t, ¬ describes t n) templates).
Proof.
  apply (find_first (λ t, describes t n) (λ t, negb (bool_decide (tmpl_NamePrefix t = ""))
    && HasPrefix (in_Name n) (tmpl_NamePrefix t))); [done..|].
  intros x. unfold describes. rewrite andb_true_iff, negb_true_iff.
  by rewrite bool_decide_eq_false.
Qed.

Section search.
Context {K : Kube} {O : MapOrder}.

(** What a pod asks of a node. *)
Definition pod_constraints (pod : Pod) : PodSchedulingConstraints :=
  {| psc_Tolerations := pod_Tolerations pod; psc_NodeSelector := pod_NodeSelector pod |}.

Lemma template_selector_ledger sel t :
  template_selector sel t = selector_matches sel (tmpl_Labels t).
Proof. induction sel as [|[k v] sel IH]; cbn; [done|]. by rewrite IH. Qed.

Lemma template_taints_ledger ts tols : template_taints ts tols = taints_tolerated ts tols.
Proof.
  induction ts as [|t ts IH]; cbn [template_taints taints_tolerated]; [done|].
  rewrite IH. unfold toleratesTaint. by repeat case_match.
Qed.

(** The templates are tested as the ledger tests its nodes. *)
Lemma template_matches_iff pod t :
  template_selector (range "nodeSelector" (smap (pod_NodeSelector pod))) t
    && template_taints (templateTaintsToCoreTaints (tmpl_Taints t)) (pod_Tolerations pod)
    = true ↔ node_matches (template_entry t) (pod_constraints pod).
Proof.
  rewrite template_selector_ledger, template_taints_ledger.
  pose proof (nodeMatchesConstraints_spec (template_entry t) (Some (pod_constraints pod))) as H.
  unfold nodeMatchesConstraints in H. cbn [template_entry taints labels psc_Tolerations
    psc_NodeSelector pod_constraints] in H.
  rewrite andb_comm. destruct (taints_tolerated _ _); cbn [andb]; rewrite H; clear H;
    (split; [intros H; by apply (H _ eq_refl)|by intros H ? [= <-]]).
Qed.

Lemma findTemplateForPod_first pod templates :
  (∀ t, findTemplateForPod pod templates = Some t ↔
    is_first (λ t, node_matches (template_entry t) (pod_constraints pod)) templates t) ∧
  (findTemplateForPod pod templates = None ↔
    Forall (λ t, ¬ node_matches (template_entry t) (pod_constraints pod)) templates).
Proof.
  eapply find_first; [done| |intros x; apply template_matches_iff].
  intros x l. cbn [findTemplateForPod].
  by destruct (template_selector _ x), (template_taints _ _).
Qed.
End search.

(** ** Property *)

