(* ===== verification/Status.v ===== *)
(** * Status conditions

    The conditions of a PackingProfile, as
    [internal/controller/packingprofile_controller.go] sets them: the update
    of one condition, the checks of the profile's configuration, and the order
    in which a reconciliation reports them. *)

From S2P Require Import Prelude GoStrings GoTime Kube Scheduling Ledger Rules Inflight.

Definition condReady : string := "Ready".
Definition condProfileValid : string := "ProfileValid".
Definition condLedgerReady : string := "LedgerReady".
Definition condInflightDetectionActive : string := "InflightDetectionActive".

(** The loop of [setCondition], then the append. *)
Fixpoint put_condition (conds : list Condition) (c : Condition) : list Condition :=
  match conds with
  | [] => [c]
  | c' :: conds =>
      if bool_decide (cond_Type c' = cond_Type c) then
        (if negb (bool_decide (cond_Status c' = cond_Status c))
            || negb (bool_decide (cond_Reason c' = cond_Reason c))
         then {| cond_Type := cond_Type c'; cond_Status := cond_Status c;
                 cond_Reason := cond_Reason c; cond_Message := cond_Message c;
                 cond_LastTransitionTime := cond_LastTransitionTime c |}
         else c') :: conds
      else c' :: put_condition conds c
  end.

Definition setCondition (profile : PackingProfile) (condType status reason message : string)
    (now : Clock) : PackingProfile :=
  set_Conditions profile (put_condition (st_Conditions (profile_Status profile))
    {| cond_Type := condType; cond_Status := status; cond_Reason := reason;
       cond_Message := message; cond_LastTransitionTime := now ("setCondition/" +:+ condType) 0%nat |}).

Fixpoint condition_true (conds : list Condition) (condType : string) : bool :=
  match conds with
  | [] => false
  | c :: conds =>
      if bool_decide (cond_Type c = condType) then bool_decide (cond_Status c = ConditionTrue)
      else condition_true conds condType
  end.

Definition conditionIsTrue (profile : PackingProfile) (condType : string) : bool :=
  condition_true (st_Conditions (profile_Status profile)) condType.

(** The loop that looks for the scale-up rule. *)
Fixpoint has_scale_up (rs : list RuleRef) : bool :=
  match rs with
  | [] => false
  | r :: rs => if bool_decide (ruleref_Name r = "WaitForNodeReady") then true else has_scale_up rs
  end.

(** The issues [setProfileValidCondition] collects, in its order. *)
Definition profile_issues (profile : PackingProfile) : list string :=
  let ds := spec_DemandSource (profile_Spec profile) in
  let cs := spec_CapacitySource (profile_Spec profile) in
  let issues := [] in
  let issues :=
    if bool_decide (ds_Type ds = "ResourceRequest") && (length (ds_Resources ds) =? 0)%nat
    then issues ++ ["demandSource.type=ResourceRequest but resources is empty"] else issues in
  let issues :=
    if bool_decide (ds_Type ds = "Annotation") && bool_decide (ds_Annotation ds = "")
    then issues ++ ["demandSource.type=Annotation but annotation is empty"] else issues in
  let issues :=
    if bool_decide (cs_Type cs = "NodeLabel") && bool_decide (cs_Label cs = "")
    then issues ++ ["capacitySource.type=NodeLabel but label is empty"] else issues in
  if has_scale_up (spec_Rules (profile_Spec profile))
     && (length (cs_NodeGroupTemplates cs) =? 0)%nat
  then issues ++ ["WaitForNodeReady rule requires nodeGroupTemplates"] else issues.

Definition setProfileValidCondition (profile : PackingProfile) (now : Clock) : PackingProfile :=
  let issues := profile_issues profile in
  match issues with
  | _ :: _ =>
      setCondition profile condProfileValid ConditionFalse "ConfigurationError"
        (Join issues "; ") now
  | [] =>
      setCondition profile condProfileValid ConditionTrue "Valid"
        "profile configuration is valid" now
  end.

Definition setLedgerReadyCondition (profile : PackingProfile) (syncErr : option goerror)
    (now : Clock) : PackingProfile :=
  match syncErr with
  | Some e => setCondition profile condLedgerReady ConditionFalse "SyncFailed" (err_Error e) now
  | None =>
      setCondition profile condLedgerReady ConditionTrue "Synced"
        "ledger synced from cluster state" now
  end.

Definition setInflightDetectionCondition {K : Kube} (profile : PackingProfile)
    (inflightCount : Z) (activeDetectors : list string) (allDetectors : list Detector)
    (now : Clock) : PackingProfile :=
  match allDetectors with
  | [] =>
      setCondition profile condInflightDetectionActive ConditionFalse "NoDetectors"
        "no inflight detectors configured" now
  | _ =>
      if 0 <? inflightCount then
        setCondition profile condInflightDetectionActive ConditionTrue "Detected"
          (pretty inflightCount +:+ " inflight node(s) detected by "
             +:+ Join activeDetectors ", ") now
      else
        setCondition profile condInflightDetectionActive ConditionFalse "NoneDetected"
          "no inflight nodes detected" now
  end.

Definition setReadyCondition (profile : PackingProfile) (now : Clock) : PackingProfile :=
  let profileValid := conditionIsTrue profile condProfileValid in
  let ledgerReady := conditionIsTrue profile condLedgerReady in
  if profileValid && ledgerReady then
    setCondition profile condReady ConditionTrue "Ready"
      "profile is valid and ledger is synced" now
  else
    let reasons := [] in
    let reasons := if negb profileValid then reasons ++ ["ProfileValid=False"] else reasons in
    let reasons := if negb ledgerReady then reasons ++ ["LedgerReady=False"] else reasons in
    setCondition profile condReady ConditionFalse "NotReady" (Join reasons ", ") now.

(** The messages [warnProfileMisconfig] logs. *)
Definition warnProfileMisconfig (profile : PackingProfile) : list string :=
  let ds := spec_DemandSource (profile_Spec profile) in
  let cs := spec_CapacitySource (profile_Spec profile) in
  (if bool_decide (ds_Type ds = "ResourceRequest") && (length (ds_Resources ds) =? 0)%nat
   then ["demandSource.type=ResourceRequest but resources list is empty, all pods will have zero demand"]
   else []) ++
  (if bool_decide (ds_Type ds = "Annotation") && bool_decide (ds_Annotation ds = "")
   then ["demandSource.type=Annotation but annotation field is empty, all pods will have zero demand"]
   else []) ++
  (if bool_decide (cs_Type cs = "NodeLabel") && bool_decide (cs_Label cs = "")
   then ["capacitySource.type=NodeLabel but label field is empty"] else []) ++
  (if has_scale_up (spec_Rules (profile_Spec profile))
      && (length (cs_NodeGroupTemplates cs) =? 0)%nat
   then ["WaitForNodeReady rule configured but no nodeGroupTemplates defined, inflight nodes will have unknown capacity"]
   else []).

(** The conditions a reconciliation sets, in its order: the ledger's first,
    then the ones of [updateProfileStatus]. *)
Definition report_conditions {K : Kube} (profile : PackingProfile) (syncErr : option goerror)
    (inflightCount : Z) (activeDetectors : list string) (allDetectors : list Detector)
    (now : Clock) : PackingProfile :=
  let profile := setLedgerReadyCondition profile syncErr now in
  let profile := setProfileValidCondition profile now in
  let profile := setInflightDetectionCondition profile inflightCount activeDetectors
                   allDetectors now in
  setReadyCondition profile now.

(** ** Reading conditions *)

(** The condition of a type: the first one. *)
Definition find_condition (conds : list Condition) (ty : string) : option Condition :=
  List.find (λ c, bool_decide (cond_Type c = ty)) conds.

Definition get_condition (profile : PackingProfile) (ty : string) : option Condition :=
  find_condition (st_Conditions (profile_Status profile)) ty.

(** What a reader acts on: status and reason. *)
Definition reads (profile : PackingProfile) (ty status reason : string) : Prop :=
  ∃ c, get_condition profile ty = Some c ∧ cond_Status c = status ∧ cond_Reason c = reason.

Lemma find_condition_put conds c ty :
  find_condition (put_condition conds c) ty =
  if decide (cond_Type c = ty) then
    match find_condition conds ty with
    | Some c' =>
        if decide (cond_Status c' = cond_Status c ∧ cond_Reason c' = cond_Reason c)
        then Some c' else Some c
    | None => Some c
    end
  else find_condition conds ty.
Proof.
  unfold find_condition. induction conds as [|c' conds IH]; cbn [put_condition List.find].
  { by repeat case_decide; case_bool_decide. }
  destruct (decide (cond_Type c' = cond_Type c)) as [E|E].
  - rewrite (bool_decide_true (cond_Type c' = cond_Type c)) by done. cbn [List.find].
    destruct (decide (cond_Type c = ty)) as [Ht|Ht].
    + rewrite (bool_decide_true (cond_Type c' = ty)) by congruence.
      case_decide as Hd.
      * destruct Hd as [Hs Hr].
        rewrite (bool_decide_true (_ = cond_Status c)), (bool_decide_true (_ = cond_Reason c))
          by done.
        cbn. by rewrite bool_decide_true by congruence.
      * assert (negb (bool_decide (cond_Status c' = cond_Status c))
          || negb (bool_decide (cond_Reason c' = cond_Reason c)) = true) as ->
          by (repeat case_bool_decide; tauto).
        cbn [cond_Type]. rewrite bool_decide_true by congruence. f_equal. destruct c; simpl in *.
        by rewrite E.
    + rewrite (bool_decide_false (cond_Type c' = ty)) by congruence.
      destruct (_ || _); cbn [cond_Type]; by rewrite (bool_decide_false (cond_Type c' = ty)) by congruence.
  - rewrite (bool_decide_false (cond_Type c' = cond_Type c)) by done. cbn [List.find]. rewrite IH.
    destruct (decide (cond_Type c = ty)) as [Ht|Ht].
    + by rewrite (bool_decide_false (cond_Type c' = ty)) by congruence.
    + by case_bool_decide.
Qed.

Lemma setCondition_conditions p ty status reason msg now :
  st_Conditions (profile_Status (setCondition p ty status reason msg now)) =
  put_condition (st_Conditions (profile_Status p))
    {| cond_Type := ty; cond_Status := status; cond_Reason := reason; cond_Message := msg;
       cond_LastTransitionTime := now ("setCondition/" +:+ ty) 0%nat |}.
Proof. done. Qed.

Lemma setCondition_reads_same p ty status reason msg now :
  reads (setCondition p ty status reason msg now) ty status reason.
Proof.
  unfold reads, get_condition. rewrite setCondition_conditions, find_condition_put.
  cbn [cond_Type cond_Status cond_Reason]. rewrite decide_True by done. destruct (find_condition _ _) as [c|]; [|by eexists].
  case_decide as H; [|by eexists]. destruct H. by exists c.
Qed.

Lemma setCondition_other p ty status reason msg now ty' :
  ty ≠ ty' → get_condition (setCondition p ty status reason msg now) ty' = get_condition p ty'.
Proof.
  intros H. unfold get_condition. rewrite setCondition_conditions, find_condition_put.
  by rewrite decide_False.
Qed.

Lemma condition_true_find conds ty :
  condition_true conds ty =
  match find_condition conds ty with
  | Some c => bool_decide (cond_Status c = ConditionTrue)
  | None => false
  end.
Proof.
  unfold find_condition. induction conds as [|c conds IH]; cbn; [done|].
  by case_bool_decide.
Qed.

Lemma conditionIsTrue_reads p ty status reason :
  reads p ty status reason → conditionIsTrue p ty = bool_decide (status = ConditionTrue).
Proof.
  intros (c & Hc & <- & _). unfold conditionIsTrue. rewrite condition_true_find.
  unfold get_condition in Hc. by rewrite Hc.
Qed.

Lemma put_condition_types conds c :
  cond_Type <$> put_condition conds c =
  (cond_Type <$> conds) ++
    (if decide (cond_Type c ∈ cond_Type <$> conds) then [] else [cond_Type c]).
Proof.
  induction conds as [|c' conds IH]; cbn [put_condition].
  { by rewrite decide_False by (by apply not_elem_of_nil). }
  rewrite !fmap_cons. case_bool_decide as E.
  - rewrite decide_True by (rewrite E; left). rewrite app_nil_r, fmap_cons. f_equal.
    by destruct (_ || _).
  - rewrite fmap_cons, IH. cbn [app]. f_equal. f_equal.
    assert (cond_Type c ∈ cond_Type c' :: (cond_Type <$> conds) ↔
      cond_Type c ∈ cond_Type <$> conds) as H by (rewrite elem_of_cons; naive_solver).
    by repeat case_decide; tauto.
Qed.

Definition types_unique (p : PackingProfile) : Prop :=
  NoDup (cond_Type <$> st_Conditions (profile_Status p)).

Lemma setCondition_unique p ty status reason msg now :
  types_unique p → types_unique (setCondition p ty status reason msg now).
Proof.
  unfold types_unique. rewrite setCondition_conditions, put_condition_types.
  cbn [cond_Type]. intros H.
  case_decide; [by rewrite app_nil_r|]. apply NoDup_app. split; [done|].
  split; [|repeat constructor; set_solver]. intros x Hx ->%list_elem_of_singleton. done.
Qed.

Lemma setCondition_fields p ty status reason msg now :
  profile_Name (setCondition p ty status reason msg now) = profile_Name p ∧
  profile_Spec (setCondition p ty status reason msg now) = profile_Spec p.
Proof. done. Qed.

(** ** The configuration *)

Definition needs_templates (p : PackingProfile) : Prop :=
  ∃ r, r ∈ spec_Rules (profile_Spec p) ∧ ruleref_Name r = "WaitForNodeReady".

(** What the ProfileValid condition asks of a profile. *)
Definition config_ok (p : PackingProfile) : Prop :=
  let ds := spec_DemandSource (profile_Spec p) in
  let cs := spec_CapacitySource (profile_Spec p) in
  (ds_Type ds = "ResourceRequest" → ds_Resources ds ≠ []) ∧
  (ds_Type ds = "Annotation" → ds_Annotation ds ≠ "") ∧
  (cs_Type cs = "NodeLabel" → cs_Label cs ≠ "") ∧
  (needs_templates p → cs_NodeGroupTemplates cs ≠ []).

Lemma has_scale_up_spec rs :
  has_scale_up rs = true ↔ ∃ r, r ∈ rs ∧ ruleref_Name r = "WaitForNodeReady".
Proof.
  induction rs as [|r rs IH]; cbn [has_scale_up].
  { setoid_rewrite elem_of_nil. naive_solver. }
  setoid_rewrite elem_of_cons. case_bool_decide; [|rewrite IH]; naive_solver.
Qed.

Lemma empty_length_test {A} (b : bool) (P : Prop) (l : list A) :
  (b = true ↔ P) → (b && (length l =? 0)%nat = false ↔ (P → l ≠ [])).
Proof.
  intros Hb. rewrite andb_false_iff, Nat.eqb_neq, <- length_zero_iff_nil.
  destruct b; [|split; [intros _ ?; exfalso; assert (false = true) by tauto; done|by left]].
  assert P by tauto. split; [intros [?|?]; done|]. intros; right; auto.
Qed.

Lemma empty_string_test (b : bool) (P : Prop) (s : string) :
  (b = true ↔ P) → (b && bool_decide (s = "") = false ↔ (P → s ≠ "")).
Proof.
  intros Hb. rewrite andb_false_iff, bool_decide_eq_false.
  destruct b; [|split; [intros _ ?; exfalso; assert (false = true) by tauto; done|by left]].
  assert P by tauto. split; [intros [?|?]; done|]. intros; right; auto.
Qed.

Lemma profile_issues_nil p : profile_issues p = [] ↔ config_ok p.
Proof.
  unfold profile_issues, config_ok, needs_templates. cbv zeta.
  pose proof (has_scale_up_spec (spec_Rules (profile_Spec p))) as Hs.
  rewrite <- (empty_length_test _ _ (cs_NodeGroupTemplates _) Hs).
  rewrite <- (empty_length_test _ _ (ds_Resources _) (bool_decide_eq_true _)).
  rewrite <- (empty_string_test _ _ (ds_Annotation _) (bool_decide_eq_true _)).
  rewrite <- (empty_string_test _ _ (cs_Label _) (bool_decide_eq_true _)).
  repeat (destruct (_ && _)); cbn; naive_solver.
Qed.

(** ** Properties *)

(** Updating a condition.  Afterwards the condition of that type has the
    given status and reason; the other types, the name and the spec are
    untouched and types stay unique.  When status and reason were the same
    already, nothing changes, not even the message; otherwise the condition is
    the new one, with the new transition time. *)
Lemma setCondition_spec p ty status reason msg now :
  let p' := setCondition p ty status reason msg now in
  reads p' ty status reason ∧
  (∀ ty', ty ≠ ty' → get_condition p' ty' = get_condition p ty') ∧
  profile_Name p' = profile_Name p ∧ profile_Spec p' = profile_Spec p ∧
  (types_unique p → types_unique p') ∧
  get_condition p' ty =
    (let new := {| cond_Type := ty; cond_Status := status; cond_Reason := reason;
                   cond_Message := msg;
                   cond_LastTransitionTime := now ("setCondition/" +:+ ty) 0%nat |} in
     match get_condition p ty with
     | Some c => if decide (cond_Status c = status ∧ cond_Reason c = reason)
                 then Some c else Some new
     | None => Some new
     end).
Proof.
  intros p'. split_and!; [apply setCondition_reads_same| |done|done|apply setCondition_unique|].
  - intros. by apply setCondition_other.
  - unfold p', get_condition. rewrite setCondition_conditions, find_condition_put.
    cbn [cond_Type cond_Status cond_Reason]. by rewrite decide_True.
Qed.

(** Status and reason of LedgerReady. *)
Definition sync_status (e : option goerror) : string :=
  match e with Some _ => ConditionFalse | None => ConditionTrue end.
Definition sync_reason (e : option goerror) : string :=
  match e with Some _ => "SyncFailed" | None => "Synced" end.

Lemma setLedgerReady_reads p e now :
  reads (setLedgerReadyCondition p e now) condLedgerReady
    (sync_status e) (sync_reason e).
Proof. destruct e; apply setCondition_reads_same. Qed.

Lemma setProfileValid_reads p now :
  reads (setProfileValidCondition p now) condProfileValid
    (if decide (profile_issues p = []) then ConditionTrue else ConditionFalse)
    (if decide (profile_issues p = []) then "Valid" else "ConfigurationError").
Proof.
  unfold setProfileValidCondition. destruct (profile_issues p) eqn:E;
    case_decide; try done; apply setCondition_reads_same.
Qed.

(** Each step keeps the conditions of other types. *)
Lemma reads_other p p' ty status reason :
  get_condition p' ty = get_condition p ty → reads p ty status reason → reads p' ty status reason.
Proof. unfold reads. by intros ->. Qed.

Lemma setLedgerReady_other p e now ty :
  condLedgerReady ≠ ty →
  get_condition (setLedgerReadyCondition p e now) ty = get_condition p ty.
Proof. intros. unfold setLedgerReadyCondition. case_match; by apply setCondition_other. Qed.

Lemma setProfileValid_other p now ty :
  condProfileValid ≠ ty →
  get_condition (setProfileValidCondition p now) ty = get_condition p ty.
Proof. intros. unfold setProfileValidCondition. case_match; by apply setCondition_other. Qed.

Lemma setInflightDetection_other {K : Kube} p n ds all now ty :
  condInflightDetectionActive ≠ ty →
  get_condition (setInflightDetectionCondition p n ds all now) ty = get_condition p ty.
Proof.
  intros. unfold setInflightDetectionCondition. repeat case_match; by apply setCondition_other.
Qed.

Lemma setReady_other p now ty :
  condReady ≠ ty → get_condition (setReadyCondition p now) ty = get_condition p ty.
Proof. intros. unfold setReadyCondition. case_match; by apply setCondition_other. Qed.

Lemma setReady_reads p now v l rv rl :
  reads p condProfileValid v rv → reads p condLedgerReady l rl →
  reads (setReadyCondition p now) condReady
    (if decide (v = ConditionTrue ∧ l = ConditionTrue) then ConditionTrue else ConditionFalse)
    (if decide (v = ConditionTrue ∧ l = ConditionTrue) then "Ready" else "NotReady").
Proof.
  intros Hv Hl. unfold setReadyCondition.
  rewrite (conditionIsTrue_reads _ _ _ _ Hv), (conditionIsTrue_reads _ _ _ _ Hl).
  case_decide as H.
  - rewrite !bool_decide_true by tauto. apply setCondition_reads_same.
  - assert (bool_decide (v = ConditionTrue) && bool_decide (l = ConditionTrue) = false) as ->.
    { apply andb_false_iff. rewrite !bool_decide_eq_false.
      destruct (decide (v = ConditionTrue)), (decide (l = ConditionTrue)); tauto. }
    apply setCondition_reads_same.
Qed.

(** The four conditions after a report. *)
Lemma report_reads {K : Kube} p syncErr n ds all now :
  let p' := report_conditions p syncErr n ds all now in
  let valid := decide (profile_issues p = []) in
  reads p' condLedgerReady (sync_status syncErr)
    (sync_reason syncErr) ∧
  reads p' condProfileValid (if valid then ConditionTrue else ConditionFalse)
    (if valid then "Valid" else "ConfigurationError") ∧
  reads p' condReady
    (if decide (profile_issues p = [] ∧ syncErr = None) then ConditionTrue else ConditionFalse)
    (if decide (profile_issues p = [] ∧ syncErr = None) then "Ready" else "NotReady").
Proof.
  cbv zeta. unfold report_conditions.
  set (p1 := setLedgerReadyCondition p syncErr now).
  set (p2 := setProfileValidCondition p1 now).
  set (p3 := setInflightDetectionCondition p2 n ds all now).
  assert (profile_issues p1 = profile_issues p) as Hi by (by destruct syncErr).
  assert (reads p3 condLedgerReady (sync_status syncErr)
    (sync_reason syncErr)) as Hl.
  { eapply reads_other; [by apply setInflightDetection_other|].
    eapply reads_other; [by apply setProfileValid_other|]. apply setLedgerReady_reads. }
  assert (reads p3 condProfileValid
    (if decide (profile_issues p = []) then ConditionTrue else ConditionFalse)
    (if decide (profile_issues p = []) then "Valid" else "ConfigurationError")) as Hv.
  { eapply reads_other; [by apply setInflightDetection_other|]. rewrite <- Hi.
    apply setProfileValid_reads. }
  split_and!.
  - eapply reads_other; [by apply setReady_other|done].
  - eapply reads_other; [by apply setReady_other|done].
  - pose proof (setReady_reads p3 now _ _ _ _ Hv Hl) as H.
    assert (ConditionTrue ≠ ConditionFalse) as Hne by done.
    destruct syncErr, (decide (profile_issues p = [])); repeat case_decide; naive_solver.
Qed.

Lemma report_fields {K : Kube} p syncErr n ds all now :
  profile_Name (report_conditions p syncErr n ds all now) = profile_Name p ∧
  profile_Spec (report_conditions p syncErr n ds all now) = profile_Spec p.
Proof.
  unfold report_conditions, setReadyCondition, setInflightDetectionCondition,
    setProfileValidCondition, setLedgerReadyCondition.
  repeat case_match; split; reflexivity.
Qed.

Lemma reads_det p ty s1 r1 s2 r2 :
  reads p ty s1 r1 → (reads p ty s2 r2 ↔ s1 = s2 ∧ r1 = r2).
Proof.
  intros (c & Hc & <- & <-). split.
  - intros (c' & Hc' & <- & <-). by simplify_eq.
  - intros [<- <-]. by exists c.
Qed.

Lemma report_ready {K : Kube} p syncErr n ds all now :
  reads (report_conditions p syncErr n ds all now) condReady ConditionTrue "Ready" ↔
  config_ok p ∧ syncErr = None.
Proof.
  destruct (report_reads p syncErr n ds all now) as (_ & _ & Hr).
  rewrite (reads_det _ _ _ _ _ _ Hr), <- profile_issues_nil.
  case_decide; (split; [by intros [? _]|done]).
Qed.

(** C35: what a reconciliation reports.  LedgerReady tells whether the ledger
    was synced, ProfileValid whether the configuration passes the four checks,
    and Ready is True exactly when both are; which detectors run and what they
    found does not matter for Ready.  The log warns once for each failed
    check. *)
Theorem report_conditions_spec {K : Kube} p syncErr n ds all now :
  let p' := report_conditions p syncErr n ds all now in
  (reads p' condLedgerReady ConditionTrue "Synced" ↔ syncErr = None) ∧
  (reads p' condProfileValid ConditionTrue "Valid" ↔ config_ok p) ∧
  (reads p' condReady ConditionTrue "Ready" ↔ config_ok p ∧ syncErr = None) ∧
  (reads p' condReady ConditionFalse "NotReady" ↔ ¬ (config_ok p ∧ syncErr = None)) ∧
  length (warnProfileMisconfig p) = length (profile_issues p).
Proof.
  intros p'. destruct (report_reads p syncErr n ds all now) as (Hl & Hv & Hr).
  fold p' in Hl, Hv, Hr. rewrite <- profile_issues_nil.
  rewrite (reads_det _ _ _ _ _ _ Hl), (reads_det _ _ _ _ _ _ Hv), !(reads_det _ _ _ _ _ _ Hr).
  clear Hl Hv Hr.
  split_and!.
  - destruct syncErr; (split; [by intros [? _]|done]).
  - case_decide; (split; [by intros [? _]|done]).
  - case_decide; (split; [by intros [? _]|done]).
  - case_decide as H; (split; [by intros [? _]|done]).
  - unfold warnProfileMisconfig, profile_issues. cbv zeta.
    by repeat (destruct (_ && _)).
Qed.

(** A profile in the style of the documentation is never Ready.  A
    ResourceRequest source that only lists additional resources fails the
    configuration check, so the profile reports ProfileValid=False and
    Ready=False after every reconciliation, even when the ledger is synced,
    while the demand of a pod that requests cpu is not empty. *)
Theorem additional_resources_never_ready {K : Kube} p syncErr n ds all now pod c :
  ds_Type (spec_DemandSource (profile_Spec p)) = "ResourceRequest" →
  ds_Resources (spec_DemandSource (profile_Spec p)) = [] →
  c ∈ pod_Containers pod → is_Some (ctr_Requests c !! "cpu") →
  let p' := report_conditions p syncErr n ds all now in
  reads p' condProfileValid ConditionFalse "ConfigurationError" ∧
  reads p' condReady ConditionFalse "NotReady" ∧
  ExtractDemand pod (spec_DemandSource (profile_Spec p)) ≠ ∅.
Proof.
  intros Ht Hr Hc Hq p'. destruct (report_reads p syncErr n ds all now) as (_ & Hv & Hready).
  assert (profile_issues p ≠ []) as Hi.
  { rewrite profile_issues_nil. intros (H & _). by apply H. }
  rewrite !decide_False in Hv by done. rewrite !decide_False in Hready by tauto.
  split; [exact Hv|]. split; [exact Hready|]. intros He.
  unfold ExtractDemand in He. rewrite decide_True, Hr in He by done.
  assert (is_Some (extractFromRequests pod (["cpu"; "memory"] ++
    ds_AdditionalResources (spec_DemandSource (profile_Spec p))) !! "cpu")) as Hs.
  { apply extractFromRequests_some. split; [left|by exists c]. }
  rewrite He, lookup_empty in Hs. by destruct Hs.
Qed.

Definition no_clock : Clock := λ _ _, 0.

Lemma additional_resources_never_ready_witness :
  let p' := report_conditions (K := kube_milli) example_profile None 0 [] [] no_clock in
  reads p' condProfileValid ConditionFalse "ConfigurationError" ∧
  reads p' condReady ConditionFalse "NotReady" ∧
  ExtractDemand (K := kube_milli) (example_pod 500) example_source ≠ ∅.
Proof.
  refine (additional_resources_never_ready (K := kube_milli) example_profile None 0 [] [] no_clock
    (example_pod 500) _ eq_refl eq_refl _ _).
  - left.
  - eexists. vm_compute. reflexivity.
Defined.
