(* ===== verification/Release.v ===== *)
(** * Releasing and holding pods

    The writes of [internal/controller/packingprofile_controller.go] to a pod:
    the release, which removes Kompakt's gates, records the reason and pins
    the pod to its target node, and the annotation of a held pod.  The
    functions give the object the handler mutates before it sends the
    patch. *)

From S2P Require Import Prelude GoStrings Kube.

Section release.
Context {K : Kube}.

Definition kompakt_gate (gate : PodSchedulingGate) : bool :=
  HasPrefix (gate_Name gate) GatePrefix.

(** The loop of [hasKompaktGates]. *)
Fixpoint has_gate (gates : list PodSchedulingGate) : bool :=
  match gates with
  | [] => false
  | gate :: gates => if kompakt_gate gate then true else has_gate gates
  end.

Definition hasKompaktGates (pod : Pod) : bool := has_gate (pod_SchedulingGates pod).

Definition remaining_gates (gates : list PodSchedulingGate) : list PodSchedulingGate :=
  foldl (λ remaining gate, if negb (kompakt_gate gate) then remaining ++ [gate] else remaining)
    [] gates.

Definition hostname_req (nodeName : string) : NodeSelectorRequirement := {|
  req_Key := "kubernetes.io/hostname";
  req_Operator := NodeSelectorOpIn;
  req_Values := [nodeName] |}.

Definition add_expression (req : NodeSelectorRequirement) (t : NodeSelectorTerm) :
  NodeSelectorTerm := {|
  term_MatchExpressions := term_MatchExpressions t ++ [req];
  term_MatchFields := term_MatchFields t |}.

(** The affinity with the target: the requirement joins every existing
    term, or makes a selector of its own. *)
Definition pin_affinity (aff : option Affinity) (nodeName : string) : option Affinity :=
  let aff := default {| aff_NodeAffinity := None |} aff in
  let na := default {| na_Required := None |} (aff_NodeAffinity aff) in
  let required :=
    match na_Required na with
    | Some {| sel_Terms := t :: ts |} =>
        {| sel_Terms := add_expression (hostname_req nodeName) <$> t :: ts |}
    | _ =>
        {| sel_Terms := [{| term_MatchExpressions := [hostname_req nodeName];
                            term_MatchFields := [] |}] |}
    end in
  Some {| aff_NodeAffinity := Some {| na_Required := Some required |} |}.

(** The pod [releaseGatesWithAffinity] patches to. *)
Definition released_pod (pod : Pod) (nodeName reason : string) : Pod :=
  let annotations := Some (smap (pod_Annotations pod)) in
  let annotations := sinsert AnnotationReason reason annotations in
  let annotations :=
    if negb (bool_decide (nodeName = "")) then sinsert AnnotationNode nodeName annotations
    else annotations in
  let annotations := sdelete AnnotationHeldBy annotations in
  let pod := set_Annotations pod annotations in
  let pod := set_SchedulingGates pod (remaining_gates (pod_SchedulingGates pod)) in
  if negb (bool_decide (nodeName = ""))
  then set_Affinity pod (pin_affinity (pod_Affinity pod) nodeName)
  else pod.

(** The pod [annotatePod] patches to; [None] when the value is there. *)
Definition annotated_pod (pod : Pod) (key value : string) : option Pod :=
  if bool_decide (is_Some (pod_Annotations pod))
     && bool_decide (sget (pod_Annotations pod) key = value) then None
  else Some (set_Annotations pod (sinsert key value (Some (smap (pod_Annotations pod))))).

(** ** Gates *)

Lemma has_gate_spec gates :
  has_gate gates = true ↔ ∃ g, g ∈ gates ∧ kompakt_gate g = true.
Proof.
  rewrite <- existsb_elem. apply Bool.eq_iff_eq_true.
  induction gates as [|g gates IH]; cbn; [done|]. by destruct (kompakt_gate g).
Qed.

Lemma remaining_gates_filter gates :
  remaining_gates gates = List.filter (λ g, negb (kompakt_gate g)) gates.
Proof. unfold remaining_gates. by rewrite foldl_filter_app. Qed.

Lemma remaining_gates_none gates : has_gate (remaining_gates gates) = false.
Proof.
  apply not_true_is_false. rewrite has_gate_spec, remaining_gates_filter.
  intros (g & [_ Hg]%list_elem_of_In%filter_In & Hk). by rewrite Hk in Hg.
Qed.

Lemma remaining_gates_others gates :
  Forall (λ g, kompakt_gate g = false) gates → remaining_gates gates = gates.
Proof.
  rewrite remaining_gates_filter. induction 1 as [|g gates Hg _ IH]; [done|]. cbn.
  by rewrite Hg, IH.
Qed.

Lemma remaining_gates_app g1 g2 :
  remaining_gates (g1 ++ g2) = remaining_gates g1 ++ remaining_gates g2.
Proof. by rewrite !remaining_gates_filter, List.filter_app. Qed.

Lemma remaining_gates_kompakt gates :
  Forall (λ g, kompakt_gate g = true) gates → remaining_gates gates = [].
Proof.
  rewrite remaining_gates_filter. induction 1 as [|g gates Hg _ IH]; [done|]. cbn.
  by rewrite Hg, IH.
Qed.

Lemma released_no_gates pod nodeName reason :
  hasKompaktGates (released_pod pod nodeName reason) = false.
Proof.
  unfold hasKompaktGates, released_pod. case_bool_decide; apply remaining_gates_none.
Qed.

(** ** What a node selector admits

    The matching of one requirement against a node belongs to the
    scheduler; [In] on labels is all the release relies on.  A required
    selector admits a node when one of its terms does; a term admits it when
    it is not empty and all its requirements hold. *)
Section scheduler.
Context (expr_holds field_holds : NodeSelectorRequirement → Node → Prop).

Definition term_admits (t : NodeSelectorTerm) (n : Node) : Prop :=
  (term_MatchExpressions t ≠ [] ∨ term_MatchFields t ≠ []) ∧
  Forall (λ r, expr_holds r n) (term_MatchExpressions t) ∧
  Forall (λ r, field_holds r n) (term_MatchFields t).

Definition required (pod : Pod) : option NodeSelector :=
  aff ← pod_Affinity pod; na ← aff_NodeAffinity aff; na_Required na.

Definition affinity_admits (pod : Pod) (n : Node) : Prop :=
  match required pod with
  | None => True
  | Some s => ∃ t, t ∈ sel_Terms s ∧ term_admits t n
  end.

(** No required selector, or one with terms, none of which is empty. *)
Definition affinity_valid (pod : Pod) : Prop :=
  match required pod with
  | None => True
  | Some s => sel_Terms s ≠ [] ∧
      Forall (λ t, term_MatchExpressions t ≠ [] ∨ term_MatchFields t ≠ []) (sel_Terms s)
  end.

Lemma add_expression_admits r t n :
  (term_MatchExpressions t ≠ [] ∨ term_MatchFields t ≠ []) →
  term_admits (add_expression r t) n ↔ term_admits t n ∧ expr_holds r n.
Proof.
  intros Hne. unfold term_admits, add_expression.
  cbn [term_MatchExpressions term_MatchFields].
  rewrite Forall_app, Forall_singleton.
  assert (term_MatchExpressions t ++ [r] ≠ []) by (by destruct (term_MatchExpressions t)).
  tauto.
Qed.

Lemma single_term_admits r n :
  (∃ t, t ∈ [{| term_MatchExpressions := [r]; term_MatchFields := [] |}] ∧ term_admits t n)
  ↔ expr_holds r n.
Proof.
  setoid_rewrite list_elem_of_singleton. unfold term_admits. split.
  - intros (t & -> & _ & H & _). cbn in H. by rewrite Forall_singleton in H.
  - intros H. eexists. split; [done|]. cbn. rewrite Forall_singleton, Forall_nil.
    split; [by left|done].
Qed.

Lemma pin_affinity_admits pod nodeName reason n :
  nodeName ≠ "" → affinity_valid pod →
  affinity_admits (released_pod pod nodeName reason) n ↔
  affinity_admits pod n ∧ expr_holds (hostname_req nodeName) n.
Proof.
  intros Hn Hv. unfold released_pod. rewrite bool_decide_false by done. cbn [negb].
  unfold affinity_admits, affinity_valid, required in *.
  cbn [pod_Affinity set_Affinity set_SchedulingGates set_Annotations pin_affinity].
  destruct (pod_Affinity pod) as [[[[[[ts]|]]|]]|]; cbn in Hv |- *;
    try (rewrite single_term_admits; tauto).
  destruct Hv as [Hne Hts]. destruct ts as [|t ts]; [done|].
  rewrite <- fmap_cons. cbn [sel_Terms].
  rewrite Forall_forall in Hts. split.
  - intros (t' & (t0 & -> & Ht0)%list_elem_of_fmap & Ha).
    apply add_expression_admits in Ha as [? ?]; [|by apply Hts]. by eauto.
  - intros [(t0 & Ht0 & Ha) Hr]. exists (add_expression (hostname_req nodeName) t0).
    split; [by apply list_elem_of_fmap_2|]. by apply add_expression_admits; [apply Hts|].
Qed.
End scheduler.
End release.

(** ** Properties *)

Section properties.
Context {K : Kube}.

(** The annotations after a release. *)
Lemma released_annotations pod nodeName reason k :
  slookup (pod_Annotations (released_pod pod nodeName reason)) k =
    if decide (k = AnnotationHeldBy) then None
    else if decide (k = AnnotationNode ∧ nodeName ≠ "") then Some nodeName
    else if decide (k = AnnotationReason) then Some reason
    else slookup (pod_Annotations pod) k.
Proof.
  unfold released_pod.
  assert (AnnotationReason ≠ AnnotationNode ∧ AnnotationReason ≠ AnnotationHeldBy ∧
    AnnotationNode ≠ AnnotationHeldBy) as (H1 & H2 & H3) by done.
  case_bool_decide as Hn; cbn [negb];
    cbn [pod_Annotations set_Affinity set_SchedulingGates set_Annotations];
    rewrite slookup_sdelete, !slookup_sinsert;
    change (slookup (Some (smap (pod_Annotations pod))) k)
      with (slookup (pod_Annotations pod) k);
    repeat case_decide; subst; try done; naive_solver.
Qed.

(** C15: a release removes Kompakt's gates and nothing else.  The other gates
    stay in their order, none of Kompakt's is left, and the pod's identity,
    labels, containers, tolerations, selector and schedule state do not
    change.  The annotations gain the reason, and the target node if there is
    one, and lose the holding rule; every other annotation is kept.  Without a
    target the affinity is kept; what a target does to it is
    [release_pins_target].  Releasing a released pod again changes its gates no
    further. *)
Theorem release_exact pod nodeName reason :
  let p := released_pod pod nodeName reason in
  pod_SchedulingGates p =
    List.filter (λ g, negb (kompakt_gate g)) (pod_SchedulingGates pod) ∧
  hasKompaktGates p = false ∧
  (∀ k, slookup (pod_Annotations p) k =
    if decide (k = AnnotationHeldBy) then None
    else if decide (k = AnnotationNode ∧ nodeName ≠ "") then Some nodeName
    else if decide (k = AnnotationReason) then Some reason
    else slookup (pod_Annotations pod) k) ∧
  (nodeName = "" → pod_Affinity p = pod_Affinity pod) ∧
  (pod_Name p, pod_Namespace p, pod_Labels p, pod_CreationTimestamp p, pod_Containers p,
   pod_Tolerations p, pod_NodeSelector p, pod_NodeName p, pod_Phase p) =
  (pod_Name pod, pod_Namespace pod, pod_Labels pod, pod_CreationTimestamp pod,
   pod_Containers pod, pod_Tolerations pod, pod_NodeSelector pod, pod_NodeName pod,
   pod_Phase pod) ∧
  (∀ n' r', pod_SchedulingGates (released_pod p n' r') = pod_SchedulingGates p).
Proof.
  intros p. assert (∀ q n r, pod_SchedulingGates (released_pod q n r) =
    remaining_gates (pod_SchedulingGates q)) as Hg
    by (intros; unfold released_pod; by case_bool_decide).
  split_and!.
  - unfold p. by rewrite Hg, remaining_gates_filter.
  - apply released_no_gates.
  - intros k. apply released_annotations.
  - intros ->. done.
  - unfold p, released_pod. by case_bool_decide.
  - intros n' r'. rewrite Hg. unfold p. rewrite Hg. rewrite !remaining_gates_filter.
    induction (pod_SchedulingGates pod) as [|g gs IH]; [done|]. cbn.
    destruct (kompakt_gate g) eqn:E; cbn; [done|]. by rewrite E, IH.
Qed.

(** C16: the target is a conjunction with the pod's own affinity.  When the
    scheduler reads [In] on the host name label as documented and the pod's
    required selector has no empty term, a release to a node makes the pod
    admissible exactly where it was before and the host name is the
    target's. *)
Theorem release_pins_target (expr_holds field_holds : NodeSelectorRequirement → Node → Prop)
    pod nodeName reason n :
  (∀ key values node, expr_holds
     {| req_Key := key; req_Operator := NodeSelectorOpIn; req_Values := values |} node ↔
     ∃ v, slookup (node_Labels node) key = Some v ∧ v ∈ values) →
  nodeName ≠ "" → affinity_valid pod →
  affinity_admits expr_holds field_holds (released_pod pod nodeName reason) n ↔
  affinity_admits expr_holds field_holds pod n ∧
  slookup (node_Labels n) "kubernetes.io/hostname" = Some nodeName.
Proof.
  intros Hin Hn Hv. rewrite pin_affinity_admits by done. unfold hostname_req.
  rewrite Hin. setoid_rewrite list_elem_of_singleton. naive_solver.
Qed.
End properties.

(** The label matching of the scheduler for [In], enough to evaluate. *)
Definition in_holds {K : Kube} (r : NodeSelectorRequirement) (n : Node) : Prop :=
  ∃ v, slookup (node_Labels n) (req_Key r) = Some v ∧ v ∈ req_Values r.

Definition example_gated : Pod (K := kube_milli) := {|
  pod_Name := "p"; pod_Namespace := "default";
  pod_Labels := Some {[LabelProfile := "p"]}; pod_Annotations := None;
  pod_CreationTimestamp := 0; pod_Containers := [];
  pod_Tolerations := []; pod_NodeSelector := None;
  pod_SchedulingGates := [{| gate_Name := "kompakt.io/WaitForNodeReady" |};
                          {| gate_Name := "example.com/other" |}];
  pod_Affinity := Some {| aff_NodeAffinity := Some {| na_Required := Some {| sel_Terms :=
    [{| term_MatchExpressions :=
          [{| req_Key := "zone"; req_Operator := "In"; req_Values := ["a"; "b"] |}];
        term_MatchFields := [] |}] |} |} |};
  pod_NodeName := ""; pod_Phase := "Pending" |}.

Definition labelled_node (name zone : string) : Node (K := kube_milli) := {|
  node_Name := name;
  node_Labels := Some (<["zone" := zone]> {["kubernetes.io/hostname" := name]});
  node_CreationTimestamp := 0; node_DeletionTimestamp := None; node_Taints := [];
  node_Allocatable := ∅; node_Conditions := [] |}.

Lemma release_pins_target_witness :
  affinity_valid example_gated ∧
  (affinity_admits in_holds (λ _ _, False) (released_pod example_gated "n1" "capacity")
     (labelled_node "n1" "a") ↔
   affinity_admits in_holds (λ _ _, False) example_gated (labelled_node "n1" "a") ∧
   slookup (node_Labels (labelled_node "n1" "a")) "kubernetes.io/hostname" = Some "n1").
Proof.
  assert (affinity_valid example_gated) as Hv.
  { split; [discriminate|]. apply Forall_singleton. left. discriminate. }
  split; [exact Hv|].
  refine (release_pins_target in_holds (λ _ _, False) example_gated "n1" "capacity"
    (labelled_node "n1" "a") _ _ Hv); [reflexivity|discriminate].
Defined.
