(* ===== verification/PodHeap.v ===== *)
(** * Patches computed in place

    The controller computes a patch by comparing a pod with a deep copy it made
    before it changed the pod.  The changes go through pointers, maps and
    slices of the pod, so the copy must share nothing with it, and the slices
    of the affinity must not overlap.  On the heap these writes leave the copy
    as it was and make of the pod what [Release] says on values. *)

From S2P Require Import Prelude GoStrings Kube Release GoHeap HeapCopy HeapOwn.

(** ** The pod in memory

    The fields that are written; the others are of some type and denote
    something. *)

Record NodeSelectorRequirement_mem := {
  mreq_Key : string;
  mreq_Operator : string;
  mreq_Values : slice string
}.

Record NodeSelectorTerm_mem := {
  mterm_MatchExpressions : slice NodeSelectorRequirement_mem;
  mterm_MatchFields : slice NodeSelectorRequirement_mem
}.

Record NodeSelector_mem := { msel_Terms : slice NodeSelectorTerm_mem }.

Record NodeAffinity_mem := { mna_Required : ptr NodeSelector_mem }.

Record Affinity_mem := { maff_NodeAffinity : ptr NodeAffinity_mem }.

Record Pod_mem (Rest : Type) := {
  mpod_Rest : Rest;
  mpod_Annotations : mapref string;
  mpod_SchedulingGates : slice PodSchedulingGate;
  mpod_Affinity : ptr Affinity_mem
}.
Arguments Build_Pod_mem {Rest} _ _ _ _.
Arguments mpod_Rest {Rest} _.
Arguments mpod_Annotations {Rest} _.
Arguments mpod_SchedulingGates {Rest} _.
Arguments mpod_Affinity {Rest} _.

(** What they denote. *)
Abbreviation Requirement_val := (string * (string * option (list string)))%type.
Abbreviation Term_val := (option (list Requirement_val) * option (list Requirement_val))%type.
Abbreviation Selector_val := (option (list Term_val)).
Abbreviation Pod_val c rd :=
  (rd * (option (gmap string c) * (option (list PodSchedulingGate) *
    option (option (option Selector_val)))))%type.

Section pod_heap.
Context {K : Kube} {cell Rest RestD : Type} {AL : Allocator cell}.
Context {string_cell : Cell cell string} {gate_cell : Cell cell PodSchedulingGate}.
Context {requirement_cell : Cell cell NodeSelectorRequirement_mem}.
Context {term_cell : Cell cell NodeSelectorTerm_mem} {selector_cell : Cell cell NodeSelector_mem}.
Context {node_affinity_cell : Cell cell NodeAffinity_mem} {affinity_cell : Cell cell Affinity_mem}.
Context {pod_cell : Cell cell (Pod_mem Rest)} {rest_deep : Deep cell Rest RestD}.
Abbreviation heap := (gmap loc (object cell)).
Abbreviation pod_ptr := (ptr (Pod_mem Rest)).

#[local] Instance str_deep : Deep cell string string := flat_deep string.
#[local] Instance gate_deep : Deep cell PodSchedulingGate PodSchedulingGate :=
  flat_deep PodSchedulingGate.

Definition requirement_tuple (r : NodeSelectorRequirement_mem) :=
  (mreq_Key r, (mreq_Operator r, mreq_Values r)).
Definition term_tuple (t : NodeSelectorTerm_mem) :=
  (mterm_MatchExpressions t, mterm_MatchFields t).
Definition pod_tuple (p : Pod_mem Rest) :=
  (mpod_Rest p, (mpod_Annotations p, (mpod_SchedulingGates p, mpod_Affinity p))).

#[global] Instance requirement_deep : Deep cell NodeSelectorRequirement_mem Requirement_val :=
  deep_via requirement_tuple _.
#[global] Instance term_deep : Deep cell NodeSelectorTerm_mem Term_val := deep_via term_tuple _.
#[global] Instance selector_deep : Deep cell NodeSelector_mem Selector_val := deep_via msel_Terms _.
#[global] Instance node_affinity_deep : Deep cell NodeAffinity_mem (option Selector_val) :=
  deep_via mna_Required _.
#[global] Instance affinity_deep : Deep cell Affinity_mem (option (option Selector_val)) :=
  deep_via maff_NodeAffinity _.
#[global] Instance pod_deep : Deep cell (Pod_mem Rest) (Pod_val cell RestD) := deep_via pod_tuple _.

(** [Pod.DeepCopyInto] of the library. *)
Context (Pod_DeepCopyInto : Pod_mem Rest → H cell (Pod_mem Rest)) (spare : nat).

Definition Pod_DeepCopy : pod_ptr → H cell pod_ptr := copy_ptr Pod_DeepCopyInto.

(** ** The operations *)

Definition set_mem_Annotations (p : Pod_mem Rest) (m : mapref string) : Pod_mem Rest :=
  Build_Pod_mem (mpod_Rest p) m (mpod_SchedulingGates p) (mpod_Affinity p).
Definition set_mem_SchedulingGates (p : Pod_mem Rest) (gs : slice PodSchedulingGate) :
  Pod_mem Rest := Build_Pod_mem (mpod_Rest p) (mpod_Annotations p) gs (mpod_Affinity p).
Definition set_mem_Affinity (p : Pod_mem Rest) (a : ptr Affinity_mem) : Pod_mem Rest :=
  Build_Pod_mem (mpod_Rest p) (mpod_Annotations p) (mpod_SchedulingGates p) a.

(** [if pod.Annotations == nil { pod.Annotations = make(map[string]string) }] *)
Definition make_annotations (pod : pod_ptr) : H cell unit :=
  p ← deref pod;
  match map_at (mpod_Annotations p) with
  | Some _ => mret tt
  | None => m ← make_map string; assign pod (set_mem_Annotations p m)
  end.

Definition set_annotation (pod : pod_ptr) (key value : string) : H cell unit :=
  p ← deref pod; map_insert (mpod_Annotations p) key (to_cell value).

Definition delete_annotation (pod : pod_ptr) (key : string) : H cell unit :=
  p ← deref pod; map_delete (mpod_Annotations p) key.

Definition write_annotations (pod : pod_ptr) (nodeName reason : string) : H cell unit :=
  make_annotations pod;;
  set_annotation pod AnnotationReason reason;;
  (if negb (bool_decide (nodeName = "")) then set_annotation pod AnnotationNode nodeName
   else mret tt);;
  delete_annotation pod AnnotationHeldBy.

(** The loop that collects the remaining gates, from the [i]-th on, [n] to go. *)
Fixpoint keep_gates (gates remaining : slice PodSchedulingGate) (i n : nat) :
  H cell (slice PodSchedulingGate) :=
  match n with
  | O => mret remaining
  | S n =>
      gate ← elem gates i;
      remaining ← (if negb (kompakt_gate gate) then append spare remaining gate
                   else mret remaining);
      keep_gates gates remaining (S i) n
  end.

Definition remove_gates (pod : pod_ptr) : H cell unit :=
  p ← deref pod;
  remaining ← keep_gates (mpod_SchedulingGates p) (Slice None) 0 (len (mpod_SchedulingGates p));
  assign pod (set_mem_SchedulingGates p remaining).

(** The loop that adds the requirement to the terms. *)
Fixpoint pin_terms (terms : slice NodeSelectorTerm_mem) (req : NodeSelectorRequirement_mem)
    (i n : nat) : H cell unit :=
  match n with
  | O => mret tt
  | S n =>
      t ← elem terms i;
      es ← append spare (mterm_MatchExpressions t) req;
      set_elem terms i {| mterm_MatchExpressions := es;
                          mterm_MatchFields := mterm_MatchFields t |};;
      pin_terms terms req (S i) n
  end.

(** From [existing := ...] on; [na] is [pod.Spec.Affinity.NodeAffinity]. *)
Definition pin_required (na : ptr NodeAffinity_mem) (req : NodeSelectorRequirement_mem) :
  H cell unit :=
  n ← deref na;
  terms ← match ptr_at (mna_Required n) with
          | Some _ => s ← deref (mna_Required n); mret (msel_Terms s)
          | None => mret (Slice None)
          end;
  if (0 <? len terms)%nat then pin_terms terms req 0 (len terms)
  else
    es ← slice_of req;
    ts ← slice_of {| mterm_MatchExpressions := es; mterm_MatchFields := Slice None |};
    sel ← new_of {| msel_Terms := ts |};
    assign na {| mna_Required := sel |}.

(** [if X.NodeAffinity == nil { X.NodeAffinity = &NodeAffinity{} }] and so on. *)
Definition pin_node_affinity (aff : ptr Affinity_mem) (req : NodeSelectorRequirement_mem) :
  H cell unit :=
  a ← deref aff;
  match ptr_at (maff_NodeAffinity a) with
  | Some _ => mret tt
  | None => na ← new_of {| mna_Required := Ptr None |}; assign aff {| maff_NodeAffinity := na |}
  end;;
  a ← deref aff;
  pin_required (maff_NodeAffinity a) req.

Definition pin_affinity_mem (pod : pod_ptr) (nodeName : string) : H cell unit :=
  values ← slice_of nodeName;
  let hostnameReq := {| mreq_Key := "kubernetes.io/hostname";
                        mreq_Operator := NodeSelectorOpIn; mreq_Values := values |} in
  p ← deref pod;
  match ptr_at (mpod_Affinity p) with
  | Some _ => mret tt
  | None => a ← new_of {| maff_NodeAffinity := Ptr None |}; assign pod (set_mem_Affinity p a)
  end;;
  p ← deref pod;
  pin_node_affinity (mpod_Affinity p) hostnameReq.

(** The copy the patch is computed against, which [r.Patch] compares with the
    pod. *)
Definition releaseGatesWithAffinity_mem (pod : pod_ptr) (nodeName reason : string) :
  H cell pod_ptr :=
  base ← Pod_DeepCopy pod;
  write_annotations pod nodeName reason;;
  remove_gates pod;;
  (if negb (bool_decide (nodeName = "")) then pin_affinity_mem pod nodeName else mret tt);;
  mret base.

Definition annotatePod_mem (pod : pod_ptr) (key value : string) : H cell (option pod_ptr) :=
  p ← deref pod;
  v ← map_get (mpod_Annotations p) key;
  if bool_decide (is_Some (map_at (mpod_Annotations p))) && bool_decide (default "" v = value)
  then mret None
  else
    base ← Pod_DeepCopy pod;
    make_annotations pod;;
    set_annotation pod key value;;
    mret (Some base).

(** ** The pod of a denotation *)

Context (pod_rest : RestD → Pod).

Definition requirement_of (d : Requirement_val) : NodeSelectorRequirement :=
  let '(key, (op, values)) := d in
  {| req_Key := key; req_Operator := op; req_Values := default [] values |}.

Definition term_of (d : Term_val) : NodeSelectorTerm := {|
  term_MatchExpressions := requirement_of <$> default [] d.1;
  term_MatchFields := requirement_of <$> default [] d.2 |}.

Definition selector_of (d : Selector_val) : NodeSelector := {| sel_Terms := term_of <$> default [] d |}.

Definition affinity_of (d : option (option Selector_val)) : Affinity := {|
  aff_NodeAffinity := (λ s, {| na_Required := selector_of <$> s |}) <$> d |}.

Definition Pod_of (d : Pod_val cell RestD) : Pod :=
  let '(rest, (annotations, (gates, affinity))) := d in
  set_Affinity (set_SchedulingGates (set_Annotations (pod_rest rest) (typed_map <$> annotations))
    (default [] gates)) (affinity_of <$> affinity).

(** What the writes do to it. *)
Definition hostname_val (nodeName : string) : Requirement_val :=
  ("kubernetes.io/hostname", (NodeSelectorOpIn, Some [nodeName])).

Definition add_val (r : Requirement_val) (t : Term_val) : Term_val := (Some (default [] t.1 ++ [r]), t.2).

Definition pin_selector_val (r : Requirement_val) (d : option Selector_val) : option Selector_val :=
  match d with
  | Some (Some (t :: ts)) => Some (Some (add_val r <$> t :: ts))
  | _ => Some (Some [(Some [r], None)])
  end.

Definition pin_affinity_val (r : Requirement_val) (d : option (option (option Selector_val))) :
  option (option (option Selector_val)) :=
  Some (Some (pin_selector_val r (default None (default None d)))).

Definition write_annotations_val (m : option (gmap string cell)) (nodeName reason : string) :
  gmap string cell :=
  let m := <[AnnotationReason := to_cell reason]> (default ∅ m) in
  let m := if negb (bool_decide (nodeName = "")) then <[AnnotationNode := to_cell nodeName]> m else m in
  delete AnnotationHeldBy m.

Lemma term_of_add nodeName t :
  term_of (add_val (hostname_val nodeName) t) = add_expression (hostname_req nodeName) (term_of t).
Proof. destruct t as [es fs]. unfold term_of, add_val. cbn. by rewrite fmap_app. Qed.

Lemma terms_of_add nodeName (ts : list Term_val) :
  term_of <$> (add_val (hostname_val nodeName) <$> ts) =
  add_expression (hostname_req nodeName) <$> (term_of <$> ts).
Proof.
  rewrite <- !list_fmap_compose. apply list_fmap_ext. intros ? t _. apply term_of_add.
Qed.

Lemma pin_affinity_of nodeName d :
  affinity_of <$> pin_affinity_val (hostname_val nodeName) d =
  pin_affinity (affinity_of <$> d) nodeName.
Proof.
  destruct d as [[[[[|t ts]|]|]|]|]; try done.
  transitivity (Some {| aff_NodeAffinity := Some {| na_Required := Some
    {| sel_Terms := term_of <$> (add_val (hostname_val nodeName) <$> t :: ts) |} |} |}); [done|].
  by rewrite terms_of_add.
Qed.

(** ** The loops *)

Lemma keep_gates_ok h0 gates all : slice_elems h0 gates = Some all → ∀ suf pre h rem os,
  all = pre ++ suf → update ∅ h0 [] h rem os →
  ∃ h' rem' os', keep_gates gates rem (length pre) (length suf) h = Some (h', rem') ∧
    update ∅ h0 [] h' rem' os' ∧
    default [] os' = default [] os ++ List.filter (λ g, negb (kompakt_gate g)) suf.
Proof.
  intros Hall. induction suf as [|g suf IH]; intros pre h rem os Heq Hup.
  { exists h, rem, os. cbn. rewrite app_nil_r. by split_and!. }
  assert (elem gates (length pre) h = Some (h, g)) as Hg.
  { apply (elem_ok h gates all).
    - eapply slice_elems_mono; [|exact Hall]. by eapply frame_subseteq, Hup.
    - rewrite Heq, lookup_app_r, Nat.sub_diag by lia. done. }
  assert (all = (pre ++ [g]) ++ suf) as Heq' by (by rewrite <- app_assoc).
  cbn [length keep_gates List.filter]. unfold mbind at 1, H_bind at 1. rewrite Hg.
  replace (S (length pre)) with (length (pre ++ [g])) by (rewrite length_app; cbn; lia).
  unfold mbind at 1, H_bind at 1. destruct (negb (kompakt_gate g)) eqn:E.
  - destruct (slice_append ∅ spare h rem os g g) as (h1 & rem1 & Hrun & Hup1);
      [set_solver|set_solver|apply Hup|done|done|]. rewrite Hrun.
    destruct (IH (pre ++ [g]) h1 rem1 _ Heq' (update_trans ∅ _ _ _ _ _ _ _ _ Hup Hup1))
      as (h' & rem' & os' & Hrun' & Hup' & Hos').
    exists h', rem', os'. split; [exact Hrun'|]. split; [done|].
    rewrite Hos'. cbn [default from_option id]. by rewrite <- app_assoc.
  - exact (IH (pre ++ [g]) h rem os Heq' Hup).
Qed.

(** A value that is read and shared. *)
Definition readable (shared : gset loc) (h : heap) (req : NodeSelectorRequirement_mem)
    (r : Requirement_val) : Prop := owns shared h req r ∧ own_foot shared h req = [].

Lemma readable_frame shared h F h' F' req r :
  (∀ l, l ∈ F → l ∉ shared) → frame h F h' F' → readable shared h req r →
  readable shared h' req r.
Proof.
  intros HF Hf [Ho He].
  destruct (owns_keep shared h F h' F' req r Hf) as (Ho' & _ & E); [|done|by split; [|rewrite E]].
  intros l Hl Hin. assert (l ∈ own_foot shared h req) as Hx by (apply elem_of_own_foot; auto).
  rewrite He in Hx. by apply not_elem_of_nil in Hx.
Qed.

Lemma own_foot_shared `{DV : Deep cell V D} shared h (v : V) l :
  l ∈ own_foot shared h v → l ∉ shared.
Proof. by intros [_ ?]%elem_of_own_foot. Qed.

Lemma pin_terms_ok shared terms k o n req r : slice_at terms = Some (k, o, n) → k ∉ shared →
  ∀ suf dsuf pre dpre h,
  slice_elems h terms = Some (pre ++ suf) → length pre = length dpre → length suf = length dsuf →
  Forall (λ t, ∀ k o n, slice_at (mterm_MatchExpressions t) = Some (k, o, n) → k ∉ shared) suf →
  shared ⊆ dom h → readable shared h req r → owns shared h terms (Some (dpre ++ dsuf)) →
  ∃ h', pin_terms terms req (length pre) (length suf) h = Some (h', tt) ∧
    update shared h (own_foot shared h terms) h' terms (Some (dpre ++ (add_val r <$> dsuf))).
Proof.
  intros Hat Hk. induction suf as [|t suf IH]; intros [|dt dsuf] pre dpre h Hel Hlen1 Hlen2 Hsep Hsh Hreq Ho;
    try done.
  { exists h. split; [done|]. by apply update_refl. }
  apply Forall_cons in Hsep as [Hsep1 Hsep2].
  destruct (owns_slice shared h terms k o n _ Hat Hk Ho) as (vs & Hvs & Hol & Hnk & _).
  rewrite Hel in Hvs. injection Hvs as <-.
  apply owns_split in Hol as (_ & (Ht & _)%owns_pair & _)%owns_pair; [|done].
  destruct t as [es fs], dt as [des dfs]. apply (via_owns shared term_tuple) in Ht.
  pose proof Ht as (Hes & Hfs & _)%owns_pair. cbn [fst snd term_tuple] in *.
  destruct (slice_append shared spare h es des req r Hsh Hsep1 Hes) as (h1 & es' & Hrun1 & Hup1);
    [apply Hreq|apply Hreq|].
  pose proof (pair_update_l shared h es es' fs des _ dfs h1 Ht Hup1) as Hup2.
  set (t' := {| mterm_MatchExpressions := es'; mterm_MatchFields := fs |}).
  assert (update shared h (own_foot shared h {| mterm_MatchExpressions := es; mterm_MatchFields := fs |})
    h1 t' (add_val r (des, dfs))) as Hup3 by (by apply (via_update shared term_tuple)).
  destruct (slice_set_elem shared h terms k o n pre _ t' suf dpre (des, dfs) _ dsuf h1
    Hat Hk Hel Hlen1 Ho Hup3) as (h2 & Hrun2 & Hel2 & Hup4).
  assert (length (pre ++ [t']) = S (length pre)) as Hl by (rewrite length_app; cbn; lia).
  destruct (IH dsuf (pre ++ [t']) (dpre ++ [add_val r (des, dfs)]) h2) as (h' & Hrun3 & Hup5).
  - by rewrite <- app_assoc.
  - rewrite !length_app, Hlen1. done.
  - by injection Hlen2.
  - done.
  - etrans; [exact Hsh|]. intros l Hl'. apply elem_of_dom, (fr_dom _ _ _ _ (up_frame _ _ _ _ _ _ Hup4)).
    by apply elem_of_dom.
  - eapply readable_frame; [|apply Hup4|done]. intros l. apply own_foot_shared.
  - rewrite <- app_assoc. apply Hup4.
  - exists h'. split.
    + cbn [length pin_terms]. unfold mbind at 1, H_bind at 1.
      rewrite (elem_ok h terms (pre ++ {| mterm_MatchExpressions := es; mterm_MatchFields := fs |} :: suf)
        (length pre) _ Hel) by (by rewrite lookup_app_r, Nat.sub_diag).
      cbn [mterm_MatchExpressions mterm_MatchFields].
      unfold mbind at 1, H_bind at 1. rewrite Hrun1. unfold mbind at 1, H_bind at 1. fold t'.
      rewrite Hrun2. by rewrite Hl in Hrun3.
    + rewrite <- app_assoc in Hup5. exact (update_trans shared _ _ _ _ _ _ _ _ Hup4 Hup5).
Qed.

(** ** The affinity *)

(** Nothing of a value is shared. *)
Definition unshared `{DV : Deep cell V D} (shared : gset loc) (h : heap) (v : V) : Prop :=
  ∀ l, l ∈ dfoot h v → l ∉ shared.

(** A new selector with one term. *)
Lemma new_selector_ok shared h req r :
  shared ⊆ dom h → readable shared h req r →
  ∃ h', (es ← slice_of req;
         ts ← slice_of {| mterm_MatchExpressions := es; mterm_MatchFields := Slice None |};
         new_of {| msel_Terms := ts |}) h = Some h' ∧
    update shared h [] h'.1 h'.2 (Some (Some [(Some [r], None)])).
Proof.
  intros Hsh [Hreq Hown].
  assert (update shared h [] h req r) as Hup0 by (split; [done|rewrite Hown; apply frame_refl]).
  destruct (slice_of_update shared h [] h req r Hsh Hup0) as (h1 & es & E1 & Hup1).
  assert (update shared h [] h1 {| mterm_MatchExpressions := es; mterm_MatchFields := Slice None |}
    (Some [r], None)) as Hup2 by (by apply (via_update shared term_tuple), update_pair_flat).
  destruct (slice_of_update shared h [] h1 _ _ Hsh Hup2) as (h2 & ts & E2 & Hup3).
  assert (update shared h [] h2 {| msel_Terms := ts |} (Some [(Some [r], None)])) as Hup4
    by (by apply (via_update shared msel_Terms)).
  destruct (new_of_update shared h [] h2 _ _ Hsh Hup4) as (h3 & l & E3 & _ & _ & _ & Hup5).
  exists (h3, Ptr (Some l)). split; [|exact Hup5].
  unfold mbind, H_bind. by rewrite E1, E2, E3.
Qed.

(** It replaces what was required. *)
Lemma pin_new_ok shared h l required req r :
  pointee h (Ptr (Some l)) = Some {| mna_Required := required |} → l ∉ shared →
  l ∉ own_foot shared h required → shared ⊆ dom h → readable shared h req r →
  ∃ h', (es ← slice_of req;
      ts ← slice_of {| mterm_MatchExpressions := es; mterm_MatchFields := Slice None |};
      sel ← new_of {| msel_Terms := ts |};
      assign (Ptr (Some l)) {| mna_Required := sel |}) h = Some (h', tt) ∧
    update shared h (l :: own_foot shared h required) h'
      (Ptr (Some l) : ptr NodeAffinity_mem) (Some (Some (Some [(Some [r], None)]))).
Proof.
  intros Hv Hl Hln Hsh Hreq.
  destruct (new_selector_ok shared h req r Hsh Hreq) as ([h1 sel] & Hrun & Hup). cbn in Hup.
  assert (update shared h (own_foot shared h required) h1 {| mna_Required := sel |}
    (Some (Some [(Some [r], None)]))) as Hup1.
  { apply (via_update shared mna_Required). eapply update_weaken; [|exact Hup].
    intros k Hk. by apply not_elem_of_nil in Hk. }
  destruct (ptr_assign shared h _ h1 l _ _ _ Hv Hl Hln Hup1) as (h2 & Hrun2 & _ & _ & Hup2).
  exists h2. split; [|exact Hup2]. unfold mbind, H_bind in *.
  destruct (slice_of req h) as [[h3 es]|]; [|done].
  destruct (slice_of _ h3) as [[h4 ts]|]; [|done]. by rewrite Hrun.
Qed.

(** What a selector that is there holds. *)
Lemma selector_terms shared h ls x :
  owns shared h (Ptr (Some ls) : ptr NodeSelector_mem) (Some x) →
  unshared shared h (Ptr (Some ls) : ptr NodeSelector_mem) →
  ∃ terms, pointee h (Ptr (Some ls)) = Some {| msel_Terms := terms |} ∧
    owns shared h terms x ∧ ls ∉ own_foot shared h terms ∧ unshared shared h terms ∧
    own_foot shared h (Ptr (Some ls) : ptr NodeSelector_mem) = ls :: own_foot shared h terms ∧
    len terms = length (default [] x).
Proof.
  intros Ho Hun. assert (ls ∉ shared) as Hls by (apply Hun; left).
  destruct (owns_ptr shared h ls x Hls Ho) as ([terms] & Hv & Hos & Hln & E).
  apply (via_owns shared msel_Terms) in Hos. exists terms. split_and!; try done.
  - intros k Hk. apply Hun. cbn [dfoot ptr_deep ptr_at]. rewrite Hv. by right.
  - destruct Hos as [Hd _]. cbn [msel_Terms dload slice_deep] in Hd.
    destruct terms as [[[[k o] n]|]]; cbn [slice_at] in Hd; [|by injection Hd as <-].
    apply bind_Some in Hd as (vs & Hvs & (y & Hy & ->)%fmap_Some).
    rewrite <- (slice_elems_length _ _ _ Hvs). by apply length_mapM in Hy.
Qed.

(** The loop on the terms of a selector that has some. *)
Lemma pin_existing_ok shared h terms dts req r :
  owns shared h terms (Some dts) → dts ≠ [] → unshared shared h terms → shared ⊆ dom h →
  readable shared h req r →
  ∃ h', pin_terms terms req 0 (length dts) h = Some (h', tt) ∧
    update shared h (own_foot shared h terms) h' terms (Some (add_val r <$> dts)).
Proof.
  intros Ho Hne Hun Hsh Hreq.
  destruct terms as [[[[k o] n]|]]; [|by destruct Ho as [Hd _]].
  assert (k ∉ shared) as Hk by (apply Hun; left).
  destruct (owns_slice shared h (Slice (Some (k, o, n))) k o n dts eq_refl Hk Ho)
    as (ts & Hts & Hol & _).
  assert (length ts = length dts) as Hlen by (destruct Hol as [Hd _]; by apply length_mapM in Hd).
  rewrite <- Hlen.
  apply (pin_terms_ok shared (Slice (Some (k, o, n))) k o n req r eq_refl Hk ts dts [] []); try done.
  apply Forall_forall. intros t Ht k' o' n' Hat. apply Hun.
  cbn [dfoot slice_deep slice_at]. rewrite Hts. right. unfold list_foot.
  apply list_elem_of_In, in_concat. exists (dfoot h t). split; apply list_elem_of_In.
  - by apply list_elem_of_fmap_2.
  - unfold term_deep. cbn [dfoot deep_via pair_deep term_tuple fst slice_deep]. rewrite Hat. left.
Qed.

(** The terms are those of the existing selector, or none. *)
Lemma pin_required_ok shared h l x req r :
  l ∉ shared → owns shared h (Ptr (Some l) : ptr NodeAffinity_mem) (Some x) →
  unshared shared h (Ptr (Some l) : ptr NodeAffinity_mem) →
  shared ⊆ dom h → readable shared h req r →
  ∃ h', pin_required (Ptr (Some l)) req h = Some (h', tt) ∧
    update shared h (own_foot shared h (Ptr (Some l) : ptr NodeAffinity_mem)) h'
      (Ptr (Some l) : ptr NodeAffinity_mem) (Some (pin_selector_val r x)).
Proof.
  intros Hl Ho Hun Hsh Hreq.
  destruct (owns_ptr shared h l x Hl Ho) as ([required] & Hv & Hon & Hln & E).
  apply (via_owns shared mna_Required) in Hon. cbn [mna_Required] in Hon.
  change (own_foot shared h {| mna_Required := required |}) with (own_foot shared h required) in *.
  assert (unshared shared h required) as Hun1.
  { intros k Hk. apply Hun. cbn [dfoot ptr_deep ptr_at]. rewrite Hv. by right. }
  pose proof (pin_new_ok shared h l required req r Hv Hl Hln Hsh Hreq) as Hnew. rewrite <- E in Hnew.
  unfold pin_required. rewrite (heap_bind _ _ _ _ _ (deref_ok h _ _ Hv)). cbn [mna_Required].
  destruct required as [[ls|]]; cbn [ptr_at].
  2:{ destruct Hon as [Hd _]. cbn in Hd. injection Hd as <-. exact Hnew. }
  destruct x as [x|]; [|destruct Hon as [Hd _]; cbn [dload ptr_deep ptr_at] in Hd;
    by apply bind_Some in Hd as (? & _ & (? & _ & ?)%fmap_Some)].
  destruct (selector_terms shared h ls x Hon Hun1) as (terms & Hvs & Hos & Hlns & Hun2 & Es & Hlen).
  assert ((s ← deref (Ptr (Some ls)); mret (msel_Terms s)) h = Some (h, terms)) as Hread
    by (by rewrite (heap_bind _ _ _ _ _ (deref_ok h _ _ Hvs))).
  rewrite (heap_bind _ _ _ _ _ Hread), Hlen.
  destruct x as [[|dt dts]|]; [exact Hnew| |exact Hnew].
  destruct (pin_existing_ok shared h terms (dt :: dts) req r Hos) as (h' & Hrun & Hup); [done..|].
  exists h'. split; [exact Hrun|].
  apply (via_update shared msel_Terms _ _ _ _ {| msel_Terms := terms |}) in Hup.
  assert (ls ∉ shared) as Hls by (apply Hun1; left).
  pose proof (ptr_inside shared h _ h' ls _ _ Hvs Hls Hlns Hup) as Hup2.
  rewrite <- Es in Hup2.
  apply (via_update shared mna_Required _ _ _ _ {| mna_Required := Ptr (Some ls) |}) in Hup2.
  pose proof (ptr_inside shared h _ h' l _ _ Hv Hl Hln Hup2) as Hup3. by rewrite <- E in Hup3.
Qed.

Lemma update_dom `{DV : Deep cell V D} (shared : gset loc) h F h' (v : V) d :
  update shared h F h' v d → shared ⊆ dom h → shared ⊆ dom h'.
Proof.
  intros Hup Hsh l Hl%Hsh%elem_of_dom.
  by apply elem_of_dom, (fr_dom _ _ _ _ (up_frame _ _ _ _ _ _ Hup)).
Qed.

(** A new variable that holds nil depends on itself only. *)
Lemma nil_unshared {V D} `{Cell cell V} (DV : Deep cell V D) {S} `{Cell cell S} (f : S → ptr V)
    shared h l :
  l ∉ shared → @dload _ _ _ (ptr_deep (deep_via f (ptr_deep DV))) h (Ptr (Some l)) = Some (Some None) →
  unshared (DV := ptr_deep (deep_via f (ptr_deep DV))) shared h (Ptr (Some l)).
Proof.
  intros Hl Hd k Hk. cbn [dload dfoot ptr_deep ptr_at deep_via] in Hd, Hk.
  apply bind_Some in Hd as (v & Hv & (x & Hx & [= <-])%fmap_Some). rewrite Hv in Hk.
  destruct (ptr_at (f v)) as [l'|] eqn:E.
  - by apply bind_Some in Hx as (? & _ & (? & _ & ?)%fmap_Some).
  - by apply list_elem_of_singleton in Hk as ->.
Qed.

(** [X.NodeAffinity] is there from now on. *)
Lemma ensure_node_affinity_ok shared h l x :
  l ∉ shared → owns shared h (Ptr (Some l) : ptr Affinity_mem) (Some x) →
  unshared shared h (Ptr (Some l) : ptr Affinity_mem) → shared ⊆ dom h →
  ∃ h' ln, (a ← deref (Ptr (Some l));
      match ptr_at (maff_NodeAffinity a) with
      | Some _ => mret tt
      | None => na ← new_of {| mna_Required := Ptr None |};
                assign (Ptr (Some l)) {| maff_NodeAffinity := na |}
      end) h = Some (h', tt) ∧
    pointee h' (Ptr (Some l)) = Some {| maff_NodeAffinity := Ptr (Some ln) |} ∧ ln ∉ shared ∧
    unshared shared h' (Ptr (Some ln) : ptr NodeAffinity_mem) ∧
    update shared h (own_foot shared h (Ptr (Some l) : ptr Affinity_mem)) h'
      (Ptr (Some l) : ptr Affinity_mem) (Some (Some (default None x))).
Proof.
  intros Hl Ho Hun Hsh. destruct (owns_ptr shared h l x Hl Ho) as ([na] & Hv & Hon & Hln & E).
  rewrite (heap_bind _ _ _ _ _ (deref_ok h _ _ Hv)). cbn [maff_NodeAffinity].
  apply (via_owns shared maff_NodeAffinity) in Hon. cbn [maff_NodeAffinity] in Hon.
  change (own_foot shared h {| maff_NodeAffinity := na |}) with (own_foot shared h na) in *.
  destruct na as [[ln|]]; cbn [ptr_at].
  - destruct x as [x|]; [|destruct Hon as [Hd _]; cbn [dload ptr_deep ptr_at] in Hd;
      by apply bind_Some in Hd as (? & _ & (? & _ & ?)%fmap_Some)].
    assert (unshared shared h (Ptr (Some ln) : ptr NodeAffinity_mem)) as Hun1.
    { intros k Hk. apply Hun. cbn [dfoot ptr_deep ptr_at]. rewrite Hv. by right. }
    exists h, ln. split; [done|]. split; [done|]. split; [apply Hun1; left|].
    split; [done|]. by apply update_refl.
  - assert (x = None) as -> by (destruct Hon as [Hd _]; cbn in Hd; by injection Hd).
    assert (update shared h [] h {| mna_Required := Ptr None |} None) as Hup0.
    { split; [split; [done|constructor]|apply frame_refl]. }
    destruct (new_of_update shared h [] h _ _ Hsh Hup0) as (h1 & ln & E1 & Hln' & _ & _ & Hup1).
    assert (update shared h [] h1 {| maff_NodeAffinity := Ptr (Some ln) |} (Some None)) as Hup2
      by (by apply (via_update shared maff_NodeAffinity)).
    destruct (ptr_assign shared h [] h1 l _ _ _ Hv Hl (not_elem_of_nil l) Hup2)
      as (h2 & E2 & Hv2 & _ & Hup3).
    exists h2, ln. rewrite (heap_bind _ _ _ _ _ E1). split; [exact E2|]. split; [done|].
    split; [done|]. split; [|by rewrite E].
    destruct (owns_ptr shared h2 l _ Hl (up_owns _ _ _ _ _ _ Hup3)) as (v & Hv' & Hov & _).
    rewrite Hv2 in Hv'. injection Hv' as <-. apply (nil_unshared _ mna_Required); [done|].
    apply Hov.
Qed.

Lemma pin_node_affinity_ok shared h l x req r :
  l ∉ shared → owns shared h (Ptr (Some l) : ptr Affinity_mem) (Some x) →
  unshared shared h (Ptr (Some l) : ptr Affinity_mem) → shared ⊆ dom h →
  readable shared h req r →
  ∃ h', pin_node_affinity (Ptr (Some l)) req h = Some (h', tt) ∧
    update shared h (own_foot shared h (Ptr (Some l) : ptr Affinity_mem)) h'
      (Ptr (Some l) : ptr Affinity_mem) (Some (Some (pin_selector_val r (default None x)))).
Proof.
  intros Hl Ho Hun Hsh Hreq.
  destruct (ensure_node_affinity_ok shared h l x Hl Ho Hun Hsh)
    as (h1 & ln & E1 & Hv1 & Hln & Hun1 & Hup1).
  destruct (owns_ptr shared h1 l _ Hl (up_owns _ _ _ _ _ _ Hup1)) as (v & Hv & Hov & Hnl & E).
  rewrite Hv1 in Hv. injection Hv as <-.
  apply (via_owns shared maff_NodeAffinity) in Hov. cbn [maff_NodeAffinity] in Hov.
  change (own_foot shared h1 {| maff_NodeAffinity := Ptr (Some ln) |})
    with (own_foot shared h1 (Ptr (Some ln) : ptr NodeAffinity_mem)) in *.
  assert (readable shared h1 req r) as Hreq1.
  { eapply readable_frame; [|apply Hup1|done]. intros k. apply own_foot_shared. }
  destruct (pin_required_ok shared h1 ln _ req r Hln Hov Hun1
    (update_dom shared _ _ _ _ _ Hup1 Hsh) Hreq1) as (h2 & E2 & Hup2).
  assert (update shared h1 (own_foot shared h1 (Ptr (Some ln) : ptr NodeAffinity_mem)) h2
    {| maff_NodeAffinity := Ptr (Some ln) |} (Some (pin_selector_val r (default None x)))) as Hup3
    by (by apply (via_update shared maff_NodeAffinity)).
  pose proof (ptr_inside shared h1 _ h2 l _ _ Hv1 Hl Hnl Hup3) as Hup4. rewrite <- E in Hup4.
  exists h2. split; [|exact (update_trans shared _ _ _ _ _ _ _ _ Hup1 Hup4)].
  unfold pin_node_affinity.
  assert (∀ (B : Type) (m : H cell unit) (k : H cell B), m h = Some (h1, tt) → (m;; k) h = k h1) as Hseq
    by (intros B m k Hm; by rewrite (heap_bind _ _ _ _ _ Hm)).
  transitivity ((a ← deref (Ptr (Some l)); pin_required (maff_NodeAffinity a) req) h1).
  - rewrite <- (Hseq _ _ (a ← deref (Ptr (Some l)); pin_required (maff_NodeAffinity a) req) E1).
    unfold mbind, H_bind. by destruct (deref (Ptr (Some l)) h) as [[? ?]|].
  - by rewrite (heap_bind _ _ _ _ _ (deref_ok h1 _ _ Hv1)).
Qed.

(** ** The fields of the pod *)

Section fields.
Context (shared : gset loc).

Lemma pod_fields h p rd an gs af :
  owns shared h p (rd, (an, (gs, af))) →
  owns shared h (mpod_Annotations p) an ∧ owns shared h (mpod_SchedulingGates p) gs ∧
  owns shared h (mpod_Affinity p) af.
Proof.
  intros Ho. apply (via_owns shared pod_tuple) in Ho.
  by apply owns_pair in Ho as (_ & (? & (? & ? & _)%owns_pair & _)%owns_pair & _).
Qed.

Lemma update_Annotations h h' p m rd an an' gs af :
  owns shared h p (rd, (an, (gs, af))) →
  update shared h (own_foot shared h (mpod_Annotations p)) h' m an' →
  update shared h (own_foot shared h p) h' (set_mem_Annotations p m) (rd, (an', (gs, af))).
Proof.
  intros Ho Hup. apply (via_owns shared pod_tuple) in Ho. apply (via_update shared pod_tuple).
  pose proof Ho as (_ & Ho2 & _)%owns_pair.
  apply (pair_update_r _ _ _ _ _ _ _ _ _ Ho). by apply (pair_update_l _ _ _ _ _ _ _ _ _ Ho2).
Qed.

Lemma update_SchedulingGates h h' p s rd an gs gs' af :
  owns shared h p (rd, (an, (gs, af))) →
  update shared h (own_foot shared h (mpod_SchedulingGates p)) h' s gs' →
  update shared h (own_foot shared h p) h' (set_mem_SchedulingGates p s) (rd, (an, (gs', af))).
Proof.
  intros Ho Hup. apply (via_owns shared pod_tuple) in Ho. apply (via_update shared pod_tuple).
  pose proof Ho as (_ & Ho2 & _)%owns_pair. pose proof Ho2 as (_ & Ho3 & _)%owns_pair.
  apply (pair_update_r _ _ _ _ _ _ _ _ _ Ho). apply (pair_update_r _ _ _ _ _ _ _ _ _ Ho2).
  by apply (pair_update_l _ _ _ _ _ _ _ _ _ Ho3).
Qed.

Lemma update_Affinity h h' p a rd an gs af af' :
  owns shared h p (rd, (an, (gs, af))) →
  update shared h (own_foot shared h (mpod_Affinity p)) h' a af' →
  update shared h (own_foot shared h p) h' (set_mem_Affinity p a) (rd, (an, (gs, af'))).
Proof.
  intros Ho Hup. apply (via_owns shared pod_tuple) in Ho. apply (via_update shared pod_tuple).
  pose proof Ho as (_ & Ho2 & _)%owns_pair. pose proof Ho2 as (_ & Ho3 & _)%owns_pair.
  apply (pair_update_r _ _ _ _ _ _ _ _ _ Ho). apply (pair_update_r _ _ _ _ _ _ _ _ _ Ho2).
  by apply (pair_update_r _ _ _ _ _ _ _ _ _ Ho3).
Qed.

(** An operation through the pointer to the pod. *)
Definition rewrites (op : pod_ptr → H cell unit) (f : Pod_val cell RestD → Pod_val cell RestD → Prop) :
  Prop := ∀ h l d, l ∉ shared → shared ⊆ dom h → owns shared h (Ptr (Some l) : pod_ptr) (Some d) →
  ∃ h' d', op (Ptr (Some l)) h = Some (h', tt) ∧ f d d' ∧
    update shared h (own_foot shared h (Ptr (Some l) : pod_ptr)) h' (Ptr (Some l) : pod_ptr) (Some d').
End fields.

Lemma make_annotations_ok : rewrites ∅ make_annotations
  (λ '(rd, (an, (gs, af))) d', d' = (rd, (Some (default ∅ an), (gs, af)))).
Proof.
  intros h l (rd & an & gs & af) Hl Hsh Ho.
  destruct (owns_ptr ∅ h l _ Hl Ho) as (p & Hv & Hop & Hlp & E).
  destruct (pod_fields ∅ h p _ _ _ _ Hop) as ([Hm _] & _ & _). cbn in Hm.
  unfold make_annotations. rewrite (heap_bind _ _ _ _ _ (deref_ok h _ _ Hv)).
  destruct (map_at (mpod_Annotations p)) as [lm|] eqn:Hat.
  - exists h. eexists. split; [done|]. split; [done|].
    destruct (h !! lm) as [[cs|m]|]; [done| |done]. injection Hm as <-. by apply update_refl.
  - injection Hm as <-.
    destruct (make_map_update (T := string) ∅ h Hsh) as (h1 & lm & E1 & _ & Hup1).
    assert (update ∅ h (own_foot ∅ h p) h1 (set_mem_Annotations p (MapRef (Some lm)))
      (rd, (Some ∅, (gs, af)))) as Hup2.
    { eapply update_Annotations; [exact Hop|]. eapply update_weaken; [|exact Hup1].
      intros k Hk. by apply not_elem_of_nil in Hk. }
    destruct (ptr_assign ∅ h _ h1 l _ _ _ Hv Hl Hlp Hup2) as (h2 & E2 & _ & _ & Hup3).
    exists h2. eexists. rewrite (heap_bind _ _ _ _ _ E1). split; [exact E2|]. split; [done|].
    by rewrite E.
Qed.

(** A write to the map of annotations. *)
Lemma annotation_write (op : mapref string → H cell unit) f :
  (∀ h lm m, @dload _ _ _ mapref_deep h (MapRef (Some lm) : mapref string) = Some (Some m) →
     ∃ h', op (MapRef (Some lm)) h = Some (h', tt) ∧
       update ∅ h [lm] h' (MapRef (Some lm) : mapref string) (Some (f m))) →
  ∀ h l rd m gs af, owns ∅ h (Ptr (Some l) : pod_ptr) (Some (rd, (Some m, (gs, af)))) →
  ∃ h', (p ← deref (Ptr (Some l)); op (mpod_Annotations p)) h = Some (h', tt) ∧
    update ∅ h (own_foot ∅ h (Ptr (Some l) : pod_ptr)) h' (Ptr (Some l) : pod_ptr)
      (Some (rd, (Some (f m), (gs, af)))).
Proof.
  intros Hop h l rd m gs af Ho. assert (l ∉ (∅ : gset loc)) as Hl by apply not_elem_of_empty.
  destruct (owns_ptr ∅ h l _ Hl Ho) as (p & Hv & Hown & Hlp & E).
  destruct (pod_fields ∅ h p _ _ _ _ Hown) as (Hm & _ & _).
  rewrite (heap_bind _ _ _ _ _ (deref_ok h _ _ Hv)).
  destruct (mpod_Annotations p) as [[lm|]] eqn:Hat; [|by destruct Hm as [Hm _]].
  destruct (Hop h lm m (own_load _ _ _ _ Hm)) as (h' & Hrun & Hup). exists h'. split; [exact Hrun|].
  assert (update ∅ h (own_foot ∅ h p) h' (set_mem_Annotations p (MapRef (Some lm)))
    (rd, (Some (f m), (gs, af)))) as Hup2.
  { eapply update_Annotations; [exact Hown|]. rewrite Hat.
    by rewrite (own_foot_map ∅ h lm) by apply not_elem_of_empty. }
  replace (set_mem_Annotations p (MapRef (Some lm))) with p in Hup2
    by (rewrite <- Hat; by destruct p).
  rewrite E. by apply (ptr_inside ∅ h _ h' l _ _ Hv Hl Hlp).
Qed.

Lemma set_annotation_ok key value h l rd m gs af :
  owns ∅ h (Ptr (Some l) : pod_ptr) (Some (rd, (Some m, (gs, af)))) →
  ∃ h', set_annotation (Ptr (Some l)) key value h = Some (h', tt) ∧
    update ∅ h (own_foot ∅ h (Ptr (Some l) : pod_ptr)) h' (Ptr (Some l) : pod_ptr)
      (Some (rd, (Some (<[key := to_cell value]> m), (gs, af)))).
Proof.
  apply (annotation_write (λ mr, map_insert mr key (to_cell value)) (λ m, <[key := to_cell value]> m)).
  intros. by apply map_insert_update; [apply not_elem_of_empty|].
Qed.

Lemma delete_annotation_ok key h l rd m gs af :
  owns ∅ h (Ptr (Some l) : pod_ptr) (Some (rd, (Some m, (gs, af)))) →
  ∃ h', delete_annotation (Ptr (Some l)) key h = Some (h', tt) ∧
    update ∅ h (own_foot ∅ h (Ptr (Some l) : pod_ptr)) h' (Ptr (Some l) : pod_ptr)
      (Some (rd, (Some (delete key m), (gs, af)))).
Proof.
  apply (annotation_write (λ mr, map_delete mr key) (delete key)).
  intros. by apply map_delete_update; [apply not_elem_of_empty|].
Qed.

Lemma write_annotations_ok nodeName reason :
  rewrites ∅ (λ pod, write_annotations pod nodeName reason)
    (λ '(rd, (an, (gs, af))) d', d' = (rd, (Some (write_annotations_val an nodeName reason), (gs, af)))).
Proof.
  intros h l (rd & an & gs & af) Hl Hsh Ho.
  destruct (make_annotations_ok h l _ Hl Hsh Ho) as (h1 & d1 & E1 & -> & U1).
  destruct (set_annotation_ok AnnotationReason reason h1 l _ _ _ _ (up_owns _ _ _ _ _ _ U1))
    as (h2 & E2 & U2).
  assert (∃ h3, (if negb (bool_decide (nodeName = ""))
      then set_annotation (Ptr (Some l)) AnnotationNode nodeName else mret tt) h2 = Some (h3, tt) ∧
    update ∅ h2 (own_foot ∅ h2 (Ptr (Some l) : pod_ptr)) h3 (Ptr (Some l) : pod_ptr)
      (Some (rd, (Some (let m := <[AnnotationReason := to_cell reason]> (default ∅ an) in
        if negb (bool_decide (nodeName = "")) then <[AnnotationNode := to_cell nodeName]> m else m),
        (gs, af))))) as (h3 & E3 & U3).
  { destruct (negb _).
    - by apply set_annotation_ok, (up_owns _ _ _ _ _ _ U2).
    - exists h2. split; [done|]. apply update_refl, U2. }
  destruct (delete_annotation_ok AnnotationHeldBy h3 l _ _ _ _ (up_owns _ _ _ _ _ _ U3))
    as (h4 & E4 & U4).
  exists h4. eexists. split; [|split; [reflexivity|]].
  - unfold write_annotations. rewrite (heap_bind _ _ _ _ _ E1), (heap_bind _ _ _ _ _ E2).
    rewrite (heap_bind _ _ _ _ _ E3). exact E4.
  - exact (update_trans ∅ _ _ _ _ _ _ _ _ (update_trans ∅ _ _ _ _ _ _ _ _
      (update_trans ∅ _ _ _ _ _ _ _ _ U1 U2) U3) U4).
Qed.

Lemma remove_gates_ok :
  rewrites ∅ remove_gates (λ '(rd, (an, (gs, af))) d', ∃ gs', d' = (rd, (an, (gs', af))) ∧
    default [] gs' = remaining_gates (default [] gs)).
Proof.
  intros h l (rd & an & gs & af) Hl Hsh Ho.
  destruct (owns_ptr ∅ h l _ Hl Ho) as (p & Hv & Hop & Hlp & E).
  destruct (pod_fields ∅ h p _ _ _ _ Hop) as (_ & [Hg _] & _).
  assert (slice_elems h (mpod_SchedulingGates p) = Some (default [] gs)) as Hel.
  { cbn [dload slice_deep] in Hg.
    destruct (mpod_SchedulingGates p) as [[[[k o] n]|]]; cbn [slice_at] in Hg.
    - apply bind_Some in Hg as (vs & Hvs & (x & Hx & ->)%fmap_Some). unfold gate_deep in Hx.
      rewrite flat_load in Hx. by injection Hx as <-.
    - by injection Hg as <-. }
  assert (update ∅ h [] h (Slice None : slice PodSchedulingGate) None) as U0.
  { split; [split; [done|constructor]|apply frame_refl]. }
  destruct (keep_gates_ok h _ _ Hel (default [] gs) [] h _ _ eq_refl U0)
    as (h1 & rem & gs' & E1 & U1 & Hgs'). cbn [length] in E1.
  rewrite (slice_elems_length _ _ _ Hel) in E1.
  assert (update ∅ h (own_foot ∅ h p) h1 (set_mem_SchedulingGates p rem) (rd, (an, (gs', af)))) as U2.
  { eapply update_SchedulingGates; [exact Hop|]. eapply update_weaken; [|exact U1].
    intros k Hk. by apply not_elem_of_nil in Hk. }
  destruct (ptr_assign ∅ h _ h1 l _ _ _ Hv Hl Hlp U2) as (h2 & E2 & _ & _ & U3).
  exists h2. eexists. split; [|split; [exists gs'; split; [reflexivity|]|]].
  - unfold remove_gates. rewrite (heap_bind _ _ _ _ _ (deref_ok h _ _ Hv)), (heap_bind _ _ _ _ _ E1).
    exact E2.
  - rewrite Hgs', remaining_gates_filter. done.
  - by rewrite E.
Qed.

(** [pod.Spec.Affinity] is there from now on. *)
Lemma ensure_affinity_ok shared h l rd an gs af :
  l ∉ shared → owns shared h (Ptr (Some l) : pod_ptr) (Some (rd, (an, (gs, af)))) →
  unshared shared h (Ptr (Some l) : pod_ptr) → shared ⊆ dom h →
  ∃ h' p' la, (p ← deref (Ptr (Some l));
      match ptr_at (mpod_Affinity p) with
      | Some _ => mret tt
      | None => a ← new_of {| maff_NodeAffinity := Ptr None |};
                assign (Ptr (Some l)) (set_mem_Affinity p a)
      end) h = Some (h', tt) ∧
    pointee h' (Ptr (Some l)) = Some p' ∧ mpod_Affinity p' = Ptr (Some la) ∧ la ∉ shared ∧
    unshared shared h' (Ptr (Some la) : ptr Affinity_mem) ∧
    update shared h (own_foot shared h (Ptr (Some l) : pod_ptr)) h'
      (Ptr (Some l) : pod_ptr) (Some (rd, (an, (gs, Some (default None af))))).
Proof.
  intros Hl Ho Hun Hsh. destruct (owns_ptr shared h l _ Hl Ho) as (p & Hv & Hop & Hlp & E).
  destruct (pod_fields shared h p _ _ _ _ Hop) as (_ & _ & Haf).
  rewrite (heap_bind _ _ _ _ _ (deref_ok h _ _ Hv)).
  destruct (mpod_Affinity p) as [[la|]] eqn:Hat; cbn [ptr_at].
  - destruct af as [x|]; [|destruct Haf as [Hd _]; cbn [dload ptr_deep ptr_at] in Hd;
      by apply bind_Some in Hd as (? & _ & (? & _ & ?)%fmap_Some)].
    assert (unshared shared h (Ptr (Some la) : ptr Affinity_mem)) as Hun1.
    { intros k Hk. apply Hun. cbn [dfoot ptr_deep ptr_at]. rewrite Hv. right.
      change (dfoot h p) with (dfoot h (mpod_Rest p) ++ dfoot h (mpod_Annotations p) ++
        dfoot h (mpod_SchedulingGates p) ++ dfoot h (mpod_Affinity p)).
      rewrite Hat, !elem_of_app. auto. }
    exists h, p, la. split; [done|]. split; [done|]. split; [done|]. split; [apply Hun1; left|].
    split; [done|]. by apply update_refl.
  - assert (af = None) as -> by (destruct Haf as [Hd _]; cbn in Hd; by injection Hd).
    assert (update shared h [] h {| maff_NodeAffinity := Ptr None |} None) as Hup0.
    { split; [split; [done|constructor]|apply frame_refl]. }
    destruct (new_of_update shared h [] h _ _ Hsh Hup0) as (h1 & la & E1 & Hla & _ & _ & Hup1).
    assert (update shared h (own_foot shared h p) h1 (set_mem_Affinity p (Ptr (Some la)))
      (rd, (an, (gs, Some None)))) as Hup2.
    { eapply update_Affinity; [exact Hop|]. eapply update_weaken; [|exact Hup1].
      intros k Hk. by apply not_elem_of_nil in Hk. }
    destruct (ptr_assign shared h _ h1 l _ _ _ Hv Hl Hlp Hup2) as (h2 & E2 & Hv2 & _ & Hup3).
    exists h2, (set_mem_Affinity p (Ptr (Some la))), la. rewrite (heap_bind _ _ _ _ _ E1).
    split; [exact E2|]. split; [done|]. split; [done|]. split; [done|]. split; [|by rewrite E].
    destruct (owns_ptr shared h2 l _ Hl (up_owns _ _ _ _ _ _ Hup3)) as (p2 & Hv' & Hop2 & _).
    rewrite Hv2 in Hv'. injection Hv' as <-.
    destruct (pod_fields shared h2 _ _ _ _ _ Hop2) as (_ & _ & Haf2).
    apply (nil_unshared _ maff_NodeAffinity); [done|]. apply Haf2.
Qed.

(** With the requirement at hand, whose values are shared by all terms. *)
Lemma pin_shared_ok shared h l rd an gs af req r :
  l ∉ shared → owns shared h (Ptr (Some l) : pod_ptr) (Some (rd, (an, (gs, af)))) →
  unshared shared h (Ptr (Some l) : pod_ptr) → shared ⊆ dom h → readable shared h req r →
  ∃ h', ((p ← deref (Ptr (Some l));
      match ptr_at (mpod_Affinity p) with
      | Some _ => mret tt
      | None => a ← new_of {| maff_NodeAffinity := Ptr None |};
                assign (Ptr (Some l)) (set_mem_Affinity p a)
      end);;
      p ← deref (Ptr (Some l)); pin_node_affinity (mpod_Affinity p) req) h = Some (h', tt) ∧
    update shared h (own_foot shared h (Ptr (Some l) : pod_ptr)) h'
      (Ptr (Some l) : pod_ptr) (Some (rd, (an, (gs, pin_affinity_val r af)))).
Proof.
  intros Hl Ho Hun Hsh Hreq.
  destruct (ensure_affinity_ok shared h l rd an gs af Hl Ho Hun Hsh)
    as (h1 & p & la & E1 & Hv & Hat & Hla & Hun1 & Hup1).
  destruct (owns_ptr shared h1 l _ Hl (up_owns _ _ _ _ _ _ Hup1)) as (p' & Hv' & Hop & Hlp & E).
  rewrite Hv in Hv'. injection Hv' as <-.
  destruct (pod_fields shared h1 p _ _ _ _ Hop) as (_ & _ & Haf). rewrite Hat in Haf.
  assert (readable shared h1 req r) as Hreq1.
  { eapply readable_frame; [|apply Hup1|done]. intros k. apply own_foot_shared. }
  destruct (pin_node_affinity_ok shared h1 la _ req r Hla Haf Hun1
    (update_dom shared _ _ _ _ _ Hup1 Hsh) Hreq1) as (h2 & E2 & Hup2).
  rewrite <- Hat in Hup2.
  pose proof (update_Affinity shared h1 h2 p (mpod_Affinity p) rd an gs _ _ Hop Hup2) as Hup3.
  replace (set_mem_Affinity p (mpod_Affinity p)) with p in Hup3 by (by destruct p).
  pose proof (ptr_inside shared h1 _ h2 l _ _ Hv Hl Hlp Hup3) as Hup4. rewrite <- E in Hup4.
  exists h2. split; [|exact (update_trans shared _ _ _ _ _ _ _ _ Hup1 Hup4)].
  rewrite (heap_bind _ _ _ _ _ E1), (heap_bind _ _ _ _ _ (deref_ok h1 _ _ Hv)), Hat. exact E2.
Qed.

Lemma pin_affinity_mem_ok nodeName h l rd an gs af :
  owns ∅ h (Ptr (Some l) : pod_ptr) (Some (rd, (an, (gs, af)))) →
  ∃ h', pin_affinity_mem (Ptr (Some l)) nodeName h = Some (h', tt) ∧
    dload h' (Ptr (Some l) : pod_ptr) =
      Some (Some (rd, (an, (gs, pin_affinity_val (hostname_val nodeName) af)))) ∧
    ∀ k, is_Some (h !! k) → k ∉ dfoot h (Ptr (Some l) : pod_ptr) → h' !! k = h !! k.
Proof.
  intros Ho. pose proof (own_load _ _ _ _ Ho) as Hd.
  assert (update ∅ h [] h nodeName nodeName) as U0.
  { split; [split; [done|constructor]|apply frame_refl]. }
  destruct (slice_of_update ∅ h [] h nodeName nodeName (empty_subseteq _) U0)
    as (h1 & values & E1 & U1).
  set (shared := list_to_set (dfoot h1 values) : gset loc).
  pose proof (frame_subseteq _ _ _ (up_frame _ _ _ _ _ _ U1)) as Hsub.
  destruct (dload_mono h h1 _ _ Hsub Hd) as [Hd1 Hfoot].
  assert (unshared shared h1 (Ptr (Some l) : pod_ptr)) as Hun.
  { intros k Hk Hin. rewrite Hfoot in Hk. unfold shared in Hin. rewrite elem_of_list_to_set in Hin.
    assert (k ∈ own_foot ∅ h1 values) as Hk'
      by (apply elem_of_own_foot; split; [done|apply not_elem_of_empty]).
    destruct (fr_next _ _ _ _ (up_frame _ _ _ _ _ _ U1) k Hk') as [?%not_elem_of_nil|Hn]; [done|].
    destruct (dfoot_dom h _ _ k Hd Hk). congruence. }
  assert (own_foot shared h1 (Ptr (Some l) : pod_ptr) = dfoot h1 (Ptr (Some l) : pod_ptr)) as Hown.
  { by apply own_foot_all. }
  assert (∀ V D (DV : Deep cell V D) h (v : V), own_foot ∅ h v = dfoot h v) as Hempty.
  { intros. apply own_foot_all. intros ? _. apply not_elem_of_empty. }
  assert (owns shared h1 (Ptr (Some l) : pod_ptr) (Some (rd, (an, (gs, af))))) as Ho1.
  { split; [exact Hd1|]. rewrite Hown, Hfoot. destruct Ho as [_ Hn]. by rewrite Hempty in Hn. }
  set (req := {| mreq_Key := "kubernetes.io/hostname"; mreq_Operator := NodeSelectorOpIn;
    mreq_Values := values |}).
  assert (readable shared h1 req (hostname_val nodeName)) as Hreq.
  { pose proof (own_load _ _ _ _ (up_owns _ _ _ _ _ _ U1)) as Hdv.
    assert (own_foot shared h1 req = []) as He.
    { apply own_foot_none. intros k Hk. unfold shared. by apply elem_of_list_to_set. }
    split; [|done]. split; [|by rewrite He; constructor].
    unfold requirement_deep, hostname_val.
    change (dload h1 req) with (d1 ← Some "kubernetes.io/hostname";
      d2 ← (o ← Some NodeSelectorOpIn; vs ← dload h1 values; Some (o, vs)); Some (d1, d2)).
    by rewrite Hdv. }
  assert (shared ⊆ dom h1) as Hsh.
  { intros k Hk. unfold shared in Hk. rewrite elem_of_list_to_set in Hk. apply elem_of_dom.
    exact (dfoot_dom h1 values _ k (own_load _ _ _ _ (up_owns _ _ _ _ _ _ U1)) Hk). }
  assert (l ∉ shared) as Hl by (apply Hun; left).
  destruct (pin_shared_ok shared h1 l rd an gs af req _ Hl Ho1 Hun Hsh Hreq) as (h2 & E2 & U2).
  exists h2. split; [|split; [apply U2|]].
  - unfold pin_affinity_mem. rewrite (heap_bind _ _ _ _ _ E1). fold req. rewrite <- E2.
    unfold mbind, H_bind. by destruct (deref (Ptr (Some l)) h1) as [[? ?]|].
  - intros k Hk Hn. assert (is_Some (h1 !! k)) as Hk1.
    { destruct Hk as [x Hx]. exists x. by eapply lookup_weaken. }
    rewrite (fr_same _ _ _ _ (up_frame _ _ _ _ _ _ U2) k Hk1) by (by rewrite Hown, Hfoot).
    destruct Hk as [x Hx]. rewrite Hx. by eapply lookup_weaken.
Qed.

(** ** The whole release *)

Lemma typed_map_insert k v (m : gmap string cell) :
  typed_map (<[k := to_cell v]> m) = <[k := v]> (typed_map m : gmap string string).
Proof. unfold typed_map. by rewrite (omap_insert_Some _ _ _ _ v) by apply of_to_cell. Qed.

Lemma Pod_of_released rd an gs gs' af nodeName reason :
  default [] gs' = remaining_gates (default [] gs) →
  Pod_of (rd, (Some (write_annotations_val an nodeName reason), (gs',
    if negb (bool_decide (nodeName = "")) then pin_affinity_val (hostname_val nodeName) af else af))) =
  released_pod (Pod_of (rd, (an, (gs, af)))) nodeName reason.
Proof.
  intros Hgs. unfold Pod_of, released_pod, write_annotations_val. rewrite Hgs.
  assert (∀ m : gmap string cell,
    typed_map (delete AnnotationHeldBy m) = delete AnnotationHeldBy (typed_map m : gmap string string))
    as Hdel by (intros m; unfold typed_map; apply omap_delete).
  assert (smap (typed_map <$> an) = (typed_map (default ∅ an) : gmap string string)) as Han
    by (by destruct an).
  cbn [pod_Annotations pod_SchedulingGates pod_Affinity set_Annotations set_SchedulingGates
    set_Affinity fmap option_fmap option_map].
  rewrite Hdel, Han. destruct (negb _); rewrite ?typed_map_insert.
  - by rewrite <- pin_affinity_of.
  - done.
Qed.

Lemma release_writes_ok nodeName reason h l d :
  owns ∅ h (Ptr (Some l) : pod_ptr) (Some d) →
  ∃ h' d', (write_annotations (Ptr (Some l)) nodeName reason;; remove_gates (Ptr (Some l));;
      (if negb (bool_decide (nodeName = "")) then pin_affinity_mem (Ptr (Some l)) nodeName
       else mret tt)) h = Some (h', tt) ∧
    dload h' (Ptr (Some l) : pod_ptr) = Some (Some d') ∧
    Pod_of d' = released_pod (Pod_of d) nodeName reason ∧
    ∀ k, is_Some (h !! k) → k ∉ dfoot h (Ptr (Some l) : pod_ptr) → h' !! k = h !! k.
Proof.
  intros Ho. assert (l ∉ (∅ : gset loc)) as Hl by apply not_elem_of_empty.
  assert (∀ h0 : heap, (∅ : gset loc) ⊆ dom h0) as Hsh by (intros; apply empty_subseteq).
  assert (∀ h0 (v : pod_ptr) k, k ∉ dfoot h0 v → k ∉ own_foot ∅ h0 v) as Hfoot
    by (intros h0 v k Hk [? _]%elem_of_own_foot; done).
  destruct d as (rd & an & gs & af).
  destruct (write_annotations_ok nodeName reason h l _ Hl (Hsh _) Ho) as (h1 & d1 & E1 & -> & U1).
  destruct (remove_gates_ok h1 l _ Hl (Hsh _) (up_owns _ _ _ _ _ _ U1))
    as (h2 & d2 & E2 & (gs' & -> & Hgs) & U2).
  pose proof (update_trans ∅ _ _ _ _ _ _ _ _ U1 U2) as U.
  pose proof (Pod_of_released rd an gs gs' af nodeName reason Hgs) as HP.
  rewrite (heap_bind _ _ _ _ _ E1), (heap_bind _ _ _ _ _ E2).
  destruct (negb (bool_decide (nodeName = ""))).
  - destruct (pin_affinity_mem_ok nodeName h2 l _ _ _ _ (up_owns _ _ _ _ _ _ U)) as (h3 & E3 & Hd & Hs).
    exists h3. eexists. split; [exact E3|]. split; [exact Hd|]. split; [exact HP|].
    intros k Hk Hn. pose proof (fr_same _ _ _ _ (up_frame _ _ _ _ _ _ U) k Hk (Hfoot _ _ _ Hn)) as Hs2.
    rewrite Hs; [done|by rewrite Hs2|]. intros Hin.
    destruct (fr_next _ _ _ _ (up_frame _ _ _ _ _ _ U) k) as [Hx|Hx].
    + apply elem_of_own_foot. split; [exact Hin|apply not_elem_of_empty].
    + by apply elem_of_own_foot in Hx as [? _].
    + rewrite Hx in Hk. by destruct Hk.
  - exists h2. eexists. split; [done|]. split; [apply U|]. split; [exact HP|].
    intros k Hk Hn. apply (fr_same _ _ _ _ (up_frame _ _ _ _ _ _ U) k Hk). by apply Hfoot.
Qed.

(** ** The annotation of a held pod *)

(** What the test of [annotatePod] reads. *)
Lemma annotation_read key h l rd an gs af :
  owns ∅ h (Ptr (Some l) : pod_ptr) (Some (rd, (an, (gs, af)))) →
  ∃ p, deref (Ptr (Some l)) h = Some (h, p) ∧
    map_get (mpod_Annotations p) key h =
      Some (h, slookup (pod_Annotations (Pod_of (rd, (an, (gs, af))))) key) ∧
    (is_Some (map_at (mpod_Annotations p)) ↔
      is_Some (pod_Annotations (Pod_of (rd, (an, (gs, af)))))).
Proof.
  intros Ho. destruct (owns_ptr ∅ h l _ (not_elem_of_empty l) Ho) as (p & Hv & Hop & _).
  destruct (pod_fields ∅ h p _ _ _ _ Hop) as ([Hm _] & _). exists p.
  split; [by apply deref_ok|]. cbn [dload mapref_deep] in Hm. unfold map_get.
  cbn [Pod_of pod_Annotations set_Affinity set_SchedulingGates set_Annotations].
  destruct (map_at (mpod_Annotations p)) as [lm|].
  - destruct (h !! lm) as [[cs|m]|] eqn:E; [done| |done]. injection Hm as <-.
    split; [|by split; intros _; eexists].
    unfold mbind at 1, H_bind, read_map. rewrite E. unfold slookup, smap, typed_map. cbn.
    by rewrite lookup_omap.
  - injection Hm as <-. split; [done|]. by split; intros [? ?].
Qed.

Lemma annotate_writes_ok key value h l rd an gs af :
  owns ∅ h (Ptr (Some l) : pod_ptr) (Some (rd, (an, (gs, af)))) →
  ∃ h' d', (make_annotations (Ptr (Some l));; set_annotation (Ptr (Some l)) key value) h =
      Some (h', tt) ∧
    dload h' (Ptr (Some l) : pod_ptr) = Some (Some d') ∧
    Pod_of d' = set_Annotations (Pod_of (rd, (an, (gs, af))))
      (sinsert key value (Some (smap (pod_Annotations (Pod_of (rd, (an, (gs, af)))))))) ∧
    ∀ k, is_Some (h !! k) → k ∉ dfoot h (Ptr (Some l) : pod_ptr) → h' !! k = h !! k.
Proof.
  intros Ho.
  destruct (make_annotations_ok h l _ (not_elem_of_empty l) (empty_subseteq _) Ho)
    as (h1 & d1 & E1 & -> & U1).
  destruct (set_annotation_ok key value h1 l _ _ _ _ (up_owns _ _ _ _ _ _ U1)) as (h2 & E2 & U2).
  pose proof (update_trans ∅ _ _ _ _ _ _ _ _ U1 U2) as U.
  exists h2. eexists. rewrite (heap_bind _ _ _ _ _ E1). split; [exact E2|]. split; [apply U|]. split.
  - unfold Pod_of, sinsert. cbn. rewrite typed_map_insert. by destruct an.
  - intros k Hk Hn. apply (fr_same _ _ _ _ (up_frame _ _ _ _ _ _ U) k Hk).
    by intros [? _]%elem_of_own_foot.
Qed.

(** ** Properties *)

(** The copy is the pod before, the pointer leads to [p], and nothing of the
    cache has changed. *)
Definition changed_in_place (cache h : heap) (base pod : pod_ptr) (d : Pod_val cell RestD) (p : Pod) :
  Prop :=
  dload h base = Some (Some d) ∧ (∃ d', dload h pod = Some (Some d') ∧ Pod_of d' = p) ∧
  ∀ l, is_Some (cache !! l) → h !! l = cache !! l.

(** A second copy, then writes to the pod. *)
Lemma copy_then_write h0 cached d h1 pod h (w : H cell unit) p :
  copies Pod_DeepCopyInto → dload h0 cached = Some (Some d) →
  Pod_DeepCopy cached h0 = Some (h1, pod) → h1 ⊆ h →
  (∀ h2 l, pod = Ptr (Some l) → owns ∅ h2 (Ptr (Some l) : pod_ptr) (Some d) →
    ∃ h' d', w h2 = Some (h', tt) ∧ dload h' (Ptr (Some l) : pod_ptr) = Some (Some d') ∧
      Pod_of d' = p ∧
      ∀ k, is_Some (h2 !! k) → k ∉ dfoot h2 (Ptr (Some l) : pod_ptr) → h' !! k = h2 !! k) →
  ∃ h2 base h', Pod_DeepCopy pod h = Some (h2, base) ∧ w h2 = Some (h', tt) ∧
    changed_in_place h0 h' base pod d p.
Proof.
  intros HC Hd E Hh Hw.
  destruct (ptr_copies _ HC h0 cached (Some d) Hd) as (h1' & pod' & E' & [Hk0 Hl1 Hf1 Hn1]).
  unfold Pod_DeepCopy in E. rewrite E in E'. injection E' as <- <-.
  destruct (dload_mono h1 h pod (Some d) Hh Hl1) as [Hl Hfoot].
  destruct (ptr_copies _ HC h pod (Some d) Hl) as (h2 & base & E2 & [Hk2 Hl2 Hf2 _]).
  destruct (dload_mono h h2 pod (Some d) Hk2 Hl) as [Hlp Hfoot2].
  destruct pod as [[l|]]; [|discriminate Hl].
  assert (own_foot ∅ h2 (Ptr (Some l) : pod_ptr) = dfoot h1 (Ptr (Some l) : pod_ptr)) as Ho.
  { rewrite own_foot_all by (intros; apply not_elem_of_empty). by rewrite Hfoot2. }
  destruct (Hw h2 l eq_refl) as (h' & d' & Hrun & Hd' & HP & Hs); [split; [done|by rewrite Ho]|].
  exists h2, base, h'. split; [exact E2|]. split; [exact Hrun|]. split_and!.
  - apply (dload_local h2 h' base (Some d) Hl2). intros k Hk. apply Hs.
    + exact (dfoot_dom h2 base (Some d) k Hl2 Hk).
    + rewrite Hfoot2. intros Hin. destruct (dfoot_dom h _ (Some d) k Hl Hin).
      rewrite (Hf2 k Hk) in *. discriminate.
  - by exists d'.
  - intros k [x Hx]. assert (h2 !! k = Some x) as Hx2.
    { eapply lookup_weaken; [exact Hx|]. by do 2 (etrans; [eassumption|]). }
    rewrite Hs; [by rewrite Hx, Hx2|by eexists|]. rewrite Hfoot2, Hfoot. intros Hin.
    rewrite (Hf1 k Hin) in Hx. discriminate.
Qed.

(** C25: patches are the difference they should be.  The controller gets a deep
    copy of the cached pod, copies it again, and changes the first copy in
    place: it makes or fills the map of annotations, collects the remaining
    gates, and appends the target to every affinity term, all of which share
    the target's values.  Whatever room the slices have, nothing panics; when
    the patch is computed, the second copy is still the pod that was read, the
    pod is the one [Release] describes, and the cache has not changed.  A hold
    whose annotation is there writes nothing. *)
Theorem patch_from_copy h0 cached d h1 pod h :
  copies Pod_DeepCopyInto → dload h0 cached = Some (Some d) →
  Pod_DeepCopy cached h0 = Some (h1, pod) → h1 ⊆ h →
  (∀ nodeName reason, ∃ h' base,
    releaseGatesWithAffinity_mem pod nodeName reason h = Some (h', base) ∧
    changed_in_place h0 h' base pod d (released_pod (Pod_of d) nodeName reason)) ∧
  (∀ key value,
    match annotated_pod (Pod_of d) key value with
    | None => annotatePod_mem pod key value h = Some (h, None)
    | Some p => ∃ h' base, annotatePod_mem pod key value h = Some (h', Some base) ∧
        changed_in_place h0 h' base pod d p
    end).
Proof.
  intros HC Hd E Hh. split.
  - intros nodeName reason.
    destruct (copy_then_write h0 cached d h1 pod h
      (write_annotations pod nodeName reason;; remove_gates pod;;
       (if negb (bool_decide (nodeName = "")) then pin_affinity_mem pod nodeName else mret tt))
      (released_pod (Pod_of d) nodeName reason) HC Hd E Hh) as (h2 & base & h' & E2 & Hrun & Hch).
    { intros h2 l -> Ho. by apply release_writes_ok. }
    exists h', base. split; [|exact Hch]. unfold releaseGatesWithAffinity_mem.
    rewrite (heap_bind _ _ _ _ _ E2). unfold mbind, H_bind in *.
    destruct (write_annotations pod nodeName reason h2) as [[h3 []]|]; [|done].
    destruct (remove_gates pod h3) as [[h4 []]|]; [|done]. by rewrite Hrun.
  - intros key value.
    destruct (ptr_copies _ HC h0 cached (Some d) Hd) as (h1' & pod' & E' & [_ Hl1 _ Hn1]).
    pose proof E as E1. unfold Pod_DeepCopy in E1. rewrite E1 in E'. injection E' as <- <-.
    destruct (dload_mono h1 h pod (Some d) Hh Hl1) as [Hl Hfoot].
    destruct pod as [[l|]] eqn:Hpod; [|discriminate Hl].
    destruct d as (rd & an & gs & af).
    assert (owns ∅ h (Ptr (Some l) : pod_ptr) (Some (rd, (an, (gs, af))))) as Ho.
    { split; [done|]. rewrite own_foot_all by (intros; apply not_elem_of_empty). by rewrite Hfoot. }
    destruct (annotation_read key h l rd an gs af Ho) as (p & Ep & Eg & Hiff).
    unfold annotated_pod, annotatePod_mem.
    rewrite (heap_bind _ _ _ _ _ Ep), (heap_bind _ _ _ _ _ Eg), (bool_decide_ext _ _ Hiff).
    fold (sget (pod_Annotations (Pod_of (rd, (an, (gs, af))))) key).
    destruct (_ && _); [done|].
    destruct (copy_then_write h0 cached (rd, (an, (gs, af))) h1 (Ptr (Some l)) h
      (make_annotations (Ptr (Some l));; set_annotation (Ptr (Some l)) key value)
      (set_Annotations (Pod_of (rd, (an, (gs, af)))) (sinsert key value
        (Some (smap (pod_Annotations (Pod_of (rd, (an, (gs, af)))))))))
      HC Hd E Hh) as (h2 & base & h' & E2 & Hrun & Hch).
    { intros h2 l2 [= <-] Ho2. by apply annotate_writes_ok. }
    exists h', base. split; [|exact Hch]. rewrite (heap_bind _ _ _ _ _ E2).
    unfold mbind, H_bind in *.
    destruct (make_annotations (Ptr (Some l)) h2) as [[h3 []]|]; [|done]. by rewrite Hrun.
Qed.
End pod_heap.

(** ** Witness *)

(** A pod of a name and the fields above, with its copies. *)
Inductive toy_pod_cell :=
  | TString (v : string)
  | TGate (v : PodSchedulingGate)
  | TRequirement (v : NodeSelectorRequirement_mem)
  | TTerm (v : NodeSelectorTerm_mem)
  | TSelector (v : NodeSelector_mem)
  | TNodeAffinity (v : NodeAffinity_mem)
  | TAffinity (v : Affinity_mem)
  | TPod (v : Pod_mem string).

Section toy.
Abbreviation tc := toy_pod_cell.

#[local] Instance toy_pod_allocator : Allocator tc.
Proof. refine {| new_loc h := fresh (dom h) |}. intros h. apply not_elem_of_dom, is_fresh. Defined.
#[local] Instance toy_string : Cell tc string.
Proof. by refine {| to_cell := TString; of_cell c := match c with TString v => Some v | _ => None end; zero := "" |}. Defined.
#[local] Instance toy_gate : Cell tc PodSchedulingGate.
Proof. by refine {| to_cell := TGate; of_cell c := match c with TGate v => Some v | _ => None end; zero := {| gate_Name := "" |} |}. Defined.
#[local] Instance toy_requirement : Cell tc NodeSelectorRequirement_mem.
Proof. by refine {| to_cell := TRequirement; of_cell c := match c with TRequirement v => Some v | _ => None end; zero := {| mreq_Key := ""; mreq_Operator := ""; mreq_Values := Slice None |} |}. Defined.
#[local] Instance toy_term : Cell tc NodeSelectorTerm_mem.
Proof. by refine {| to_cell := TTerm; of_cell c := match c with TTerm v => Some v | _ => None end; zero := {| mterm_MatchExpressions := Slice None; mterm_MatchFields := Slice None |} |}. Defined.
#[local] Instance toy_selector : Cell tc NodeSelector_mem.
Proof. by refine {| to_cell := TSelector; of_cell c := match c with TSelector v => Some v | _ => None end; zero := {| msel_Terms := Slice None |} |}. Defined.
#[local] Instance toy_node_affinity : Cell tc NodeAffinity_mem.
Proof. by refine {| to_cell := TNodeAffinity; of_cell c := match c with TNodeAffinity v => Some v | _ => None end; zero := {| mna_Required := Ptr None |} |}. Defined.
#[local] Instance toy_affinity : Cell tc Affinity_mem.
Proof. by refine {| to_cell := TAffinity; of_cell c := match c with TAffinity v => Some v | _ => None end; zero := {| maff_NodeAffinity := Ptr None |} |}. Defined.
#[local] Instance toy_pod : Cell tc (Pod_mem string).
Proof. by refine {| to_cell := TPod; of_cell c := match c with TPod v => Some v | _ => None end; zero := Build_Pod_mem "" (MapRef None) (Slice None) (Ptr None) |}. Defined.
#[local] Instance toy_rest_deep : Deep tc string string := flat_deep string.
#[local] Instance toy_gate_deep : Deep tc PodSchedulingGate PodSchedulingGate := flat_deep _.

(** A copy of a struct from one of its fields. *)
Definition via_into {S V} (tup : S → V) (un : V → S) (f : V → H tc V) (s : S) : H tc S :=
  v ← f (tup s); mret (un v).

Lemma via_into_copies {S V D} {DV : Deep tc V D} (tup : S → V) (un : V → S) f :
  copies f → (∀ t, tup (un t) = t) → copies (DV := deep_via tup DV) (via_into tup un f).
Proof. intros Hf Hun. by apply (via_copies tup un f). Qed.

Definition requirement_into := via_into requirement_tuple
  (λ t, {| mreq_Key := t.1; mreq_Operator := t.2.1; mreq_Values := t.2.2 |})
  (pair_into mret (pair_into mret copy_flat_block)).
Definition term_into := via_into term_tuple
  (λ t, {| mterm_MatchExpressions := t.1; mterm_MatchFields := t.2 |})
  (pair_into (copy_deep_block requirement_into) (copy_deep_block requirement_into)).
Definition selector_into := via_into msel_Terms Build_NodeSelector_mem (copy_deep_block term_into).
Definition node_affinity_into := via_into mna_Required Build_NodeAffinity_mem (copy_ptr selector_into).
Definition affinity_into := via_into maff_NodeAffinity Build_Affinity_mem (copy_ptr node_affinity_into).
Definition pod_into : Pod_mem string → H tc (Pod_mem string) := via_into pod_tuple
  (λ t, Build_Pod_mem t.1 t.2.1 t.2.2.1 t.2.2.2)
  (pair_into mret (pair_into (copy_map_block (O := order_forward))
    (pair_into copy_flat_block (copy_ptr affinity_into)))).

Lemma pod_into_copies : copies pod_into.
Proof.
  assert (copies requirement_into) as H1.
  { apply via_into_copies; [|by intros [? [? ?]]].
    apply pair_copies; [apply mret_copies|]. apply pair_copies; [apply mret_copies|apply flat_block_copies]. }
  assert (copies term_into) as H2.
  { apply via_into_copies; [|by intros [? ?]]. by apply pair_copies; apply deep_block_copies. }
  assert (copies selector_into) as H3 by (by apply via_into_copies; [apply deep_block_copies|]).
  assert (copies node_affinity_into) as H4 by (by apply via_into_copies; [apply ptr_copies|]).
  assert (copies affinity_into) as H5 by (by apply via_into_copies; [apply ptr_copies|]).
  apply via_into_copies; [|by intros (? & ? & ? & ?)].
  apply pair_copies; [apply mret_copies|]. apply pair_copies; [apply map_block_copies|].
  apply pair_copies; [apply flat_block_copies|by apply ptr_copies].
Qed.

(** A cached pod with two affinity terms and a gate of someone else. *)
Definition pod_cache : gmap loc (object tc) := {[
  1%positive := Arr [TPod (Build_Pod_mem "p" (MapRef (Some 2%positive))
                       (Slice (Some (3%positive, 0%nat, 2%nat))) (Ptr (Some 4%positive)))];
  2%positive := Map {[AnnotationTraceID := TString "12345678"; AnnotationHeldBy := TString "WaitForNodeReady"]};
  3%positive := Arr [TGate {| gate_Name := "kompakt.io/wait-for-node-ready" |};
                     TGate {| gate_Name := "example.com/other" |}];
  4%positive := Arr [TAffinity {| maff_NodeAffinity := Ptr (Some 5%positive) |}];
  5%positive := Arr [TNodeAffinity {| mna_Required := Ptr (Some 6%positive) |}];
  6%positive := Arr [TSelector {| msel_Terms := Slice (Some (7%positive, 0%nat, 2%nat)) |}];
  7%positive := Arr [TTerm {| mterm_MatchExpressions := Slice (Some (8%positive, 0%nat, 1%nat));
                              mterm_MatchFields := Slice None |};
                     TTerm {| mterm_MatchExpressions := Slice (Some (8%positive, 1%nat, 1%nat));
                              mterm_MatchFields := Slice None |}];
  8%positive := Arr [TRequirement {| mreq_Key := "zone"; mreq_Operator := "Exists"; mreq_Values := Slice None |};
                     TRequirement {| mreq_Key := "disk"; mreq_Operator := "Exists"; mreq_Values := Slice None |}] ]}.

Definition cached_pod : ptr (Pod_mem string) := Ptr (Some 1%positive).

Definition named (name : string) : Pod (K := kube_milli) := {|
  pod_Name := name; pod_Namespace := "default"; pod_Labels := None; pod_Annotations := None;
  pod_CreationTimestamp := 0; pod_Containers := []; pod_Tolerations := []; pod_NodeSelector := None;
  pod_SchedulingGates := []; pod_Affinity := None; pod_NodeName := ""; pod_Phase := "Pending" |}.

Lemma pod_cache_loads : ∃ d, dload pod_cache cached_pod = Some (Some d).
Proof. eexists. vm_compute. reflexivity. Qed.

Lemma patch_from_copy_witness :
  ∃ h1 pod d h' base, Pod_DeepCopy pod_into cached_pod pod_cache = Some (h1, pod) ∧
    dload pod_cache cached_pod = Some (Some d) ∧
    releaseGatesWithAffinity_mem pod_into 3 pod "n1" "capacity" h1 = Some (h', base) ∧
    changed_in_place named pod_cache h' base pod d (released_pod (Pod_of named d) "n1" "capacity").
Proof.
  destruct pod_cache_loads as [d Hd].
  destruct (ptr_copies _ pod_into_copies pod_cache cached_pod (Some d) Hd) as (h1 & pod & E & _).
  destruct (patch_from_copy pod_into 3 named pod_cache cached_pod d h1 pod h1 pod_into_copies Hd E)
    as [Hrel _]; [done|].
  destruct (Hrel "n1" "capacity") as (h' & base & Hrun & Hch).
  exists h1, pod, d, h', base. split_and!; [exact E|exact Hd|exact Hrun|exact Hch..].
Defined.
End toy.
