(* ===== verification/Sync.v ===== *)
(** * Rebuilding the ledger

    [syncLedger] of [internal/controller/packingprofile_controller.go]: the
    ledger is rebuilt from the cluster's nodes, the pods on them and the
    in-flight nodes of one profile, and the reservations of the previous cycle
    are put back.  The handlers run in a monad with the reconciler's fields as
    state and the writes to the outside (API, events, metrics) as output; the
    answers of the cluster come from an environment. *)

From S2P Require Import Prelude GoStrings GoTime Kube Scheduling Ledger LedgerFit Reservations.
From S2P Require Import Inflight Templates.

Section handlers.
Context {K : Kube}.

(** ** The environment, the state and the monad *)

(** The [client.Reader] values the program holds: the client of the manager,
    which reads from a cache, and its API reader, which asks the API server.
    A reader is a handle; what a read through it answers is up to the
    environment of the reconciliation that reads. *)
Inductive ClientReader :=
  | CachedClient
  | DirectReader.

(** What the cluster answers to each call of one reconciliation, and the
    readings of the clock. *)
Record Env := {
  env_GetPod : result Pod;
  env_GetProfile : string → result PackingProfile;
  env_ListNodes : result (list Node);
  env_ListPods : result (list Pod);
  env_ListPodsByProfile : string → result (list Pod);
  env_Reader : ClientReader → Reader;
  env_Patch : Pod → Pod → option goerror;
  env_UpdateStatus : PackingProfile → option goerror;
  env_now : Clock
}.

(** [PackingProfileReconciler]; the embedded client is [CachedClient], the
    field [APIReader] may be nil; the recorder and the client's writes are
    effects. *)
Record Reconciler := {
  r_APIReader : option ClientReader;
  r_Ledger : NodeLedger;
  r_Detectors : list Detector;
  r_activeDetectors : list string
}.

Inductive effect :=
  | MetricSet (metric : string) (labels : list string) (v : float64)
  | MetricInc (metric : string) (labels : list string)
  | MetricObserve (metric : string) (labels : list string) (v : float64)
  | RecordEvent (pod : Pod) (reason message : string)
  | PatchPod (from to : Pod)
  | UpdateStatus (p : PackingProfile).

Definition M (A : Type) : Type := Reconciler → Reconciler * list effect * A.

#[global] Instance M_ret : MRet M := λ A a r, (r, [], a).
#[global] Instance M_bind : MBind M := λ A B f m r,
  let '(r1, e1, a) := m r in
  let '(r2, e2, b) := f a r1 in
  (r2, e1 ++ e2, b).

Definition set_Ledger (r : Reconciler) (l : NodeLedger) : Reconciler := {|
  r_APIReader := r_APIReader r; r_Ledger := l;
  r_Detectors := r_Detectors r; r_activeDetectors := r_activeDetectors r |}.

Definition emit (e : effect) : M unit := λ r, (r, [e], tt).
Definition get_reconciler : M Reconciler := λ r, (r, [], r).
Definition read_ledger {A} (f : NodeLedger → A) : M A := λ r, (r, [], f (r_Ledger r)).
Definition modify_ledger (f : NodeLedger → NodeLedger) : M unit :=
  λ r, (set_Ledger r (f (r_Ledger r)), [], tt).
Definition set_active (ds : list string) : M unit := λ r,
  ({| r_APIReader := r_APIReader r; r_Ledger := r_Ledger r;
      r_Detectors := r_Detectors r; r_activeDetectors := ds |}, [], tt).
Definition set_detectors (ds : list Detector) : M unit := λ r,
  ({| r_APIReader := r_APIReader r; r_Ledger := r_Ledger r;
      r_Detectors := ds; r_activeDetectors := r_activeDetectors r |}, [], tt).

(** ** Nodes *)

Context {O : MapOrder}.

(** The loop over [demandSource.resources]. *)
Fixpoint missing_resource (resources : list string) (alloc : gmap string Z) : bool :=
  match resources with
  | [] => false
  | res :: resources =>
      if bool_decide (res = "cpu") || bool_decide (res = "memory")
      then missing_resource resources alloc
      else if bool_decide (is_Some (alloc !! res)) then missing_resource resources alloc
      else true
  end.

Definition taskIDLabel : string := "goatscaler.io/provision-task-id".

(** The body of the loop over the nodes. *)
Definition sync_node (profile : PackingProfile) (l : NodeLedger) (node : Node) : NodeLedger :=
  match node_DeletionTimestamp node with
  | Some _ => l
  | None =>
      let alloc := milli_alloc ("alloc/" +:+ node_Name node) (node_Allocatable node) in
      let ds := spec_DemandSource (profile_Spec profile) in
      if bool_decide (ds_Type ds = "ResourceRequest") && missing_resource (ds_Resources ds) alloc
      then l
      else
        let l := AddNode l (node_Name node) alloc (node_Labels node) (node_Taints node) in
        let taskID := sget (node_Labels node) taskIDLabel in
        if negb (bool_decide (taskID = ""))
        then RemoveInflightNode l ((profile_Name profile +:+ "/") +:+ taskID)
        else l
  end.

(** ** Usage *)

Definition container_usage (tag : string) (u : gmap string Z) (c : Container) : gmap string Z :=
  foldl (λ u '(res, qty), map_add64 u res (MilliValue qty)) u (range tag (ctr_Requests c)).

(** The body of the loop over the pods. *)
Definition pod_usage (usage : gmap string (gmap string Z)) (p : Pod) :
  gmap string (gmap string Z) :=
  if bool_decide (pod_NodeName p = "") then usage
  else if bool_decide (pod_Phase p = PodSucceeded) || bool_decide (pod_Phase p = PodFailed)
  then usage
  else
    let u := default ∅ (usage !! pod_NodeName p) in
    <[pod_NodeName p := foldl (container_usage (pod_Name p)) u (pod_Containers p)]> usage.

(** ** Detection *)

(** The chain of detectors, with the nodes and the name of the first one that
    finds any. *)
Fixpoint detect_chain (ds : list Detector) (reader : Reader) (now : Clock) :
  list Detector * list effect * (list InflightNode * string) :=
  match ds with
  | [] => ([], [], ([], ""))
  | d :: ds =>
      let '(d, res) := Detector_Detect d reader now in
      match res with
      | Err _ =>
          let '(ds, es, found) := detect_chain ds reader now in (d :: ds, es, found)
      | Ok nodes =>
          let e := MetricSet "LedgerInflightNodes" [Detector_Name d]
                     (float_of_Z (Z.of_nat (length nodes))) in
          match nodes with
          | _ :: _ => (d :: ds, [e], (nodes, Detector_Name d))
          | [] =>
              let '(ds, es, found) := detect_chain ds reader now in (d :: ds, e :: es, found)
          end
      end
  end.

Definition run_detectors (reader : Reader) (now : Clock) : M (list InflightNode * string) :=
  λ r, let '(ds, es, found) := detect_chain (r_Detectors r) reader now in
       ({| r_APIReader := r_APIReader r; r_Ledger := r_Ledger r;
           r_Detectors := ds; r_activeDetectors := r_activeDetectors r |}, es, found).

(** The body of the loop over the detected nodes. *)
Definition sync_inflight (profile : PackingProfile) (pod : Pod) (l : NodeLedger)
    (n : InflightNode) : NodeLedger :=
  let '(alloc, nodeLabels, nodeTaints) :=
    enrich n pod (cs_NodeGroupTemplates (spec_CapacitySource (profile_Spec profile))) in
  let inflightKey := (profile_Name profile +:+ "/") +:+ in_Name n in
  AddInflightNode l inflightKey alloc nodeLabels nodeTaints.

(** ** syncLedger *)

Definition syncLedger (env : Env) (profile : PackingProfile) (pod : Pod) :
  M (option goerror) :=
  reservations ← read_ledger SnapshotReservations;
  modify_ledger ClearNodes;;
  modify_ledger (λ l, ClearInflightByPrefix l (profile_Name profile +:+ "/"));;
  match env_ListNodes env with
  | Err e => mret (Some e)
  | Ok nodeList =>
      modify_ledger (λ l, foldl (sync_node profile) l nodeList);;
      match env_ListPods env with
      | Err e => mret (Some e)
      | Ok podList =>
          let usage := foldl pod_usage ∅ podList in
          modify_ledger (λ l, foldl (λ l '(nodeName, used), UpdateUsage l nodeName used) l
                                (range "usage" usage));;
          snapshot ← read_ledger Snapshot;
          emit (MetricSet "LedgerNodes" [] (float_of_Z (NodeCount snapshot)));;
          emit (MetricSet "LedgerAllocatableMillicores" []
                  (float_of_Z ((TotalAllocatable snapshot)⟦"cpu"⟧)));;
          emit (MetricSet "LedgerAllocatableMemoryBytes" []
                  (float_of_Z ((TotalAllocatable snapshot)⟦"memory"⟧)));;
          r ← get_reconciler;
          let reader := env_Reader env (default CachedClient (r_APIReader r)) in
          set_active [];;
          found ← run_detectors reader (env_now env);
          let '(inflightNodes, activeDetector) := found in
          (if negb (bool_decide (activeDetector = "")) then set_active [activeDetector]
           else mret tt);;
          modify_ledger (λ l, foldl (sync_inflight profile pod) l inflightNodes);;
          modify_ledger (λ l, RestoreReservations l reservations);;
          mret None
      end
  end.
End handlers.
