(* ===== verification/Rebuild.v ===== *)
(** * What a rebuild leaves

    The ledger after [syncLedger], entry by entry: which nodes are in it, what
    is used and reserved on them, which in-flight nodes the profile has, and
    what happens to the rest; then the consequences for failed rebuilds and
    for nodes that have just arrived. *)

From stdpp Require Import relations.
From S2P Require Import Prelude GoStrings GoTime Kube Scheduling Ledger LedgerFit Reservations.
From S2P Require Import Rules Inflight Templates Sync.

Section rebuild.
Context {K : Kube} {O : MapOrder}.

Definition profile_prefix (profile : PackingProfile) : string := profile_Name profile +:+ "/".

(** ** The ledger as a function of the answers *)

Definition cleared (profile : PackingProfile) (l : NodeLedger) : NodeLedger :=
  ClearInflightByPrefix (ClearNodes l) (profile_prefix profile).

Definition usage_of (podList : list Pod) : gmap string (gmap string Z) :=
  foldl pod_usage ∅ podList.

Definition with_usage (l : NodeLedger) (usage : gmap string (gmap string Z)) : NodeLedger :=
  foldl (λ l '(nodeName, used), UpdateUsage l nodeName used) l (range "usage" usage).

Definition rebuilt (profile : PackingProfile) (pod : Pod) (l : NodeLedger)
    (nodeList : list Node) (podList : list Pod) (found : list InflightNode) : NodeLedger :=
  let l1 := foldl (sync_node profile) (cleared profile l) nodeList in
  let l2 := with_usage l1 (usage_of podList) in
  let l3 := foldl (sync_inflight profile pod) l2 found in
  RestoreReservations l3 (SnapshotReservations l).

Definition ledger_metrics (profile : PackingProfile) (l : NodeLedger) (nodeList : list Node)
    (podList : list Pod) : list effect :=
  let snapshot := Snapshot (with_usage (foldl (sync_node profile) (cleared profile l) nodeList)
                              (usage_of podList)) in
  [MetricSet "LedgerNodes" [] (float_of_Z (NodeCount snapshot));
   MetricSet "LedgerAllocatableMillicores" [] (float_of_Z ((TotalAllocatable snapshot)⟦"cpu"⟧));
   MetricSet "LedgerAllocatableMemoryBytes" []
     (float_of_Z ((TotalAllocatable snapshot)⟦"memory"⟧))].

Definition reader_of (env : Env) (r : Reconciler) : Reader :=
  env_Reader env (default CachedClient (r_APIReader r)).

Lemma syncLedger_run env profile pod r :
  syncLedger env profile pod r =
  match env_ListNodes env with
  | Err e => (set_Ledger r (cleared profile (r_Ledger r)), [], Some e)
  | Ok nodeList =>
      match env_ListPods env with
      | Err e =>
          (set_Ledger r (foldl (sync_node profile) (cleared profile (r_Ledger r)) nodeList),
           [], Some e)
      | Ok podList =>
          let '(ds, es, (found, active)) :=
            detect_chain (r_Detectors r) (reader_of env r) (env_now env) in
          ({| r_APIReader := r_APIReader r;
              r_Ledger := rebuilt profile pod (r_Ledger r) nodeList podList found;
              r_Detectors := ds;
              r_activeDetectors := if bool_decide (active = "") then [] else [active] |},
           ledger_metrics profile (r_Ledger r) nodeList podList ++ es, None)
      end
  end.
Proof.
  unfold syncLedger, read_ledger, modify_ledger, mbind, M_bind, mret, M_ret.
  cbn [r_Ledger set_Ledger]. destruct (env_ListNodes env) as [nodeList|]; [|done].
  cbn [r_Ledger set_Ledger]. destruct (env_ListPods env) as [podList|]; [|done].
  cbn [emit set_active get_reconciler run_detectors r_Ledger r_Detectors r_APIReader set_Ledger].
  unfold reader_of, run_detectors. cbn [r_Ledger r_Detectors r_APIReader].
  destruct (detect_chain _ _ _) as [[ds es] [found active]].
  cbn [r_Ledger r_Detectors r_APIReader r_activeDetectors set_Ledger].
  case_bool_decide; cbn; by rewrite ?app_nil_r.
Qed.

(** ** Nodes *)

(** A node enters the ledger unless it is being deleted or lacks a resource
    the deprecated list names. *)
Definition usable (profile : PackingProfile) (node : Node) : bool :=
  let ds := spec_DemandSource (profile_Spec profile) in
  bool_decide (node_DeletionTimestamp node = None)
  && negb (bool_decide (ds_Type ds = "ResourceRequest")
           && missing_resource (ds_Resources ds) (MilliValue <$> node_Allocatable node)).

Definition fresh_entry (node : Node) : nodeEntry :=
  NodeEntry (MilliValue <$> node_Allocatable node) ∅ ∅ (node_Labels node) (node_Taints node).

Definition find_node (profile : PackingProfile) (nodeList : list Node) (k : string) : option Node :=
  List.find (λ node, bool_decide (node_Name node = k) && usable profile node) nodeList.

Lemma find_node_Some profile nodeList k node :
  find_node profile nodeList k = Some node →
  node ∈ nodeList ∧ node_Name node = k ∧ usable profile node = true.
Proof.
  intros [Hin [Hk%bool_decide_eq_true Hu]%andb_prop]%List.find_some.
  split; [by apply list_elem_of_In|done].
Qed.

Lemma sync_node_cases profile l node :
  (∀ k, HasPrefix k (profile_prefix profile) = true → inflight l !! k = None) →
  sync_node profile l node =
  if usable profile node
  then set_nodes l (<[node_Name node := fresh_entry node]> (nodes l)) else l.
Proof.
  intros Hnone. unfold sync_node, usable. rewrite milli_alloc_fmap.
  destruct (node_DeletionTimestamp node); [done|]. rewrite (bool_decide_true (None = None)) by done.
  cbn [andb]. destruct (bool_decide (ds_Type _ = _) && _); cbn [negb]; [done|].
  unfold AddNode. rewrite copyMap_id, copyStringMap_id. fold (fresh_entry node).
  case_bool_decide; cbn [negb]; [done|]. unfold RemoveInflightNode, set_inflight.
  cbn [nodes inflight set_nodes]. rewrite delete_id; [done|].
  apply Hnone, HasPrefix_app.
Qed.

Lemma sync_nodes_cases profile nodeList l :
  (∀ k, HasPrefix k (profile_prefix profile) = true → inflight l !! k = None) →
  inflight (foldl (sync_node profile) l nodeList) = inflight l ∧
  (NoDup (node_Name <$> nodeList) → ∀ k,
    nodes (foldl (sync_node profile) l nodeList) !! k =
    match find_node profile nodeList k with
    | Some node => Some (fresh_entry node)
    | None => nodes l !! k
    end).
Proof.
  revert l. induction nodeList as [|node nodeList IH]; intros l Hnone; [done|].
  cbn [foldl]. rewrite sync_node_cases by done.
  destruct (IH (if usable profile node
    then set_nodes l (<[node_Name node := fresh_entry node]> (nodes l)) else l)) as [IHi IHn].
  { by destruct (usable profile node). }
  split; [rewrite IHi; by destruct (usable profile node)|].
  rewrite fmap_cons. intros [Hnotin Hnd]%NoDup_cons k. rewrite IHn by done.
  unfold find_node at 2. cbn [List.find]. fold (find_node profile nodeList k).
  destruct (decide (node_Name node = k)) as [Hk|Hk].
  - rewrite (bool_decide_true _ Hk). cbn [andb].
    assert (find_node profile nodeList k = None) as Hf.
    { destruct (find_node profile nodeList k) as [n|] eqn:E; [exfalso|done].
      apply find_node_Some in E as (Hin & Hn & _). apply Hnotin.
      rewrite Hk, <- Hn. by apply list_elem_of_fmap_2. }
    rewrite Hf. destruct (usable profile node); [|done]. cbn [nodes set_nodes].
    by rewrite Hk, lookup_insert_eq.
  - rewrite (bool_decide_false _ Hk). cbn [andb].
    destruct (find_node profile nodeList k); [done|]. destruct (usable profile node); [|done].
    cbn [nodes set_nodes]. by rewrite lookup_insert_ne.
Qed.

(** ** Usage *)

Definition active_on (k : string) (p : Pod) : bool :=
  negb (bool_decide (pod_NodeName p = "")) && bool_decide (pod_NodeName p = k)
  && negb (bool_decide (pod_Phase p = PodSucceeded))
  && negb (bool_decide (pod_Phase p = PodFailed)).

(** The requests of the pods on a node, finished ones excluded. *)
Definition used_on (podList : list Pod) (k res : string) : Z :=
  sum_list_Z ((λ p, if active_on k p then requested p res else 0) <$> podList).

Lemma container_usage_get tag u c res :
  in_int64 (u⟦res⟧) →
  (container_usage tag u c)⟦res⟧ =
  u⟦res⟧ ⊕ match ctr_Requests c !! res with Some q => MilliValue q | None => 0 end.
Proof.
  intros Hu. unfold container_usage.
  rewrite (foldl_keyed_range getZ _ (λ _ q x, x ⊕ MilliValue q)).
  - destruct (ctr_Requests c !! res); [done|]. by rewrite add64_exact; rewrite Z.add_0_r.
  - intros u' k q k' Hne. unfold getZ, map_add64. by rewrite lookup_insert_ne.
  - intros u' k q. unfold getZ at 1, map_add64. by rewrite lookup_insert_eq.
Qed.

Lemma containers_usage_get tag cs u res :
  in_int64 (u⟦res⟧) →
  (foldl (container_usage tag) u cs)⟦res⟧ =
  wrap64 (u⟦res⟧ + sum_list_Z ((λ c, match ctr_Requests c !! res with
    | Some q => MilliValue q | None => 0 end) <$> cs)).
Proof.
  revert u. induction cs as [|c cs IH]; intros u Hu.
  { cbn. by rewrite Z.add_0_r, wrap64_id. }
  rewrite fmap_cons. cbn [foldl sum_list_Z].
  rewrite IH; rewrite container_usage_get by done; [|auto with int64].
  unfold add64. rewrite wrap64_add_l. f_equal. lia.
Qed.

Lemma pod_usage_get usage p k res :
  in_int64 ((default ∅ (usage !! k))⟦res⟧) →
  (default ∅ (pod_usage usage p !! k))⟦res⟧ =
  wrap64 ((default ∅ (usage !! k))⟦res⟧ + if active_on k p then requested p res else 0).
Proof.
  intros Hu. unfold pod_usage, active_on.
  destruct (decide (pod_NodeName p = "")) as [Hn|Hn].
  { rewrite (bool_decide_true _ Hn). cbn [negb andb]. by rewrite Z.add_0_r, wrap64_id. }
  rewrite (bool_decide_false _ Hn). cbn [negb andb].
  destruct (bool_decide (pod_Phase p = PodSucceeded)), (bool_decide (pod_Phase p = PodFailed));
    cbn [orb negb]; rewrite ?andb_false_r, ?andb_true_r;
    try by rewrite Z.add_0_r, wrap64_id.
  case_bool_decide as Hk.
  - subst k. rewrite lookup_insert_eq. change (default ∅ (Some ?x)) with x.
    by rewrite containers_usage_get.
  - rewrite lookup_insert_ne by done. by rewrite Z.add_0_r, wrap64_id.
Qed.

Lemma usage_of_get podList k res :
  (default ∅ (usage_of podList !! k))⟦res⟧ = wrap64 (used_on podList k res).
Proof.
  unfold usage_of, used_on.
  assert (∀ usage, in_int64 ((default ∅ (usage !! k))⟦res⟧) →
    (default ∅ (foldl pod_usage usage podList !! k))⟦res⟧ =
    wrap64 ((default ∅ (usage !! k))⟦res⟧ +
      sum_list_Z ((λ p, if active_on k p then requested p res else 0) <$> podList))) as H.
  { induction podList as [|p podList IH]; intros usage Hu.
    - cbn. by rewrite Z.add_0_r, wrap64_id.
    - rewrite fmap_cons. cbn [foldl sum_list_Z].
      rewrite IH; rewrite pod_usage_get by done; [|auto with int64].
      rewrite wrap64_add_l. f_equal. lia. }
  rewrite H by (rewrite lookup_empty; done). by rewrite lookup_empty.
Qed.

Lemma with_usage_lookup l usage k :
  nodes (with_usage l usage) !! k =
    match usage !! k with
    | Some u => (λ n, set_used n u) <$> nodes l !! k
    | None => nodes l !! k
    end ∧
  inflight (with_usage l usage) = inflight l.
Proof.
  unfold with_usage. split.
  - apply (foldl_keyed_range (λ l k, nodes l !! k) _ (λ _ u x, (λ n, set_used n u) <$> x)).
    + intros l' k' u k1 Hne. unfold UpdateUsage. destruct (nodes l' !! k'); [|done].
      cbn. by rewrite lookup_insert_ne.
    + intros l' k' u. unfold UpdateUsage. destruct (nodes l' !! k') eqn:E; [|by rewrite E].
      cbn. by rewrite lookup_insert_eq, copyMap_id.
  - generalize (range "usage" usage). intros es. revert l.
    induction es as [|[k' u] es IH]; intros l; [done|]. cbn [foldl]. rewrite IH.
    unfold UpdateUsage. by destruct (nodes l !! k').
Qed.

(** ** In-flight nodes *)

Definition inflight_entry (profile : PackingProfile) (pod : Pod) (n : InflightNode) : nodeEntry :=
  let '(alloc, ls, ts) :=
    enrich n pod (cs_NodeGroupTemplates (spec_CapacitySource (profile_Spec profile))) in
  NodeEntry alloc ∅ ∅ ls ts.

Definition key_of (profile : PackingProfile) (n : InflightNode) : string :=
  inflight_key (profile_Name profile) (in_Name n).

Lemma key_of_prefix profile n : HasPrefix (key_of profile n) (profile_prefix profile) = true.
Proof. apply HasPrefix_app. Qed.

Lemma sync_inflight_insert profile pod l n :
  sync_inflight profile pod l n =
  set_inflight l (<[key_of profile n := inflight_entry profile pod n]> (inflight l)).
Proof.
  unfold sync_inflight, inflight_entry. destruct (enrich _ _ _) as [[alloc ls] ts].
  unfold AddInflightNode. by rewrite copyMap_id, copyStringMap_id.
Qed.

Lemma inflight_entry_reserved profile pod n : reserved (inflight_entry profile pod n) = ∅.
Proof. unfold inflight_entry. by destruct (enrich _ _ _) as [[??]?]. Qed.

Lemma sync_inflights_lookup profile pod found l :
  nodes (foldl (sync_inflight profile pod) l found) = nodes l ∧
  (∀ k, (∀ n, n ∈ found → k ≠ key_of profile n) →
     inflight (foldl (sync_inflight profile pod) l found) !! k = inflight l !! k) ∧
  (NoDup (in_Name <$> found) → ∀ n, n ∈ found →
     inflight (foldl (sync_inflight profile pod) l found) !! key_of profile n =
     Some (inflight_entry profile pod n)).
Proof.
  revert l. induction found as [|n found IH]; intros l.
  { split_and!; [done..|]. by intros _ n ?%not_elem_of_nil. }
  cbn [foldl]. rewrite sync_inflight_insert.
  destruct (IH (set_inflight l (<[key_of profile n := inflight_entry profile pod n]> (inflight l))))
    as (IHn & IHo & IHi).
  split_and!.
  - by rewrite IHn.
  - intros k Hk. rewrite IHo by (intros; apply Hk; by right). cbn [inflight set_inflight].
    apply lookup_insert_ne. intros E. by apply (Hk n); [left|].
  - rewrite fmap_cons. intros [Hnotin Hnd]%NoDup_cons m [->|Hm]%elem_of_cons; [|by apply IHi].
    rewrite IHo; [by apply lookup_insert_eq|]. intros m Hm E%inflight_key_inj.
    apply Hnotin. rewrite E. by apply list_elem_of_fmap_2.
Qed.

(** ** The rebuilt ledger *)

Definition rebuilt_node (podList : list Pod) (l : NodeLedger) (node : Node) : nodeEntry :=
  NodeEntry (MilliValue <$> node_Allocatable node)
    (default ∅ (usage_of podList !! node_Name node)) (reserved_at l (node_Name node))
    (node_Labels node) (node_Taints node).

Lemma cleared_lookup profile l k :
  inflight (cleared profile l) !! k =
  if HasPrefix k (profile_prefix profile) then None else inflight l !! k.
Proof. apply (ClearInflightByPrefix_lookup (ClearNodes l)). Qed.

(** Before the reservations are put back. *)
Lemma unreserved_lookup profile pod l nodeList podList found :
  NoDup (node_Name <$> nodeList) →
  let l3 := foldl (sync_inflight profile pod)
    (with_usage (foldl (sync_node profile) (cleared profile l) nodeList) (usage_of podList))
    found in
  (∀ k, nodes l3 !! k =
    (λ node, set_used (fresh_entry node) (default ∅ (usage_of podList !! node_Name node)))
      <$> find_node profile nodeList k) ∧
  (∀ k, (∀ n, n ∈ found → k ≠ key_of profile n) →
    inflight l3 !! k = if HasPrefix k (profile_prefix profile) then None else inflight l !! k) ∧
  (NoDup (in_Name <$> found) → ∀ n, n ∈ found →
    inflight l3 !! key_of profile n = Some (inflight_entry profile pod n)).
Proof.
  intros Hnd l3. unfold l3. clear l3.
  set (l1 := foldl (sync_node profile) (cleared profile l) nodeList).
  set (l2 := with_usage l1 (usage_of podList)).
  destruct (sync_nodes_cases profile nodeList (cleared profile l)) as [Hi Hn].
  { intros k Hk. by rewrite cleared_lookup, Hk. }
  destruct (sync_inflights_lookup profile pod found l2) as (Hn3 & Ho3 & Hi3).
  split_and!; [| |done].
  - intros k. rewrite Hn3. unfold l2.
    rewrite (proj1 (with_usage_lookup l1 (usage_of podList) k)). unfold l1. rewrite Hn by done.
    destruct (find_node profile nodeList k) as [node|] eqn:E.
    + apply find_node_Some in E as (_ & <- & _). cbn.
      by destruct (usage_of podList !! node_Name node).
    + by destruct (usage_of podList !! k).
  - intros k Hk. rewrite Ho3 by done. unfold l2.
    rewrite (proj2 (with_usage_lookup l1 (usage_of podList) k)). unfold l1.
    by rewrite Hi, cleared_lookup.
Qed.

Lemma rebuilt_lookup profile pod l nodeList podList found :
  nodes l ##ₘ inflight l → NoDup (node_Name <$> nodeList) →
  let l' := rebuilt profile pod l nodeList podList found in
  (∀ k, nodes l' !! k = rebuilt_node podList l <$> find_node profile nodeList k) ∧
  (NoDup (in_Name <$> found) → ∀ n, n ∈ found →
    inflight l' !! key_of profile n =
    Some (set_reserved (inflight_entry profile pod n) (reserved_at l (key_of profile n)))) ∧
  (∀ k, (∀ n, n ∈ found → k ≠ key_of profile n) →
    inflight l' !! k = if HasPrefix k (profile_prefix profile) then None else inflight l !! k).
Proof.
  intros Hd Hnd l'. unfold l', rebuilt.
  destruct (unreserved_lookup profile pod l nodeList podList found Hnd) as (Hn & Ho & Hi).
  set (l3 := foldl (sync_inflight profile pod) _ found) in *.
  split_and!.
  - intros k. specialize (Hn k). destruct (find_node profile nodeList k) as [node|] eqn:E.
    + apply find_node_Some in E as (_ & <- & _).
      by apply (restore_snapshot l l3 false _ _ Hd Hn); left.
    + by apply (restore_snapshot_dropped l l3 false).
  - intros Hf n Hin. apply (restore_snapshot l l3 true _ _ Hd (Hi Hf n Hin)).
    left. apply inflight_entry_reserved.
  - intros k Hk. specialize (Ho k Hk).
    destruct (HasPrefix k (profile_prefix profile)).
    { by apply (restore_snapshot_dropped l l3 true). }
    destruct (inflight l !! k) as [n|] eqn:E.
    + assert (reserved_at l k = reserved n) as Hr.
      { unfold reserved_at. by rewrite (findEntry_of_side l true k n Hd E). }
      rewrite <- (set_reserved_id n (reserved_at l k)) by done.
      by apply (restore_snapshot l l3 true _ _ Hd Ho); right.
    + by apply (restore_snapshot_dropped l l3 true).
Qed.
End rebuild.

(** ** Well-formed ledgers

    The controller's ledgers keep node names and in-flight keys apart: an
    in-flight key holds a slash, a node's name does not. *)

Definition ledger_ok (l : NodeLedger) : Prop :=
  (∀ k n, nodes l !! k = Some n → object_name k = true ∧ k ≠ "") ∧
  (∀ k n, inflight l !! k = Some n → ∃ p name, k = inflight_key p name).

Lemma inflight_key_slash p name : object_name (inflight_key p name) = false.
Proof.
  unfold object_name, inflight_key. rewrite !all_chars_app. cbn [all_chars].
  rewrite andb_false_r. done.
Qed.

Lemma ledger_ok_wf l : ledger_ok l → ledger_wf l.
Proof.
  intros [Hn Hi]. split; [split|].
  - destruct (nodes l !! "") as [n|] eqn:E; [|done]. by destruct (Hn _ _ E).
  - destruct (inflight l !! "") as [n|] eqn:E; [|done].
    destruct (Hi _ _ E) as (p & name & Hk). by destruct (inflight_key_nonempty p name).
  - apply map_disjoint_spec. intros k n1 n2 H1 H2.
    destruct (Hn _ _ H1) as [Hk _], (Hi _ _ H2) as (p & name & ->).
    by rewrite inflight_key_slash in Hk.
Qed.

Lemma ledger_ok_New : ledger_ok New.
Proof. split; intros k n; cbn; by rewrite lookup_empty. Qed.

Lemma ledger_ok_reserve_at l name demand : ledger_ok l → ledger_ok (reserve_at l name demand).
Proof.
  intros [Hn Hi]. unfold reserve_at. destruct (findEntry l name) as [n|] eqn:E; [|done].
  split; intros k n'; rewrite ?writeEntry_nodes, ?writeEntry_inflight; case_decide as Hk.
  - intros [n0 [H0 _]]%fmap_Some. by eapply Hn.
  - apply Hn.
  - intros _. destruct Hk as [-> Hk]. unfold findEntry in E. rewrite Hk in E. by eapply Hi.
  - apply Hi.
Qed.

Section rebuilds.
Context {K : Kube} {O : MapOrder}.

(** Node names are object names. *)
Definition nodes_named (nodeList : list Node) : Prop :=
  Forall (λ node, object_name (node_Name node) = true ∧ node_Name node ≠ "") nodeList.

(** The entries of a partial rebuild come from the list or, in flight, from
    before. *)
Lemma ledger_ok_cleared profile l : ledger_ok l → ledger_ok (cleared profile l).
Proof.
  intros [_ Hi]. split; intros k n.
  - unfold cleared. cbn. by rewrite lookup_empty.
  - rewrite cleared_lookup. destruct (HasPrefix _ _); [done|]. apply Hi.
Qed.

Lemma ledger_ok_nodes profile nodeList l :
  nodes_named nodeList → ledger_ok l → ledger_ok (foldl (sync_node profile) l nodeList).
Proof.
  intros Hn. revert l. induction Hn as [|node nodeList Hnode _ IH]; intros l Hl; [done|].
  cbn [foldl]. apply IH. unfold sync_node.
  destruct (node_DeletionTimestamp node); [done|].
  destruct (bool_decide (ds_Type _ = _) && _); [done|]. destruct Hl as [Hl Hi].
  assert (∀ m, (∀ k n, m !! k = Some n → ∃ n0, inflight l !! k = Some n0) →
    ledger_ok (MkLedger (<[node_Name node := NodeEntry
      (copyMap (milli_alloc ("alloc/" +:+ node_Name node) (node_Allocatable node))) ∅ ∅
      (copyStringMap (node_Labels node)) (node_Taints node)]> (nodes l)) m)) as Hm.
  { intros m Hm. split; intros k n; cbn.
    - rewrite lookup_insert. case_decide; [by intros _; subst|apply Hl].
    - intros [n0 H0]%Hm. by eapply Hi. }
  case_bool_decide; cbn [negb]; apply Hm; [by eauto|].
  intros k n [_ H0]%lookup_delete_Some. by eauto.
Qed.

Lemma ledger_ok_lookup l l' :
  (∀ k n, nodes l' !! k = Some n → ∃ n0, nodes l !! k = Some n0) →
  (∀ k n, inflight l' !! k = Some n → ∃ n0, inflight l !! k = Some n0) →
  ledger_ok l → ledger_ok l'.
Proof. intros Hn Hi [H1 H2]. split; intros k n [n0 H0]%Hn || intros k n [n0 H0]%Hi; eauto. Qed.

Lemma ledger_ok_rebuilt profile pod l nodeList podList found :
  nodes_named nodeList → ledger_ok l → ledger_ok (rebuilt profile pod l nodeList podList found).
Proof.
  intros Hn Hl. unfold rebuilt.
  set (l1 := foldl (sync_node profile) (cleared profile l) nodeList).
  assert (ledger_ok l1) as H1 by (apply ledger_ok_nodes; [done|by apply ledger_ok_cleared]).
  set (l2 := with_usage l1 (usage_of podList)).
  assert (ledger_ok l2) as H2.
  { eapply ledger_ok_lookup; [| |exact H1]; intros k n; unfold l2;
      rewrite ?(proj2 (with_usage_lookup l1 (usage_of podList) k)); [|by eauto].
    rewrite (proj1 (with_usage_lookup l1 (usage_of podList) k)).
    destruct (usage_of podList !! k); [|by eauto].
    intros [n0 [H0 _]]%fmap_Some. by eauto. }
  set (l3 := foldl (sync_inflight profile pod) l2 found).
  assert (ledger_ok l3) as H3.
  { unfold l3. clearbody l2. clear l3 l1 H1. revert l2 H2.
    induction found as [|n found IH]; intros l2 H2; [done|]. cbn [foldl]. apply IH.
    rewrite sync_inflight_insert. destruct H2 as [Hn2 Hi2]. split; [apply Hn2|].
    intros k m. cbn. rewrite lookup_insert. case_decide; [|apply Hi2].
    intros _. subst. by eexists _, _. }
  eapply ledger_ok_lookup; [| |exact H3]; intros k n;
    destruct (RestoreReservations_lookup l3 (SnapshotReservations l) k) as [E1 E2];
    rewrite ?E1, ?E2; destruct (SnapshotReservations l !! k); try by eauto;
    intros [n0 [H0 _]]%fmap_Some; by eauto.
Qed.

(** Whatever the cluster answers, the ledger stays well formed. *)
Lemma ledger_ok_sync env profile pod r :
  (∀ nodeList, env_ListNodes env = Ok nodeList → nodes_named nodeList) →
  ledger_ok (r_Ledger r) → ledger_ok (r_Ledger (syncLedger env profile pod r).1.1).
Proof.
  intros Hn Hl. rewrite syncLedger_run.
  destruct (env_ListNodes env) as [nodeList|]; [|by apply ledger_ok_cleared].
  specialize (Hn nodeList eq_refl). destruct (env_ListPods env) as [podList|].
  - destruct (detect_chain _ _ _) as [[ds es] [found active]]. by apply ledger_ok_rebuilt.
  - apply ledger_ok_nodes; [done|]. by apply ledger_ok_cleared.
Qed.

(** A name that holds no entry has nothing reserved. *)
Lemma reserved_at_None l k :
  ledger_ok l → object_name k = true → nodes l !! k = None → reserved_at l k = ∅.
Proof.
  intros [_ Hi] Hk Hn. unfold reserved_at, findEntry. rewrite Hn.
  destruct (inflight l !! k) as [n|] eqn:E; [|done].
  destruct (Hi _ _ E) as (p & name & ->). by rewrite inflight_key_slash in Hk.
Qed.
End rebuilds.

(** ** Properties *)

Section properties.
Context {K : Kube} {O : MapOrder}.

(** The rebuild asks a profile for its name, its demand source and its
    templates.  The type of its capacity source, the label and the device count
    of type [NodeLabel] and the list of resources play no part: capacity is
    always what the node has allocatable. *)
Lemma capacity_source_ignored env p q pod r :
  profile_Name p = profile_Name q →
  spec_DemandSource (profile_Spec p) = spec_DemandSource (profile_Spec q) →
  cs_NodeGroupTemplates (spec_CapacitySource (profile_Spec p)) =
    cs_NodeGroupTemplates (spec_CapacitySource (profile_Spec q)) →
  syncLedger env p pod r = syncLedger env q pod r.
Proof.
  intros Hn Hd Ht. rewrite !syncLedger_run.
  assert (sync_node p = sync_node q) as Hs by (unfold sync_node; by rewrite Hn, Hd).
  assert (sync_inflight p pod = sync_inflight q pod) as Hi
    by (unfold sync_inflight; by rewrite Hn, Ht).
  unfold rebuilt, ledger_metrics, cleared, profile_prefix. by rewrite Hs, Hi, Hn.
Qed.

(** C7: a successful rebuild, whatever type the profile's capacity source has.
    When nodes and pods can be listed and names are unique, the existing part of the ledger holds exactly the listed nodes
    that are not being deleted and have the named resources, each with its
    allocatable amounts, its labels and taints, and the reservations its name
    had before; what is available there is the allocatable amount less the
    requests of the unfinished pods on the node and less those reservations.
    The detected nodes are in flight under the profile's prefix, completed
    from the templates, with the reservations of their key; the profile has
    no other in-flight entry, and those of other profiles are as before. *)
Theorem syncLedger_rebuilds env profile pod r nodeList podList ds es found active :
  ledger_ok (r_Ledger r) →
  env_ListNodes env = Ok nodeList → NoDup (node_Name <$> nodeList) →
  env_ListPods env = Ok podList →
  detect_chain (r_Detectors r) (reader_of env r) (env_now env) = (ds, es, (found, active)) →
  NoDup (in_Name <$> found) →
  let '(r', _, err) := syncLedger env profile pod r in
  let l := r_Ledger r in let l' := r_Ledger r' in
  err = None ∧ r_Detectors r' = ds ∧
  (∀ k, nodes l' !! k = rebuilt_node podList l <$> find_node profile nodeList k) ∧
  (∀ k node res, find_node profile nodeList k = Some node →
     ledger_avail l' k res =
     wrap64 ((MilliValue <$> node_Allocatable node)⟦res⟧ - used_on podList k res
             - (reserved_at l k)⟦res⟧)) ∧
  (∀ n, n ∈ found → inflight l' !! key_of profile n =
     Some (set_reserved (inflight_entry profile pod n) (reserved_at l (key_of profile n)))) ∧
  (∀ k, (∀ n, n ∈ found → k ≠ key_of profile n) →
     inflight l' !! k = if HasPrefix k (profile_prefix profile) then None
                        else inflight l !! k).
Proof.
  intros Hl Hnodes Hnd Hpods Hdet Hnf. rewrite syncLedger_run, Hnodes, Hpods, Hdet.
  cbn [r_Ledger r_Detectors].
  destruct (rebuilt_lookup profile pod (r_Ledger r) nodeList podList found
    (proj2 (ledger_ok_wf _ Hl)) Hnd) as (Hn & Hi & Ho).
  split_and!; [done|done|done| |by apply Hi|done].
  intros k node res Hf. unfold ledger_avail, findEntry. rewrite Hn, Hf. cbn [fmap option_fmap option_map].
  rewrite available_wrap. cbn [rebuilt_node allocatable used reserved].
  apply find_node_Some in Hf as (_ & <- & _). rewrite usage_of_get.
  match goal with |- wrap64 (?a - ?w - ?b) = _ => replace (a - w - b) with (a - b - w) by lia end.
  rewrite wrap64_sub_r. f_equal. lia.
Qed.

(** C37: what a cycle leaves out is forgotten.  When the nodes cannot be
    listed, or a profile's resource filter drops a node, or the node is not
    listed, nothing is reserved under its name any more: in the next
    successful rebuild, by whatever profile, the node is back with its
    capacity but without the reservations it had. *)
Theorem left_out_reservations_lost env1 env2 p1 p2 pod1 pod2 r nodeList podList k node :
  ledger_ok (r_Ledger r) → object_name k = true →
  (∀ ns, env_ListNodes env1 = Ok ns →
     nodes_named ns ∧ NoDup (node_Name <$> ns) ∧ is_Ok (env_ListPods env1) = true ∧
     find_node p1 ns k = None) →
  env_ListNodes env2 = Ok nodeList → NoDup (node_Name <$> nodeList) →
  env_ListPods env2 = Ok podList → find_node p2 nodeList k = Some node →
  let r1 := (syncLedger env1 p1 pod1 r).1.1 in
  let r2 := (syncLedger env2 p2 pod2 r1).1.1 in
  nodes (r_Ledger r1) !! k = None ∧
  ∃ n, nodes (r_Ledger r2) !! k = Some n ∧ reserved n = ∅ ∧
    allocatable n = MilliValue <$> node_Allocatable node.
Proof.
  intros Hl Hk H1 Hn2 Hnd2 Hp2 Hf2 r1 r2.
  assert (ledger_ok (r_Ledger r1)) as Hok1.
  { apply ledger_ok_sync; [|done]. intros ns Hns. by apply H1. }
  assert (nodes (r_Ledger r1) !! k = None) as Hnone.
  { unfold r1. rewrite syncLedger_run. destruct (env_ListNodes env1) as [ns|] eqn:E1.
    - destruct (H1 ns eq_refl) as (_ & Hnd & Hok & Hf).
      destruct (env_ListPods env1) as [podList1|]; [|done].
      destruct (detect_chain _ _ _) as [[ds es] [found active]]. cbn [r_Ledger].
      pose proof (proj1 (rebuilt_lookup p1 pod1 (r_Ledger r) ns podList1 found
        (proj2 (ledger_ok_wf _ Hl)) Hnd) k) as Hr. by rewrite Hf in Hr.
    - cbn. apply lookup_empty. }
  split; [done|]. exists (rebuilt_node podList (r_Ledger r1) node).
  unfold r2. rewrite syncLedger_run, Hn2, Hp2.
  destruct (detect_chain _ _ _) as [[ds es] [found active]]. cbn [fst r_Ledger].
  rewrite (proj1 (rebuilt_lookup p2 pod2 (r_Ledger r1) nodeList podList found
    (proj2 (ledger_ok_wf _ Hok1)) Hnd2)), Hf2.
  split_and!; [done| |done]. cbn [rebuilt_node reserved].
  apply find_node_Some in Hf2 as (_ & -> & _). by apply reserved_at_None.
Qed.

(** A node that has arrived still counts as in flight.  When a listed node
    carries the task label of a detected node, a successful rebuild has both
    the node and the in-flight entry: the removal of that entry runs before
    the detected nodes are added, and on a ledger where the profile has no
    in-flight entry left. *)
Theorem arrived_node_counted_twice env profile pod r nodeList podList ds es found active node n :
  ledger_ok (r_Ledger r) →
  env_ListNodes env = Ok nodeList → NoDup (node_Name <$> nodeList) →
  env_ListPods env = Ok podList →
  detect_chain (r_Detectors r) (reader_of env r) (env_now env) = (ds, es, (found, active)) →
  NoDup (in_Name <$> found) → n ∈ found →
  find_node profile nodeList (node_Name node) = Some node →
  sget (node_Labels node) taskIDLabel = in_Name n →
  let l' := r_Ledger (syncLedger env profile pod r).1.1 in
  is_Some (nodes l' !! node_Name node) ∧ is_Some (inflight l' !! key_of profile n).
Proof.
  intros Hl Hnodes Hnd Hpods Hdet Hnf Hin Hfind _ l'. unfold l'.
  rewrite syncLedger_run, Hnodes, Hpods, Hdet. cbn [fst r_Ledger].
  destruct (rebuilt_lookup profile pod (r_Ledger r) nodeList podList found
    (proj2 (ledger_ok_wf _ Hl)) Hnd) as (Hn & Hi & _).
  rewrite Hn, Hfind, (Hi Hnf n Hin). by split.
Qed.

(** An in-flight node counts once for every profile.  When two profiles'
    rebuilds follow each other and detect the same node, the ledger holds it
    under both profiles' keys, the first entry untouched by the second rebuild;
    a search sees both, and so the capacity of one arriving node twice. *)
Theorem inflight_counted_per_profile env1 env2 p1 p2 pod1 pod2 r n
    ns1 ps1 ds1 es1 found1 a1 ns2 ps2 ds2 es2 found2 a2 :
  ledger_ok (r_Ledger r) → object_name (profile_Name p1) = true →
  object_name (profile_Name p2) = true → profile_Name p1 ≠ profile_Name p2 →
  nodes_named ns1 →
  env_ListNodes env1 = Ok ns1 → NoDup (node_Name <$> ns1) → env_ListPods env1 = Ok ps1 →
  detect_chain (r_Detectors r) (reader_of env1 r) (env_now env1) = (ds1, es1, (found1, a1)) →
  NoDup (in_Name <$> found1) → n ∈ found1 →
  let r1 := (syncLedger env1 p1 pod1 r).1.1 in
  env_ListNodes env2 = Ok ns2 → NoDup (node_Name <$> ns2) → env_ListPods env2 = Ok ps2 →
  detect_chain (r_Detectors r1) (reader_of env2 r1) (env_now env2) = (ds2, es2, (found2, a2)) →
  NoDup (in_Name <$> found2) → n ∈ found2 →
  let l2 := r_Ledger (syncLedger env2 p2 pod2 r1).1.1 in
  key_of p1 n ≠ key_of p2 n ∧
  inflight l2 !! key_of p1 n = inflight (r_Ledger r1) !! key_of p1 n ∧
  is_Some (inflight l2 !! key_of p1 n) ∧ is_Some (inflight l2 !! key_of p2 n).
Proof.
  intros Hl Hn1 Hn2 Hne Hnamed Hnodes1 Hnd1 Hpods1 Hdet1 Hf1 Hin1 r1 Hnodes2 Hnd2 Hpods2 Hdet2
    Hf2 Hin2 l2.
  assert (ledger_ok (r_Ledger r1)) as Hok1.
  { apply ledger_ok_sync; [|done]. intros ns Hns. congruence. }
  assert (∀ m, HasPrefix (key_of p1 m) (profile_prefix p2) = false) as Hpre.
  { intros m. unfold key_of, profile_prefix. rewrite inflight_key_owner by done.
    by apply bool_decide_eq_false. }
  assert (∀ m, key_of p1 n ≠ key_of p2 m) as Hkeys.
  { intros m E. pose proof (Hpre n) as Hx. by rewrite E, key_of_prefix in Hx. }
  assert (is_Some (inflight (r_Ledger r1) !! key_of p1 n)) as Hs1.
  { unfold r1. rewrite syncLedger_run, Hnodes1, Hpods1, Hdet1. cbn [fst r_Ledger].
    destruct (rebuilt_lookup p1 pod1 (r_Ledger r) ns1 ps1 found1
      (proj2 (ledger_ok_wf _ Hl)) Hnd1) as (_ & Hi & _).
    rewrite (Hi Hf1 n Hin1). by eexists. }
  destruct (rebuilt_lookup p2 pod2 (r_Ledger r1) ns2 ps2 found2
    (proj2 (ledger_ok_wf _ Hok1)) Hnd2) as (_ & Hi & Ho).
  assert (l2 = rebuilt p2 pod2 (r_Ledger r1) ns2 ps2 found2) as ->.
  { unfold l2. by rewrite syncLedger_run, Hnodes2, Hpods2, Hdet2. }
  assert (inflight (rebuilt p2 pod2 (r_Ledger r1) ns2 ps2 found2) !! key_of p1 n =
    inflight (r_Ledger r1) !! key_of p1 n) as Hsame.
  { rewrite Ho by (intros m _; apply Hkeys). by rewrite Hpre. }
  split; [apply Hkeys|]. split; [done|]. rewrite Hsame. split; [done|].
  rewrite (Hi Hf2 n Hin2). by eexists.
Qed.

(** The detectors' chain of priority.  Either every detector fails or
    finds nothing, and then nothing is in flight; or the nodes are those of
    the first detector that finds any, under its name, and the ones before it
    failed or found nothing.  The chain keeps the detectors' names and
    order. *)
Theorem detect_chain_first ds reader now :
  let '(ds', _, (found, active)) := detect_chain ds reader now in
  let quiet := λ d, ∀ nodes, (Detector_Detect d reader now).2 = Ok nodes → nodes = [] in
  (Forall quiet ds ∧ found = [] ∧ active = "" ∨
   ∃ l1 d l2, ds = l1 ++ d :: l2 ∧ Forall quiet l1 ∧
     (Detector_Detect d reader now).2 = Ok found ∧ found ≠ [] ∧ active = Detector_Name d) ∧
  Detector_Name <$> ds' = Detector_Name <$> ds.
Proof.
  induction ds as [|d ds IH]; cbn [detect_chain]; [by split; [left|]|].
  assert (Detector_Name (Detector_Detect d reader now).1 = Detector_Name d) as Hname.
  { destruct d; cbn; try done. by destruct (GOATScalerDetector_Detect _ _ _). }
  destruct (Detector_Detect d reader now) as [d' [[|n nodes]|e]] eqn:E; cbn in Hname.
  2:{ split; [right|by rewrite fmap_cons, Hname].
      exists [], d, ds. rewrite E. by split_and!. }
  all: destruct (detect_chain ds reader now) as [[ds' es] [found active]];
    destruct IH as [IH Hnames]; rewrite !fmap_cons, Hnames, Hname; split; [|done];
    assert (∀ nodes, (Detector_Detect d reader now).2 = Ok nodes → nodes = []) as Hq
      by (intros nodes; rewrite E; by intros [=]);
    destruct IH as [(Hf & Hn & Ha)|(l1 & d1 & l2 & -> & Hf & Hr & Hne & Ha)];
    [left; split_and!; [by constructor|done..]|
     right; exists (d :: l1), d1, l2; split_and!; [done|by constructor|done..]].
Qed.
End properties.

(** ** Witnesses *)

(** A cluster with one node that an autoscaler event announced. *)
Definition arrived_node : Node (K := kube_milli) := {|
  node_Name := "n1"; node_Labels := Some {[taskIDLabel := "goat-1"]};
  node_CreationTimestamp := Hour; node_DeletionTimestamp := None; node_Taints := [];
  node_Allocatable := {["cpu" := 4000 : Quantity (Kube := kube_milli)]};
  node_Conditions := [] |}.

Definition example_env (nodeList : result (list (Node (K := kube_milli)))) : Env (K := kube_milli) := {|
  env_GetPod := Ok (example_pod 500);
  env_GetProfile _ := Ok example_profile;
  env_ListNodes := nodeList;
  env_ListPods := Ok [];
  env_ListPodsByProfile _ := Ok [];
  env_Reader _ := example_reader example_events;
  env_Patch _ _ := None;
  env_UpdateStatus _ := None;
  env_now _ _ := 2 * Hour |}.

Definition example_reconciler (l : NodeLedger) : Reconciler (K := kube_milli) := {|
  r_APIReader := None;
  r_Ledger := l;
  r_Detectors := [DetectorNotReady; DetectorGOATScaler example_detector];
  r_activeDetectors := [] |}.

Definition example_found : list InflightNode :=
  [{| in_Name := "goat-1"; in_Allocatable := ∅; in_Labels := None; in_InstanceType := "t";
      in_DetectedAt := Hour * 2 |}].

(** The events of the example are two hours old at most; fifteen minutes are
    allowed, so the first announcement does not count. *)
Definition example_chain :=
  Eval vm_compute in @detect_chain kube_milli order_forward
    (r_Detectors (example_reconciler New))
    (reader_of (example_env (Ok [arrived_node])) (example_reconciler New))
    (env_now (example_env (Ok [arrived_node]))).

Lemma example_chain_eq :
  @detect_chain kube_milli order_forward (r_Detectors (example_reconciler New))
    (reader_of (example_env (Ok [arrived_node])) (example_reconciler New))
    (env_now (example_env (Ok [arrived_node]))) =
  (example_chain.1.1, example_chain.1.2, (example_found, "goatscaler")).
Proof. vm_cast_no_check (@eq_refl _ example_chain). Qed.

Lemma example_found_NoDup : NoDup (in_Name <$> example_found).
Proof. decide_true. Qed.

Lemma arrived_NoDup : NoDup (node_Name <$> [arrived_node]).
Proof. decide_true. Qed.

Lemma find_arrived : find_node example_profile [arrived_node] "n1" = Some arrived_node.
Proof. reflexivity. Qed.

Lemma syncLedger_rebuilds_witness :
  find_node example_profile [arrived_node] "n1" = Some arrived_node ∧
  (syncLedger (O := order_forward) (example_env (Ok [arrived_node])) example_profile
    (example_pod 500) (example_reconciler New)).2 = None.
Proof.
  split; [exact find_arrived|].
  pose proof (syncLedger_rebuilds (O := order_forward) (example_env (Ok [arrived_node]))
    example_profile (example_pod 500) (example_reconciler New) [arrived_node] [] _ _ _ _
    ledger_ok_New eq_refl arrived_NoDup eq_refl example_chain_eq example_found_NoDup) as H.
  cbv zeta in H. destruct (syncLedger _ _ _ _) as [[r' es] err]. exact (proj1 H).
Defined.

Lemma arrived_node_counted_twice_witness :
  let l' := r_Ledger (syncLedger (O := order_forward) (example_env (Ok [arrived_node]))
    example_profile (example_pod 500) (example_reconciler New)).1.1 in
  is_Some (nodes l' !! "n1") ∧ is_Some (inflight l' !! "p/goat-1").
Proof.
  refine (arrived_node_counted_twice (O := order_forward) (example_env (Ok [arrived_node]))
    example_profile (example_pod 500) (example_reconciler New) [arrived_node] [] _ _ _ _
    arrived_node (hd (pending_node "" 0) example_found) ledger_ok_New eq_refl arrived_NoDup eq_refl example_chain_eq
    example_found_NoDup _ find_arrived _).
  - left.
  - reflexivity.
Defined.

(** A ledger with a reservation on the node, of which a failed list of the
    nodes leaves nothing. *)
Definition reserved_ledger : NodeLedger :=
  MkLedger {["n1" := NodeEntry {["cpu" := 4000]} ∅ {["cpu" := 500]} None []]} ∅.

Lemma left_out_reservations_lost_witness :
  reserved_at reserved_ledger "n1" = {["cpu" := 500]} ∧
  nodes (r_Ledger (syncLedger (O := order_forward) (example_env (Err (errors_New "timeout")))
    example_profile (example_pod 500) (example_reconciler reserved_ledger)).1.1) !! "n1" = None.
Proof.
  split; [reflexivity|].
  refine (proj1 (left_out_reservations_lost (O := order_forward)
    (example_env (Err (errors_New "timeout"))) (example_env (Ok [arrived_node]))
    example_profile example_profile (example_pod 500) (example_pod 500)
    (example_reconciler reserved_ledger) [arrived_node] [] "n1" arrived_node
    _ eq_refl _ eq_refl arrived_NoDup eq_refl find_arrived)).
  - split; intros k n.
    + cbn. intros [<- _]%lookup_singleton_Some. by split.
    + cbn. by rewrite lookup_empty.
  - intros ns. discriminate.
Defined.

Definition second_profile : PackingProfile := {|
  profile_Name := "q";
  profile_Spec := profile_Spec example_profile;
  profile_Status := profile_Status example_profile |}.

Lemma inflight_counted_per_profile_witness :
  let r1 := (syncLedger (O := order_forward) (example_env (Ok [arrived_node])) example_profile
    (example_pod 500) (example_reconciler New)).1.1 in
  let l2 := r_Ledger (syncLedger (O := order_forward) (example_env (Ok [arrived_node]))
    second_profile (example_pod 500) r1).1.1 in
  is_Some (inflight l2 !! "p/goat-1") ∧ is_Some (inflight l2 !! "q/goat-1").
Proof.
  intros r1 l2.
  assert (@detect_chain kube_milli order_forward (r_Detectors r1)
      (reader_of (example_env (Ok [arrived_node])) r1)
      (env_now (example_env (Ok [arrived_node]))) =
    (example_chain.1.1, example_chain.1.2, (example_found, "goatscaler"))) as Hdet2
    by (vm_cast_no_check (@eq_refl _ example_chain)).
  refine (proj2 (proj2 (inflight_counted_per_profile (O := order_forward)
    (example_env (Ok [arrived_node])) (example_env (Ok [arrived_node])) example_profile
    second_profile (example_pod 500) (example_pod 500) (example_reconciler New)
    (hd (pending_node "" 0) example_found) [arrived_node] [] _ _ _ _ [arrived_node] [] _ _ _ _
    ledger_ok_New eq_refl eq_refl _ _ eq_refl arrived_NoDup eq_refl example_chain_eq
    example_found_NoDup _ eq_refl arrived_NoDup eq_refl Hdet2 example_found_NoDup _))).
  - discriminate.
  - repeat constructor. discriminate.
  - left.
  - left.
Defined.
