(* ===== verification/Reconcile.v ===== *)
(** * Reconciliation

    [Reconcile] of [internal/controller/packingprofile_controller.go] and what
    it calls: the checks on the pod and its profile, the rebuild of the ledger,
    the reasons for a release, the loop over the profile's rules, the write to
    the pod, and the status update that runs when the body returns. *)

From stdpp Require Import relations.
From S2P Require Import Prelude GoStrings GoTime Kube Scheduling Ledger LedgerFit Reservations.
From S2P Require Import Rules Inflight Templates Status Release Sync Rebuild.

Section reconcile.
Context {K : Kube} {O : MapOrder}.

Definition isTimedOut (pod : Pod) (profile : PackingProfile) (now : Clock) : bool :=
  if IsZero (pod_CreationTimestamp pod) then false
  else
    let timeout := match ParseDuration (spec_ReservationTimeout (profile_Spec profile)) with
                   | Some d => d
                   | None => 3 * Minute
                   end in
    timeout <? time_Sub (now "isTimedOut" 0%nat) (pod_CreationTimestamp pod).

Definition recordRelease (env : Env) (pod : Pod) (profileName reason targetNode : string) : M unit :=
  emit (MetricInc "GateReleasesTotal" [profileName; reason]);;
  (if negb (IsZero (pod_CreationTimestamp pod))
   then emit (MetricObserve "GateHoldDuration" [profileName; reason]
          (Seconds (time_Sub (env_now env "recordRelease" 0%nat) (pod_CreationTimestamp pod))))
   else mret tt);;
  let msg := "gate released, reason=" +:+ reason +:+ ", profile=" +:+ profileName in
  let msg := if negb (bool_decide (targetNode = ""))
             then msg +:+ ", targetNode=" +:+ targetNode else msg in
  emit (RecordEvent pod "GateReleased" msg).

Definition recordHold (pod : Pod) (profileName ruleName : string) : M unit :=
  emit (RecordEvent pod "GateHeld"
    ("gate held by rule " +:+ ruleName +:+ ", profile=" +:+ profileName)).

Definition releaseGatesWithAffinity (env : Env) (pod : Pod) (nodeName reason : string) :
  M (option goerror) :=
  let p := released_pod pod nodeName reason in
  emit (PatchPod pod p);;
  mret (env_Patch env pod p).

Definition releaseGates (env : Env) (pod : Pod) (reason : string) : M (option goerror) :=
  releaseGatesWithAffinity env pod "" reason.

Definition annotatePod (env : Env) (pod : Pod) (key value : string) : M (option goerror) :=
  match annotated_pod pod key value with
  | None => mret None
  | Some p => emit (PatchPod pod p);; mret (env_Patch env pod p)
  end.

(** ** Status *)

Definition set_counts (p : PackingProfile) (activeGates inflightNodes : Z)
    (activeDetectors : list string) : PackingProfile :=
  set_Status p {| st_ActiveGates := activeGates; st_InflightNodes := inflightNodes;
                  st_ActiveDetectors := activeDetectors;
                  st_Conditions := st_Conditions (profile_Status p) |}.

Definition count_gates (pods : list Pod) : Z :=
  foldl (λ activeGates pod, if hasKompaktGates pod then wrap32 (activeGates + 1)
                            else activeGates) 0 pods.

Definition updateProfileStatus (env : Env) (profile : PackingProfile) : M (option goerror) :=
  match env_ListPodsByProfile env (profile_Name profile) with
  | Err e => mret (Some e)
  | Ok podList =>
      r ← get_reconciler;
      let count := InflightCount (Snapshot (r_Ledger r)) in
      let profile := set_counts profile (count_gates podList) (wrap32 count)
                       (r_activeDetectors r) in
      let profile := setProfileValidCondition profile (env_now env) in
      let profile := setInflightDetectionCondition profile count (r_activeDetectors r)
                       (r_Detectors r) (env_now env) in
      let profile := setReadyCondition profile (env_now env) in
      emit (UpdateStatus profile);;
      mret (env_UpdateStatus env profile)
  end.

(** ** The rules *)

Inductive rules_outcome :=
  | RulesError
  | RulesHold (holdingRule : string)
  | RulesRelease (targetNode : string).

Definition evaluate_rule (rule : Rule) (i : nat) (pod : Pod) (profile : PackingProfile) :
  M verdict := λ r,
  let '(v, l) := rule_Evaluate rule (sub_order O ("rule/" +:+ pretty (Z.of_nat i))) pod
                   (r_Ledger r) profile in
  (set_Ledger r l, [], v).

(** The loop over the profile's rules, from the [i]-th one on. *)
Fixpoint run_rules (env : Env) (pod : Pod) (profile : PackingProfile) (profileName : string)
    (i : nat) (refs : list RuleRef) (targetNode : string) : M rules_outcome :=
  match refs with
  | [] => mret (RulesRelease targetNode)
  | ref :: refs =>
      let name := ruleref_Name ref in
      match Registry !! name with
      | None => run_rules env pod profile profileName (S i) refs targetNode
      | Some rule =>
          v ← evaluate_rule rule i pod profile;
          emit (MetricObserve "RuleEvaluationDuration" [name]
            (Seconds (time_Sub (env_now env "evalEnd" i) (env_now env "evalStart" i))));;
          match v_err v with
          | Some _ =>
              emit (MetricInc "RuleEvaluationsTotal" [name; "error"]);;
              mret RulesError
          | None =>
              if v_release v then
                emit (MetricInc "RuleEvaluationsTotal" [name; "release"]);;
                run_rules env pod profile profileName (S i) refs
                  (if negb (bool_decide (v_nodeName v = "")) then v_nodeName v else targetNode)
              else
                emit (MetricInc "RuleEvaluationsTotal" [name; "hold"]);;
                recordHold pod profileName name;;
                mret (RulesHold name)
          end
      end
  end.

(** ** Reconcile

    The result is the requeue delay, 0 for none, and the error. *)

Definition ctrl_result : Type := Z * option goerror.

(** The part that the deferred status update follows, with the error of the
    rebuild. *)
Definition reconcile_profile (env : Env) (pod : Pod) (profileName : string)
    (profile : PackingProfile) : M (ctrl_result * option goerror) :=
  ledgerSyncErr ← syncLedger env profile pod;
  match ledgerSyncErr with
  | Some e => mret ((Second, None), Some e)
  | None =>
      if bool_decide (sget (pod_Annotations pod) AnnotationPriority = "high") then
        recordRelease env pod profileName "priority" "";;
        err ← releaseGates env pod "priority";
        mret ((0, err), None)
      else if isTimedOut pod profile (env_now env) then
        recordRelease env pod profileName "timeout" "";;
        err ← releaseGates env pod "timeout";
        mret ((0, err), None)
      else
        outcome ← run_rules env pod profile profileName 0 (spec_Rules (profile_Spec profile)) "";
        match outcome with
        | RulesError => mret ((Second, None), None)
        | RulesHold holdingRule =>
            annotatePod env pod AnnotationHeldBy holdingRule;;
            mret ((Second, None), None)
        | RulesRelease targetNode =>
            recordRelease env pod profileName "capacity" targetNode;;
            err ← releaseGatesWithAffinity env pod targetNode "capacity";
            mret ((0, err), None)
        end
  end.

Definition Reconcile (env : Env) : M ctrl_result :=
  match env_GetPod env with
  | Err e => if err_NotFound e then mret (0, None) else mret (0, Some e)
  | Ok pod =>
      if negb (hasKompaktGates pod) then mret (0, None)
      else
        match slookup (pod_Labels pod) LabelProfile with
        | None => mret (0, None)
        | Some profileName =>
            match env_GetProfile env profileName with
            | Err e =>
                if err_NotFound e then
                  recordRelease env pod profileName "profile_not_found" "";;
                  err ← releaseGates env pod "profile_not_found";
                  mret (0, err)
                else mret (0, Some e)
            | Ok profile =>
                res ← reconcile_profile env pod profileName profile;
                let '(result, ledgerSyncErr) := res in
                let profile := setLedgerReadyCondition profile ledgerSyncErr (env_now env) in
                updateProfileStatus env profile;;
                mret result
            end
        end
  end.
End reconcile.

Section status_counts.
Context {K : Kube}.

(** The counts and the conditions are set independently. *)
Lemma setProfileValid_counts p a b c now :
  setProfileValidCondition (set_counts p a b c) now =
  set_counts (setProfileValidCondition p now) a b c.
Proof.
  unfold setProfileValidCondition.
  change (profile_issues (set_counts p a b c)) with (profile_issues p).
  by destruct (profile_issues p).
Qed.

Lemma setInflight_counts p a b c n ds all now :
  setInflightDetectionCondition (set_counts p a b c) n ds all now =
  set_counts (setInflightDetectionCondition p n ds all now) a b c.
Proof. unfold setInflightDetectionCondition. destruct all; [done|]. by destruct (0 <? n). Qed.

Lemma setReady_counts p a b c now :
  setReadyCondition (set_counts p a b c) now = set_counts (setReadyCondition p now) a b c.
Proof.
  unfold setReadyCondition.
  change (conditionIsTrue (set_counts p a b c)) with (conditionIsTrue p).
  by destruct (_ && _).
Qed.
End status_counts.
