(* ===== verification/DeepCopy.v ===== *)
(** * The generated deep copies of the API types

    [api/v1alpha1/zz_generated.deepcopy.go] on the heap: the types as they lie
    in memory, and every [DeepCopyInto], [DeepCopy] and [DeepCopyObject].  A
    cached object and its copy share nothing, so whatever is written through
    one is not seen through the other.  The metadata types and their copies
    belong to [k8s.io/apimachinery] and are parameters. *)

From S2P Require Import Prelude Kube GoHeap HeapCopy.

Record TypeMeta := { tm_Kind : string; tm_APIVersion : string }.

(** ** The types in memory *)

Record DemandSource_mem := {
  mds_Type : string;
  mds_Resources : slice string;
  mds_AdditionalResources : slice string;
  mds_Annotation : string;
  mds_Unit : string
}.

Record NodeGroupTemplate_mem := {
  mngt_NamePrefix : string;
  mngt_InstanceType : string;
  mngt_Allocatable : mapref Z;
  mngt_Labels : mapref string;
  mngt_Taints : slice NodeGroupTaint
}.

Record CapacitySource_mem := {
  mcs_Type : string;
  mcs_Resources : slice string;
  mcs_Label : string;
  mcs_PerDeviceCount : ptr LabelRef;
  mcs_NodeGroupTemplates : slice NodeGroupTemplate_mem
}.

Record ReadinessSignal_mem := {
  mrs_NodeConditions : slice NodeConditionRequirement;
  mrs_RequiredLabels : slice string
}.

Record PackingProfileSpec_mem := {
  msp_DemandSource : DemandSource_mem;
  msp_CapacitySource : CapacitySource_mem;
  msp_ReadinessSignal : ReadinessSignal_mem;
  msp_Rules : slice RuleRef;
  msp_ReservationTimeout : string
}.

Record PackingProfileStatus_mem := {
  mst_ActiveGates : Z;
  mst_InflightNodes : Z;
  mst_ActiveDetectors : slice string;
  mst_Conditions : slice Condition
}.

Section types.
Context (ObjectMeta ListMeta : Type).

Record PackingProfile_mem := {
  mpp_TypeMeta : TypeMeta;
  mpp_ObjectMeta : ObjectMeta;
  mpp_Spec : PackingProfileSpec_mem;
  mpp_Status : PackingProfileStatus_mem
}.

Record PackingProfileList_mem := {
  mpl_TypeMeta : TypeMeta;
  mpl_ListMeta : ListMeta;
  mpl_Items : slice PackingProfile_mem
}.

(** What a variable, an array or a map of these types holds. *)
Inductive cell :=
  | CString (v : string)
  | CInt64 (v : Z)
  | CLabelRef (v : LabelRef)
  | CNodeConditionRequirement (v : NodeConditionRequirement)
  | CNodeGroupTaint (v : NodeGroupTaint)
  | CNodeGroupTemplate (v : NodeGroupTemplate_mem)
  | CRuleRef (v : RuleRef)
  | CCondition (v : Condition)
  | CDemandSource (v : DemandSource_mem)
  | CCapacitySource (v : CapacitySource_mem)
  | CReadinessSignal (v : ReadinessSignal_mem)
  | CPackingProfileSpec (v : PackingProfileSpec_mem)
  | CPackingProfileStatus (v : PackingProfileStatus_mem)
  | CPackingProfile (v : PackingProfile_mem)
  | CPackingProfileList (v : PackingProfileList_mem).
End types.

Arguments mpp_TypeMeta {ObjectMeta} _.
Arguments mpp_ObjectMeta {ObjectMeta} _.
Arguments mpp_Spec {ObjectMeta} _.
Arguments mpp_Status {ObjectMeta} _.
Arguments Build_PackingProfile_mem {ObjectMeta} _ _ _ _.
Arguments mpl_TypeMeta {ObjectMeta ListMeta} _.
Arguments mpl_ListMeta {ObjectMeta ListMeta} _.
Arguments mpl_Items {ObjectMeta ListMeta} _.
Arguments Build_PackingProfileList_mem {ObjectMeta ListMeta} _ _ _.

(** ** Zero values *)

Definition DemandSource_zero : DemandSource_mem := {|
  mds_Type := ""; mds_Resources := Slice None; mds_AdditionalResources := Slice None;
  mds_Annotation := ""; mds_Unit := "" |}.

Definition NodeGroupTemplate_zero : NodeGroupTemplate_mem := {|
  mngt_NamePrefix := ""; mngt_InstanceType := ""; mngt_Allocatable := MapRef None;
  mngt_Labels := MapRef None; mngt_Taints := Slice None |}.

Definition CapacitySource_zero : CapacitySource_mem := {|
  mcs_Type := ""; mcs_Resources := Slice None; mcs_Label := "";
  mcs_PerDeviceCount := Ptr None; mcs_NodeGroupTemplates := Slice None |}.

Definition ReadinessSignal_zero : ReadinessSignal_mem := {|
  mrs_NodeConditions := Slice None; mrs_RequiredLabels := Slice None |}.

Definition PackingProfileSpec_zero : PackingProfileSpec_mem := {|
  msp_DemandSource := DemandSource_zero; msp_CapacitySource := CapacitySource_zero;
  msp_ReadinessSignal := ReadinessSignal_zero; msp_Rules := Slice None;
  msp_ReservationTimeout := "" |}.

Definition PackingProfileStatus_zero : PackingProfileStatus_mem := {|
  mst_ActiveGates := 0; mst_InflightNodes := 0; mst_ActiveDetectors := Slice None;
  mst_Conditions := Slice None |}.

(** Metadata in a heap: a zero value, what it denotes, and the library's copy
    with what it promises. *)
Class Metadata (cell T D : Type) {AL : Allocator cell} := {
  md_zero : T;
  md_deep :: Deep cell T D;
  md_DeepCopyInto : T → H cell T;
  md_copies : copies md_DeepCopyInto
}.

Arguments CString {ObjectMeta ListMeta} v.
Arguments CInt64 {ObjectMeta ListMeta} v.
Arguments CLabelRef {ObjectMeta ListMeta} v.
Arguments CNodeConditionRequirement {ObjectMeta ListMeta} v.
Arguments CNodeGroupTaint {ObjectMeta ListMeta} v.
Arguments CNodeGroupTemplate {ObjectMeta ListMeta} v.
Arguments CRuleRef {ObjectMeta ListMeta} v.
Arguments CCondition {ObjectMeta ListMeta} v.
Arguments CDemandSource {ObjectMeta ListMeta} v.
Arguments CCapacitySource {ObjectMeta ListMeta} v.
Arguments CReadinessSignal {ObjectMeta ListMeta} v.
Arguments CPackingProfileSpec {ObjectMeta ListMeta} v.
Arguments CPackingProfileStatus {ObjectMeta ListMeta} v.
Arguments CPackingProfile {ObjectMeta ListMeta} v.
Arguments CPackingProfileList {ObjectMeta ListMeta} v.

(** What the types denote: their fields, nil told apart from empty. *)
Abbreviation DemandSource_val :=
  (string * (option (list string) * (option (list string) * (string * string))))%type.
Abbreviation NodeGroupTemplate_val c :=
  (string * (string * (option (gmap string c) * (option (gmap string c) *
    option (list NodeGroupTaint)))))%type.
Abbreviation CapacitySource_val c :=
  (string * (option (list string) * (string * (option LabelRef *
    option (list (NodeGroupTemplate_val c))))))%type.
Abbreviation ReadinessSignal_val :=
  (option (list NodeConditionRequirement) * option (list string))%type.
Abbreviation PackingProfileSpec_val c :=
  (DemandSource_val * (CapacitySource_val c * (ReadinessSignal_val *
    (option (list RuleRef) * string))))%type.
Abbreviation PackingProfileStatus_val :=
  (Z * (Z * (option (list string) * option (list Condition))))%type.
Abbreviation PackingProfile_val c om :=
  (TypeMeta * (om * (PackingProfileSpec_val c * PackingProfileStatus_val)))%type.
Abbreviation PackingProfileList_val c om lm :=
  (TypeMeta * (lm * option (list (PackingProfile_val c om))))%type.


Section cells.
Context {OM LM : Type} {AL : Allocator (cell OM LM)} {OMD LMD : Type}.
Context {MO : Metadata (cell OM LM) OM OMD} {ML : Metadata (cell OM LM) LM LMD}.
Abbreviation cell := (cell OM LM).

Definition PackingProfile_zero : PackingProfile_mem OM := {|
  mpp_TypeMeta := {| tm_Kind := ""; tm_APIVersion := "" |}; mpp_ObjectMeta := md_zero;
  mpp_Spec := PackingProfileSpec_zero; mpp_Status := PackingProfileStatus_zero |}.

Definition PackingProfileList_zero : PackingProfileList_mem OM LM := {|
  mpl_TypeMeta := {| tm_Kind := ""; tm_APIVersion := "" |}; mpl_ListMeta := md_zero;
  mpl_Items := Slice None |}.

#[global] Instance string_cell : Cell cell string.
Proof.
  by refine {| to_cell := CString; of_cell c := match c with CString v => Some v | _ => None end;
    zero := "" |}.
Defined.
#[global] Instance int64_cell : Cell cell Z.
Proof.
  by refine {| to_cell := CInt64; of_cell c := match c with CInt64 v => Some v | _ => None end;
    zero := 0 |}.
Defined.
#[global] Instance LabelRef_cell : Cell cell LabelRef.
Proof.
  by refine {| to_cell := CLabelRef; of_cell c := match c with CLabelRef v => Some v | _ => None end;
    zero := {| lr_Label := "" |} |}.
Defined.
#[global] Instance NodeConditionRequirement_cell : Cell cell NodeConditionRequirement.
Proof.
  by refine {| to_cell := CNodeConditionRequirement; of_cell c := match c with CNodeConditionRequirement v => Some v | _ => None end;
    zero := {| ncr_Type := ""; ncr_Status := "" |} |}.
Defined.
#[global] Instance NodeGroupTaint_cell : Cell cell NodeGroupTaint.
Proof.
  by refine {| to_cell := CNodeGroupTaint; of_cell c := match c with CNodeGroupTaint v => Some v | _ => None end;
    zero := {| ngt_Key := ""; ngt_Value := ""; ngt_Effect := "" |} |}.
Defined.
#[global] Instance NodeGroupTemplate_cell : Cell cell NodeGroupTemplate_mem.
Proof.
  by refine {| to_cell := CNodeGroupTemplate; of_cell c := match c with CNodeGroupTemplate v => Some v | _ => None end;
    zero := NodeGroupTemplate_zero |}.
Defined.
#[global] Instance RuleRef_cell : Cell cell RuleRef.
Proof.
  by refine {| to_cell := CRuleRef; of_cell c := match c with CRuleRef v => Some v | _ => None end;
    zero := {| ruleref_Name := "" |} |}.
Defined.
#[global] Instance Condition_cell : Cell cell Condition.
Proof.
  by refine {| to_cell := CCondition; of_cell c := match c with CCondition v => Some v | _ => None end;
    zero := {| cond_Type := ""; cond_Status := ""; cond_Reason := ""; cond_Message := "";
    cond_LastTransitionTime := 0 |} |}.
Defined.
#[global] Instance DemandSource_cell : Cell cell DemandSource_mem.
Proof.
  by refine {| to_cell := CDemandSource; of_cell c := match c with CDemandSource v => Some v | _ => None end;
    zero := DemandSource_zero |}.
Defined.
#[global] Instance CapacitySource_cell : Cell cell CapacitySource_mem.
Proof.
  by refine {| to_cell := CCapacitySource; of_cell c := match c with CCapacitySource v => Some v | _ => None end;
    zero := CapacitySource_zero |}.
Defined.
#[global] Instance ReadinessSignal_cell : Cell cell ReadinessSignal_mem.
Proof.
  by refine {| to_cell := CReadinessSignal; of_cell c := match c with CReadinessSignal v => Some v | _ => None end;
    zero := ReadinessSignal_zero |}.
Defined.
#[global] Instance PackingProfileSpec_cell : Cell cell PackingProfileSpec_mem.
Proof.
  by refine {| to_cell := CPackingProfileSpec; of_cell c := match c with CPackingProfileSpec v => Some v | _ => None end;
    zero := PackingProfileSpec_zero |}.
Defined.
#[global] Instance PackingProfileStatus_cell : Cell cell PackingProfileStatus_mem.
Proof.
  by refine {| to_cell := CPackingProfileStatus; of_cell c := match c with CPackingProfileStatus v => Some v | _ => None end;
    zero := PackingProfileStatus_zero |}.
Defined.
#[global] Instance PackingProfile_cell : Cell cell (PackingProfile_mem OM).
Proof.
  by refine {| to_cell := CPackingProfile; of_cell c := match c with CPackingProfile v => Some v | _ => None end;
    zero := PackingProfile_zero |}.
Defined.
#[global] Instance PackingProfileList_cell : Cell cell (PackingProfileList_mem OM LM).
Proof.
  by refine {| to_cell := CPackingProfileList; of_cell c := match c with CPackingProfileList v => Some v | _ => None end;
    zero := PackingProfileList_zero |}.
Defined.

(** ** Reading the types *)

Definition DemandSource_tuple (s : DemandSource_mem) :=
  (mds_Type s, (mds_Resources s, (mds_AdditionalResources s, (mds_Annotation s, mds_Unit s)))).

Definition NodeGroupTemplate_tuple (s : NodeGroupTemplate_mem) :=
  (mngt_NamePrefix s, (mngt_InstanceType s,
    (mngt_Allocatable s, (mngt_Labels s, mngt_Taints s)))).

Definition CapacitySource_tuple (s : CapacitySource_mem) :=
  (mcs_Type s, (mcs_Resources s, (mcs_Label s, (mcs_PerDeviceCount s, mcs_NodeGroupTemplates s)))).

Definition ReadinessSignal_tuple (s : ReadinessSignal_mem) :=
  (mrs_NodeConditions s, mrs_RequiredLabels s).

Definition PackingProfileSpec_tuple (s : PackingProfileSpec_mem) :=
  (msp_DemandSource s, (msp_CapacitySource s, (msp_ReadinessSignal s,
    (msp_Rules s, msp_ReservationTimeout s)))).

Definition PackingProfileStatus_tuple (s : PackingProfileStatus_mem) :=
  (mst_ActiveGates s, (mst_InflightNodes s, (mst_ActiveDetectors s, mst_Conditions s))).

Definition PackingProfile_tuple (s : PackingProfile_mem OM) :=
  (mpp_TypeMeta s, (mpp_ObjectMeta s, (mpp_Spec s, mpp_Status s))).

Definition PackingProfileList_tuple (s : PackingProfileList_mem OM LM) :=
  (mpl_TypeMeta s, (mpl_ListMeta s, mpl_Items s)).

#[global] Instance string_deep : Deep cell string string := flat_deep string.
#[global] Instance int_deep : Deep cell Z Z := flat_deep Z.
#[global] Instance TypeMeta_deep : Deep cell TypeMeta TypeMeta := flat_deep TypeMeta.
#[global] Instance LabelRef_deep : Deep cell LabelRef LabelRef := flat_deep LabelRef.
#[global] Instance NodeConditionRequirement_deep :
  Deep cell NodeConditionRequirement NodeConditionRequirement := flat_deep NodeConditionRequirement.
#[global] Instance NodeGroupTaint_deep : Deep cell NodeGroupTaint NodeGroupTaint :=
  flat_deep NodeGroupTaint.
#[global] Instance RuleRef_deep : Deep cell RuleRef RuleRef := flat_deep RuleRef.
#[global] Instance Condition_deep : Deep cell Condition Condition := flat_deep Condition.

#[global] Instance DemandSource_deep : Deep cell DemandSource_mem DemandSource_val :=
  deep_via DemandSource_tuple _.
#[global] Instance NodeGroupTemplate_deep : Deep cell NodeGroupTemplate_mem (NodeGroupTemplate_val cell) :=
  deep_via NodeGroupTemplate_tuple _.
#[global] Instance CapacitySource_deep : Deep cell CapacitySource_mem (CapacitySource_val cell) :=
  deep_via CapacitySource_tuple _.
#[global] Instance ReadinessSignal_deep : Deep cell ReadinessSignal_mem ReadinessSignal_val :=
  deep_via ReadinessSignal_tuple _.
#[global] Instance PackingProfileSpec_deep : Deep cell PackingProfileSpec_mem (PackingProfileSpec_val cell) :=
  deep_via PackingProfileSpec_tuple _.
#[global] Instance PackingProfileStatus_deep :
  Deep cell PackingProfileStatus_mem PackingProfileStatus_val :=
  deep_via PackingProfileStatus_tuple _.
#[global] Instance PackingProfile_deep : Deep cell (PackingProfile_mem OM) (PackingProfile_val cell OMD) :=
  deep_via PackingProfile_tuple _.
#[global] Instance PackingProfileList_deep :
  Deep cell (PackingProfileList_mem OM LM) (PackingProfileList_val cell OMD LMD) :=
  deep_via PackingProfileList_tuple _.
End cells.

(** ** The functions

    A [DeepCopyInto] starts with [*out = *in]; the blocks that follow replace
    the fields that refer to the heap, and the struct it leaves in [*out] is
    the result. *)

Section functions.
Context {OM LM : Type} {AL : Allocator (cell OM LM)} {OMD LMD : Type}.
Context {MO : Metadata (cell OM LM) OM OMD} {ML : Metadata (cell OM LM) LM LMD}.
Context {O : MapOrder}.
Abbreviation cell := (cell OM LM).

(** [metav1.Condition.DeepCopyInto] *)
Context (Condition_DeepCopyInto : Condition → H cell Condition).

Definition LabelRef_DeepCopyInto (s : LabelRef) : H cell LabelRef := mret s.
Definition NodeConditionRequirement_DeepCopyInto (s : NodeConditionRequirement) :
  H cell NodeConditionRequirement := mret s.
Definition NodeGroupTaint_DeepCopyInto (s : NodeGroupTaint) : H cell NodeGroupTaint := mret s.
Definition RuleRef_DeepCopyInto (s : RuleRef) : H cell RuleRef := mret s.

Definition DemandSource_DeepCopyInto (s : DemandSource_mem) : H cell DemandSource_mem :=
  resources ← copy_flat_block (mds_Resources s);
  additional ← copy_flat_block (mds_AdditionalResources s);
  mret {| mds_Type := mds_Type s; mds_Resources := resources;
          mds_AdditionalResources := additional; mds_Annotation := mds_Annotation s;
          mds_Unit := mds_Unit s |}.

Definition NodeGroupTemplate_DeepCopyInto (s : NodeGroupTemplate_mem) :
  H cell NodeGroupTemplate_mem :=
  allocatable ← copy_map_block (mngt_Allocatable s);
  labels ← copy_map_block (mngt_Labels s);
  taints ← copy_flat_block (mngt_Taints s);
  mret {| mngt_NamePrefix := mngt_NamePrefix s; mngt_InstanceType := mngt_InstanceType s;
          mngt_Allocatable := allocatable; mngt_Labels := labels; mngt_Taints := taints |}.

Definition CapacitySource_DeepCopyInto (s : CapacitySource_mem) : H cell CapacitySource_mem :=
  resources ← copy_flat_block (mcs_Resources s);
  perDeviceCount ← copy_ptr_block (mcs_PerDeviceCount s);
  templates ← copy_deep_block NodeGroupTemplate_DeepCopyInto (mcs_NodeGroupTemplates s);
  mret {| mcs_Type := mcs_Type s; mcs_Resources := resources; mcs_Label := mcs_Label s;
          mcs_PerDeviceCount := perDeviceCount; mcs_NodeGroupTemplates := templates |}.

Definition ReadinessSignal_DeepCopyInto (s : ReadinessSignal_mem) : H cell ReadinessSignal_mem :=
  conditions ← copy_flat_block (mrs_NodeConditions s);
  labels ← copy_flat_block (mrs_RequiredLabels s);
  mret {| mrs_NodeConditions := conditions; mrs_RequiredLabels := labels |}.

Definition PackingProfileSpec_DeepCopyInto (s : PackingProfileSpec_mem) :
  H cell PackingProfileSpec_mem :=
  demandSource ← DemandSource_DeepCopyInto (msp_DemandSource s);
  capacitySource ← CapacitySource_DeepCopyInto (msp_CapacitySource s);
  readinessSignal ← ReadinessSignal_DeepCopyInto (msp_ReadinessSignal s);
  rules ← copy_flat_block (msp_Rules s);
  mret {| msp_DemandSource := demandSource; msp_CapacitySource := capacitySource;
          msp_ReadinessSignal := readinessSignal; msp_Rules := rules;
          msp_ReservationTimeout := msp_ReservationTimeout s |}.

Definition PackingProfileStatus_DeepCopyInto (s : PackingProfileStatus_mem) :
  H cell PackingProfileStatus_mem :=
  activeDetectors ← copy_flat_block (mst_ActiveDetectors s);
  conditions ← copy_deep_block Condition_DeepCopyInto (mst_Conditions s);
  mret {| mst_ActiveGates := mst_ActiveGates s; mst_InflightNodes := mst_InflightNodes s;
          mst_ActiveDetectors := activeDetectors; mst_Conditions := conditions |}.

Definition PackingProfile_DeepCopyInto (s : PackingProfile_mem OM) :
  H cell (PackingProfile_mem OM) :=
  meta ← md_DeepCopyInto (mpp_ObjectMeta s);
  spec ← PackingProfileSpec_DeepCopyInto (mpp_Spec s);
  status ← PackingProfileStatus_DeepCopyInto (mpp_Status s);
  mret {| mpp_TypeMeta := mpp_TypeMeta s; mpp_ObjectMeta := meta; mpp_Spec := spec;
          mpp_Status := status |}.

Definition PackingProfileList_DeepCopyInto (s : PackingProfileList_mem OM LM) :
  H cell (PackingProfileList_mem OM LM) :=
  meta ← md_DeepCopyInto (mpl_ListMeta s);
  items ← copy_deep_block PackingProfile_DeepCopyInto (mpl_Items s);
  mret {| mpl_TypeMeta := mpl_TypeMeta s; mpl_ListMeta := meta; mpl_Items := items |}.

Definition CapacitySource_DeepCopy := copy_ptr CapacitySource_DeepCopyInto.
Definition DemandSource_DeepCopy := copy_ptr DemandSource_DeepCopyInto.
Definition LabelRef_DeepCopy := copy_ptr LabelRef_DeepCopyInto.
Definition NodeConditionRequirement_DeepCopy := copy_ptr NodeConditionRequirement_DeepCopyInto.
Definition NodeGroupTaint_DeepCopy := copy_ptr NodeGroupTaint_DeepCopyInto.
Definition NodeGroupTemplate_DeepCopy := copy_ptr NodeGroupTemplate_DeepCopyInto.
Definition PackingProfile_DeepCopy := copy_ptr PackingProfile_DeepCopyInto.
Definition PackingProfileList_DeepCopy := copy_ptr PackingProfileList_DeepCopyInto.
Definition PackingProfileSpec_DeepCopy := copy_ptr PackingProfileSpec_DeepCopyInto.
Definition PackingProfileStatus_DeepCopy := copy_ptr PackingProfileStatus_DeepCopyInto.
Definition ReadinessSignal_DeepCopy := copy_ptr ReadinessSignal_DeepCopyInto.
Definition RuleRef_DeepCopy := copy_ptr RuleRef_DeepCopyInto.

(** [runtime.Object], with the implementations of this package; [None] is the
    nil interface. *)
Inductive runtime_Object :=
  | ObjPackingProfile (p : ptr (PackingProfile_mem OM))
  | ObjPackingProfileList (p : ptr (PackingProfileList_mem OM LM)).

Definition PackingProfile_DeepCopyObject (p : ptr (PackingProfile_mem OM)) :
  H cell (option runtime_Object) :=
  c ← PackingProfile_DeepCopy p;
  match ptr_at c with
  | Some _ => mret (Some (ObjPackingProfile c))
  | None => mret None
  end.

Definition PackingProfileList_DeepCopyObject (p : ptr (PackingProfileList_mem OM LM)) :
  H cell (option runtime_Object) :=
  c ← PackingProfileList_DeepCopy p;
  match ptr_at c with
  | Some _ => mret (Some (ObjPackingProfileList c))
  | None => mret None
  end.

(** ** They copy *)

#[local] Ltac struct_copies :=
  repeat lazymatch goal with
  | |- copies (pair_into _ _) => apply pair_copies
  | |- copies mret => apply mret_copies
  | |- copies copy_flat_block => apply flat_block_copies
  | |- copies copy_map_block => apply map_block_copies
  | |- copies copy_ptr_block => apply ptr_block_copies
  | |- copies (copy_deep_block _) => apply deep_block_copies
  | |- copies _ => assumption
  end.

Lemma DemandSource_copies : copies DemandSource_DeepCopyInto.
Proof.
  apply (via_copies DemandSource_tuple (λ t, Build_DemandSource_mem t.1 t.2.1 t.2.2.1 t.2.2.2.1 t.2.2.2.2)
    (pair_into mret (pair_into copy_flat_block (pair_into copy_flat_block (pair_into mret mret))))).
  - struct_copies.
  - by intros (?&?&?&?&?).
  - intros [] h. unfold DemandSource_DeepCopyInto, DemandSource_tuple. same_run.
Qed.

Lemma NodeGroupTemplate_copies : copies NodeGroupTemplate_DeepCopyInto.
Proof.
  apply (via_copies NodeGroupTemplate_tuple
    (λ t, Build_NodeGroupTemplate_mem t.1 t.2.1 t.2.2.1 t.2.2.2.1 t.2.2.2.2)
    (pair_into mret (pair_into mret (pair_into copy_map_block
      (pair_into copy_map_block copy_flat_block))))).
  - struct_copies.
  - by intros (?&?&?&?&?).
  - intros [] h. unfold NodeGroupTemplate_DeepCopyInto, NodeGroupTemplate_tuple. same_run.
Qed.

Lemma CapacitySource_copies : copies CapacitySource_DeepCopyInto.
Proof.
  pose proof NodeGroupTemplate_copies.
  apply (via_copies CapacitySource_tuple
    (λ t, Build_CapacitySource_mem t.1 t.2.1 t.2.2.1 t.2.2.2.1 t.2.2.2.2)
    (pair_into mret (pair_into copy_flat_block (pair_into mret
      (pair_into copy_ptr_block (copy_deep_block NodeGroupTemplate_DeepCopyInto)))))).
  - struct_copies.
  - by intros (?&?&?&?&?).
  - intros [] h. unfold CapacitySource_DeepCopyInto, CapacitySource_tuple. same_run.
Qed.

Lemma ReadinessSignal_copies : copies ReadinessSignal_DeepCopyInto.
Proof.
  apply (via_copies ReadinessSignal_tuple (λ t, Build_ReadinessSignal_mem t.1 t.2)
    (pair_into copy_flat_block copy_flat_block)).
  - struct_copies.
  - by intros (?&?).
  - intros [] h. unfold ReadinessSignal_DeepCopyInto, ReadinessSignal_tuple. same_run.
Qed.

Lemma PackingProfileSpec_copies : copies PackingProfileSpec_DeepCopyInto.
Proof.
  pose proof DemandSource_copies. pose proof CapacitySource_copies.
  pose proof ReadinessSignal_copies.
  apply (via_copies PackingProfileSpec_tuple
    (λ t, Build_PackingProfileSpec_mem t.1 t.2.1 t.2.2.1 t.2.2.2.1 t.2.2.2.2)
    (pair_into DemandSource_DeepCopyInto (pair_into CapacitySource_DeepCopyInto
      (pair_into ReadinessSignal_DeepCopyInto (pair_into copy_flat_block mret))))).
  - struct_copies.
  - by intros (?&?&?&?&?).
  - intros [] h. unfold PackingProfileSpec_DeepCopyInto, PackingProfileSpec_tuple. same_run.
Qed.

Context (Condition_copies : copies Condition_DeepCopyInto).

Lemma PackingProfileStatus_copies : copies PackingProfileStatus_DeepCopyInto.
Proof.
  apply (via_copies PackingProfileStatus_tuple
    (λ t, Build_PackingProfileStatus_mem t.1 t.2.1 t.2.2.1 t.2.2.2)
    (pair_into mret (pair_into mret (pair_into copy_flat_block
      (copy_deep_block Condition_DeepCopyInto))))).
  - struct_copies.
  - by intros (?&?&?&?).
  - intros [] h. unfold PackingProfileStatus_DeepCopyInto, PackingProfileStatus_tuple. same_run.
Qed.

Lemma PackingProfile_copies : copies PackingProfile_DeepCopyInto.
Proof.
  pose proof PackingProfileSpec_copies. pose proof PackingProfileStatus_copies.
  pose proof (md_copies (Metadata := MO)).
  apply (via_copies PackingProfile_tuple (λ t, Build_PackingProfile_mem t.1 t.2.1 t.2.2.1 t.2.2.2)
    (pair_into mret (pair_into md_DeepCopyInto (pair_into PackingProfileSpec_DeepCopyInto
      PackingProfileStatus_DeepCopyInto)))).
  - struct_copies.
  - by intros (?&?&?&?).
  - intros [] h. unfold PackingProfile_DeepCopyInto, PackingProfile_tuple. same_run.
Qed.

Lemma PackingProfileList_copies : copies PackingProfileList_DeepCopyInto.
Proof.
  pose proof PackingProfile_copies. pose proof (md_copies (Metadata := ML)).
  apply (via_copies PackingProfileList_tuple (λ t, Build_PackingProfileList_mem t.1 t.2.1 t.2.2)
    (pair_into mret (pair_into md_DeepCopyInto (copy_deep_block PackingProfile_DeepCopyInto)))).
  - struct_copies.
  - by intros (?&?&?).
  - intros [] h. unfold PackingProfileList_DeepCopyInto, PackingProfileList_tuple. same_run.
Qed.

Lemma value_copies :
  copies LabelRef_DeepCopyInto ∧ copies NodeConditionRequirement_DeepCopyInto ∧
  copies NodeGroupTaint_DeepCopyInto ∧ copies RuleRef_DeepCopyInto.
Proof. split_and!; apply mret_copies. Qed.

(** ** What a copy is good for *)

(** A [DeepCopy] gives nil for nil; else a pointer that denotes the same, such
    that no later write to the objects that were there shows through the
    copy, and no later write to others shows through the original. *)
Definition independent {T D} `{Cell cell T} {DV : Deep cell T D} (f : ptr T → H cell (ptr T)) : Prop :=
  (∀ h, f (Ptr None) h = Some (h, Ptr None)) ∧
  ∀ h p d, dload h p = Some (Some d) → ∃ h' q, f p h = Some (h', q) ∧
    dload h' q = Some (Some d) ∧ dload h' p = Some (Some d) ∧
    (∀ h'', (∀ l, is_Some (h !! l) → h'' !! l = h' !! l) → dload h'' p = Some (Some d)) ∧
    (∀ h'', (∀ l, h !! l = None → h'' !! l = h' !! l) → dload h'' q = Some (Some d)).

Lemma copies_independent {T D} `{Cell cell T} {DV : Deep cell T D} (into : T → H cell T) :
  copies into → independent (copy_ptr into).
Proof.
  intros Hinto. split; [done|]. intros h p d Hd.
  destruct (ptr_copies into Hinto h p (Some d) Hd) as (h' & q & E & [Hk Hl Hf _]).
  exists h', q. destruct (dload_mono h h' p (Some d) Hk Hd) as [Hp Hfoot].
  split_and!; try done.
  - intros h'' Hsame. apply (dload_local h' h'' p (Some d) Hp). intros l Hin. apply Hsame.
    rewrite Hfoot in Hin. exact (dfoot_dom h p (Some d) l Hd Hin).
  - intros h'' Hsame. apply (dload_local h' h'' q (Some d) Hl). intros l Hin.
    by apply Hsame, Hf.
Qed.
End functions.

(** ** Property *)

(** C24: deep copies are independent.  Every [DeepCopy] of the API types gives
    nil for nil; for a pointer to an object that can be read, it returns
    without a panic a pointer that denotes the same object, nil slices and
    maps told apart from empty ones, in a heap where the original denotes what
    it did.  From then on, writes to objects that existed before are not seen
    through the copy, and writes to others are not seen through the original.
    [DeepCopyObject] is the same copy as a [runtime.Object], and the nil
    interface for nil.  This holds for every allocator and loop order, as the
    library's copies of the metadata and of a condition are independent. *)
Theorem deep_copies_independent {OM LM : Type} {AL : Allocator (cell OM LM)} {OMD LMD : Type}
    {MO : Metadata (cell OM LM) OM OMD} {ML : Metadata (cell OM LM) LM LMD} {O : MapOrder}
    (Condition_DeepCopyInto : Condition → H (cell OM LM) Condition) :
  copies Condition_DeepCopyInto →
  independent (PackingProfile_DeepCopy Condition_DeepCopyInto) ∧
  independent (PackingProfileList_DeepCopy Condition_DeepCopyInto) ∧
  independent PackingProfileSpec_DeepCopy ∧
  independent (PackingProfileStatus_DeepCopy Condition_DeepCopyInto) ∧
  independent DemandSource_DeepCopy ∧ independent CapacitySource_DeepCopy ∧
  independent ReadinessSignal_DeepCopy ∧ independent NodeGroupTemplate_DeepCopy ∧
  independent LabelRef_DeepCopy ∧ independent NodeConditionRequirement_DeepCopy ∧
  independent NodeGroupTaint_DeepCopy ∧ independent RuleRef_DeepCopy ∧
  (∀ p h h' q, PackingProfile_DeepCopy Condition_DeepCopyInto p h = Some (h', q) →
     PackingProfile_DeepCopyObject Condition_DeepCopyInto p h =
     Some (h', match ptr_at q with Some _ => Some (ObjPackingProfile q) | None => None end)) ∧
  (∀ p h h' q, PackingProfileList_DeepCopy Condition_DeepCopyInto p h = Some (h', q) →
     PackingProfileList_DeepCopyObject Condition_DeepCopyInto p h =
     Some (h', match ptr_at q with Some _ => Some (ObjPackingProfileList q) | None => None end)).
Proof.
  intros HC. destruct (value_copies (OM := OM) (LM := LM)) as (H1 & H2 & H3 & H4).
  split_and!; try apply copies_independent; try done.
  - by apply PackingProfile_copies.
  - by apply PackingProfileList_copies.
  - apply PackingProfileSpec_copies.
  - by apply PackingProfileStatus_copies.
  - apply DemandSource_copies.
  - apply CapacitySource_copies.
  - apply ReadinessSignal_copies.
  - apply NodeGroupTemplate_copies.
  - intros p h h' q E. unfold PackingProfile_DeepCopyObject, mbind, H_bind. rewrite E.
    by destruct (ptr_at q).
  - intros p h h' q E. unfold PackingProfileList_DeepCopyObject, mbind, H_bind. rewrite E.
    by destruct (ptr_at q).
Qed.

(** ** Witness *)

(** Metadata as a name and labels. *)
Abbreviation toy_meta := (string * mapref string)%type.
Abbreviation toy_cell := (cell toy_meta string).

#[global] Instance toy_allocator : Allocator toy_cell.
Proof.
  refine {| new_loc h := fresh (dom h) |}. intros h. apply not_elem_of_dom, is_fresh.
Defined.

#[global] Instance toy_ObjectMeta :
  Metadata toy_cell toy_meta (string * option (gmap string toy_cell)).
Proof.
  refine {| md_zero := ("", MapRef None);
            md_DeepCopyInto := pair_into mret (copy_map_block (O := order_forward)) |}.
  apply pair_copies; [apply mret_copies|apply map_block_copies].
Defined.

#[global] Instance toy_ListMeta : Metadata toy_cell string string.
Proof. by refine {| md_zero := ""; md_DeepCopyInto := mret; md_copies := mret_copies |}. Defined.

Definition cached_profile : PackingProfile_mem toy_meta := {|
  mpp_TypeMeta := {| tm_Kind := "PackingProfile"; tm_APIVersion := "packer.kompakt.io/v1alpha1" |};
  mpp_ObjectMeta := ("p", MapRef (Some 2%positive));
  mpp_Spec := {|
    msp_DemandSource := {| mds_Type := "ResourceRequest"; mds_Resources := Slice None;
      mds_AdditionalResources := Slice None; mds_Annotation := ""; mds_Unit := "" |};
    msp_CapacitySource := CapacitySource_zero; msp_ReadinessSignal := ReadinessSignal_zero;
    msp_Rules := Slice (Some (3%positive, 1%nat, 1%nat)); msp_ReservationTimeout := "3m" |};
  mpp_Status := {| mst_ActiveGates := 0; mst_InflightNodes := 0;
    mst_ActiveDetectors := Slice None; mst_Conditions := Slice (Some (4%positive, 0%nat, 1%nat)) |} |}.

Definition old_condition : Condition := {|
  cond_Type := "LedgerReady"; cond_Status := "True"; cond_Reason := "Synced";
  cond_Message := "ledger synced from cluster state"; cond_LastTransitionTime := 1 |}.

Definition cache : gmap loc (object toy_cell) := {[
  1%positive := Arr [CPackingProfile cached_profile];
  2%positive := Map {["team" := CString "ml"]};
  3%positive := Arr [CRuleRef {| ruleref_Name := "WaitForWorkloadPacking" |};
                     CRuleRef {| ruleref_Name := "WaitForNodeReady" |}];
  4%positive := Arr [CCondition old_condition] ]}.

Definition cached : ptr (PackingProfile_mem toy_meta) := Ptr (Some 1%positive).

Lemma cache_loads : ∃ d, dload cache cached = Some (Some d).
Proof. eexists. reflexivity. Qed.

Lemma deep_copies_independent_witness :
  ∃ h' q, PackingProfile_DeepCopy (O := order_forward) mret cached cache = Some (h', q) ∧
    dload h' q = dload cache cached ∧ q ≠ cached.
Proof.
  assert (copies (mret : Condition → H toy_cell Condition)) as HC by apply mret_copies.
  destruct (deep_copies_independent (O := order_forward) mret HC) as [[_ H] _].
  destruct cache_loads as [d Hd]. destruct (H cache cached d Hd) as (h' & q & E & Hq & _ & _ & Hind).
  exists h', q. split; [exact E|]. split; [by rewrite Hq, Hd|]. intros ->.
  specialize (Hind (delete 1%positive h')).
  assert (dload (delete 1%positive h') cached = None) as Hn.
  { cbn. unfold pointee. cbn. by rewrite lookup_delete_eq. }
  rewrite Hn in Hind. discriminate Hind. intros l Hl. rewrite lookup_delete_ne; [done|].
  intros <-. discriminate Hl.
Defined.
