(* ===== verification/StatusHeap.v ===== *)
(** * Status updates in place

    The controller reads a profile from a cache, which hands out a deep copy,
    and writes its status through the pointer it got: [setCondition] assigns
    to elements of the slice of conditions or appends to it.  On the heap
    these writes do what [Status] says on values, and the cached object does
    not change. *)

From S2P Require Import Prelude GoStrings GoTime Kube Scheduling Ledger LedgerFit Reservations.
From S2P Require Import Rules Inflight Templates Status Release Sync Rebuild Reconcile.
From S2P Require Import GoHeap HeapCopy HeapOwn DeepCopy.

Section heap_status.
Context {K : Kube} {OM LM : Type} {AL : Allocator (cell OM LM)} {OMD LMD : Type}.
Context {MO : Metadata (cell OM LM) OM OMD} {ML : Metadata (cell OM LM) LM LMD}.
Context (meta_name : OMD → string).
Abbreviation cell := (cell OM LM).
Abbreviation heap := (gmap loc (object cell)).
Abbreviation profile_ptr := (ptr (PackingProfile_mem OM)).

(** ** The profile of a denotation *)

Definition DemandSource_of (d : DemandSource_val) : DemandSource :=
  let '(ty, (resources, (additional, (annotation, unit)))) := d in
  {| ds_Type := ty; ds_Resources := default [] resources;
     ds_AdditionalResources := default [] additional; ds_Annotation := annotation;
     ds_Unit := unit |}.

Definition NodeGroupTemplate_of (d : NodeGroupTemplate_val cell) : NodeGroupTemplate :=
  let '(prefix, (instance, (allocatable, (labels, taints)))) := d in
  {| tmpl_NamePrefix := prefix; tmpl_InstanceType := instance;
     tmpl_Allocatable := typed_map (default ∅ allocatable);
     tmpl_Labels := typed_map <$> labels; tmpl_Taints := default [] taints |}.

Definition CapacitySource_of (d : CapacitySource_val cell) : CapacitySource :=
  let '(ty, (resources, (label, (perDevice, templates)))) := d in
  {| cs_Type := ty; cs_Resources := default [] resources; cs_Label := label;
     cs_PerDeviceCount := perDevice;
     cs_NodeGroupTemplates := NodeGroupTemplate_of <$> default [] templates |}.

Definition PackingProfileSpec_of (d : PackingProfileSpec_val cell) : PackingProfileSpec :=
  let '(ds, (cs, ((conditions, labels), (rules, timeout)))) := d in
  {| spec_DemandSource := DemandSource_of ds; spec_CapacitySource := CapacitySource_of cs;
     spec_ReadinessSignal := {| rs_NodeConditions := default [] conditions;
                                rs_RequiredLabels := default [] labels |};
     spec_Rules := default [] rules; spec_ReservationTimeout := timeout |}.

Definition PackingProfile_of (d : PackingProfile_val cell OMD) : PackingProfile :=
  let '(_, (meta, (spec, (gates, (nodes, (detectors, conditions)))))) := d in
  {| profile_Name := meta_name meta; profile_Spec := PackingProfileSpec_of spec;
     profile_Status := {| st_ActiveGates := gates; st_InflightNodes := nodes;
       st_ActiveDetectors := default [] detectors; st_Conditions := default [] conditions |} |}.

(** ** The operations *)

(** The fields of [*p], read where the code reads them. *)
Definition load_profile (p : profile_ptr) : H cell PackingProfile := λ h,
  match dload h p with Some (Some d) => Some (h, PackingProfile_of d) | _ => None end.

Definition set_mem_status (prof : PackingProfile_mem OM) (s : PackingProfileStatus_mem) :
  PackingProfile_mem OM := {|
  mpp_TypeMeta := mpp_TypeMeta prof; mpp_ObjectMeta := mpp_ObjectMeta prof;
  mpp_Spec := mpp_Spec prof; mpp_Status := s |}.

Definition set_mem_conditions (prof : PackingProfile_mem OM) (conds : slice Condition) :
  PackingProfile_mem OM :=
  let s := mpp_Status prof in
  set_mem_status prof {| mst_ActiveGates := mst_ActiveGates s;
    mst_InflightNodes := mst_InflightNodes s; mst_ActiveDetectors := mst_ActiveDetectors s;
    mst_Conditions := conds |}.

(** The loop of [setCondition] from the [i]-th condition on, [n] to go: whether
    it returned from the function. *)
Fixpoint set_existing (conds : slice Condition) (c : Condition) (i n : nat) : H cell bool :=
  match n with
  | O => mret false
  | S n =>
      c' ← elem conds i;
      if bool_decide (cond_Type c' = cond_Type c) then
        (if negb (bool_decide (cond_Status c' = cond_Status c))
            || negb (bool_decide (cond_Reason c' = cond_Reason c))
         then set_elem conds i {| cond_Type := cond_Type c'; cond_Status := cond_Status c;
                cond_Reason := cond_Reason c; cond_Message := cond_Message c;
                cond_LastTransitionTime := cond_LastTransitionTime c |}
         else mret tt);;
        mret true
      else set_existing conds c (S i) n
  end.

Definition setCondition_mem (spare : nat) (p : profile_ptr)
    (condType status reason message : string) (now : Clock) : H cell unit :=
  let c := {| cond_Type := condType; cond_Status := status; cond_Reason := reason;
              cond_Message := message;
              cond_LastTransitionTime := now ("setCondition/" +:+ condType) 0%nat |} in
  prof ← deref p;
  let conds := mst_Conditions (mpp_Status prof) in
  found ← set_existing conds c 0 (len conds);
  if (found : bool) then mret tt
  else
    conds ← append spare conds c;
    assign p (set_mem_conditions prof conds).

Definition setLedgerReadyCondition_mem (spare : nat) (p : profile_ptr)
    (syncErr : option goerror) (now : Clock) : H cell unit :=
  match syncErr with
  | Some e => setCondition_mem spare p condLedgerReady ConditionFalse "SyncFailed" (err_Error e) now
  | None => setCondition_mem spare p condLedgerReady ConditionTrue "Synced"
              "ledger synced from cluster state" now
  end.

Definition setProfileValidCondition_mem (spare : nat) (p : profile_ptr) (now : Clock) :
  H cell unit :=
  profile ← load_profile p;
  match profile_issues profile with
  | _ :: _ =>
      setCondition_mem spare p condProfileValid ConditionFalse "ConfigurationError"
        (Join (profile_issues profile) "; ") now
  | [] => setCondition_mem spare p condProfileValid ConditionTrue "Valid"
            "profile configuration is valid" now
  end.

Definition setInflightDetectionCondition_mem (spare : nat) (p : profile_ptr) (inflightCount : Z)
    (activeDetectors : list string) (allDetectors : list Detector) (now : Clock) : H cell unit :=
  match allDetectors with
  | [] => setCondition_mem spare p condInflightDetectionActive ConditionFalse "NoDetectors"
            "no inflight detectors configured" now
  | _ =>
      if 0 <? inflightCount then
        setCondition_mem spare p condInflightDetectionActive ConditionTrue "Detected"
          (pretty inflightCount +:+ " inflight node(s) detected by "
             +:+ Join activeDetectors ", ") now
      else setCondition_mem spare p condInflightDetectionActive ConditionFalse "NoneDetected"
             "no inflight nodes detected" now
  end.

Definition setReadyCondition_mem (spare : nat) (p : profile_ptr) (now : Clock) : H cell unit :=
  profile ← load_profile p;
  let profileValid := conditionIsTrue profile condProfileValid in
  let ledgerReady := conditionIsTrue profile condLedgerReady in
  if profileValid && ledgerReady then
    setCondition_mem spare p condReady ConditionTrue "Ready"
      "profile is valid and ledger is synced" now
  else
    let reasons := [] in
    let reasons := if negb profileValid then reasons ++ ["ProfileValid=False"] else reasons in
    let reasons := if negb ledgerReady then reasons ++ ["LedgerReady=False"] else reasons in
    setCondition_mem spare p condReady ConditionFalse "NotReady" (Join reasons ", ") now.

(** The assignments of [updateProfileStatus]; the slice of active detectors is
    the reconciler's own. *)
Definition set_counts_mem (p : profile_ptr) (activeGates inflightNodes : Z)
    (activeDetectors : slice string) : H cell unit :=
  prof ← deref p;
  assign p (set_mem_status prof {| mst_ActiveGates := activeGates;
    mst_InflightNodes := inflightNodes; mst_ActiveDetectors := activeDetectors;
    mst_Conditions := mst_Conditions (mpp_Status prof) |}).

(** The strings of a slice, read where it is passed to be joined. *)
Definition load_strings (s : slice string) : H cell (list string) := λ h,
  match dload h s with Some ss => Some (h, default [] ss) | None => None end.

(** What a reconciliation writes through the pointer, between the read of the
    profile and the status update. *)
Definition report_status_mem (spare : nat) (p : profile_ptr) (syncErr : option goerror)
    (activeGates count : Z) (activeDetectors : slice string) (allDetectors : list Detector)
    (now : Clock) : H cell unit :=
  setLedgerReadyCondition_mem spare p syncErr now;;
  set_counts_mem p activeGates (wrap32 count) activeDetectors;;
  setProfileValidCondition_mem spare p now;;
  active ← load_strings activeDetectors;
  setInflightDetectionCondition_mem spare p count active allDetectors now;;
  setReadyCondition_mem spare p now.

(** ** A profile whose status can be written *)

(** What the pointed-to struct depends on apart from the conditions, and what
    the writes touch. *)
Definition rest_foot (h : heap) (prof : PackingProfile_mem OM) : list loc :=
  dfoot h (mpp_ObjectMeta prof) ++ dfoot h (mpp_Spec prof)
    ++ dfoot h (mst_ActiveDetectors (mpp_Status prof)).

Definition written (l : loc) (prof : PackingProfile_mem OM) : list loc :=
  l :: match slice_at (mst_Conditions (mpp_Status prof)) with
       | Some (k, _, _) => [k]
       | None => []
       end.

Record parts := Parts {
  pt_meta : OMD; pt_spec : PackingProfileSpec_val cell;
  pt_detectors : option (list string); pt_conds : list Condition
}.

Record owned (h : heap) (l : loc) (prof : PackingProfile_mem OM) (d : parts) : Prop := {
  ow_var : pointee h (Ptr (Some l)) = Some prof;
  ow_meta : dload h (mpp_ObjectMeta prof) = Some (pt_meta d);
  ow_spec : dload h (mpp_Spec prof) = Some (pt_spec d);
  ow_detectors : dload h (mst_ActiveDetectors (mpp_Status prof)) = Some (pt_detectors d);
  ow_conds : slice_elems h (mst_Conditions (mpp_Status prof)) = Some (pt_conds d);
  ow_sep k : k ∈ written l prof → k ∉ rest_foot h prof;
  ow_nodup : NoDup (written l prof)
}.

Definition set_pt_conds (d : parts) (cs : list Condition) : parts :=
  Parts (pt_meta d) (pt_spec d) (pt_detectors d) cs.

(** The profile that is there. *)
Definition profile_at (prof : PackingProfile_mem OM) (d : parts) : PackingProfile := {|
  profile_Name := meta_name (pt_meta d); profile_Spec := PackingProfileSpec_of (pt_spec d);
  profile_Status := {| st_ActiveGates := mst_ActiveGates (mpp_Status prof);
    st_InflightNodes := mst_InflightNodes (mpp_Status prof);
    st_ActiveDetectors := default [] (pt_detectors d); st_Conditions := pt_conds d |} |}.

(** Changes outside of the rest leave its denotation. *)
Lemma rest_local h h' prof d :
  dload h (mpp_ObjectMeta prof) = Some (pt_meta d) → dload h (mpp_Spec prof) = Some (pt_spec d) →
  dload h (mst_ActiveDetectors (mpp_Status prof)) = Some (pt_detectors d) →
  (∀ k, k ∈ rest_foot h prof → h' !! k = h !! k) →
  dload h' (mpp_ObjectMeta prof) = Some (pt_meta d) ∧ dload h' (mpp_Spec prof) = Some (pt_spec d) ∧
  dload h' (mst_ActiveDetectors (mpp_Status prof)) = Some (pt_detectors d) ∧
  rest_foot h' prof = rest_foot h prof.
Proof.
  unfold rest_foot. intros H1 H2 H3 Hs.
  destruct (dload_local h h' (mpp_ObjectMeta prof) _ H1) as [-> ->].
  { intros k Hk. apply Hs, elem_of_app. by left. }
  destruct (dload_local h h' (mpp_Spec prof) _ H2) as [-> ->].
  { intros k Hk. apply Hs. rewrite !elem_of_app. auto. }
  destruct (dload_local h h' (mst_ActiveDetectors (mpp_Status prof)) _ H3) as [-> ->]; [|done].
  intros k Hk. apply Hs. rewrite !elem_of_app. auto.
Qed.

Lemma rest_foot_dom h l prof d k : owned h l prof d → k ∈ rest_foot h prof → is_Some (h !! k).
Proof.
  intros [_ H1 H2 H3 _ _ _]. unfold rest_foot. rewrite !elem_of_app. intros [Hk|[Hk|Hk]].
  - exact (dfoot_dom _ _ _ _ H1 Hk).
  - exact (dfoot_dom _ _ _ _ H2 Hk).
  - exact (dfoot_dom _ _ _ _ H3 Hk).
Qed.

Lemma owned_load h l prof d :
  owned h l prof d → load_profile (Ptr (Some l)) h = Some (h, profile_at prof d).
Proof.
  intros [Hv Hm Hs Hd Hc _ _]. unfold load_profile.
  assert (∃ x, dload h (Ptr (Some l) : profile_ptr) = Some (Some x) ∧
    PackingProfile_of x = profile_at prof d) as (x & -> & ->); [|done].
  cbn [dload ptr_deep ptr_at]. rewrite Hv. cbn [mbind option_bind].
  unfold PackingProfile_deep. cbn [dload deep_via pair_deep PackingProfile_tuple fst snd].
  rewrite Hm, Hs. cbn [mbind option_bind].
  unfold PackingProfileStatus_deep. cbn [dload deep_via pair_deep PackingProfileStatus_tuple fst snd].
  rewrite Hd. destruct (mst_Conditions (mpp_Status prof)) as [[[[k o] n]|]] eqn:E;
    cbn [dload slice_deep slice_at mbind option_bind fst snd].
  - rewrite Hc. cbn [mbind option_bind]. unfold Condition_deep. rewrite flat_load.
    eexists. split; [done|]. unfold profile_at. done.
  - injection Hc as Hc. eexists. split; [done|]. unfold profile_at. cbn. by rewrite <- Hc.
Qed.

(** ** [setCondition] *)

Lemma elem_run {B} (h : heap) (s : slice Condition) vs i v (f : Condition → H cell B) :
  slice_elems h s = Some vs → vs !! i = Some v → (v ← elem s i; f v) h = f v h.
Proof. intros Hs Hi. unfold mbind, H_bind. by rewrite (elem_ok h s vs i v Hs Hi). Qed.

Lemma set_existing_ok (h : heap) conds c suf : ∀ pre,
  slice_elems h conds = Some (pre ++ suf) →
  (set_existing conds c (length pre) (length suf) h = Some (h, false) ∧
   put_condition suf c = suf ++ [c]) ∨
  ∃ h', set_existing conds c (length pre) (length suf) h = Some (h', true) ∧
    slice_elems h' conds = Some (pre ++ put_condition suf c) ∧
    (h' = h ∨ ∃ k o n obj, slice_at conds = Some (k, o, n) ∧ h' = <[k := obj]> h).
Proof.
  induction suf as [|c' suf IH]; intros pre Hs; [by left|].
  cbn [length set_existing put_condition].
  rewrite (elem_run h conds (pre ++ c' :: suf) (length pre) c' _ Hs)
    by (by rewrite lookup_app_r, Nat.sub_diag).
  case_bool_decide as Ht.
  - right. unfold mbind, H_bind, mret, H_ret. destruct (negb (bool_decide (cond_Status _ = _)) || _) eqn:E.
    + destruct (set_elem_slice h conds (pre ++ c' :: suf) (length pre)
        {| cond_Type := cond_Type c'; cond_Status := cond_Status c; cond_Reason := cond_Reason c;
           cond_Message := cond_Message c; cond_LastTransitionTime := cond_LastTransitionTime c |} Hs)
        as (k & o & n & obj & Hat & -> & Hs').
      { rewrite length_app. cbn. lia. }
      eexists. split; [done|]. split; [|right; by eauto 8].
      by rewrite Hs', insert_app_r_alt, Nat.sub_diag by lia.
    + exists h. split; [done|]. split; [done|by left].
  - assert (slice_elems h conds = Some ((pre ++ [c']) ++ suf)) as Hs1 by (by rewrite <- app_assoc).
    specialize (IH (pre ++ [c']) Hs1). rewrite length_app, Nat.add_1_r in IH.
    destruct IH as [[-> ->]|(h' & -> & Hs' & Hh)]; [by left|right].
    exists h'. split; [done|]. split; [by rewrite Hs', <- app_assoc|done].
Qed.

(** A new condition is in the old array when it has room, else in a new one. *)
Lemma append_condition_ok h l prof d c spare :
  owned h l prof d →
  ∃ h' prof', (conds ← append spare (mst_Conditions (mpp_Status prof)) c;
      assign (Ptr (Some l)) (set_mem_conditions prof conds)) h = Some (h', tt) ∧
    owned h' l prof' (set_pt_conds d (pt_conds d ++ [c])) ∧
    frame h (written l prof) h' (written l prof') ∧
    prof' = set_mem_conditions prof (mst_Conditions (mpp_Status prof')).
Proof.
  intros How. pose proof How as [Hv Hm Hsp Hd Hc Hsep Hnd].
  set (conds := mst_Conditions (mpp_Status prof)) in *.
  destruct (append_slice spare h conds (pt_conds d) c Hc) as (k & o & n & obj & Hrun & Hs' & Hk).
  rewrite (heap_bind _ _ _ _ _ Hrun).
  assert (k ∈ written l prof ∨ h !! k = None) as Hw.
  { destruct Hk as [Hk|(o' & n' & Hk)]; [by right|left]. unfold written. fold conds.
    rewrite Hk. right. left. }
  assert (∀ j, j ∈ rest_foot h prof → j ≠ k ∧ j ≠ l) as Hrest.
  { intros j Hj. split; intros ->; [|eapply Hsep; [|exact Hj]; left].
    destruct Hw as [Hw|Hw]; [by eapply Hsep|].
    destruct (rest_foot_dom _ _ _ _ _ How Hj) as [x Hx]. congruence. }
  assert (k ≠ l) as Hkl.
  { destruct Hk as [Hk|(o' & n' & Hk)]; intros ->.
    - unfold pointee in Hv. cbn in Hv. by rewrite Hk in Hv.
    - unfold written in Hnd. fold conds in Hnd. rewrite Hk in Hnd.
      apply NoDup_cons in Hnd as [Hn _]. apply Hn. left. }
  set (s' := Slice (Some (k, o, n))) in *.
  assert (pointee (<[k := obj]> h) (Ptr (Some l)) = Some prof) as Hv1
    by (apply (pointee_same h); [by apply lookup_insert_ne|done]).
  destruct (assign_ok (<[k := obj]> h) l prof (set_mem_conditions prof s') Hv1)
    as (obj' & -> & Hv2).
  set (h2 := <[l := obj']> (<[k := obj]> h)) in *.
  destruct (rest_local h h2 prof d Hm Hsp Hd) as (Hm2 & Hsp2 & Hd2 & Hf2).
  { intros j [? ?]%Hrest. unfold h2. by rewrite !lookup_insert_ne. }
  exists h2, (set_mem_conditions prof s'). split; [done|]. split; [split; try done|split; [|done]].
  - cbn. rewrite <- Hs'. unfold slice_elems, s'. cbn [slice_at]. unfold h2.
    by rewrite lookup_insert_ne.
  - change (rest_foot h2 (set_mem_conditions prof s')) with (rest_foot h2 prof). rewrite Hf2.
    unfold written. cbn. intros j Hj Hr. apply Hrest in Hr as [? ?].
    apply elem_of_cons in Hj as [?|?%list_elem_of_singleton]; congruence.
  - unfold written. cbn. apply NoDup_cons. split; [|apply NoDup_singleton].
    intros ?%list_elem_of_singleton. congruence.
  - eapply (frame_trans _ _ (<[k := obj]> h) (written l (set_mem_conditions prof s'))).
    + apply frame_insert; [done|]. unfold written at 1. cbn.
      intros j [->|Hj%list_elem_of_singleton]%elem_of_cons; [left; left|by subst j].
    + apply frame_insert; [left; left|]. by left.
Qed.

(** A write to the array of conditions. *)
Lemma conditions_written h l prof d h' cs :
  owned h l prof d → slice_elems h' (mst_Conditions (mpp_Status prof)) = Some cs →
  (h' = h ∨ ∃ k o n obj, slice_at (mst_Conditions (mpp_Status prof)) = Some (k, o, n) ∧
    h' = <[k := obj]> h) →
  owned h' l prof (set_pt_conds d cs) ∧ frame h (written l prof) h' (written l prof).
Proof.
  intros [Hv Hm Hsp Hd Hc Hsep Hnd] Hs' Hh.
  set (conds := mst_Conditions (mpp_Status prof)) in *.
  assert (∀ j, j ∈ rest_foot h prof → h' !! j = h !! j) as Hrest.
  { intros j Hj. destruct Hh as [->|(k & o & n & obj & Hat & ->)]; [done|].
    apply lookup_insert_ne. intros ->. eapply Hsep; [|exact Hj]. unfold written. fold conds.
    rewrite Hat. right. left. }
  destruct (rest_local h h' prof d Hm Hsp Hd Hrest) as (Hm2 & Hsp2 & Hd2 & Hf2).
  split; [split; try done|].
  - destruct Hh as [->|(k & o & n & obj & Hat & ->)]; [done|].
    apply (pointee_same h); [|done]. apply lookup_insert_ne. intros ->.
    unfold written in Hnd. fold conds in Hnd. rewrite Hat in Hnd.
    apply NoDup_cons in Hnd as [Hn _]. apply Hn. left.
  - by rewrite Hf2.
  - destruct Hh as [->|(k & o & n & obj & Hat & ->)]; [apply frame_refl|].
    apply frame_insert; [left|by left]. unfold written. fold conds. rewrite Hat. right. left.
Qed.

Lemma put_condition_ok h l prof d c spare :
  owned h l prof d →
  ∃ h' prof', (prof ← deref (Ptr (Some l));
      let conds := mst_Conditions (mpp_Status prof) in
      found ← set_existing conds c 0 (len conds);
      if (found : bool) then mret tt
      else
        conds ← append spare conds c;
        assign (Ptr (Some l)) (set_mem_conditions prof conds)) h = Some (h', tt) ∧
    owned h' l prof' (set_pt_conds d (put_condition (pt_conds d) c)) ∧
    frame h (written l prof) h' (written l prof') ∧
    prof' = set_mem_conditions prof (mst_Conditions (mpp_Status prof')).
Proof.
  intros How. pose proof (ow_conds _ _ _ _ How) as Hc.
  rewrite (heap_bind _ _ _ _ _ (deref_ok h _ prof (ow_var _ _ _ _ How))). cbv zeta.
  rewrite <- (slice_elems_length _ _ _ Hc).
  destruct (set_existing_ok h _ c (pt_conds d) [] Hc) as [[E Hput]|(h' & E & Hs' & Hh)];
    cbn [length] in E; rewrite (heap_bind _ _ _ _ _ E).
  - destruct (append_condition_ok h l prof d c spare How) as (h' & prof' & Hrun & Ho & F & Heq).
    exists h', prof'. by rewrite Hput.
  - destruct (conditions_written h l prof d h' _ How Hs' Hh) as [Ho F].
    exists h', prof. split_and!; [done..|]. by destruct prof as [tm om sp [? ? ? ?]].
Qed.

(** ** Steps that refine an update of the profile *)

(** Run through a pointer to a profile that is owned, [op] returns, writes
    nothing else, and leaves what [f] makes of the profile. *)
Definition refines (op : profile_ptr → H cell unit) (f : PackingProfile → PackingProfile) : Prop :=
  ∀ h l prof d, owned h l prof d → ∃ h' prof' d',
    op (Ptr (Some l)) h = Some (h', tt) ∧ owned h' l prof' d' ∧
    frame h (written l prof) h' (written l prof') ∧
    profile_at prof' d' = f (profile_at prof d).

Lemma refines_seq op1 op2 f1 f2 :
  refines op1 f1 → refines op2 f2 → refines (λ p, op1 p;; op2 p) (λ x, f2 (f1 x)).
Proof.
  intros H1 H2 h l prof d How.
  destruct (H1 h l prof d How) as (h1 & prof1 & d1 & E1 & How1 & F1 & P1).
  destruct (H2 h1 l prof1 d1 How1) as (h2 & prof2 & d2 & E2 & How2 & F2 & P2).
  exists h2, prof2, d2. unfold mbind, H_bind. rewrite E1.
  split; [exact E2|]. split; [exact How2|]. split; [by eapply frame_trans|by rewrite P2, P1].
Qed.

(** An operation that decides on the profile it reads. *)
Lemma refines_load (op : PackingProfile → profile_ptr → H cell unit) f :
  (∀ x, ∃ g, refines (op x) g ∧ f x = g x) → refines (λ p, x ← load_profile p; op x p) f.
Proof.
  intros Hop h l prof d How. destruct (Hop (profile_at prof d)) as (g & Hg & ->).
  destruct (Hg h l prof d How) as (h1 & prof1 & d1 & E1 & H1).
  exists h1, prof1, d1. split; [|exact H1].
  unfold mbind, H_bind. by rewrite (owned_load h l prof d How).
Qed.

Lemma setCondition_refines spare ty st reason msg now :
  refines (λ p, setCondition_mem spare p ty st reason msg now)
    (λ x, setCondition x ty st reason msg now).
Proof.
  intros h l prof d How.
  destruct (put_condition_ok h l prof d {| cond_Type := ty; cond_Status := st;
    cond_Reason := reason; cond_Message := msg;
    cond_LastTransitionTime := now ("setCondition/" +:+ ty) 0%nat |} spare How) as (h' & prof' & E & How' & F & Heq).
  exists h', prof'. eexists. split; [exact E|]. split; [exact How'|]. split; [exact F|].
  rewrite Heq. reflexivity.
Qed.

Lemma setLedgerReady_refines spare syncErr now :
  refines (λ p, setLedgerReadyCondition_mem spare p syncErr now)
    (λ x, setLedgerReadyCondition x syncErr now).
Proof. destruct syncErr; apply setCondition_refines. Qed.

Lemma setProfileValid_refines spare now :
  refines (λ p, setProfileValidCondition_mem spare p now) (λ x, setProfileValidCondition x now).
Proof.
  apply refines_load. intros x. unfold setProfileValidCondition.
  destruct (profile_issues x); eexists; (split; [apply setCondition_refines|done]).
Qed.

Lemma setInflightDetection_refines spare n ds all now :
  refines (λ p, setInflightDetectionCondition_mem spare p n ds all now)
    (λ x, setInflightDetectionCondition x n ds all now).
Proof. destruct all; [|cbn; destruct (0 <? n)]; apply setCondition_refines. Qed.

Lemma setReady_refines spare now :
  refines (λ p, setReadyCondition_mem spare p now) (λ x, setReadyCondition x now).
Proof.
  apply refines_load. intros x. unfold setReadyCondition.
  destruct (_ && _); eexists; (split; [apply setCondition_refines|done]).
Qed.

(** ** The whole report *)

Lemma set_counts_ok h l prof d g n (s : slice string) a :
  owned h l prof d → dload h s = Some a → (∀ k, k ∈ written l prof → k ∉ dfoot h s) →
  ∃ h' prof' d', set_counts_mem (Ptr (Some l)) g n s h = Some (h', tt) ∧ owned h' l prof' d' ∧
    frame h (written l prof) h' (written l prof') ∧
    profile_at prof' d' = set_counts (profile_at prof d) g n (default [] a).
Proof.
  intros How Hs Hsep. pose proof How as [Hv Hm Hsp Hd Hc Hr Hnd].
  unfold set_counts_mem, mbind, H_bind. rewrite (deref_ok h _ prof Hv).
  set (prof' := set_mem_status prof _).
  destruct (assign_ok h l prof prof' Hv) as (obj & -> & Hv').
  assert (frame h (written l prof) (<[l := obj]> h) (written l prof')) as F.
  { apply frame_insert; [left; left|by left]. }
  assert (∀ k, k ∈ rest_foot h prof → <[l := obj]> h !! k = h !! k) as Hrest.
  { intros k Hk. apply lookup_insert_ne. intros ->. by eapply Hr; [left|]. }
  destruct (rest_local h (<[l := obj]> h) prof d Hm Hsp Hd Hrest) as (Hm2 & Hsp2 & _ & Hf2).
  destruct (frame_load _ _ _ _ s a F Hs Hsep) as [Hs2 Hsep2].
  exists (<[l := obj]> h), prof', (Parts (pt_meta d) (pt_spec d) a (pt_conds d)).
  split; [done|]. split; [split; try done|split; [exact F|done]].
  - cbn. rewrite <- Hc. unfold slice_elems. cbn.
    destruct (slice_at (mst_Conditions (mpp_Status prof))) as [[[k o] m]|] eqn:E; [|done].
    rewrite lookup_insert_ne; [done|]. intros ->. unfold written in Hnd. rewrite E in Hnd.
    apply NoDup_cons in Hnd as [Hn _]. apply Hn. left.
  - intros k Hk Hin. change (written l prof') with (written l prof) in Hk.
    specialize (Hsep2 k Hk). specialize (Hr k Hk). rewrite <- Hf2 in Hr. unfold rest_foot in Hr, Hin.
    change (mpp_ObjectMeta prof') with (mpp_ObjectMeta prof) in Hin.
    change (mpp_Spec prof') with (mpp_Spec prof) in Hin.
    change (mst_ActiveDetectors (mpp_Status prof')) with s in Hin.
    rewrite !elem_of_app in Hr, Hin. tauto.
Qed.

Lemma report_status_ok spare h l prof d syncErr g n (s : slice string) a dets now :
  owned h l prof d → dload h s = Some a → (∀ k, k ∈ written l prof → k ∉ dfoot h s) →
  ∃ h' prof' d', report_status_mem spare (Ptr (Some l)) syncErr g n s dets now h = Some (h', tt) ∧
    owned h' l prof' d' ∧ frame h (written l prof) h' (written l prof') ∧
    profile_at prof' d' =
    set_counts (report_conditions (profile_at prof d) syncErr n (default [] a) dets now)
      g (wrap32 n) (default [] a).
Proof.
  intros How Hs Hsep.
  destruct (setLedgerReady_refines spare syncErr now h l prof d How)
    as (h1 & p1 & d1 & E1 & How1 & F1 & P1).
  destruct (frame_load _ _ _ _ s a F1 Hs Hsep) as [Hs1 Hsep1].
  destruct (set_counts_ok h1 l p1 d1 g (wrap32 n) s a How1 Hs1 Hsep1)
    as (h2 & p2 & d2 & E2 & How2 & F2 & P2).
  destruct (frame_load _ _ _ _ s a F2 Hs1 Hsep1) as [Hs2 Hsep2].
  destruct (setProfileValid_refines spare now h2 l p2 d2 How2)
    as (h3 & p3 & d3 & E3 & How3 & F3 & P3).
  destruct (frame_load _ _ _ _ s a F3 Hs2 Hsep2) as [Hs3 _].
  destruct (refines_seq _ _ _ _ (setInflightDetection_refines spare n (default [] a) dets now)
    (setReady_refines spare now) h3 l p3 d3 How3) as (h4 & p4 & d4 & E4 & How4 & F4 & P4).
  exists h4, p4, d4. split; [|split; [exact How4|split]].
  - unfold report_status_mem. unfold mbind at 1, H_bind at 1. rewrite E1.
    unfold mbind at 1, H_bind at 1. rewrite E2. unfold mbind at 1, H_bind at 1. rewrite E3.
    unfold mbind at 1, H_bind at 1, load_strings. rewrite Hs3. exact E4.
  - do 3 (eapply frame_trans; [eassumption|]). exact F4.
  - rewrite P4, P3, P2, P1, setProfileValid_counts, setInflight_counts, setReady_counts. done.
Qed.

(** A pointer to an object whose parts do not overlap owns them. *)
Lemma owned_intro h l dd :
  dload h (Ptr (Some l) : profile_ptr) = Some (Some dd) →
  NoDup (dfoot h (Ptr (Some l) : profile_ptr)) →
  ∃ prof d, owned h l prof d ∧ profile_at prof d = PackingProfile_of dd ∧
    ∀ k, k ∈ written l prof → k ∈ dfoot h (Ptr (Some l) : profile_ptr).
Proof.
  cbn [dload dfoot ptr_deep ptr_at]. intros (prof & Hv & (x & Hx & [= ->])%fmap_Some)%bind_Some.
  rewrite Hv. unfold PackingProfile_deep in *.
  cbn [dload dfoot deep_via pair_deep PackingProfile_tuple fst snd] in *.
  apply bind_Some in Hx as (tm & Htm & (r1 & Hr1 & [= <-])%bind_Some).
  apply bind_Some in Hr1 as (meta & Hmeta & (r2 & Hr2 & [= <-])%bind_Some).
  apply bind_Some in Hr2 as (spec & Hspec & (st & Hst & [= <-])%bind_Some).
  unfold PackingProfileStatus_deep in *.
  cbn [dload dfoot deep_via pair_deep PackingProfileStatus_tuple fst snd] in *.
  apply bind_Some in Hst as (g & [= <-] & (r3 & Hr3 & [= <-])%bind_Some).
  apply bind_Some in Hr3 as (n & [= <-] & (r4 & Hr4 & [= <-])%bind_Some).
  apply bind_Some in Hr4 as (dets & Hdets & (conds & Hconds & [= <-])%bind_Some).
  intros Hnd. change (dfoot h (mpp_TypeMeta prof)) with (@nil loc) in *.
  change (dfoot h (mst_ActiveGates _)) with (@nil loc) in *.
  change (dfoot h (mst_InflightNodes _)) with (@nil loc) in *. cbn [app] in *.
  assert (slice_elems h (mst_Conditions (mpp_Status prof)) = Some (default [] conds) ∧
    l :: dfoot h (mst_Conditions (mpp_Status prof)) = written l prof) as [Hel Hw].
  { unfold written, Condition_deep in *. cbn [dload dfoot slice_deep] in *. rewrite flat_foot.
    destruct (mst_Conditions (mpp_Status prof)) as [[[[k o] m]|]]; cbn [slice_at] in *.
    - apply bind_Some in Hconds as (vs & Hvs & (cs & Hcs & ->)%fmap_Some).
      rewrite flat_load in Hcs. injection Hcs as <-. done.
    - injection Hconds as <-. done. }
  set (F := rest_foot h prof). set (W := dfoot h (mst_Conditions (mpp_Status prof))) in *.
  assert (NoDup ((l :: F) ++ W)) as Hnd2.
  { unfold F, rest_foot. rewrite <- app_comm_cons, <- !app_assoc. exact Hnd. }
  exists prof, (Parts meta spec dets (default [] conds)). split; [split; try done|split; [done|]].
  - intros k Hk HF. rewrite <- Hw in Hk. apply elem_of_cons in Hk as [->|Hk].
    + apply NoDup_app, proj1, NoDup_cons in Hnd2 as [Hn _]. done.
    + apply NoDup_app in Hnd2 as (_ & Hn & _). apply (Hn k); [by right|done].
  - rewrite <- Hw. apply NoDup_cons. apply NoDup_app in Hnd2 as (_ & Hn & HW). split; [|done].
    apply Hn. left.
  - intros k. rewrite <- Hw, !elem_of_cons, !elem_of_app. tauto.
Qed.
End heap_status.

(** ** Property *)

(** C26: a status update leaves the cache alone.  The controller deep-copies the
    cached profile and writes the status through the copy.  These writes never
    panic, whatever the conditions are and wherever append puts a new one;
    the cached object denotes afterwards what it did, and the profile read
    through the pointer is the one that the updates of [Status] compute. *)
Theorem status_update_keeps_cache {K : Kube} {OM LM : Type} {AL : Allocator (cell OM LM)}
    {OMD LMD : Type} {MO : Metadata (cell OM LM) OM OMD} {ML : Metadata (cell OM LM) LM LMD}
    {O : MapOrder} (meta_name : OMD → string)
    (Condition_DeepCopyInto : Condition → H (cell OM LM) Condition) (spare : nat)
    (h h1 h2 : gmap loc (object (cell OM LM))) (cached p : ptr (PackingProfile_mem OM)) d
    (s : slice string) active syncErr gates n dets now :
  copies Condition_DeepCopyInto →
  dload h cached = Some (Some d) →
  PackingProfile_DeepCopy Condition_DeepCopyInto cached h = Some (h1, p) →
  h1 ⊆ h2 → dload h2 s = Some active → (∀ l, l ∈ dfoot h1 p → l ∉ dfoot h2 s) →
  ∃ h3, report_status_mem meta_name spare p syncErr gates n s dets now h2 = Some (h3, tt) ∧
    dload h3 cached = Some (Some d) ∧ (∀ l, is_Some (h !! l) → h3 !! l = h !! l) ∧
    load_profile meta_name p h3 =
    Some (h3, set_counts (report_conditions (PackingProfile_of meta_name d) syncErr n
                            (default [] active) dets now) gates (wrap32 n) (default [] active)).
Proof.
  intros HC Hd E Hh Hs Hsep.
  destruct (ptr_copies _ (PackingProfile_copies _ HC) h cached (Some d) Hd)
    as (h1' & p' & E' & [Hkeep Hl Hf Hn]).
  unfold PackingProfile_DeepCopy in E. rewrite E in E'. injection E' as <- <-.
  destruct (dload_mono h1 h2 p (Some d) Hh Hl) as [Hl2 Hfoot]. rewrite <- Hfoot in Hf, Hn, Hsep.
  destruct (dload_mono h h2 cached (Some d)) as [Hd2 Hfc]; [by etrans|done|].
  destruct p as [[l|]]; [|discriminate Hl2].
  destruct (owned_intro meta_name h2 l d Hl2 Hn) as (prof & pd & How & Hpd & Hw).
  destruct (report_status_ok meta_name spare h2 l prof pd syncErr gates n s active dets now)
    as (h3 & prof3 & d3 & Hrun & How3 & F & HP); [done|done|by intros k Hk%Hw; apply Hsep|].
  assert (∀ k, is_Some (h !! k) → h3 !! k = h !! k) as Hsame.
  { intros k [x Hx]. assert (h2 !! k = Some x) as Hx2 by (eapply lookup_weaken; [exact Hx|by etrans]).
    rewrite (fr_same _ _ _ _ F k); [by rewrite Hx, Hx2|by eexists|].
    intros Hin%Hw%Hf. congruence. }
  exists h3. split; [exact Hrun|]. split; [|split; [exact Hsame|]].
  - apply (dload_local h h3 cached (Some d) Hd). intros k Hk. apply Hsame.
    exact (dfoot_dom h cached (Some d) k Hd Hk).
  - rewrite (owned_load meta_name h3 l prof3 d3 How3), HP, Hpd. done.
Qed.

(** The profile of [cache], which has one condition, and the reconciler's slice
    of active detectors. *)
Definition cache_and_reconciler : gmap loc (object toy_cell) :=
  <[9%positive := Arr [CString "NotReady"]]> cache.

Definition active_detectors : slice string := Slice (Some (9%positive, 0%nat, 1%nat)).

Lemma cache_and_reconciler_loads : ∃ d, dload cache_and_reconciler cached = Some (Some d).
Proof. eexists. reflexivity. Qed.

Lemma status_update_keeps_cache_witness :
  ∃ h1 p h3 prof,
    PackingProfile_DeepCopy (O := order_forward) mret cached cache_and_reconciler = Some (h1, p) ∧
    report_status_mem (K := kube_milli) fst 3 p (Some (errors_New "timeout")) 2 1 active_detectors []
      (λ _ _, 7) h1 = Some (h3, tt) ∧
    dload h3 cached = dload cache_and_reconciler cached ∧
    load_profile fst p h3 = Some (h3, prof) ∧ st_ActiveGates (profile_Status prof) = 2 ∧
    st_ActiveDetectors (profile_Status prof) = ["NotReady"].
Proof.
  assert (copies (mret : Condition → H toy_cell Condition)) as HC by apply mret_copies.
  destruct cache_and_reconciler_loads as [d Hd].
  destruct (ptr_copies _ (PackingProfile_copies (O := order_forward) _ HC) _ cached (Some d) Hd)
    as (h1 & p & E & [Hk Hl Hf Hn]).
  destruct (dload_mono cache_and_reconciler h1 active_detectors (Some ["NotReady"]) Hk) as [Hs Hfs].
  { by vm_compute. }
  destruct (status_update_keeps_cache (K := kube_milli) (O := order_forward) fst mret 3
    cache_and_reconciler h1 h1 cached p d active_detectors (Some ["NotReady"])
    (Some (errors_New "timeout")) 2 1 [] (λ _ _, 7) HC Hd E) as (h3 & E3 & Hd3 & _ & HL).
  - done.
  - exact Hs.
  - intros l Hl'%Hf Hin. rewrite Hfs in Hin.
    apply list_elem_of_singleton in Hin as ->. discriminate Hl'.
  - eexists h1, p, h3, _. split; [exact E|]. split; [exact E3|].
    split; [by rewrite Hd3, Hd|]. split; [exact HL|]. split; reflexivity.
Defined.
