(* ===== verification/Decisions.v ===== *)
(** * The decisions of a reconciliation

    An abstract account of [Reconcile]: which decision it takes on a pod, as a
    relation on the cluster's answers, and the theorems that relate the
    handler's writes and results to that decision.  From it follow the safety
    of releases, their liveness and the invariant of the ledger over any
    sequence of reconciliations. *)

From stdpp Require Import relations.
From S2P Require Import Prelude GoStrings GoTime Kube Scheduling Ledger LedgerFit Reservations.
From S2P Require Import Rules Inflight Templates Status Release Sync Rebuild Reconcile.

Section decisions.
Context {K : Kube} {O : MapOrder}.

(** ** Writes *)

Definition patch_of (e : effect) : option (Pod * Pod) :=
  match e with PatchPod from to => Some (from, to) | _ => None end.
Definition patches (es : list effect) : list (Pod * Pod) := omap patch_of es.

Definition status_of (e : effect) : option PackingProfile :=
  match e with UpdateStatus p => Some p | _ => None end.
Definition statuses (es : list effect) : list PackingProfile := omap status_of es.

Lemma patches_app e1 e2 : patches (e1 ++ e2) = patches e1 ++ patches e2.
Proof. apply omap_app. Qed.
Lemma statuses_app e1 e2 : statuses (e1 ++ e2) = statuses e1 ++ statuses e2.
Proof. apply omap_app. Qed.

(** Effects that write neither pods nor profiles. *)
Definition silent (es : list effect) : Prop := patches es = [] ∧ statuses es = [].

Lemma silent_nil : silent [].
Proof. done. Qed.

Lemma silent_app e1 e2 : silent e1 → silent e2 → silent (e1 ++ e2).
Proof.
  intros [H1 H2] [H3 H4]. split; rewrite ?patches_app, ?statuses_app; by rewrite ?H1, ?H2, ?H3, ?H4.
Qed.

Lemma recordRelease_run env pod pn reason target r :
  ∃ es, recordRelease env pod pn reason target r = (r, es, tt) ∧ silent es.
Proof.
  unfold recordRelease, mbind, M_bind, emit, mret, M_ret.
  destruct (IsZero _); cbn; eexists; by split; [|split].
Qed.

Lemma detect_chain_silent ds reader now : silent (detect_chain ds reader now).1.2.
Proof.
  induction ds as [|d ds IH]; cbn [detect_chain]; [done|].
  destruct (Detector_Detect d reader now) as [d' [[|n nodes]|e]]; [|done|].
  all: destruct (detect_chain ds reader now) as [[ds' es] [found active]]; by destruct IH.
Qed.

Lemma syncLedger_silent env profile pod r : silent (syncLedger env profile pod r).1.2.
Proof.
  rewrite syncLedger_run. destruct (env_ListNodes env); [|done].
  destruct (env_ListPods env); [|done].
  pose proof (detect_chain_silent (r_Detectors r) (reader_of env r) (env_now env)) as H.
  destruct (detect_chain _ _ _) as [[ds es] [found active]]. by apply silent_app.
Qed.

(** ** The loop over the rules *)

(** The evaluation of the rules, with the target chosen so far and the ledger
    each rule leaves. *)
Inductive rules_run (pod : Pod) (profile : PackingProfile) :
    nat → list RuleRef → string → NodeLedger → NodeLedger → rules_outcome → Prop :=
  | rr_done i t l : rules_run pod profile i [] t l l (RulesRelease t)
  | rr_unknown i ref refs t l l' o :
      Registry !! ruleref_Name ref = None →
      rules_run pod profile (S i) refs t l l' o →
      rules_run pod profile i (ref :: refs) t l l' o
  | rr_release i ref refs t l l1 l' o rule v :
      Registry !! ruleref_Name ref = Some rule →
      rule_Evaluate rule (sub_order O ("rule/" +:+ pretty (Z.of_nat i))) pod l profile = (v, l1) →
      v_release v = true →
      rules_run pod profile (S i) refs
        (if bool_decide (v_nodeName v = "") then t else v_nodeName v) l1 l' o →
      rules_run pod profile i (ref :: refs) t l l' o
  | rr_hold i ref refs t l l1 rule v :
      Registry !! ruleref_Name ref = Some rule →
      rule_Evaluate rule (sub_order O ("rule/" +:+ pretty (Z.of_nat i))) pod l profile = (v, l1) →
      v_release v = false →
      rules_run pod profile i (ref :: refs) t l l1 (RulesHold (ruleref_Name ref)).

Lemma run_rules_run env pod profile pn i refs t r :
  ∃ l' es o, run_rules env pod profile pn i refs t r = (set_Ledger r l', es, o) ∧
    rules_run pod profile i refs t (r_Ledger r) l' o ∧ silent es.
Proof.
  revert i t r. induction refs as [|ref refs IH]; intros i t r; cbn [run_rules].
  { exists (r_Ledger r), [], (RulesRelease t). split; [by destruct r|]. split; [constructor|done]. }
  destruct (Registry !! ruleref_Name ref) as [rule|] eqn:Hr.
  2:{ destruct (IH (S i) t r) as (l' & es & o & -> & Hrun & Hs).
      exists l', es, o. split; [done|]. split; [by apply rr_unknown|done]. }
  unfold mbind, M_bind, evaluate_rule, emit, mret, M_ret.
  destruct (rule_Evaluate rule _ pod (r_Ledger r) profile) as [v l1] eqn:Hv.
  assert (v_err v = None) as Herr.
  { pose proof (Evaluate_no_error (O := sub_order O ("rule/" +:+ pretty (Z.of_nat i)))
      pod (r_Ledger r) profile (rule_Evaluate rule)) as H.
    rewrite Hv in H. apply H. by destruct (Registry_Evaluate _ _ Hr) as [->| ->]; auto. }
  rewrite Herr. destruct (v_release v) eqn:Hrel.
  - destruct (IH (S i) (if negb (bool_decide (v_nodeName v = "")) then v_nodeName v else t)
      (set_Ledger r l1)) as (l' & es & o & E & Hrun & Hs).
    cbn. rewrite E. do 3 eexists. split; [done|]. split; [|by destruct Hs].
    eapply rr_release; [done..|]. by case_bool_decide.
  - cbn. do 3 eexists. split; [done|]. split; [|done]. by eapply rr_hold.
Qed.

(** ** Decisions *)

Inductive decision :=
  | Ignore
  | Fail (e : goerror)
  | Retry
  | Hold (pod : Pod) (rule : string)
  | ReleasePod (pod : Pod) (reason target : string).

(** The pod Kompakt has to decide on, and the profile it names. *)
Definition gated (env : Env) (pod : Pod) (profileName : string) : Prop :=
  env_GetPod env = Ok pod ∧ hasKompaktGates pod = true ∧
  slookup (pod_Labels pod) LabelProfile = Some profileName.

(** The rebuild succeeded and left [r1]. *)
Definition synced (env : Env) (r : Reconciler) (pod : Pod) (profileName : string)
    (profile : PackingProfile) (r1 : Reconciler) : Prop :=
  gated env pod profileName ∧ env_GetProfile env profileName = Ok profile ∧
  ∃ es, syncLedger env profile pod r = (r1, es, None).

(** Neither of the unconditional reasons applies. *)
Definition evaluates (env : Env) (pod : Pod) (profile : PackingProfile) : Prop :=
  sget (pod_Annotations pod) AnnotationPriority ≠ "high" ∧
  isTimedOut pod profile (env_now env) = false.

(** The decision, the reconciler it leaves and the profile whose status is
    reported, with the rebuild's error. *)
Inductive decides (env : Env) (r : Reconciler) :
    decision → Reconciler → option (PackingProfile * option goerror) → Prop :=
  | d_gone e : env_GetPod env = Err e → err_NotFound e = true → decides env r Ignore r None
  | d_unread e : env_GetPod env = Err e → err_NotFound e = false → decides env r (Fail e) r None
  | d_ungated pod :
      env_GetPod env = Ok pod →
      hasKompaktGates pod = false ∨ slookup (pod_Labels pod) LabelProfile = None →
      decides env r Ignore r None
  | d_no_profile pod pn e :
      gated env pod pn → env_GetProfile env pn = Err e → err_NotFound e = true →
      decides env r (ReleasePod pod "profile_not_found" "") r None
  | d_profile_unread pod pn e :
      gated env pod pn → env_GetProfile env pn = Err e → err_NotFound e = false →
      decides env r (Fail e) r None
  | d_unsynced pod pn profile r1 es e :
      gated env pod pn → env_GetProfile env pn = Ok profile →
      syncLedger env profile pod r = (r1, es, Some e) →
      decides env r Retry r1 (Some (profile, Some e))
  | d_priority pod pn profile r1 :
      synced env r pod pn profile r1 →
      sget (pod_Annotations pod) AnnotationPriority = "high" →
      decides env r (ReleasePod pod "priority" "") r1 (Some (profile, None))
  | d_timeout pod pn profile r1 :
      synced env r pod pn profile r1 →
      sget (pod_Annotations pod) AnnotationPriority ≠ "high" →
      isTimedOut pod profile (env_now env) = true →
      decides env r (ReleasePod pod "timeout" "") r1 (Some (profile, None))
  | d_hold pod pn profile r1 l' rule :
      synced env r pod pn profile r1 → evaluates env pod profile →
      rules_run pod profile 0 (spec_Rules (profile_Spec profile)) "" (r_Ledger r1) l'
        (RulesHold rule) →
      decides env r (Hold pod rule) (set_Ledger r1 l') (Some (profile, None))
  | d_capacity pod pn profile r1 l' target :
      synced env r pod pn profile r1 → evaluates env pod profile →
      rules_run pod profile 0 (spec_Rules (profile_Spec profile)) "" (r_Ledger r1) l'
        (RulesRelease target) →
      decides env r (ReleasePod pod "capacity" target) (set_Ledger r1 l') (Some (profile, None)).

(** What a decision means: the one write to the pod, if any, and the
    handler's result. *)
Definition decision_patches (d : decision) : list (Pod * Pod) :=
  match d with
  | ReleasePod pod reason target => [(pod, released_pod pod target reason)]
  | Hold pod rule =>
      match annotated_pod pod AnnotationHeldBy rule with Some p => [(pod, p)] | None => [] end
  | _ => []
  end.

Definition decision_result (env : Env) (d : decision) : ctrl_result :=
  match d with
  | Ignore => (0, None)
  | Fail e => (0, Some e)
  | Retry | Hold _ _ => (Second, None)
  | ReleasePod pod reason target => (0, env_Patch env pod (released_pod pod target reason))
  end.

(** The status a reconciliation reports. *)
Definition reported_status (env : Env) (r' : Reconciler)
    (s : option (PackingProfile * option goerror)) : list PackingProfile :=
  match s with
  | None => []
  | Some (profile, syncErr) =>
      match env_ListPodsByProfile env (profile_Name profile) with
      | Err _ => []
      | Ok pods =>
          let n := Z.of_nat (size (inflight (r_Ledger r'))) in
          [set_counts (report_conditions profile syncErr n (r_activeDetectors r')
                         (r_Detectors r') (env_now env))
             (count_gates pods) (wrap32 n) (r_activeDetectors r')]
      end
  end.

Lemma updateProfileStatus_run env profile syncErr r :
  ∃ es err, updateProfileStatus env (setLedgerReadyCondition profile syncErr (env_now env)) r
    = (r, es, err) ∧
    patches es = [] ∧ statuses es = reported_status env r (Some (profile, syncErr)).
Proof.
  unfold updateProfileStatus, reported_status.
  replace (profile_Name (setLedgerReadyCondition profile syncErr (env_now env)))
    with (profile_Name profile) by (by destruct syncErr).
  destruct (env_ListPodsByProfile env (profile_Name profile)) as [pods|e].
  - unfold mbind, M_bind, get_reconciler, emit, mret, M_ret. cbn [InflightCount Snapshot].
    do 2 eexists. split; [done|]. split; [done|].
    rewrite setProfileValid_counts, setInflight_counts, setReady_counts. done.
  - do 2 eexists. by split.
Qed.

Lemma annotatePod_run env pod rule r :
  ∃ es err, annotatePod env pod AnnotationHeldBy rule r = (r, es, err) ∧
    patches es = decision_patches (Hold pod rule) ∧ statuses es = [].
Proof.
  unfold annotatePod, decision_patches.
  destruct (annotated_pod pod AnnotationHeldBy rule); do 2 eexists; by split_and!.
Qed.

Lemma release_run {A} env pod pn reason target (f : option goerror → A) r :
  ∃ es, (recordRelease env pod pn reason target;;
         err ← releaseGatesWithAffinity env pod target reason;
         mret (f err)) r
    = (r, es, f (env_Patch env pod (released_pod pod target reason))) ∧
    patches es = decision_patches (ReleasePod pod reason target) ∧ statuses es = [].
Proof.
  destruct (recordRelease_run env pod pn reason target r) as (es & E & Hp & Hs).
  unfold mbind, M_bind. rewrite E. unfold releaseGatesWithAffinity, emit, mret, M_ret.
  unfold mbind, M_bind. eexists. split; [done|].
  rewrite patches_app, statuses_app, Hp, Hs. done.
Qed.

Lemma bind_run {A B} (m : M A) (f : A → M B) r r1 e1 a r2 e2 b :
  m r = (r1, e1, a) → f a r1 = (r2, e2, b) → (m ≫= f) r = (r2, e1 ++ e2, b).
Proof. intros E1 E2. unfold mbind, M_bind. by rewrite E1, E2. Qed.

(** After a rebuild: the unconditional reasons, then the rules. *)
Lemma after_sync_run env pod pn profile r r1 :
  synced env r pod pn profile r1 →
  ∃ r' es d, (if bool_decide (sget (pod_Annotations pod) AnnotationPriority = "high") then
        recordRelease env pod pn "priority" "";;
        err ← releaseGates env pod "priority"; mret ((0, err), None)
      else if isTimedOut pod profile (env_now env) then
        recordRelease env pod pn "timeout" "";;
        err ← releaseGates env pod "timeout"; mret ((0, err), None)
      else
        outcome ← run_rules env pod profile pn 0 (spec_Rules (profile_Spec profile)) "";
        match outcome with
        | RulesError => mret ((Second, None), None)
        | RulesHold holdingRule =>
            annotatePod env pod AnnotationHeldBy holdingRule;; mret ((Second, None), None)
        | RulesRelease targetNode =>
            recordRelease env pod pn "capacity" targetNode;;
            err ← releaseGatesWithAffinity env pod targetNode "capacity";
            mret ((0, err), None)
        end) r1 = (r', es, (decision_result env d, @None goerror)) ∧
    decides env r d r' (Some (profile, None)) ∧
    patches es = decision_patches d ∧ statuses es = [].
Proof.
  intros Hsy. case_bool_decide as Hhigh.
  { destruct (release_run env pod pn "priority" "" (λ err, ((0, err), @None goerror)) r1)
      as (es & E & Hp & Hs).
    exists r1, es, (ReleasePod pod "priority" ""). split; [exact E|].
    split; [by eapply d_priority|done]. }
  destruct (isTimedOut pod profile (env_now env)) eqn:Ht.
  { destruct (release_run env pod pn "timeout" "" (λ err, ((0, err), @None goerror)) r1)
      as (es & E & Hp & Hs).
    exists r1, es, (ReleasePod pod "timeout" ""). split; [exact E|].
    split; [by eapply d_timeout|done]. }
  destruct (run_rules_run env pod profile pn 0 (spec_Rules (profile_Spec profile)) "" r1)
    as (l' & e1 & o & Er & Hrun & Hp1 & Hs1).
  destruct o as [|rule|target].
  - exfalso. clear Er. revert Hrun. generalize 0%nat, "", (r_Ledger r1). intros i t l0 Hrun.
    remember RulesError as o eqn:Ho. induction Hrun; done || auto.
  - destruct (annotatePod_run env pod rule (set_Ledger r1 l')) as (e2 & err & Ea & Hp2 & Hs2).
    eexists (set_Ledger r1 l'), _, (Hold pod rule). split.
    { eapply bind_run; [exact Er|]. eapply bind_run; [exact Ea|]. done. }
    split; [by eapply d_hold|].
    by rewrite !patches_app, !statuses_app, Hp1, Hs1, Hp2, Hs2, !app_nil_r.
  - destruct (release_run env pod pn "capacity" target (λ err, ((0, err), @None goerror))
      (set_Ledger r1 l')) as (e2 & Ea & Hp2 & Hs2).
    eexists (set_Ledger r1 l'), _, (ReleasePod pod "capacity" target). split.
    { eapply bind_run; [exact Er|]. exact Ea. }
    split; [by eapply d_capacity|].
    by rewrite !patches_app, !statuses_app, Hp1, Hs1, Hp2, Hs2.
Qed.

(** The body under the deferred status update. *)
Lemma reconcile_profile_run env pod pn profile r :
  gated env pod pn → env_GetProfile env pn = Ok profile →
  ∃ r' es d syncErr, reconcile_profile env pod pn profile r
    = (r', es, (decision_result env d, syncErr)) ∧
    decides env r d r' (Some (profile, syncErr)) ∧
    patches es = decision_patches d ∧ statuses es = [].
Proof.
  intros Hg Hp. unfold reconcile_profile.
  pose proof (syncLedger_silent env profile pod r) as Hsil.
  destruct (syncLedger env profile pod r) as [[r1 e1] [e|]] eqn:Hsync;
    cbn [fst snd] in Hsil; destruct Hsil as [Hsp Hss].
  { exists r1, (e1 ++ []), Retry, (Some e). split; [by eapply bind_run|].
    split; [by eapply d_unsynced|]. by rewrite app_nil_r. }
  destruct (after_sync_run env pod pn profile r r1) as (r' & e2 & d & E & Hd & Hp2 & Hs2);
    [by split_and!; eauto|].
  exists r', (e1 ++ e2), d, None. split; [eapply bind_run; [exact Hsync|exact E]|].
  split; [done|]. by rewrite patches_app, statuses_app, Hsp, Hss, Hp2, Hs2.
Qed.

Lemma Reconcile_run env r :
  ∃ r' es d s, Reconcile env r = (r', es, decision_result env d) ∧ decides env r d r' s ∧
    patches es = decision_patches d ∧ statuses es = reported_status env r' s.
Proof.
  unfold Reconcile. destruct (env_GetPod env) as [pod|e] eqn:Hpod.
  2:{ destruct (err_NotFound e) eqn:He; unfold mret, M_ret.
      - exists r, [], Ignore, None. split_and!; [done|by eapply d_gone|done..].
      - exists r, [], (Fail e), None. split_and!; [done|by eapply d_unread|done..]. }
  destruct (hasKompaktGates pod) eqn:Hg; cbn [negb].
  2:{ exists r, [], Ignore, None. split_and!; [done|eapply d_ungated; [done|by left]|done..]. }
  destruct (slookup (pod_Labels pod) LabelProfile) as [pn|] eqn:Hl.
  2:{ exists r, [], Ignore, None. split_and!; [done|eapply d_ungated; [done|by right]|done..]. }
  assert (gated env pod pn) as Hgated by done.
  destruct (env_GetProfile env pn) as [profile|e] eqn:Hp.
  - destruct (reconcile_profile_run env pod pn profile r Hgated Hp)
      as (r' & e1 & d & syncErr & E & Hd & Hp1 & Hs1).
    destruct (updateProfileStatus_run env profile syncErr r') as (e2 & err & E2 & Hp2 & Hs2).
    eexists r', _, d, _. split; [|split; [exact Hd|]].
    { eapply bind_run; [exact E|]. cbn beta iota. eapply bind_run; [exact E2|]. done. }
    by rewrite !patches_app, !statuses_app, Hp1, Hs1, Hp2, Hs2, !app_nil_r.
  - destruct (err_NotFound e) eqn:He.
    + destruct (release_run env pod pn "profile_not_found" "" (λ err, (0, err)) r)
        as (es & E & Hp1 & Hs1).
      exists r, es, (ReleasePod pod "profile_not_found" ""), None.
      split_and!; [exact E|by eapply d_no_profile|done..].
    + exists r, [], (Fail e), None. split_and!; [done|by eapply d_profile_unread|done..].
Qed.
End decisions.
