(* ===== verification/Safety.v ===== *)
(** * Safety and liveness of releases

    What a cluster can rely on when Kompakt reconciles its pods: which pods are
    written, where they may be sent, that no pod is held past its timeout, what
    the profile's status says, and that the ledger stays well formed over any
    sequence of reconciliations. *)

From stdpp Require Import relations.
From S2P Require Import Prelude GoStrings GoTime Kube Scheduling Ledger LedgerFit Reservations.
From S2P Require Import Rules Inflight Templates Status Release Sync Rebuild Reconcile.
From S2P Require Import Decisions.

Section evaluation.
Context {K : Kube}.

Definition demand_of (pod : Pod) (profile : PackingProfile) : gmap string Z :=
  ExtractDemand pod (spec_DemandSource (profile_Spec profile)).

(** An evaluation reserves the pod's demand on one entry where it fits, or
    nothing; a node it names is an existing one that suits the pod. *)
Lemma Evaluate_effect {O : MapOrder} name rule pod l profile v l1 :
  Registry !! name = Some rule → ledger_wf l →
  rule_Evaluate rule O pod l profile = (v, l1) →
  (l1 = l ∨ ∃ k n, findEntry l k = Some n ∧ fits n (demand_of pod profile) ∧
     l1 = reserve_at l k (demand_of pod profile)) ∧
  (v_nodeName v = "" ∨ ∃ n, nodes l !! v_nodeName v = Some n ∧
     fits n (demand_of pod profile) ∧ node_matches n (extractConstraints pod)).
Proof.
  intros Hr Hwf. unfold demand_of.
  destruct (Registry_Evaluate _ _ Hr) as [->| ->];
    rewrite ?WaitForNodeReady_cases, ?WaitForWorkloadPacking_cases by done;
    destruct (map_empty _); try (intros [= <- <-]; by split; left).
  - destruct (FindFit _ _ _) as [[k [|]]|e] eqn:HF; intros [= <- <-]; [| |by split; left];
      destruct (FindFit_sound _ _ _ _ _ (proj1 Hwf) HF) as (n & Hs & Hf & Hm);
      pose proof (findEntry_of_side _ _ _ _ (proj2 Hwf) Hs) as He;
      (split; [right; by exists k, n|]); [by left|right].
    exists n. split; [done|]. split; [done|]. by apply Hm.
  - destruct (FindFitExisting _ _ _) as [k|e] eqn:HF; intros [= <- <-]; [|by split; left].
    destruct (FindFitExisting_sound _ _ _ _ (proj1 Hwf) HF) as (n & Hs & Hf & Hm).
    pose proof (findEntry_of_side _ false _ _ (proj2 Hwf) Hs) as He.
    split; [right; by exists k, n|right]. exists n. split; [done|]. split; [done|]. by apply Hm.
Qed.

Lemma Evaluate_ok {O : MapOrder} name rule pod l profile v l1 :
  Registry !! name = Some rule → ledger_ok l →
  rule_Evaluate rule O pod l profile = (v, l1) → ledger_ok l1.
Proof.
  intros Hr Hl Hv.
  destruct (Evaluate_effect _ _ _ _ _ _ _ Hr (ledger_ok_wf _ Hl) Hv) as [[->|(k & n & _ & _ & ->)] _];
    [done|]. by apply ledger_ok_reserve_at.
Qed.

(** A node of [l1] is a node of [l] on which at most more is reserved. *)
Definition reserves_more (demand : gmap string Z) (l l1 : NodeLedger) : Prop :=
  ∀ k n1, nodes l1 !! k = Some n1 → ∃ n, nodes l !! k = Some n ∧
    (∀ c, node_matches n1 c → node_matches n c) ∧
    (nonneg demand → ∀ r, available n1 r ≤ available n r).

#[global] Instance reserves_more_refl demand : Reflexive (reserves_more demand).
Proof. intros l k n1 H. exists n1. split; [done|]. split; [done|]. intros _ r. lia. Qed.

#[global] Instance reserves_more_trans demand : Transitive (reserves_more demand).
Proof.
  intros l l1 l2 H1 H2 k n2 Hn2. destruct (H2 k n2 Hn2) as (n1 & Hn1 & Hm1 & Ha1).
  destruct (H1 k n1 Hn1) as (n & Hn & Hm & Ha). exists n. split; [done|].
  split; [by auto|]. intros Hd r. specialize (Ha1 Hd r). specialize (Ha Hd r). lia.
Qed.

Lemma reserve_at_more demand l k n :
  findEntry l k = Some n → fits n demand → reserves_more demand l (reserve_at l k demand).
Proof.
  intros Hn Hf k' n1. unfold reserve_at. rewrite Hn, writeEntry_nodes.
  case_decide as Hk; [subst k'|intros H; exists n1; split; [done|]; split; [done|]; intros _ r; lia].
  intros [n0 [H0 ->]]%fmap_Some. exists n0. split; [done|].
  unfold findEntry in Hn. rewrite H0 in Hn. injection Hn as ->. split; [done|].
  intros Hd r. rewrite available_reserve. destruct (demand !! r) as [q|] eqn:Hq; [|lia].
  specialize (Hf r q Hq). specialize (Hd r q Hq). cbn in Hf, Hd.
  pose proof (available_int64 n r). rewrite sub64_exact by int64_lia. lia.
Qed.

(** The ledger along the rules, and the target they choose. *)
Lemma rules_run_ok {O : MapOrder} pod profile i refs t l l' o :
  rules_run pod profile i refs t l l' o → ledger_ok l → ledger_ok l'.
Proof.
  induction 1; intros Hl; [done|auto|apply IHrules_run|]; by eapply (Evaluate_ok (O := sub_order _ _)).
Qed.

Lemma rules_run_target {O : MapOrder} pod profile i refs t l l' target :
  rules_run pod profile i refs t l l' (RulesRelease target) → ledger_ok l →
  target = t ∨ ∃ n, nodes l !! target = Some n ∧ node_matches n (extractConstraints pod) ∧
    (nonneg (demand_of pod profile) → fits n (demand_of pod profile)).
Proof.
  intros Hrun. remember (RulesRelease target) as o eqn:Ho.
  induction Hrun as [i t l|i ref refs t l l' o Hr Hrun IH
    |i ref refs t l l1 l' o rule v Hr Hv Hrel Hrun IH|]; intros Hok.
  - injection Ho as ->. by left.
  - by apply IH.
  - pose proof (Evaluate_ok _ _ _ _ _ _ _ Hr Hok Hv) as Hok1.
    destruct (Evaluate_effect _ _ _ _ _ _ _ Hr (ledger_ok_wf _ Hok) Hv) as [Hl1 Hname].
    assert (reserves_more (demand_of pod profile) l l1) as Hmore.
    { destruct Hl1 as [->|(k & n & Hn & Hf & ->)]; [done|]. by eapply reserve_at_more. }
    destruct (IH Ho Hok1) as [->|(n1 & Hn1 & Hm1 & Hf1)].
    + case_bool_decide as He; [by left|right].
      destruct Hname as [?|(n & Hn & Hf & Hm)]; [done|]. by exists n.
    + right. destruct (Hmore _ _ Hn1) as (n & Hn & Hm & Ha). exists n.
      split; [done|]. split; [by auto|]. intros Hd r q Hq.
      specialize (Hf1 Hd r q Hq). specialize (Ha Hd r). cbn in Hf1 |- *. lia.
  - done.
Qed.
End evaluation.

Section cluster.
Context {K : Kube} {O : MapOrder}.

(** What the API server guarantees of the nodes it lists. *)
Definition nodes_valid (env : Env) : Prop :=
  ∀ nodeList, env_ListNodes env = Ok nodeList →
    nodes_named nodeList ∧ NoDup (node_Name <$> nodeList).

Lemma synced_lists env r pod pn profile r1 :
  synced env r pod pn profile r1 →
  ∃ nodeList podList found, env_ListNodes env = Ok nodeList ∧ env_ListPods env = Ok podList ∧
    r_Ledger r1 = rebuilt profile pod (r_Ledger r) nodeList podList found.
Proof.
  intros (_ & _ & es & E). rewrite syncLedger_run in E.
  destruct (env_ListNodes env) as [nodeList|]; [|by injection E].
  destruct (env_ListPods env) as [podList|]; [|by injection E].
  destruct (detect_chain _ _ _) as [[ds es'] [found active]]. injection E as <- _.
  by exists nodeList, podList, found.
Qed.

Lemma synced_ok env r pod pn profile r1 :
  nodes_valid env → synced env r pod pn profile r1 → ledger_ok (r_Ledger r) →
  ledger_ok (r_Ledger r1).
Proof.
  intros Hv (_ & _ & es & E) Hl. pose proof (ledger_ok_sync env profile pod r) as H.
  rewrite E in H. apply H; [|done]. intros ns Hns. by apply Hv.
Qed.

(** Every decision keeps the ledger well formed. *)
Lemma decides_ok env r d r' s :
  nodes_valid env → decides env r d r' s → ledger_ok (r_Ledger r) → ledger_ok (r_Ledger r').
Proof.
  intros Hv Hd Hl. destruct Hd as [| | | | |pod pn profile r1 es e Hg Hp Hs| | | |]; try done.
  - pose proof (ledger_ok_sync env profile pod r) as H. rewrite Hs in H.
    apply H; [|done]. intros ns Hns. by apply Hv.
  - by eapply synced_ok.
  - by eapply synced_ok.
  - eapply rules_run_ok; [done|]. by eapply synced_ok.
  - eapply rules_run_ok; [done|]. by eapply synced_ok.
Qed.

(** When nodes and pods can be listed, the rebuild succeeds. *)
Lemma lists_synced env r pod pn profile :
  gated env pod pn → env_GetProfile env pn = Ok profile →
  is_Ok (env_ListNodes env) = true → is_Ok (env_ListPods env) = true →
  ∃ r1, synced env r pod pn profile r1.
Proof.
  intros Hg Hp Hn Hpods. assert (∃ r1 es, syncLedger env profile pod r = (r1, es, None))
    as (r1 & es & E); [|by exists r1; split_and!; eauto].
  rewrite syncLedger_run. destruct (env_ListNodes env); [|done].
  destruct (env_ListPods env); [|done].
  destruct (detect_chain _ _ _) as [[ds es] [found active]]. by eexists _, _.
Qed.
End cluster.

(** ** Properties *)

Section properties.
Context {K : Kube} {O : MapOrder}.

(** C2: the handler follows the decision table.  Every reconciliation takes one
    of the decisions of [decides]: ignore a pod that is gone, ungated or
    unlabelled; report a failed read; release a pod whose profile is missing;
    retry after a failed rebuild; release for priority, then for timeout; else
    hold at the first rule that does not release, or release to the target the
    rules chose.  Its writes to pods are exactly those of the decision, its
    result is the decision's, and the status is written once, with the
    conditions and counts of the ledger it leaves, exactly when the profile
    was read and its pods can be listed. *)
Theorem Reconcile_decides env r :
  let '(r', es, res) := Reconcile env r in
  ∃ d s, decides env r d r' s ∧ patches es = decision_patches d ∧
    res = decision_result env d ∧ statuses es = reported_status env r' s.
Proof.
  destruct (Reconcile_run env r) as (r' & es & d & s & -> & Hd & Hp & Hs).
  by exists d, s.
Qed.

(** Nothing but the annotations with these keys, the gates and the affinity
    tell [p] from [pod]. *)
Definition only_writes (keys : list string) (pod p : Pod) : Prop :=
  p = set_Affinity (set_SchedulingGates (set_Annotations pod (pod_Annotations p))
        (pod_SchedulingGates p)) (pod_Affinity p) ∧
  ∀ k, k ∉ keys → slookup (pod_Annotations p) k = slookup (pod_Annotations pod) k.

(** What a hold and a release may write. *)
Definition hold_writes (pod p : Pod) : Prop :=
  only_writes [AnnotationHeldBy] pod p ∧
  pod_SchedulingGates p = pod_SchedulingGates pod ∧ pod_Affinity p = pod_Affinity pod.

Definition release_writes (pod p : Pod) : Prop :=
  only_writes [AnnotationHeldBy; AnnotationNode; AnnotationReason] pod p ∧
  pod_SchedulingGates p = List.filter (λ g, negb (kompakt_gate g)) (pod_SchedulingGates pod) ∧
  (pod_Affinity p = pod_Affinity pod ∨
   ∃ target, target ≠ "" ∧ slookup (pod_Annotations p) AnnotationNode = Some target ∧
     pod_Affinity p = pin_affinity (pod_Affinity pod) target).

Lemma annotated_hold_writes pod rule p :
  annotated_pod pod AnnotationHeldBy rule = Some p → hold_writes pod p.
Proof.
  unfold annotated_pod. destruct (_ && _); [done|]. intros [= <-].
  split; [|done]. split; [by destruct pod|]. intros k Hk.
  cbn [pod_Annotations set_Annotations]. rewrite slookup_sinsert.
  rewrite decide_False; [done|]. intros <-. apply Hk. left.
Qed.

Lemma released_release_writes pod target reason :
  release_writes pod (released_pod pod target reason).
Proof.
  split_and!.
  - split.
    + unfold released_pod. case_bool_decide; by destruct pod.
    + intros k Hk. rewrite released_annotations. rewrite !elem_of_cons in Hk.
      repeat case_decide; naive_solver.
  - unfold released_pod. case_bool_decide; apply remaining_gates_filter.
  - destruct (decide (target = "")) as [->|Ht]; [by left|right]. exists target.
    split; [done|]. rewrite released_annotations. unfold released_pod.
    rewrite bool_decide_false by done. by rewrite decide_False, decide_True.
Qed.

(** C12: only gated pods are written, and only in three places.  A
    reconciliation writes at most one pod, and only the one it was asked
    about, which carries a gate of Kompakt and names a profile.  A held pod
    gets the annotation of the holding rule and nothing else.  A released pod
    loses Kompakt's gates and keeps those of others in their order, changes in
    the annotations of the holding rule, the node and the reason and in no
    other, and keeps its affinity unless a node is named, to which it is then
    pinned.  Every other field is written back as it was read. *)
Theorem writes_only_gated env r :
  let '(_, es, _) := Reconcile env r in
  patches es = [] ∨
  ∃ pod pn p, patches es = [(pod, p)] ∧ gated env pod pn ∧
    (hold_writes pod p ∨ release_writes pod p).
Proof.
  destruct (Reconcile_run env r) as (r' & es & d & s & -> & Hd & -> & _).
  destruct Hd as [| | | | | |pod pn profile r1 (Hg & _)|pod pn profile r1 (Hg & _)
    |pod pn profile r1 l' rule (Hg & _)|pod pn profile r1 l' target (Hg & _)];
    cbn [decision_patches]; try (by left);
    try (right; eexists _, _, _; split; [done|]; split; [done|right; apply released_release_writes]).
  destruct (annotated_pod _ _ _) as [p|] eqn:E; [right|by left].
  exists pod, pn, p. split; [done|]. split; [done|left]. by eapply annotated_hold_writes.
Qed.

(** C1: a pod is only sent where it fits.  When the ledger is well formed and
    the API server lists nodes with valid and unique names, a release with a
    target happens for capacity only; the target is a listed node that is not
    being deleted, on which the pod's tolerations and selector hold, and every
    demanded amount is at most what the node has allocatable, less the
    requests of the unfinished pods on it, less the reservations made before,
    in whatever order the rules ran and maps were visited. *)
Theorem released_where_it_fits env r :
  ledger_ok (r_Ledger r) → nodes_valid env →
  let '(r', es, _) := Reconcile env r in
  ∃ d s, decides env r d r' s ∧ patches es = decision_patches d ∧
  ∀ pod reason target, d = ReleasePod pod reason target → target ≠ "" →
  reason = "capacity" ∧
  ∃ pn profile nodeList podList node,
    gated env pod pn ∧ env_GetProfile env pn = Ok profile ∧
    env_ListNodes env = Ok nodeList ∧ env_ListPods env = Ok podList ∧
    node ∈ nodeList ∧ node_Name node = target ∧ node_DeletionTimestamp node = None ∧
    node_matches (rebuilt_node podList (r_Ledger r) node) (extractConstraints pod) ∧
    (nonneg (demand_of pod profile) →
     ∀ res q, demand_of pod profile !! res = Some q →
       q ≤ wrap64 ((MilliValue <$> node_Allocatable node)⟦res⟧ - used_on podList target res
                   - (reserved_at (r_Ledger r) target)⟦res⟧)).
Proof.
  intros Hl Hv. destruct (Reconcile_run env r) as (r' & es & d & s & -> & Hd & Hp & _).
  exists d, s. split; [done|]. split; [done|]. intros pod reason target -> Ht.
  inversion Hd as [| | | | | | | | |pod0 pn profile r1 l' target0 Hsy Hev Hrun]; subst; try done.
  split; [done|]. pose proof (synced_ok _ _ _ _ _ _ Hv Hsy Hl) as Hok1.
  destruct (synced_lists _ _ _ _ _ _ Hsy) as (nodeList & podList & found & Hn & Hpods & Hl1).
  destruct (rules_run_target _ _ _ _ _ _ _ _ Hrun Hok1) as [?|(n & Hnode & Hm & Hf)]; [done|].
  destruct (Hv _ Hn) as [_ Hnd].
  destruct (rebuilt_lookup profile pod (r_Ledger r) nodeList podList found
    (proj2 (ledger_ok_wf _ Hl)) Hnd) as (Hnodes & _).
  rewrite <- Hl1 in Hnodes. rewrite Hnodes in Hnode.
  apply fmap_Some in Hnode as (node & Hfind & ->).
  apply find_node_Some in Hfind as (Hin & Hname & Hus).
  destruct Hsy as (Hg & Hprof & _).
  exists pn, profile, nodeList, podList, node. split_and!; try done.
  - unfold usable in Hus. by apply andb_prop in Hus as [?%bool_decide_eq_true _].
  - intros Hd0 res q Hq. specialize (Hf Hd0 res q Hq). cbn beta in Hf.
    rewrite available_wrap in Hf. cbn [rebuilt_node allocatable used reserved] in Hf.
    rewrite usage_of_get, Hname in Hf.
    match type of Hf with _ ≤ wrap64 (?a - ?w - ?b) =>
      replace (a - w - b) with (a - b - w) in Hf by lia end.
    rewrite wrap64_sub_r in Hf. eapply Z.le_trans; [exact Hf|]. apply Z.eq_le_incl. f_equal. lia.
Qed.

(** The deadline of a pod: its profile's timeout after its creation. *)
Definition timeout_of (profile : PackingProfile) : Z :=
  default (3 * Minute) (ParseDuration (spec_ReservationTimeout (profile_Spec profile))).

(** A reason to release that no rule can outweigh. *)
Definition overdue (env : Env) (pod : Pod) (profile : PackingProfile) : Prop :=
  sget (pod_Annotations pod) AnnotationPriority = "high" ∨
  pod_CreationTimestamp pod ≠ 0 ∧ in_int64 (timeout_of profile) ∧
  timeout_of profile < max_int64 ∧
  timeout_of profile < env_now env "isTimedOut" 0%nat - pod_CreationTimestamp pod.

Lemma gated_det env pod pn pod' pn' :
  gated env pod pn → gated env pod' pn' → pod' = pod ∧ pn' = pn.
Proof.
  intros (? & _ & ?) (? & _ & ?). assert (pod' = pod) as -> by congruence.
  split; [done|]. congruence.
Qed.

(** An overdue pod is released when the cluster can be read. *)
Lemma overdue_decision env r pod pn profile d r' s :
  gated env pod pn → env_GetProfile env pn = Ok profile →
  is_Ok (env_ListNodes env) = true → is_Ok (env_ListPods env) = true →
  overdue env pod profile → decides env r d r' s →
  ∃ reason, (reason = "priority" ∨ reason = "timeout") ∧ d = ReleasePod pod reason "".
Proof.
  intros Hg Hp Hn Hpods Hcond Hd.
  destruct (lists_synced env r pod pn profile Hg Hp Hn Hpods) as [r1 Hsy].
  assert (sget (pod_Annotations pod) AnnotationPriority = "high" ∨
    isTimedOut pod profile (env_now env) = true) as Hc.
  { destruct Hcond as [?|(Hc & Hi & Hm & Hlt)]; [by left|right].
    unfold isTimedOut, IsZero. rewrite (proj2 (Z.eqb_neq _ _)) by done.
    assert (match ParseDuration (spec_ReservationTimeout (profile_Spec profile)) with
      | Some d => d | None => 3 * Minute end = timeout_of profile) as ->
      by (unfold timeout_of; by destruct (ParseDuration _)).
    apply Z.ltb_lt, time_Sub_gt; done. }
  destruct Hsy as (_ & _ & es1 & Hsync). pose proof Hg as (Hpod & Hgate & Hlab).
  destruct Hd as [? Hgp|? Hgp|? Hgp Hx|pod' pn' ? Hg'|pod' pn' ? Hg'
    |pod' pn' profile' r2 ? ? Hg' Hp' Hs'|pod' pn' profile' r2 (Hg' & Hp' & _)
    |pod' pn' profile' r2 (Hg' & Hp' & _)|pod' pn' profile' r2 l' rule (Hg' & Hp' & _) [Hh Ht]
    |pod' pn' profile' r2 l' target (Hg' & Hp' & _) [Hh Ht]];
    try (by exfalso; destruct Hx; congruence); try (by exfalso; congruence);
    destruct (gated_det _ _ _ _ _ Hg Hg') as [-> ->]; try (by exfalso; congruence);
    assert (profile' = profile) as -> by congruence;
    try (by exfalso; congruence); try (by exfalso; destruct Hc; congruence); eauto.
Qed.

(** C10: no pod is held past its timeout.  When a gated pod's profile can be
    read and nodes and pods can be listed, a reconciliation that reads its
    clock more than the profile's timeout after the pod's creation, or finds
    the pod marked with high priority, releases it, whatever the ledger, the
    rules and the detectors say.  A timeout that does not parse counts as
    three minutes. *)
Theorem released_after_timeout env r pod pn profile :
  gated env pod pn → env_GetProfile env pn = Ok profile →
  is_Ok (env_ListNodes env) = true → is_Ok (env_ListPods env) = true →
  overdue env pod profile →
  let '(_, es, res) := Reconcile env r in
  ∃ reason, (reason = "priority" ∨ reason = "timeout") ∧
    patches es = [(pod, released_pod pod "" reason)] ∧
    hasKompaktGates (released_pod pod "" reason) = false ∧
    res = (0, env_Patch env pod (released_pod pod "" reason)).
Proof.
  intros Hg Hp Hn Hpods Ho.
  destruct (Reconcile_run env r) as (r' & es & d & s & -> & Hd & -> & _).
  destruct (overdue_decision _ _ _ _ _ _ _ _ Hg Hp Hn Hpods Ho Hd) as (reason & Hr & ->).
  exists reason. split; [done|]. split; [done|]. split; [apply released_no_gates|done].
Qed.

(** A release is final.  Once the API server holds a pod as a release
    wrote it, every later reconciliation of that pod does nothing: no write,
    no change of the ledger, no requeue. *)
Lemma released_is_ignored env r pod target reason :
  env_GetPod env = Ok (released_pod pod target reason) →
  Reconcile env r = (r, [], (0, None)).
Proof. intros H. unfold Reconcile. rewrite H, released_no_gates. done. Qed.

End properties.

(** One reconciliation, with its own answers and iteration orders. *)
Inductive reconcile_step {K : Kube} : Reconciler → Reconciler → Prop :=
  | reconcile_step_intro O env r :
      nodes_valid env → reconcile_step r (@Reconcile K O env r).1.1.

Lemma reconcile_step_ok {K : Kube} r r' :
  reconcile_step r r' → ledger_ok (r_Ledger r) → ledger_ok (r_Ledger r').
Proof.
  intros [O env r0 Hv] Hl. destruct (@Reconcile_run K O env r0) as (r1 & es & d & s & -> & Hd & _).
  by eapply (decides_ok (O := O)).
Qed.

Lemma reconcile_steps_ok {K : Kube} r r' :
  rtc reconcile_step r r' → ledger_ok (r_Ledger r) → ledger_ok (r_Ledger r').
Proof. induction 1; eauto using reconcile_step_ok. Qed.

(** C13: the invariant of the controller.  From an empty ledger, any sequence of
    reconciliations of any pods and profiles, with any answers of the cluster
    that name nodes validly and uniquely, keeps node names and in-flight keys
    apart; so a reservation on the node a search has just returned always
    succeeds. *)
Theorem reachable_reconciler_ok {K : Kube} r r' :
  r_Ledger r = New → rtc reconcile_step r r' →
  let l := r_Ledger r' in
  ledger_ok l ∧
  (∀ (O : MapOrder) demand c k infl,
     FindFit l demand c = Ok (k, infl) → (Reserve l k demand).2 = None) ∧
  (∀ (O : MapOrder) demand c k,
     FindFitExisting l demand c = Ok k → (Reserve l k demand).2 = None).
Proof.
  intros Hl Hs l. assert (ledger_ok l) as Hok.
  { eapply reconcile_steps_ok; [done|]. rewrite Hl. apply ledger_ok_New. }
  pose proof (ledger_ok_wf _ Hok) as Hwf. split; [done|].
  split; intros O demand c k.
  - intros infl HF. by rewrite (Reserve_after_FindFit _ _ _ _ _ Hwf HF).
  - intros HF. by rewrite (Reserve_after_FindFitExisting _ _ _ _ Hwf HF).
Qed.

Section more_properties.
Context {K : Kube} {O : MapOrder}.

(** The decision once the rules are reached. *)
Lemma evaluated_decision env r pod pn profile r1 d r' s :
  synced env r pod pn profile r1 → evaluates env pod profile → decides env r d r' s →
  ∃ l' o, rules_run pod profile 0 (spec_Rules (profile_Spec profile)) "" (r_Ledger r1) l' o ∧
    r' = set_Ledger r1 l' ∧
    match o with
    | RulesHold rule => d = Hold pod rule
    | RulesRelease target => d = ReleasePod pod "capacity" target
    | RulesError => False
    end.
Proof.
  intros ((Hpod & Hgate & Hlab) & Hp & es1 & Hsync) [Hh Ht] Hd.
  assert (∀ pod' pn' profile', gated env pod' pn' → env_GetProfile env pn' = Ok profile' →
    pod' = pod ∧ pn' = pn ∧ profile' = profile) as Hsame.
  { intros pod' pn' profile' (? & ? & ?) ?. assert (pod' = pod) as -> by congruence.
    split; [done|]. assert (pn' = pn) as -> by congruence. split; congruence. }
  destruct Hd as [? Hgp|? Hgp|? Hgp Hx|pod' pn' ? (?&?&?)|pod' pn' ? (?&?&?)
    |pod' pn' profile' r2 ? ? Hg' Hp' Hs'|pod' pn' profile' r2 (Hg' & Hp' & _)
    |pod' pn' profile' r2 (Hg' & Hp' & _)
    |pod' pn' profile' r2 l' rule (Hg' & Hp' & es2 & Hs') _ Hrun
    |pod' pn' profile' r2 l' target (Hg' & Hp' & es2 & Hs') _ Hrun];
    try (by exfalso; congruence);
    try (by exfalso; destruct Hx; congruence).
  - destruct (Hsame _ _ _ Hg' Hp') as (-> & -> & ->). congruence.
  - destruct (Hsame _ _ _ Hg' Hp') as (-> & -> & ->). congruence.
  - destruct (Hsame _ _ _ Hg' Hp') as (-> & -> & ->). congruence.
  - destruct (Hsame _ _ _ Hg' Hp') as (-> & -> & ->).
    assert (r2 = r1) as -> by congruence. by exists l', (RulesHold rule).
  - destruct (Hsame _ _ _ Hg' Hp') as (-> & -> & ->).
    assert (r2 = r1) as -> by congruence. by exists l', (RulesRelease target).
Qed.

Lemma Registry_packing : Registry !! "WaitForWorkloadPacking" = Some WaitForWorkloadPacking.
Proof. rewrite Registry_lookup. done. Qed.

Lemma Registry_node_ready : Registry !! "WaitForNodeReady" = Some WaitForNodeReady.
Proof. rewrite Registry_lookup. done. Qed.

(** C38: the packing rule in front masks the scale-up rule.  When a profile
    lists WaitForWorkloadPacking first and no existing node fits the pod's
    demand, the pod is held by it and the rules after it never run: without
    in-flight nodes, without capacity anywhere, the pod is not released to
    trigger the autoscaler, until priority or the timeout releases it. *)
Theorem packing_first_masks_scale_up env r pod pn profile r1 refs :
  synced env r pod pn profile r1 → evaluates env pod profile →
  nodes_valid env → ledger_ok (r_Ledger r) →
  spec_Rules (profile_Spec profile) = {| ruleref_Name := "WaitForWorkloadPacking" |} :: refs →
  demand_of pod profile ≠ ∅ →
  best_fit (set_inflight (r_Ledger r1) ∅) (demand_of pod profile)
    (Some (extractConstraints pod)) None →
  let '(r', es, res) := Reconcile env r in
  r' = r1 ∧ res = (Second, None) ∧
  patches es = decision_patches (Hold pod "WaitForWorkloadPacking").
Proof.
  intros Hsy Hev Hv Hl Hrules Hdem Hbest.
  destruct (Reconcile_run env r) as (r' & es & d & s & -> & Hd & -> & _).
  destruct (evaluated_decision _ _ _ _ _ _ _ _ _ Hsy Hev Hd) as (l' & o & Hrun & -> & Ho).
  pose proof (ledger_ok_wf _ (synced_ok _ _ _ _ _ _ Hv Hsy Hl)) as Hwf.
  rewrite Hrules in Hrun.
  assert (∀ O' : MapOrder, rule_Evaluate WaitForWorkloadPacking O' pod (r_Ledger r1) profile =
    (Verdict false "" None, r_Ledger r1)) as Heval.
  { intros O'. cbn [rule_Evaluate WaitForWorkloadPacking].
    rewrite WaitForWorkloadPacking_cases by done. unfold demand_of in Hdem, Hbest.
    rewrite (proj2 (map_empty_false _)) by done.
    destruct (FindFitExisting _ _ _) as [k|e] eqn:HF; [exfalso|done].
    pose proof (FindFitExisting_allowed (O := O') _ (ExtractDemand pod (spec_DemandSource
      (profile_Spec profile))) (Some (extractConstraints pod)) (proj1 Hwf)) as Ha.
    rewrite HF in Ha. destruct Ha as (sl & Hc & Hs & _). apply Hbest in Hc. lia. }
  inversion Hrun as [|i ref refs' t l l0 o' Hr Hrun'|i ref refs' t l l0 l1 o' rule v Hr He Hrel Hrun'
    |i ref refs' t l l0 rule v Hr He Hrel]; subst; cbn [ruleref_Name] in *;
    rewrite Registry_packing in Hr; try done; injection Hr as <-;
    rewrite Heval in He; injection He as <- <-; [done|].
  split; [by destruct r1|]. by rewrite Ho.
Qed.

(** Either rule on a ledger with one existing node where the demand fits. *)
Lemma lone_existing_step name rule (O' : MapOrder) pod profile k n res d :
  Registry !! name = Some rule → demand_of pod profile = {[res := d]} → k ≠ "" →
  node_matches n (extractConstraints pod) → 0 < d → d ≤ available n res →
  rule_Evaluate rule O' pod (MkLedger {[k := n]} ∅) profile =
  (Verdict true k None,
   MkLedger {[k := set_reserved n (map_upd add64 (reserved n) {[res := d]})]} ∅).
Proof.
  intros Hr Hd Hk Hm Hpos Hle. unfold demand_of in Hd.
  assert (ledger_wf (MkLedger {[k := n]} ∅)) as Hwf.
  { split; [split|]; [by apply lookup_singleton_ne|apply lookup_empty|apply map_disjoint_empty_r]. }
  assert (reserve_at (MkLedger {[k := n]} ∅) k {[res := d]} =
    MkLedger {[k := set_reserved n (map_upd add64 (reserved n) {[res := d]})]} ∅) as Hres.
  { unfold reserve_at, findEntry, writeEntry, set_nodes. cbn [nodes inflight].
    by rewrite lookup_singleton_eq, insert_singleton_eq. }
  destruct (Registry_Evaluate _ _ Hr) as [->| ->];
    rewrite ?WaitForNodeReady_cases, ?WaitForWorkloadPacking_cases by done;
    rewrite Hd, (proj2 (map_empty_false _)) by apply map_non_empty_singleton.
  - rewrite lone_existing_fit, decide_True, Hres by done. done.
  - rewrite FindFitExisting_FindFit. unfold set_inflight. cbn [nodes].
    rewrite lone_existing_fit, decide_True, Hres by done. done.
Qed.

(** With both rules a pod reserves twice.  When the only node has room for
    at least twice a pod's demand of one resource, a profile with the packing
    rule and then the scale-up rule releases the pod to that node and leaves
    twice the demand reserved there. *)
Theorem both_rules_reserve_twice pod profile k n res d l' o :
  demand_of pod profile = {[res := d]} → k ≠ "" → node_matches n (extractConstraints pod) →
  0 < d → 2 * d ≤ available n res →
  rules_run pod profile 0
    [{| ruleref_Name := "WaitForWorkloadPacking" |}; {| ruleref_Name := "WaitForNodeReady" |}]
    "" (MkLedger {[k := n]} ∅) l' o →
  o = RulesRelease k ∧ ledger_avail l' k res = available n res - 2 * d.
Proof.
  intros Hd Hk Hm Hpos Hle Hrun.
  pose proof (available_int64 n res) as Hi.
  set (n1 := set_reserved n (map_upd add64 (reserved n) {[res := d]})).
  assert (available n1 res = available n res - d) as Ha1.
  { unfold n1. rewrite available_reserve, lookup_singleton_eq. apply sub64_exact. int64_lia. }
  set (n2 := set_reserved n1 (map_upd add64 (reserved n1) {[res := d]})).
  assert (available n2 res = available n res - 2 * d) as Ha2.
  { unfold n2. rewrite available_reserve, lookup_singleton_eq, sub64_exact, Ha1; [lia|].
    int64_lia. }
  assert (∀ O', rule_Evaluate WaitForWorkloadPacking O' pod (MkLedger {[k := n]} ∅) profile =
    (Verdict true k None, MkLedger {[k := n1]} ∅)) as E1.
  { intros O'. apply (lone_existing_step _ _ O' _ _ _ _ res d Registry_packing); done || lia. }
  assert (∀ O', rule_Evaluate WaitForNodeReady O' pod (MkLedger {[k := n1]} ∅) profile =
    (Verdict true k None, MkLedger {[k := n2]} ∅)) as E2.
  { intros O'. apply (lone_existing_step _ _ O' _ _ _ _ res d Registry_node_ready); done || lia. }
  inversion Hrun as [|? ? ? ? ? ? ? Hr|? ? ? ? ? l1 ? ? rule v Hr He Hrel Hrun'
    |? ? ? ? ? ? rule v Hr He Hrel]; subst; cbn [ruleref_Name] in *;
    rewrite Registry_packing in Hr; try done; injection Hr as <-; rewrite E1 in He;
    injection He as <- <-; [clear Hrun Hrel|done].
  cbn [v_nodeName] in Hrun'. rewrite bool_decide_false in Hrun' by done.
  inversion Hrun' as [|? ? ? ? ? ? ? Hr|? ? ? ? ? l1 ? ? rule v Hr He Hrel Hrun
    |? ? ? ? ? ? rule v Hr He Hrel]; subst; cbn [ruleref_Name] in *;
    rewrite Registry_node_ready in Hr; try done; injection Hr as <-; rewrite E2 in He;
    injection He as <- <-; [clear Hrun' Hrel|done].
  cbn [v_nodeName] in Hrun. rewrite bool_decide_false in Hrun by done.
  inversion Hrun; subst. split; [done|]. unfold ledger_avail, findEntry. cbn [nodes].
  by rewrite lookup_singleton_eq.
Qed.

(** The profile whose status is reported. *)
Lemma decides_profile env r d r' s pod pn profile :
  gated env pod pn → env_GetProfile env pn = Ok profile → decides env r d r' s →
  s = Some (profile, (syncLedger env profile pod r).2).
Proof.
  intros (Hpod & Hgate & Hlab) Hp Hd.
  assert (∀ pod' pn' profile', gated env pod' pn' → env_GetProfile env pn' = Ok profile' →
    pod' = pod ∧ pn' = pn ∧ profile' = profile) as Hsame.
  { intros pod' pn' profile' (? & ? & ?) ?. assert (pod' = pod) as -> by congruence.
    split; [done|]. assert (pn' = pn) as -> by congruence. split; congruence. }
  destruct Hd as [? Hgp|? Hgp|? Hgp Hx|pod' pn' ? (?&?&?)|pod' pn' ? (?&?&?)
    |pod' pn' profile' r2 ? ? Hg' Hp' Hs'|pod' pn' profile' r2 (Hg' & Hp' & es2 & Hs')
    |pod' pn' profile' r2 (Hg' & Hp' & es2 & Hs')
    |pod' pn' profile' r2 l' rule (Hg' & Hp' & es2 & Hs')
    |pod' pn' profile' r2 l' target (Hg' & Hp' & es2 & Hs')];
    try (by exfalso; congruence); try (by exfalso; destruct Hx; congruence);
    destruct (Hsame _ _ _ Hg' Hp') as (-> & -> & ->); by rewrite Hs'.
Qed.

Lemma count_gates_spec pods :
  count_gates pods = wrap32 (Z.of_nat (length (List.filter hasKompaktGates pods))).
Proof.
  unfold count_gates.
  assert (∀ a, foldl (λ n p, if hasKompaktGates p then wrap32 (n + 1) else n) (wrap32 a) pods =
    wrap32 (a + Z.of_nat (length (List.filter hasKompaktGates pods)))) as H.
  { induction pods as [|p pods IH]; intros a; cbn [foldl List.filter].
    - cbn. by rewrite Z.add_0_r.
    - destruct (hasKompaktGates p); [|apply IH].
      rewrite wrap32_add_l, IH. f_equal. cbn [length]. lia. }
  rewrite <- (Z.add_0_l (Z.of_nat _)), <- H. done.
Qed.

(** What the status says.  When the profile was read and its pods can be
    listed, the one status that is written counts the gated pods that were
    listed and the in-flight entries of the whole ledger, those of other
    profiles included, and says Ready exactly when the configuration passes
    its checks and the rebuild succeeded. *)
Theorem status_report env r pod pn profile pods :
  gated env pod pn → env_GetProfile env pn = Ok profile →
  env_ListPodsByProfile env (profile_Name profile) = Ok pods →
  let '(r', es, _) := Reconcile env r in
  ∃ p, statuses es = [p] ∧ profile_Name p = profile_Name profile ∧
    profile_Spec p = profile_Spec profile ∧
    st_ActiveGates (profile_Status p) =
      wrap32 (Z.of_nat (length (List.filter hasKompaktGates pods))) ∧
    st_InflightNodes (profile_Status p) = wrap32 (Z.of_nat (size (inflight (r_Ledger r')))) ∧
    st_ActiveDetectors (profile_Status p) = r_activeDetectors r' ∧
    (reads p condReady ConditionTrue "Ready" ↔
       config_ok profile ∧ (syncLedger env profile pod r).2 = None).
Proof.
  intros Hg Hp Hpods. destruct (Reconcile_run env r) as (r' & es & d & s & -> & Hd & _ & Hs).
  rewrite (decides_profile _ _ _ _ _ _ _ _ Hg Hp Hd) in Hs.
  unfold reported_status in Hs. rewrite Hpods in Hs.
  eexists. split; [exact Hs|]. rewrite <- count_gates_spec.
  set (syncErr := (syncLedger env profile pod r).2).
  set (n := Z.of_nat (size (inflight (r_Ledger r')))).
  destruct (report_fields profile syncErr n (r_activeDetectors r') (r_Detectors r')
    (env_now env)) as [Hname Hspec].
  split_and!; [exact Hname|exact Hspec|done|done|done|].
  apply report_ready.
Qed.
End more_properties.

(** ** Witnesses *)

Lemma synced_intro {K : Kube} {O : MapOrder} env r pod pn profile :
  gated env pod pn → env_GetProfile env pn = Ok profile →
  (syncLedger env profile pod r).2 = None →
  synced env r pod pn profile (syncLedger env profile pod r).1.1.
Proof.
  intros Hg Hp Hs. split; [done|]. split; [done|].
  destruct (syncLedger env profile pod r) as [[r1 es] e]. cbn in Hs. subst. by exists es.
Qed.

Definition gated_pod (created : Z) : Pod (K := kube_milli) := {|
  pod_Name := "p"; pod_Namespace := "default";
  pod_Labels := Some {[LabelProfile := "p"]}; pod_Annotations := None;
  pod_CreationTimestamp := created;
  pod_Containers := [{| ctr_Requests := {["cpu" := 500 : Quantity (Kube := kube_milli)]} |}];
  pod_Tolerations := []; pod_NodeSelector := None;
  pod_SchedulingGates := [{| gate_Name := "kompakt.io/WaitForNodeReady" |}];
  pod_Affinity := None; pod_NodeName := ""; pod_Phase := "Pending" |}.

Definition profile_with (rules : list string) : PackingProfile := {|
  profile_Name := "p";
  profile_Spec := {|
    spec_DemandSource := example_source;
    spec_CapacitySource := {| cs_Type := "NodeAllocatable"; cs_Resources := []; cs_Label := "";
      cs_PerDeviceCount := None; cs_NodeGroupTemplates := [] |};
    spec_ReadinessSignal := {| rs_NodeConditions := []; rs_RequiredLabels := [] |};
    spec_Rules := (λ n, {| ruleref_Name := n |}) <$> rules;
    spec_ReservationTimeout := "3m" |};
  profile_Status := {| st_ActiveGates := 0; st_InflightNodes := 0; st_ActiveDetectors := [];
    st_Conditions := [] |} |}.

Definition cluster (pod : Pod) (rules : list string) (nodeList : list (Node (K := kube_milli)))
    (now : Z) : Env (K := kube_milli) := {|
  env_GetPod := Ok pod;
  env_GetProfile _ := Ok (profile_with rules);
  env_ListNodes := Ok nodeList;
  env_ListPods := Ok [pod];
  env_ListPodsByProfile _ := Ok [pod];
  env_Reader _ := example_reader [];
  env_Patch _ _ := None;
  env_UpdateStatus _ := None;
  env_now _ _ := now |}.

Definition fresh_reconciler : Reconciler (K := kube_milli) := {|
  r_APIReader := None; r_Ledger := New; r_Detectors := []; r_activeDetectors := [] |}.

Lemma arrived_valid pod rules now :
  nodes_valid (cluster pod rules [arrived_node] now).
Proof.
  intros ns [= <-]. split; [|apply arrived_NoDup]. by repeat constructor.
Qed.

Lemma cluster_gated created rules nodeList now :
  gated (cluster (gated_pod created) rules nodeList now) (gated_pod created) "p".
Proof. by split_and!. Qed.

(** The pod goes to the one node of the cluster. *)
Example released_to_arrived :
  patches (Reconcile (O := order_forward)
    (cluster (gated_pod Hour) ["WaitForNodeReady"] [arrived_node] Hour) fresh_reconciler).1.2 =
  [(gated_pod Hour, released_pod (gated_pod Hour) "n1" "capacity")].
Proof. vm_cast_no_check (@eq_refl _ [(gated_pod Hour, released_pod (gated_pod Hour) "n1" "capacity")]). Qed.

Lemma released_where_it_fits_witness :
  ledger_ok (r_Ledger fresh_reconciler) ∧
  nodes_valid (cluster (gated_pod Hour) ["WaitForNodeReady"] [arrived_node] Hour) ∧
  let '(r', es, _) := Reconcile (O := order_forward)
    (cluster (gated_pod Hour) ["WaitForNodeReady"] [arrived_node] Hour) fresh_reconciler in
  ∃ d s, decides (O := order_forward)
    (cluster (gated_pod Hour) ["WaitForNodeReady"] [arrived_node] Hour) fresh_reconciler d r' s ∧
    patches es = decision_patches d.
Proof.
  split; [exact ledger_ok_New|]. split; [apply arrived_valid|].
  pose proof (released_where_it_fits (O := order_forward)
    (cluster (gated_pod Hour) ["WaitForNodeReady"] [arrived_node] Hour) fresh_reconciler
    ledger_ok_New (arrived_valid _ _ _)) as H.
  destruct (Reconcile _ _) as [[r' es] res]. destruct H as (d & s & Hd & Hp & _).
  exists d, s. split; [exact Hd|exact Hp].
Defined.

Lemma released_after_timeout_witness :
  ∃ reason, patches (Reconcile (O := order_forward)
    (cluster (gated_pod Hour) ["WaitForWorkloadPacking"] [] (2 * Hour)) fresh_reconciler).1.2 =
    [(gated_pod Hour, released_pod (gated_pod Hour) "" reason)].
Proof.
  pose proof (released_after_timeout (O := order_forward)
    (cluster (gated_pod Hour) ["WaitForWorkloadPacking"] [] (2 * Hour)) fresh_reconciler
    (gated_pod Hour) "p" (profile_with ["WaitForWorkloadPacking"])
    (cluster_gated _ _ _ _) eq_refl eq_refl eq_refl) as H.
  destruct (Reconcile _ _) as [[r' es] res].
  destruct H as (reason & _ & Hp & _); [|exists reason; exact Hp].
  right. split; [discriminate|].
  split; [vm_compute; split; discriminate|]. split; vm_compute; reflexivity.
Defined.

Lemma reachable_reconciler_ok_witness :
  let r := (Reconcile (O := order_forward)
    (cluster (gated_pod Hour) ["WaitForNodeReady"] [arrived_node] Hour) fresh_reconciler).1.1 in
  rtc reconcile_step fresh_reconciler r ∧ ledger_ok (r_Ledger r).
Proof.
  intros r. assert (rtc reconcile_step fresh_reconciler r) as H.
  { apply rtc_once, (reconcile_step_intro order_forward), arrived_valid. }
  split; [exact H|]. exact (proj1 (reachable_reconciler_ok fresh_reconciler r eq_refl H)).
Defined.

Definition empty_cluster : Env (K := kube_milli) :=
  cluster (gated_pod Hour) ["WaitForWorkloadPacking"; "WaitForNodeReady"] [] Hour.

Lemma packing_first_masks_scale_up_witness :
  patches (Reconcile (O := order_forward) empty_cluster fresh_reconciler).1.2 =
  decision_patches (Hold (gated_pod Hour) "WaitForWorkloadPacking").
Proof.
  pose proof (packing_first_masks_scale_up (O := order_forward) empty_cluster fresh_reconciler
    (gated_pod Hour) "p" (profile_with ["WaitForWorkloadPacking"; "WaitForNodeReady"])
    _ [{| ruleref_Name := "WaitForNodeReady" |}]
    (synced_intro (O := order_forward) _ fresh_reconciler _ _ _
      (cluster_gated Hour ["WaitForWorkloadPacking"; "WaitForNodeReady"] [] Hour) eq_refl eq_refl)) as H.
  destruct (Reconcile _ _) as [[r' es] res]. apply H.
  - split; [discriminate|reflexivity].
  - intros ns [= <-]. by split; constructor.
  - exact ledger_ok_New.
  - reflexivity.
  - apply map_empty_false. reflexivity.
  - intros infl k s (n & Hn & _). destruct infl; discriminate.
Defined.

Lemma both_rules_reserve_twice_witness :
  ∃ l' o, rules_run (O := order_forward) (gated_pod Hour)
      (profile_with ["WaitForWorkloadPacking"; "WaitForNodeReady"]) 0
      [{| ruleref_Name := "WaitForWorkloadPacking" |}; {| ruleref_Name := "WaitForNodeReady" |}]
      "" (MkLedger {["n1" := example_entry 4000]} ∅) l' o ∧
    o = RulesRelease "n1" ∧ ledger_avail l' "n1" "cpu" = 3000.
Proof.
  destruct (run_rules_run (O := order_forward) empty_cluster (gated_pod Hour)
    (profile_with ["WaitForWorkloadPacking"; "WaitForNodeReady"]) "p" 0
    [{| ruleref_Name := "WaitForWorkloadPacking" |}; {| ruleref_Name := "WaitForNodeReady" |}] ""
    (set_Ledger fresh_reconciler (MkLedger {["n1" := example_entry 4000]} ∅)))
    as (l' & es & o & _ & Hrun & _).
  exists l', o. split; [exact Hrun|].
  refine (both_rules_reserve_twice (O := order_forward) (gated_pod Hour)
    (profile_with ["WaitForWorkloadPacking"; "WaitForNodeReady"]) "n1" (example_entry 4000)
    "cpu" 500 l' o _ _ _ _ _ Hrun).
  - vm_compute. reflexivity.
  - discriminate.
  - split; [|done]. intros t Ht. by apply not_elem_of_nil in Ht.
  - reflexivity.
  - vm_compute. discriminate.
Defined.

Lemma status_report_witness :
  ∃ p, statuses (Reconcile (O := order_forward) empty_cluster fresh_reconciler).1.2 = [p] ∧
    st_ActiveGates (profile_Status p) = 1.
Proof.
  pose proof (status_report (O := order_forward) empty_cluster fresh_reconciler (gated_pod Hour)
    "p" (profile_with ["WaitForWorkloadPacking"; "WaitForNodeReady"]) [gated_pod Hour]
    (cluster_gated _ _ _ _) eq_refl eq_refl) as H.
  destruct (Reconcile _ _) as [[r' es] res]. destruct H as (p & Hp & _ & _ & Ha & _).
  exists p. split; [exact Hp|]. rewrite Ha. reflexivity.
Defined.
