(* ===== verification/Webhook.v ===== *)
(** * Admission

    [internal/webhook/mutating.go] and [internal/matcher/matcher.go]: the
    mutating webhook that puts Kompakt's scheduling gates on a pod whose label
    names a profile; and how its gates fit with the controller's release. *)

From S2P Require Import Prelude GoStrings GoTime Kube Scheduling Ledger Rules Inflight.
From S2P Require Import Status Release Sync Rebuild Reconcile Decisions Safety.

(** [gateNames] *)
Definition gateNames : gmap string string := list_to_map [
  ("WaitForWorkloadPacking", "kompakt.io/wait-for-workload-packing");
  ("WaitForNodeReady", "kompakt.io/wait-for-node-ready");
  ("WaitForImagePrePull", "kompakt.io/awaiting-image-prepull");
  ("WaitForMIGProfile", "kompakt.io/awaiting-mig-reconfig");
  ("WaitForCoLocation", "kompakt.io/awaiting-colocation")].

(** [admission.Response]: the code of an error, the reason of an admission, the
    message of a denial, or the original and the patched object. *)
Inductive response :=
  | Errored (code : Z)
  | Allowed (reason : string)
  | Denied (message : string)
  | Patched (raw patched : string).

Section gates.
Context {K : Kube}.

(** The loop over the profile's rules. *)
Definition build_gates (rs : list RuleRef) : list PodSchedulingGate :=
  foldl (λ gates rule,
    match gateNames !! ruleref_Name rule with
    | None => gates
    | Some gateName => gates ++ [{| gate_Name := gateName |}]
    end) [] rs.

(** The pod with its trace and its gates. *)
Definition gated_by (pod : Pod) (traceID : string) (gates : list PodSchedulingGate) : Pod :=
  let pod := set_Annotations pod
    (sinsert AnnotationTraceID traceID (Some (smap (pod_Annotations pod)))) in
  set_SchedulingGates pod (pod_SchedulingGates pod ++ gates).

Definition gate_of (r : RuleRef) : option PodSchedulingGate :=
  (λ g, {| gate_Name := g |}) <$> gateNames !! ruleref_Name r.

Lemma build_gates_omap rs : build_gates rs = omap gate_of rs.
Proof.
  unfold build_gates.
  assert (∀ acc, foldl (λ gates rule, match gateNames !! ruleref_Name rule with
    | None => gates | Some gateName => gates ++ [{| gate_Name := gateName |}] end) acc rs
    = acc ++ omap gate_of rs) as H; [|by rewrite H].
  induction rs as [|r rs IH]; intros acc; [by rewrite app_nil_r|].
  cbn [foldl]. rewrite IH. unfold gate_of at 2. csimpl. fold gate_of.
  destruct (gateNames !! ruleref_Name r); [|done]. by rewrite <- app_assoc.
Qed.

Lemma gateNames_kompakt : map_Forall (λ _ g, HasPrefix g GatePrefix = true) gateNames.
Proof. decide_true. Qed.

Lemma gateNames_inj r1 r2 g : gateNames !! r1 = Some g → gateNames !! r2 = Some g → r1 = r2.
Proof.
  assert (map_Forall (λ r1 g1, map_Forall (λ r2 g2, g1 = g2 → r1 = r2) gateNames) gateNames)
    as H by decide_true.
  intros H1 H2. exact (H r1 g H1 r2 g H2 eq_refl).
Qed.

Lemma build_gates_kompakt rs : Forall (λ g, kompakt_gate g = true) (build_gates rs).
Proof.
  rewrite build_gates_omap. apply Forall_forall. intros g (r & _ & Hr)%list_elem_of_omap.
  unfold gate_of in Hr. apply fmap_Some in Hr as (name & Hn & ->).
  by apply (gateNames_kompakt (ruleref_Name r)).
Qed.

Lemma build_gates_NoDup rs : NoDup (ruleref_Name <$> rs) → NoDup (build_gates rs).
Proof.
  rewrite build_gates_omap. induction rs as [|r rs IH]; [by constructor|].
  rewrite fmap_cons. intros [Hr Hrs]%NoDup_cons. csimpl.
  destruct (gate_of r) as [g|] eqn:Hg; [|by apply IH]. apply NoDup_cons. split; [|by apply IH].
  intros (r' & Hr' & Hg')%list_elem_of_omap. apply Hr.
  unfold gate_of in *. apply fmap_Some in Hg as (n & Hn & ->).
  apply fmap_Some in Hg' as (n' & Hn' & [= ->]).
  rewrite (gateNames_inj _ _ _ Hn Hn'). by apply list_elem_of_fmap_2.
Qed.

Lemma build_gates_nil rs :
  build_gates rs = [] ↔ ∀ r, r ∈ rs → gateNames !! ruleref_Name r = None.
Proof.
  rewrite build_gates_omap. induction rs as [|r rs IH].
  { split; [|done]. by intros _ r ?%not_elem_of_nil. }
  setoid_rewrite elem_of_cons. csimpl.
  assert (gate_of r = None ↔ gateNames !! ruleref_Name r = None) as Hr by apply fmap_None.
  destruct (gate_of r) as [g|].
  - split; [done|]. intros H. by specialize (proj2 Hr (H r (or_introl eq_refl))).
  - rewrite IH. split; [intros H r' [->|?]; [by apply Hr|by apply H]|auto].
Qed.

(** C17: gates are injected and removed symmetrically.  The gates the webhook
    adds are all Kompakt's, so the controller acts on the pod, and its release,
    with whatever reason and target, leaves exactly the gates the pod had
    before admission when none of those were Kompakt's.  When the profile names
    each rule once and the pod had none of the gates, the gates of the admitted
    pod are distinct, as the API server requires. *)
Theorem inject_then_release pod traceID rs target reason :
  Forall (λ g, kompakt_gate g = false) (pod_SchedulingGates pod) →
  let p := gated_by pod traceID (build_gates rs) in
  hasKompaktGates p = negb (bool_decide (build_gates rs = [])) ∧
  pod_SchedulingGates (released_pod p target reason) = pod_SchedulingGates pod ∧
  (NoDup (pod_SchedulingGates pod) → NoDup (ruleref_Name <$> rs) →
   NoDup (pod_SchedulingGates p)).
Proof.
  intros Hpod p. pose proof (build_gates_kompakt rs) as Hk.
  assert (pod_SchedulingGates p = pod_SchedulingGates pod ++ build_gates rs) as Hp by done.
  split_and!.
  - unfold hasKompaktGates. rewrite Hp. apply Bool.eq_iff_eq_true.
    rewrite has_gate_spec, negb_true_iff, bool_decide_eq_false. split.
    + intros (g & [Hg|Hg]%elem_of_app & Hkg); [|by intros E; rewrite E in Hg; set_solver].
      rewrite Forall_forall in Hpod. specialize (Hpod g Hg). congruence.
    + intros Hne. destruct (build_gates rs) as [|g gs]; [done|].
      apply Forall_cons in Hk as [Hg _]. exists g. split; [set_solver|done].
  - assert (∀ q, pod_SchedulingGates (released_pod q target reason) =
      remaining_gates (pod_SchedulingGates q)) as Hr
      by (intros; unfold released_pod; by case_bool_decide).
    rewrite Hr, Hp, remaining_gates_app, remaining_gates_others by done.
    by rewrite remaining_gates_kompakt, app_nil_r.
  - intros Hnd Hrs. rewrite Hp. apply NoDup_app. split; [done|].
    split; [|by apply build_gates_NoDup]. intros g Hg Hg'.
    rewrite Forall_forall in Hpod, Hk. specialize (Hpod g Hg). specialize (Hk g Hg').
    congruence.
Qed.
End gates.

Section webhook.
Context {K : Kube}.

(** The JSON codec of pods, the text of [%q], and the library that makes
    unique identifiers. *)
Context (Unmarshal : string → result Pod) (Marshal : Pod → result string).
Context (Quote : string → string) (uuid_New : string).

(** [Resolve]: the error is wrapped, which keeps [IsNotFound]. *)
Definition Resolve (get : string → result PackingProfile) (name : string) :
  result PackingProfile :=
  match get name with
  | Err e => Err (GoError (err_NotFound e)
               ("resolve profile " +:+ Quote name +:+ ": " +:+ err_Error e))
  | Ok profile => Ok profile
  end.

Definition webhook_metrics (now : Clock) (outcome : string) : list effect :=
  [MetricInc "WebhookRequestsTotal" [outcome];
   MetricObserve "WebhookRequestDuration" [outcome]
     (Seconds (time_Sub (now "webhookEnd" 0%nat) (now "webhookStart" 0%nat)))].

Definition Handle (get : string → result PackingProfile) (now : Clock) (raw : string) :
  list effect * response :=
  match Unmarshal raw with
  | Err _ => ([], Errored 400)
  | Ok pod =>
      if bool_decide (sget (pod_Labels pod) LabelExclude = "true")
      then (webhook_metrics now "passthrough", Allowed "excluded from gating")
      else
        match slookup (pod_Labels pod) LabelProfile with
        | None => (webhook_metrics now "passthrough", Allowed "no packing profile label")
        | Some profileName =>
            match Resolve get profileName with
            | Err _ =>
                (webhook_metrics now "reject",
                 Denied ("PackingProfile " +:+ Quote profileName +:+ " not found"))
            | Ok profile =>
                let gates := build_gates (spec_Rules (profile_Spec profile)) in
                if (length gates =? 0)%nat
                then (webhook_metrics now "passthrough", Allowed "no gates to inject")
                else
                  let traceID := take_str 8 uuid_New in
                  let pod := gated_by pod traceID gates in
                  match Marshal pod with
                  | Err _ => ([], Errored 500)
                  | Ok patched => (webhook_metrics now "gate", Patched raw patched)
                  end
            end
        end
  end.

(** C18: admission.  A request whose pod cannot be read fails; a pod that is
    excluded, names no profile, or names a profile without rules that gate is
    admitted as it is; a pod that names a profile which cannot be read is
    denied; every other pod is admitted with its trace identifier and one gate
    for each rule that has one, in the order of the rules, after the gates it
    had.  Exclusion wins over everything else. *)
Theorem Handle_decides get now raw :
  let res := (Handle get now raw).2 in
  match Unmarshal raw with
  | Err _ => res = Errored 400
  | Ok pod =>
      if decide (sget (pod_Labels pod) LabelExclude = "true")
      then res = Allowed "excluded from gating"
      else match slookup (pod_Labels pod) LabelProfile with
           | None => res = Allowed "no packing profile label"
           | Some pn =>
               match get pn with
               | Err _ => res = Denied ("PackingProfile " +:+ Quote pn +:+ " not found")
               | Ok profile =>
                   let gates := omap gate_of (spec_Rules (profile_Spec profile)) in
                   if decide (gates = []) then res = Allowed "no gates to inject"
                   else
                     ∃ pod', pod_SchedulingGates pod' = pod_SchedulingGates pod ++ gates ∧
                       slookup (pod_Annotations pod') AnnotationTraceID =
                         Some (take_str 8 uuid_New) ∧
                       (∀ k, k ≠ AnnotationTraceID →
                          slookup (pod_Annotations pod') k = slookup (pod_Annotations pod) k) ∧
                       res = match Marshal pod' with
                             | Ok patched => Patched raw patched
                             | Err _ => Errored 500
                             end
               end
           end
  end.
Proof.
  intros res. unfold res, Handle, Resolve. destruct (Unmarshal raw) as [pod|e]; [|done].
  case_bool_decide; case_decide; try done.
  destruct (slookup (pod_Labels pod) LabelProfile) as [pn|]; [|done].
  destruct (get pn) as [profile|e]; [|done]. rewrite <- build_gates_omap.
  destruct (build_gates (spec_Rules (profile_Spec profile))) as [|g gs] eqn:Hg; [done|].
  cbn [length Nat.eqb]. rewrite decide_False by done.
  exists (gated_by pod (take_str 8 uuid_New) (g :: gs)). split; [done|].
  unfold gated_by. cbn [pod_Annotations set_SchedulingGates set_Annotations].
  split_and!.
  - rewrite slookup_sinsert. by rewrite decide_True.
  - intros k Hk. rewrite slookup_sinsert. by rewrite decide_False.
  - by destruct (Marshal _).
Qed.

End webhook.

Section unimplemented.
Context {K : Kube} {O : MapOrder}.

(** Rules with a gate but no implementation do not hold.  The two rules the
    controller implements have gates; a profile that only names other rules,
    such as WaitForImagePrePull, gets its pods gated by the webhook, and the
    first reconciliation after a rebuild releases them as if there were
    capacity, without a target. *)
Theorem unimplemented_rules_release env r pod pn profile r1 :
  synced env r pod pn profile r1 → evaluates env pod profile →
  (∀ ref, ref ∈ spec_Rules (profile_Spec profile) → Registry !! ruleref_Name ref = None) →
  (∀ name rule, Registry !! name = Some rule → is_Some (gateNames !! name)) ∧
  let '(r', es, res) := Reconcile env r in
  r_Ledger r' = r_Ledger r1 ∧ patches es = [(pod, released_pod pod "" "capacity")].
Proof.
  intros Hsy Hev Hnone. split.
  { intros name rule. rewrite Registry_lookup. repeat case_decide; try done; subst;
      intros _; eexists; vm_compute; reflexivity. }
  destruct (Reconcile_run env r) as (r' & es & d & s & -> & Hd & -> & _).
  destruct (evaluated_decision _ _ _ _ _ _ _ _ _ Hsy Hev Hd) as (l' & o & Hrun & -> & Ho).
  assert (∀ i refs t l l' o, rules_run pod profile i refs t l l' o →
    (∀ ref, ref ∈ refs → Registry !! ruleref_Name ref = None) →
    l' = l ∧ o = RulesRelease t) as H.
  { clear. induction 1 as [i t l|i ref refs t l l' o Hr Hrun IH
      |i ref refs t l l1 l' o rule v Hr|i ref refs t l l1 rule v Hr]; intros Hn.
    - done.
    - apply IH. intros ref' Hin. apply Hn. by right.
    - rewrite Hn in Hr; [done|left].
    - rewrite Hn in Hr; [done|left]. }
  destruct (H _ _ _ _ _ _ Hrun Hnone) as [-> ->]. by subst d.
Qed.
End unimplemented.

(** ** Witnesses *)

Definition ungated_pod : Pod (K := kube_milli) :=
  set_SchedulingGates (gated_pod Hour) [{| gate_Name := "example.com/other" |}].

Lemma inject_then_release_witness :
  Forall (λ g, kompakt_gate g = false) (pod_SchedulingGates ungated_pod) ∧
  pod_SchedulingGates (released_pod (gated_by ungated_pod "12345678"
    (build_gates [{| ruleref_Name := "WaitForNodeReady" |}])) "n1" "capacity") =
  pod_SchedulingGates ungated_pod.
Proof.
  assert (Forall (λ g, kompakt_gate g = false) (pod_SchedulingGates ungated_pod)) as H
    by (apply Forall_singleton; reflexivity).
  split; [exact H|].
  exact (proj1 (proj2 (inject_then_release ungated_pod "12345678"
    [{| ruleref_Name := "WaitForNodeReady" |}] "n1" "capacity" H))).
Defined.

Lemma unimplemented_rules_release_witness :
  is_Some (gateNames !! "WaitForImagePrePull") ∧
  patches (Reconcile (O := order_forward)
    (cluster (gated_pod Hour) ["WaitForImagePrePull"] [] Hour) fresh_reconciler).1.2 =
  [(gated_pod Hour, released_pod (gated_pod Hour) "" "capacity")].
Proof.
  split; [eexists; vm_compute; reflexivity|].
  pose proof (unimplemented_rules_release (O := order_forward)
    (cluster (gated_pod Hour) ["WaitForImagePrePull"] [] Hour) fresh_reconciler (gated_pod Hour)
    "p" (profile_with ["WaitForImagePrePull"]) _
    (synced_intro (O := order_forward) _ fresh_reconciler _ _ _
      (cluster_gated Hour ["WaitForImagePrePull"] [] Hour) eq_refl eq_refl)) as H.
  destruct (Reconcile _ _) as [[r' es] res]. apply H.
  - split; [discriminate|reflexivity].
  - intros ref ->%list_elem_of_singleton. rewrite Registry_lookup. reflexivity.
Defined.

(** A pod that already carries a gate, as a copy of a gated pod does, gets it
    twice. *)
Example gate_twice :
  pod_SchedulingGates (gated_by (set_SchedulingGates ungated_pod
    [{| gate_Name := "kompakt.io/wait-for-node-ready" |}]) "12345678"
    (build_gates [{| ruleref_Name := "WaitForNodeReady" |}])) =
  [{| gate_Name := "kompakt.io/wait-for-node-ready" |};
   {| gate_Name := "kompakt.io/wait-for-node-ready" |}].
Proof. vm_compute. reflexivity. Qed.
