(* ===== verification/Scheme.v ===== *)
(** * Scheme registration

    [api/v1alpha1/groupversion_info.go] and the [init] of
    [cmd/manager/main.go]: what the process registers in its scheme before
    [main] runs.  The scheme, the builder and the registrations of the
    Kubernetes types belong to libraries and are parameters; a kind is named
    by the Go type that is registered under it. *)

From S2P Require Import Prelude.

Record GroupVersion_t := { gv_Group : string; gv_Version : string }.

#[global] Instance GroupVersion_eq_dec : EqDecision GroupVersion_t.
Proof. solve_decision. Defined.

#[global] Instance GroupVersion_countable : Countable GroupVersion_t.
Proof.
  refine (inj_countable' (λ g, (gv_Group g, gv_Version g))
    (λ p, {| gv_Group := p.1; gv_Version := p.2 |}) _).
  by intros [].
Defined.

(** [runtime.Scheme] with [Recognizes]; a registration extends the scheme. *)
Class SchemeLib := {
  Scheme : Type;
  NewScheme : Scheme;
  Recognizes : Scheme → GroupVersion_t → string → bool;
  AddKnownTypes : Scheme → GroupVersion_t → list string → Scheme;
  AddToGroupVersion : Scheme → GroupVersion_t → Scheme;
  corev1_AddToScheme : Scheme → Scheme * option goerror;
  coordinationv1_AddToScheme : Scheme → Scheme * option goerror
}.

#[global] Instance scheme_le {S : SchemeLib} : SqSubsetEq Scheme := λ s1 s2,
  ∀ gv k, Recognizes s1 gv k = true → Recognizes s2 gv k = true.

Definition corev1 : GroupVersion_t := {| gv_Group := ""; gv_Version := "v1" |}.

Class SchemeLaws {S : SchemeLib} := {
  AddKnownTypes_mono s gv ks : s ⊑ AddKnownTypes s gv ks;
  AddKnownTypes_adds s gv ks k : k ∈ ks → Recognizes (AddKnownTypes s gv ks) gv k = true;
  AddToGroupVersion_mono s gv : s ⊑ AddToGroupVersion s gv;
  corev1_mono s : s ⊑ (corev1_AddToScheme s).1;
  corev1_adds s k : k ∈ ["Pod"; "PodList"; "NodeList"; "EventList"; "ConfigMap"] →
    Recognizes (corev1_AddToScheme s).1 corev1 k = true;
  coordinationv1_mono s : s ⊑ (coordinationv1_AddToScheme s).1
}.

#[global] Instance scheme_preorder {S : SchemeLib} : PreOrder (⊑@{Scheme}).
Proof. split; [by intros s gv k|]. intros s1 s2 s3 H12 H23 gv k ?. by apply H23, H12. Qed.

Section registration.
Context {S : SchemeLib}.

Definition GroupVersion : GroupVersion_t :=
  {| gv_Group := "packer.kompakt.io"; gv_Version := "v1alpha1" |}.

Definition addKnownTypes (scheme : Scheme) : Scheme * option goerror :=
  let scheme := AddKnownTypes scheme GroupVersion ["PackingProfile"; "PackingProfileList"] in
  let scheme := AddToGroupVersion scheme GroupVersion in
  (scheme, None).

(** The functions of a builder run in order until one fails. *)
Fixpoint run_builder (fs : list (Scheme → Scheme * option goerror)) (scheme : Scheme) :
  Scheme * option goerror :=
  match fs with
  | [] => (scheme, None)
  | f :: fs =>
      match f scheme with
      | (scheme, None) => run_builder fs scheme
      | (scheme, Some e) => (scheme, Some e)
      end
  end.

Definition SchemeBuilder : list (Scheme → Scheme * option goerror) := [addKnownTypes].

Definition AddToScheme : Scheme → Scheme * option goerror := run_builder SchemeBuilder.

(** The errors of the three registrations are dropped. *)
Definition init (scheme : Scheme) : Scheme :=
  let '(scheme, _) := corev1_AddToScheme scheme in
  let '(scheme, _) := coordinationv1_AddToScheme scheme in
  let '(scheme, _) := AddToScheme scheme in
  scheme.

Definition scheme : Scheme := init NewScheme.

Lemma init_eq s :
  init s = AddToGroupVersion
    (AddKnownTypes (coordinationv1_AddToScheme (corev1_AddToScheme s).1).1 GroupVersion
       ["PackingProfile"; "PackingProfileList"]) GroupVersion.
Proof.
  unfold init. destruct (corev1_AddToScheme s) as [s1 e1]. cbn.
  by destruct (coordinationv1_AddToScheme s1).
Qed.

(** The kinds that the controller, the webhook's resolver and the detectors
    read are registered, and none that was there is lost. *)
Lemma init_registers {L : SchemeLaws} s :
  s ⊑ init s ∧
  Forall (λ k, Recognizes (init s) corev1 k = true)
    ["Pod"; "PodList"; "NodeList"; "EventList"; "ConfigMap"] ∧
  Forall (λ k, Recognizes (init s) GroupVersion k = true) ["PackingProfile"; "PackingProfileList"].
Proof.
  rewrite init_eq. set (s1 := (corev1_AddToScheme s).1).
  set (s2 := (coordinationv1_AddToScheme s1).1). set (s3 := AddKnownTypes s2 _ _).
  assert (s1 ⊑ AddToGroupVersion s3 GroupVersion) as H13.
  { etrans; [apply coordinationv1_mono|]. etrans; [apply AddKnownTypes_mono|].
    apply AddToGroupVersion_mono. }
  split_and!.
  - etrans; [apply corev1_mono|exact H13].
  - apply Forall_forall. intros k Hk. apply H13. by apply corev1_adds.
  - apply Forall_forall. intros k Hk. apply AddToGroupVersion_mono. by apply AddKnownTypes_adds.
Qed.
End registration.

(** A scheme as the set of what it recognizes. *)
#[global] Instance set_scheme : SchemeLib := {|
  Scheme := gset (GroupVersion_t * string);
  NewScheme := ∅;
  Recognizes s gv k := bool_decide ((gv, k) ∈ s);
  AddKnownTypes s gv ks := s ∪ list_to_set (pair gv <$> ks);
  AddToGroupVersion s gv := s ∪ {[(gv, "WatchEvent"); (gv, "ListOptions")]};
  corev1_AddToScheme s :=
    (s ∪ list_to_set (pair corev1 <$> ["Pod"; "PodList"; "NodeList"; "EventList"; "ConfigMap"]), None);
  coordinationv1_AddToScheme s :=
    (s ∪ {[({| gv_Group := "coordination.k8s.io"; gv_Version := "v1" |}, "Lease")]}, None)
|}.

#[global] Instance set_scheme_laws : SchemeLaws (S := set_scheme).
Proof.
  split; unfold sqsubseteq, scheme_le; cbn -[union list_to_set fmap]; intros *; rewrite ?bool_decide_eq_true.
  1,3,4,6: set_solver.
  - intros Hk. by apply elem_of_union_r, elem_of_list_to_set, list_elem_of_fmap_2.
  - intros Hk. by apply elem_of_union_r, elem_of_list_to_set, (list_elem_of_fmap_2 (pair corev1)).
Qed.

Example scheme_kinds :
  Recognizes scheme GroupVersion "PackingProfile" = true ∧
  Recognizes scheme corev1 "EventList" = true ∧ Recognizes scheme GroupVersion "Pod" = false.
Proof. vm_compute. done. Qed.
