(* ===== verification/Metrics.v ===== *)
(** * Metrics

    [internal/metrics/metrics.go]: the Prometheus collectors, in the order in
    which [init] registers them, and the discipline of their use.  A call of
    [WithLabelValues] with a number of values other than the collector's
    labels panics, as does a second registration of a name; so the theorem
    below is what keeps a reconciliation or an admission from crashing in its
    metrics, and what says which values their labels take. *)

From Stdlib Require Import String SpecFloat.
From S2P Require Import Prelude GoStrings GoTime Kube Rules Inflight Status Release Sync.
From S2P Require Import Templates Rebuild Reconcile Decisions Safety Webhook.

(** ** The collectors *)

Inductive collector_kind := Counter | Gauge | Histogram (buckets : list float64).

(** A collector, with the name of the Go variable that holds it. *)
Record collector := {
  col_Var : string;
  col_Kind : collector_kind;
  col_Name : string;
  col_Labels : list string
}.

(** A decimal constant [n / 10^d], rounded to a double. *)
Definition decimal (n d : Z) : float64 := float_div (float_of_Z n) (float_of_Z (10 ^ d)).

Definition WebhookRequestsTotal : collector := {|
  col_Var := "WebhookRequestsTotal"; col_Kind := Counter;
  col_Name := "kompakt_webhook_requests_total"; col_Labels := ["operation"] |}.

Definition WebhookRequestDuration : collector := {|
  col_Var := "WebhookRequestDuration";
  col_Kind := Histogram [decimal 1 3; decimal 5 3; decimal 1 2; decimal 25 3; decimal 5 2;
                         decimal 1 1; decimal 25 2];
  col_Name := "kompakt_webhook_request_duration_seconds"; col_Labels := ["operation"] |}.

Definition GatedPods : collector := {|
  col_Var := "GatedPods"; col_Kind := Gauge;
  col_Name := "kompakt_gated_pods"; col_Labels := ["namespace"; "profile"] |}.

Definition GateHoldDuration : collector := {|
  col_Var := "GateHoldDuration";
  col_Kind := Histogram (float_of_Z <$> [1; 5; 15; 30; 60; 120; 180; 300; 600]);
  col_Name := "kompakt_gate_hold_duration_seconds"; col_Labels := ["profile"; "reason"] |}.

Definition GateReleasesTotal : collector := {|
  col_Var := "GateReleasesTotal"; col_Kind := Counter;
  col_Name := "kompakt_gate_releases_total"; col_Labels := ["profile"; "reason"] |}.

Definition LedgerNodes : collector := {|
  col_Var := "LedgerNodes"; col_Kind := Gauge;
  col_Name := "kompakt_ledger_nodes"; col_Labels := [] |}.

Definition LedgerInflightNodes : collector := {|
  col_Var := "LedgerInflightNodes"; col_Kind := Gauge;
  col_Name := "kompakt_ledger_inflight_nodes"; col_Labels := ["source"] |}.

Definition LedgerAllocatableMillicores : collector := {|
  col_Var := "LedgerAllocatableMillicores"; col_Kind := Gauge;
  col_Name := "kompakt_ledger_allocatable_millicores"; col_Labels := [] |}.

Definition LedgerAllocatableMemoryBytes : collector := {|
  col_Var := "LedgerAllocatableMemoryBytes"; col_Kind := Gauge;
  col_Name := "kompakt_ledger_allocatable_memory_bytes"; col_Labels := [] |}.

Definition RuleEvaluationsTotal : collector := {|
  col_Var := "RuleEvaluationsTotal"; col_Kind := Counter;
  col_Name := "kompakt_rule_evaluations_total"; col_Labels := ["rule"; "result"] |}.

(** The default buckets belong to the Prometheus library. *)
Definition RuleEvaluationDuration (DefBuckets : list float64) : collector := {|
  col_Var := "RuleEvaluationDuration"; col_Kind := Histogram DefBuckets;
  col_Name := "kompakt_rule_evaluation_duration_seconds"; col_Labels := ["rule"] |}.

(** The arguments of [MustRegister] in [init]. *)
Definition registered (DefBuckets : list float64) : list collector :=
  [WebhookRequestsTotal; WebhookRequestDuration;
   GatedPods; GateHoldDuration; GateReleasesTotal;
   LedgerNodes; LedgerInflightNodes; LedgerAllocatableMillicores; LedgerAllocatableMemoryBytes;
   RuleEvaluationsTotal; RuleEvaluationDuration DefBuckets].

(** ** The discipline *)

Section discipline.
Context {K : Kube} (DefBuckets : list float64) (sources : list string).
Context (asked known : string → Prop).

(** The values each label may take: what [docs/reference/metrics.md] lists,
    with the detectors in use as the sources.  A profile is one of those that
    were [asked] for. *)
Definition label_allowed (label value : string) : Prop :=
  if decide (label = "operation") then value ∈ ["gate"; "reject"; "passthrough"]
  else if decide (label = "reason") then
    value ∈ ["capacity"; "timeout"; "priority"; "profile_not_found"]
  else if decide (label = "result") then value ∈ ["release"; "hold"; "error"]
  else if decide (label = "rule") then is_Some (Registry !! value)
  else if decide (label = "source") then value ∈ sources
  else label = "profile" ∧ asked value.

(** A profile is [known], or its absence is the reason. *)
Definition profile_known (labels values : list string) : Prop :=
  ("reason", "profile_not_found") ∈ zip labels values ∨
  Forall (λ '(label, value), label = "profile" → known value) (zip labels values).

(** The collector is registered, and is given one allowed value per label. *)
Definition labelled (c : collector) (values : list string) : Prop :=
  c ∈ registered DefBuckets ∧ Forall2 label_allowed (col_Labels c) values ∧
  profile_known (col_Labels c) values.

(** An update uses a collector of the right kind; other effects are free. *)
Definition well_labelled (e : effect) : Prop :=
  match e with
  | MetricSet m labels _ => ∃ c, col_Var c = m ∧ col_Kind c = Gauge ∧ labelled c labels
  | MetricInc m labels => ∃ c, col_Var c = m ∧ col_Kind c = Counter ∧ labelled c labels
  | MetricObserve m labels _ =>
      ∃ c bs, col_Var c = m ∧ col_Kind c = Histogram bs ∧ labelled c labels
  | _ => True
  end.

(** The collector an effect updates. *)
Definition metric_of (e : effect) : option string :=
  match e with
  | MetricSet m _ _ | MetricInc m _ | MetricObserve m _ _ => Some m
  | _ => None
  end.

(** No effect updates the gauge of gated pods. *)
Definition disciplined (e : effect) : Prop :=
  well_labelled e ∧ metric_of e ≠ Some (col_Var GatedPods).

Lemma label_profile v : asked v → label_allowed "profile" v.
Proof. by split. Qed.

Lemma label_rule name rule : Registry !! name = Some rule → label_allowed "rule" name.
Proof. intros H. change (is_Some (Registry !! name)). by rewrite H. Qed.

Lemma label_source v : v ∈ sources → label_allowed "source" v.
Proof. done. Qed.
End discipline.

Create HintDb metrics discriminated.
#[export] Hint Resolve label_profile label_rule label_source : metrics.

(** The bounds of a histogram increase. *)
Fixpoint increasing (bs : list float64) : bool :=
  match bs with
  | b1 :: (b2 :: _) as bs' => SFltb b1 b2 && increasing bs'
  | _ => true
  end.

Definition buckets_increase (c : collector) : bool :=
  match col_Kind c with Histogram bs => increasing bs | _ => true end.

(** ** Effects of a handler *)

Section emits.
Context {K : Kube}.

Definition names (r : Reconciler) : list string := Detector_Name <$> r_Detectors r.

(** A handler with these effects, in any state with these detectors; it keeps
    the detectors' names. *)
Definition emits (sources : list string) (Q : effect → Prop) {T} (m : M T) : Prop :=
  ∀ r, names r = sources → Forall Q (m r).1.2 ∧ names (m r).1.1 = sources.

Context (sources : list string) (Q : effect → Prop).

Lemma emits_ret {T} (a : T) : emits sources Q (mret a).
Proof. intros r Hr. by split. Qed.

Lemma emits_bind {T U} (m : M T) (f : T → M U) :
  emits sources Q m → (∀ a, emits sources Q (f a)) → emits sources Q (m ≫= f).
Proof.
  intros Hm Hf r Hr. unfold mbind, M_bind. destruct (Hm r Hr) as [He Hn].
  destruct (m r) as [[r1 e1] a]. destruct (Hf a r1 Hn) as [He' Hn'].
  destruct (f a r1) as [[r2 e2] b]. split; [by apply Forall_app|done].
Qed.

Lemma emits_emit e : Q e → emits sources Q (emit e).
Proof. intros H r Hr. split; [by apply Forall_singleton|done]. Qed.

Lemma emits_silent {T} (m : M T) :
  (∀ r, (m r).1.2 = [] ∧ names (m r).1.1 = names r) → emits sources Q m.
Proof. intros H r Hr. destruct (H r) as [-> ->]. by split. Qed.
End emits.

(** The update of a registered collector with allowed labels. *)
Ltac use_collector c :=
  split; [|discriminate]; cbn [well_labelled];
  first [exists c; split; [reflexivity|]; split; [reflexivity|]
        |exists c; eexists; split; [reflexivity|]; split; [reflexivity|]];
  (split; [unfold registered; set_solver|]);
  split;
  [lazymatch goal with |- Forall2 _ ?l _ => let l' := eval lazy in l in change l with l' end;
   repeat apply Forall2_cons_2; try apply Forall2_nil_2; eauto with metrics
  |try (right; repeat apply Forall_cons_2; try apply Forall_nil_2; discriminate)].

(** Follows the binds and the branches of a handler. *)
Ltac emits_step :=
  match goal with
  | |- emits _ _ (_ ≫= _) => apply emits_bind; [|intros ?]
  | |- emits _ _ (mret _) => apply emits_ret
  | |- emits _ _ (emit _) => apply emits_emit
  | |- emits _ _ (modify_ledger _) => by apply emits_silent
  | |- emits _ _ (read_ledger _) => by apply emits_silent
  | |- emits _ _ get_reconciler => by apply emits_silent
  | |- emits _ _ (set_active _) => by apply emits_silent
  | |- emits _ _ (match ?x with _ => _ end) => destruct x eqn:?
  end.

Section handlers.
Context {K : Kube} {O : MapOrder} (DefBuckets : list float64) (sources : list string).
Context (asked known : string → Prop).
Notation ok := (disciplined DefBuckets sources asked known).
Notation runs_ok := (emits sources ok).

Lemma recordRelease_ok env pod pn reason target :
  label_allowed sources asked "reason" reason → asked pn →
  reason = "profile_not_found" ∨ known pn → runs_ok (recordRelease env pod pn reason target).
Proof.
  intros H Hpn Hk. assert (profile_known known ["profile"; "reason"] [pn; reason]) as Hlabels.
  { destruct Hk as [->|Hk]; [left; right; left|right]. by repeat constructor. }
  unfold recordRelease. cbv zeta. repeat emits_step.
  - use_collector GateReleasesTotal. exact Hlabels.
  - use_collector GateHoldDuration. exact Hlabels.
  - by split.
Qed.

Lemma release_ok env pod target reason :
  runs_ok (releaseGatesWithAffinity env pod target reason).
Proof. unfold releaseGatesWithAffinity. cbv zeta. repeat emits_step. by split. Qed.

Lemma Detect_name d reader now : Detector_Name (Detector_Detect d reader now).1 = Detector_Name d.
Proof. destruct d as [|g| |]; try done. cbn. by destruct (GOATScalerDetector_Detect g reader now). Qed.

Lemma detect_chain_ok ds reader now :
  (∀ d, d ∈ ds → Detector_Name d ∈ sources) →
  Forall ok (detect_chain ds reader now).1.2 ∧
  Detector_Name <$> (detect_chain ds reader now).1.1 = Detector_Name <$> ds.
Proof.
  induction ds as [|d ds IH]; cbn [detect_chain]; intros Hds; [by split|].
  destruct IH as [IH1 IH2]; [intros d' ?; apply Hds; by right|].
  pose proof (Detect_name d reader now) as Hd.
  destruct (Detector_Detect d reader now) as [d' [ns|e]] eqn:E; cbn [fst] in Hd.
  - assert (ok (MetricSet "LedgerInflightNodes" [Detector_Name d']
      (float_of_Z (Z.of_nat (length ns))))) as Hs.
    { use_collector LedgerInflightNodes. apply label_source. rewrite Hd. apply Hds. left. }
    destruct ns as [|n ns].
    + destruct (detect_chain ds reader now) as [[ds' es] found]. cbn in *.
      split; [by constructor|]. by rewrite Hd, IH2.
    + split; [by apply Forall_singleton|]. cbn. by rewrite Hd.
  - destruct (detect_chain ds reader now) as [[ds' es] found]. cbn in *.
    split; [done|]. by rewrite Hd, IH2.
Qed.

Lemma syncLedger_ok env profile pod : runs_ok (syncLedger env profile pod).
Proof.
  unfold syncLedger. repeat emits_step.
  - use_collector LedgerNodes.
  - use_collector LedgerAllocatableMillicores.
  - use_collector LedgerAllocatableMemoryBytes.
  - intros r Hr. unfold run_detectors, names in *.
    match goal with |- context [detect_chain _ ?rd ?now] =>
      destruct (detect_chain_ok (r_Detectors r) rd now) as [H1 H2];
      [rewrite <- Hr; intros d ?; by apply list_elem_of_fmap_2|];
      destruct (detect_chain (r_Detectors r) rd now) as [[ds es] found] end.
    cbn in *. split; [done|]. by rewrite H2.
Qed.

Lemma run_rules_ok env pod profile pn i refs target :
  runs_ok (run_rules env pod profile pn i refs target).
Proof.
  revert i target. induction refs as [|ref refs IH]; intros i target; cbn [run_rules];
    [apply emits_ret|].
  destruct (Registry !! ruleref_Name ref) as [rule|] eqn:Hr; [|apply IH].
  assert (∀ res, label_allowed sources asked "result" res →
    ok (MetricInc "RuleEvaluationsTotal" [ruleref_Name ref; res])) as Hres
    by (intros res Hres; use_collector RuleEvaluationsTotal).
  repeat emits_step; try apply IH; try apply Hres.
  - apply emits_silent. intros r. unfold evaluate_rule. by destruct (rule_Evaluate _ _ _ _ _).
  - use_collector (RuleEvaluationDuration DefBuckets).
  - change ("error" ∈ ["release"; "hold"; "error"]). decide_true.
  - change ("release" ∈ ["release"; "hold"; "error"]). decide_true.
  - change ("hold" ∈ ["release"; "hold"; "error"]). decide_true.
  - unfold recordHold. apply emits_emit. by split.
Qed.

Lemma updateProfileStatus_ok env profile : runs_ok (updateProfileStatus env profile).
Proof. unfold updateProfileStatus. repeat emits_step. by split. Qed.

Lemma annotatePod_ok env pod k v : runs_ok (annotatePod env pod k v).
Proof. unfold annotatePod. repeat emits_step. by split. Qed.

Lemma reconcile_profile_ok env pod pn profile :
  asked pn → known pn → runs_ok (reconcile_profile env pod pn profile).
Proof.
  intros Ha Hk.
  assert (∀ reason, reason ∈ ["capacity"; "timeout"; "priority"; "profile_not_found"] →
    ∀ target, runs_ok (recordRelease env pod pn reason target)) as Hrel
    by (intros; apply recordRelease_ok; auto).
  unfold reconcile_profile, releaseGates. repeat emits_step;
    try apply release_ok; try apply syncLedger_ok; try apply run_rules_ok;
    try apply annotatePod_ok; apply Hrel; decide_true.
Qed.

Lemma Reconcile_ok env :
  (∀ pod pn, env_GetPod env = Ok pod → slookup (pod_Labels pod) LabelProfile = Some pn → asked pn) →
  (∀ pn profile, env_GetProfile env pn = Ok profile → known pn) → runs_ok (Reconcile env).
Proof.
  intros Ha Hk. unfold Reconcile, releaseGates. repeat emits_step;
    try apply release_ok; try apply updateProfileStatus_ok.
  - apply reconcile_profile_ok; eauto.
  - apply recordRelease_ok; [|eauto|by left].
    change ("profile_not_found" ∈ ["capacity"; "timeout"; "priority"; "profile_not_found"]).
    decide_true.
Qed.

Lemma webhook_metrics_ok now outcome :
  outcome ∈ ["gate"; "reject"; "passthrough"] → Forall ok (webhook_metrics now outcome).
Proof.
  intros H. unfold webhook_metrics. repeat apply Forall_cons_2; try apply Forall_nil_2.
  - use_collector WebhookRequestsTotal.
  - use_collector WebhookRequestDuration.
Qed.
End handlers.

(** ** The property *)

Section properties.
Context {K : Kube} {O : MapOrder} (DefBuckets : list float64).

(** The profile a reconciliation is asked for, by a label of the pod that
    anyone who creates pods can write, and the profiles it can read. *)
Definition asked_by (env : Env) (pn : string) : Prop :=
  ∃ pod, env_GetPod env = Ok pod ∧ slookup (pod_Labels pod) LabelProfile = Some pn.

Definition readable (env : Env) (pn : string) : Prop :=
  ∃ profile, env_GetProfile env pn = Ok profile.

(** The value of a label is not bounded by the number of profiles: the release
    of a pod whose profile is missing is counted under the name its label
    has, whatever that is. *)
Lemma missing_profile_counted env r pod pn e :
  env_GetPod env = Ok pod → hasKompaktGates pod = true →
  slookup (pod_Labels pod) LabelProfile = Some pn →
  env_GetProfile env pn = Err e → err_NotFound e = true →
  MetricInc "GateReleasesTotal" [pn; "profile_not_found"] ∈ (Reconcile env r).1.2.
Proof.
  intros Hp Hg Hl Hpr He. unfold Reconcile. rewrite Hp, Hg, Hl, Hpr, He. cbn [negb].
  unfold recordRelease, releaseGates, releaseGatesWithAffinity, mbind, M_bind, emit, mret, M_ret.
  destruct (IsZero _); cbn; left.
Qed.

(** C27: metrics never panic, and what their labels say.  The collectors have
    distinct names and increasing buckets, as their registration requires,
    when the library's default buckets increase.  Every update a
    reconciliation makes names a registered collector of the right kind with
    one value per label: the reasons, results and rules are among the
    documented ones, a source is one of the reconciler's detectors, and a
    profile is the one the label of the reconciled pod names; that profile
    could be read, unless the reason beside it is [profile_not_found].  The
    updates of an admission are as disciplined and name no profile.  The gauge
    of gated pods is never set. *)
Theorem metrics_disciplined env r get now raw Unmarshal Marshal Quote uuid :
  increasing DefBuckets = true →
  NoDup (col_Name <$> registered DefBuckets) ∧
  forallb buckets_increase (registered DefBuckets) = true ∧
  Forall (disciplined DefBuckets (names r) (asked_by env) (readable env)) (Reconcile env r).1.2 ∧
  Forall (disciplined DefBuckets [] (λ _, False) (λ _, False))
    (Handle Unmarshal Marshal Quote uuid get now raw).1.
Proof.
  intros Hbs. split; [|split; [|split]].
  - change (NoDup (col_Name <$> registered [])). decide_true.
  - unfold registered. cbn [forallb]. rewrite !andb_true_iff.
    split_and!; try (vm_compute; reflexivity). exact Hbs.
  - refine (proj1 (Reconcile_ok DefBuckets (names r) _ _ env _ _ r eq_refl)).
    + intros pod pn Hp Hl. by exists pod.
    + intros pn profile Hp. by exists profile.
  - unfold Handle. repeat case_match; cbn [fst]; try apply Forall_nil_2;
      apply webhook_metrics_ok; decide_true.
Qed.
End properties.

Lemma metrics_disciplined_witness :
  let env := cluster (gated_pod Hour) ["WaitForNodeReady"] [arrived_node] Hour in
  increasing [decimal 5 3; decimal 1 2] = true ∧
  Forall (disciplined [decimal 5 3; decimal 1 2] [] (asked_by env) (readable env))
    (Reconcile (O := order_forward) env fresh_reconciler).1.2.
Proof.
  intros env.
  assert (increasing [decimal 5 3; decimal 1 2] = true) as H by (vm_compute; reflexivity).
  split; [exact H|].
  exact (proj1 (proj2 (proj2 (metrics_disciplined (O := order_forward) [decimal 5 3; decimal 1 2]
    env fresh_reconciler (λ _, Err (errors_New "")) (λ _ _, 0) "" (λ _, Err (errors_New ""))
    (λ _, Err (errors_New "")) id "" H)))).
Defined.
