(* ===== verification/Bounds.v ===== *)
(** * Amounts over the life of the controller

    A reconciliation changes the ledger by the ledger's own operations only;
    so the range invariant of the ledger's contract carries over to any
    sequence of reconciliations, and no int64 operation on amounts wraps as
    long as what the cluster reports stays in range. *)

From stdpp Require Import relations.
From S2P Require Import Prelude GoStrings GoTime Kube Scheduling Ledger LedgerFit Reservations.
From S2P Require Import Rules Inflight Templates Status Release Sync Rebuild Reconcile.
From S2P Require Import Decisions Safety.

Section bounds.
Context {K : Kube} {O : MapOrder}.

(** ** What the cluster reports *)

Definition node_bounded (node : Node) : Prop :=
  amounts_bounded (MilliValue <$> node_Allocatable node).

Definition inflight_bounded (n : InflightNode) : Prop := amounts_bounded (in_Allocatable n).

(** The three detectors report what the cluster does; another one has to stay
    in range itself. *)
Definition detector_bounded (d : Detector) : Prop :=
  match d with
  | DetectorOther _ detect =>
      ∀ reader now ns, detect reader now = Ok ns → Forall inflight_bounded ns
  | _ => True
  end.

Definition templates_of (profile : PackingProfile) : list NodeGroupTemplate :=
  cs_NodeGroupTemplates (spec_CapacitySource (profile_Spec profile)).

(** The answers of one reconciliation stay in range: what nodes and templates
    can allocate, what the pods on a node request together, and what the pod
    demands, which is not negative. *)
Record env_bounded (r : Reconciler) (env : Env) : Prop := {
  eb_nodes ns : env_ListNodes env = Ok ns → Forall node_bounded ns;
  eb_reader ns : rd_ListNodes (reader_of env r) = Ok ns → Forall node_bounded ns;
  eb_pods ps k res : env_ListPods env = Ok ps → 0 ≤ used_on ps k res ≤ amount_bound;
  eb_profile pn profile : env_GetProfile env pn = Ok profile →
    Forall (λ t, amounts_bounded (tmpl_Allocatable t)) (templates_of profile) ∧
    ∀ pod, env_GetPod env = Ok pod → nonneg (demand_of pod profile)
}.

Lemma amounts_bounded_of_get m : (∀ r, 0 ≤ m⟦r⟧ ≤ amount_bound) → amounts_bounded m.
Proof. intros H r x Hx. specialize (H r). unfold getZ in H. by rewrite Hx in H. Qed.

Lemma usage_bounded podList k u :
  (∀ res, 0 ≤ used_on podList k res ≤ amount_bound) →
  usage_of podList !! k = Some u → amounts_bounded u.
Proof.
  intros Hp Hu. apply amounts_bounded_of_get. intros res. specialize (Hp res).
  pose proof (usage_of_get podList k res) as H. rewrite Hu in H. cbn in H. rewrite H.
  rewrite wrap64_id; [done|]. unfold amount_bound in Hp. int64_lia.
Qed.

(** ** Detection *)

Lemma parseCAStatus_bounded status : Forall inflight_bounded (parseCAStatus status).
Proof.
  unfold parseCAStatus.
  assert (∀ lines acc, Forall inflight_bounded acc.1 →
    Forall inflight_bounded (foldl status_line acc lines).1) as H; [|by apply H].
  induction lines as [|line lines IH]; intros [ns g] Hacc; [done|].
  cbn [foldl]. apply IH. unfold status_line.
  destruct (HasPrefix _ _); [done|]. destruct (_ && _); [|done].
  destruct (parseHealthLine _) as [ready target]. cbn. apply Forall_app_2; [done|].
  apply Forall_fmap, Forall_true. intros i. apply amounts_bounded_empty.
Qed.

Lemma goat_bounded cutoff events :
  Forall inflight_bounded (foldl (goat_event cutoff) (∅, [], false) events).1.2.
Proof.
  pose proof (goat_fold cutoff events) as H.
  destruct (foldl _ _ _) as [[seen ns] noStock]. destruct H as (_ & Hn & _).
  apply Forall_forall. intros n (l1 & ev & l2 & _ & [] & _)%Hn. apply amounts_bounded_empty.
Qed.

Lemma Detect_bounded d reader now ns :
  detector_bounded d → (∀ l, rd_ListNodes reader = Ok l → Forall node_bounded l) →
  (Detector_Detect d reader now).2 = Ok ns → Forall inflight_bounded ns.
Proof.
  intros Hd Hr. destruct d as [|g| |name detect]; cbn.
  - intros [= <-]. unfold ClusterAutoscalerDetector_Detect.
    destruct (rd_GetConfigMap _ _ _) as [cm|]; [|constructor].
    destruct (slookup _ _); [apply parseCAStatus_bounded|constructor].
  - unfold GOATScalerDetector_Detect. destruct (goat_list reader) as [evs|].
    + pose proof (goat_bounded (goat_cutoff g now) evs) as H.
      destruct (foldl _ _ _) as [[seen l] noStock]. by intros [= <-].
    + intros [= <-]. constructor.
  - intros [= <-]. unfold NotReadyNodeDetector_Detect.
    destruct (rd_ListNodes reader) as [items|] eqn:E; [|constructor].
    apply Forall_forall. intros n (i & node & Hi & _ & _ & ->)%notready_loop_spec.
    rewrite notready_node_fields. specialize (Hr items eq_refl).
    rewrite Forall_forall in Hr. apply (Hr node). by eapply list_elem_of_lookup_2.
  - apply Hd.
Qed.

Lemma detector_bounded_kept d reader now :
  detector_bounded d → detector_bounded (Detector_Detect d reader now).1.
Proof.
  destruct d as [|g| |]; try done. cbn. by destruct (GOATScalerDetector_Detect g reader now).
Qed.

Lemma detect_chain_bounded ds reader now :
  Forall detector_bounded ds → (∀ l, rd_ListNodes reader = Ok l → Forall node_bounded l) →
  Forall detector_bounded (detect_chain ds reader now).1.1 ∧
  Forall inflight_bounded (detect_chain ds reader now).2.1.
Proof.
  intros Hds Hr. induction Hds as [|d ds Hd Hds [IH1 IH2]]; [done|]. cbn [detect_chain].
  pose proof (detector_bounded_kept d reader now Hd) as Hd'.
  pose proof (Detect_bounded d reader now) as Hn.
  destruct (Detector_Detect d reader now) as [d' [[|n ns]|e]]; cbn [fst snd] in *.
  - destruct (detect_chain ds reader now) as [[ds' es] found]. split; [by constructor|done].
  - split; [by constructor|]. by apply Hn.
  - destruct (detect_chain ds reader now) as [[ds' es] found]. split; [by constructor|done].
Qed.

(** ** The template of a node *)

Lemma is_first_elem {T} (Q : T → Prop) l t : is_first Q l t → t ∈ l.
Proof. intros (l1 & l2 & -> & _). apply elem_of_app. right. left. Qed.

Lemma choose_template_elem n pod templates t :
  choose_template n pod templates = Some t → t ∈ templates.
Proof.
  unfold choose_template, findMatchingTemplate.
  pose proof (proj1 (find_instance_type_first n templates)) as H1. cbn in H1.
  destruct (if negb _ then _ else None) as [t1|].
  { intros [= <-]. by eapply is_first_elem, H1. }
  destruct (find_name_prefix _ _) as [t2|] eqn:E.
  { intros [= <-]. by eapply is_first_elem, find_name_prefix_first. }
  intros H. by eapply is_first_elem, findTemplateForPod_first.
Qed.

Lemma enrich_bounded n pod templates :
  inflight_bounded n → Forall (λ t, amounts_bounded (tmpl_Allocatable t)) templates →
  amounts_bounded (enrich n pod templates).1.1.
Proof.
  intros Hn Ht. unfold enrich. destruct (choose_template n pod templates) as [t|] eqn:E; [|done].
  cbn. destruct (map_empty _); [|done]. rewrite copyTemplateAllocatable_id.
  rewrite Forall_forall in Ht. by eapply Ht, choose_template_elem.
Qed.
End bounds.

(** ** A reconciliation as operations of the ledger *)

Lemma rtc_foldl {S T} (R : S → S → Prop) (f : S → T → S) xs l :
  (∀ l x, x ∈ xs → rtc R l (f l x)) → rtc R l (foldl f l xs).
Proof.
  revert l. induction xs as [|x xs IH]; intros l H; [done|]. cbn [foldl].
  etrans; [apply H; left|]. apply IH. intros. apply H. by right.
Qed.

Section steps.
Context {K : Kube} {O : MapOrder}.
Notation steps := (rtc ledger_step).

Lemma sync_node_steps profile l node : node_bounded node → steps l (sync_node profile l node).
Proof.
  intros Hn. unfold sync_node. rewrite milli_alloc_fmap.
  destruct (node_DeletionTimestamp node); [done|]. destruct (bool_decide _ && _); [done|].
  etrans; [apply rtc_once, step_AddNode, Hn|].
  destruct (negb _); [|done]. apply rtc_once, step_RemoveInflightNode.
Qed.

Lemma cleared_steps profile l : steps l (cleared profile l).
Proof.
  etrans; [apply rtc_once, step_ClearNodes|]. apply rtc_once, step_ClearInflightByPrefix.
Qed.

Lemma with_usage_steps l usage :
  map_Forall (λ _ u, amounts_bounded u) usage → steps l (with_usage l usage).
Proof.
  intros Hu. apply rtc_foldl. intros l' [k u] Hin%elem_of_range.
  apply rtc_once, step_UpdateUsage. by apply (Hu k u).
Qed.

Lemma sync_inflight_steps profile pod l n :
  inflight_bounded n → Forall (λ t, amounts_bounded (tmpl_Allocatable t)) (templates_of profile) →
  steps l (sync_inflight profile pod l n).
Proof.
  intros Hn Ht. unfold sync_inflight.
  pose proof (enrich_bounded n pod (templates_of profile) Hn Ht) as H. unfold templates_of in H.
  destruct (enrich _ _ _) as [[alloc ls] ts]. apply rtc_once, step_AddInflightNode, H.
Qed.

Lemma rebuilt_steps profile pod l nodeList podList found :
  ledger_bounded l → Forall node_bounded nodeList →
  (∀ k res, 0 ≤ used_on podList k res ≤ amount_bound) →
  Forall (λ t, amounts_bounded (tmpl_Allocatable t)) (templates_of profile) →
  Forall inflight_bounded found →
  steps l (rebuilt profile pod l nodeList podList found).
Proof.
  intros Hl Hns Hps Ht Hf. unfold rebuilt. rewrite Forall_forall in Hns. rewrite Forall_forall in Hf.
  etrans; [apply (cleared_steps profile)|].
  etrans; [apply (rtc_foldl _ (sync_node profile) nodeList); intros; by apply sync_node_steps, Hns|].
  etrans; [apply (with_usage_steps _ (usage_of podList)); intros k u; by apply usage_bounded|].
  etrans; [apply (rtc_foldl _ (sync_inflight profile pod) found); intros;
    apply sync_inflight_steps; [by apply Hf|done]|].
  apply rtc_once, step_RestoreReservations, bounded_snapshot, Hl.
Qed.

(** A reservation that fits is the ledger's. *)
Lemma reserve_at_steps l k n demand :
  findEntry l k = Some n → fits n demand → nonneg demand → steps l (reserve_at l k demand).
Proof.
  intros Hn Hf Hd. assert (reserve_at l k demand = (Reserve l k demand).1) as ->.
  { rewrite Reserve_spec. unfold reserve_at. by rewrite Hn, decide_True. }
  apply rtc_once, step_Reserve. intros r q Hq. specialize (Hd r q Hq). specialize (Hf r q Hq).
  pose proof (available_int64 n r). cbn in Hd, Hf. split; [done|]. int64_lia.
Qed.

Lemma rules_run_steps pod profile i refs t l l' o :
  rules_run pod profile i refs t l l' o → ledger_ok l → nonneg (demand_of pod profile) →
  steps l l'.
Proof.
  intros Hrun Hl Hd. revert Hl.
  assert (∀ O' name rule l v l1, Registry !! name = Some rule → ledger_ok l →
    rule_Evaluate rule O' pod l profile = (v, l1) → steps l l1) as He.
  { intros O' name rule l0 v l1 Hr Hl0 Hv.
    destruct (Evaluate_effect (O := O') _ _ _ _ _ _ _ Hr (ledger_ok_wf _ Hl0) Hv)
      as [[->|(k & n & Hn & Hf & ->)] _]; [done|]. by eapply reserve_at_steps. }
  induction Hrun as [| |i ref refs t l l1 l' o rule v Hr Hv Hrel Hrun IH
    |i ref refs t l l1 rule v Hr Hv Hrel]; intros Hl;
    [done|auto| |exact (He _ _ _ _ _ _ Hr Hl Hv)].
  etrans; [exact (He _ _ _ _ _ _ Hr Hl Hv)|]. apply IH. by eapply (Evaluate_ok (O := sub_order _ _)).
Qed.

(** The rebuild, whether it succeeds or not; the detectors stay in range. *)
Lemma syncLedger_steps env profile pod r pn :
  env_bounded r env → env_GetProfile env pn = Ok profile →
  ledger_bounded (r_Ledger r) → Forall detector_bounded (r_Detectors r) →
  steps (r_Ledger r) (r_Ledger (syncLedger env profile pod r).1.1) ∧
  Forall detector_bounded (r_Detectors (syncLedger env profile pod r).1.1).
Proof.
  intros [Hns Hrd Hps Hpr] Hp Hl Hds. destruct (Hpr pn profile Hp) as [Ht _].
  rewrite syncLedger_run. destruct (env_ListNodes env) as [nodeList|].
  2:{ split; [apply cleared_steps|done]. }
  specialize (Hns _ eq_refl). destruct (env_ListPods env) as [podList|].
  2:{ split; [|done]. cbn. etrans; [apply (cleared_steps profile)|].
      apply rtc_foldl. rewrite Forall_forall in Hns. intros. by apply sync_node_steps, Hns. }
  destruct (detect_chain_bounded (r_Detectors r) (reader_of env r) (env_now env) Hds Hrd)
    as [Hds' Hf].
  destruct (detect_chain _ _ _) as [[ds es] [found active]]. cbn [fst snd] in *.
  split; [|done]. apply rebuilt_steps; try done. intros k res. by apply (Hps podList).
Qed.

Lemma decides_steps env r d r' s :
  nodes_valid env → env_bounded r env → decides env r d r' s → ledger_ok (r_Ledger r) →
  ledger_bounded (r_Ledger r) → Forall detector_bounded (r_Detectors r) →
  steps (r_Ledger r) (r_Ledger r') ∧ Forall detector_bounded (r_Detectors r').
Proof.
  intros Hv He Hd Hok Hl Hds.
  assert (∀ pod pn profile r1, synced env r pod pn profile r1 →
    (steps (r_Ledger r) (r_Ledger r1) ∧ Forall detector_bounded (r_Detectors r1)) ∧
    ledger_ok (r_Ledger r1) ∧ nonneg (demand_of pod profile)) as Hsync.
  { intros pod pn profile r1 Hs. split; [|split].
    - destruct Hs as (_ & Hp & es & E).
      pose proof (syncLedger_steps env profile pod r pn He Hp Hl Hds) as H. by rewrite E in H.
    - by eapply synced_ok.
    - destruct Hs as ((Hg & _) & Hp & _). by apply (eb_profile _ _ He _ _ Hp). }
  destruct Hd as [| | | | |pod pn profile r1 es e Hg Hp Hs|? ? ? ? Hs|? ? ? ? Hs
    |? ? ? ? ? ? Hs ? Hrun|? ? ? ? ? ? Hs ? Hrun]; try done.
  - pose proof (syncLedger_steps env profile pod r pn He Hp Hl Hds) as H. by rewrite Hs in H.
  - apply (Hsync _ _ _ _ Hs).
  - apply (Hsync _ _ _ _ Hs).
  - destruct (Hsync _ _ _ _ Hs) as ([H1 H2] & Hok1 & Hd). split; [|done].
    etrans; [exact H1|]. by eapply rules_run_steps.
  - destruct (Hsync _ _ _ _ Hs) as ([H1 H2] & Hok1 & Hd). split; [|done].
    etrans; [exact H1|]. by eapply rules_run_steps.
Qed.
End steps.

(** One reconciliation on answers in range. *)
Inductive bounded_reconcile {K : Kube} : Reconciler → Reconciler → Prop :=
  | bounded_reconcile_intro O env r :
      nodes_valid env → env_bounded r env →
      bounded_reconcile r (@Reconcile K O env r).1.1.

(** The state the invariant speaks of. *)
Definition reconciler_bounded {K : Kube} (r : Reconciler) : Prop :=
  ledger_ok (r_Ledger r) ∧ ledger_bounded (r_Ledger r) ∧ Forall detector_bounded (r_Detectors r).

Lemma bounded_reconcile_steps {K : Kube} r r' :
  bounded_reconcile r r' → reconciler_bounded r →
  rtc ledger_step (r_Ledger r) (r_Ledger r') ∧ reconciler_bounded r'.
Proof.
  intros [O env r0 Hv He] (Hok & Hl & Hds).
  destruct (@Reconcile_run K O env r0) as (r1 & es & d & s & -> & Hd & _).
  destruct (decides_steps (O := O) _ _ _ _ _ Hv He Hd Hok Hl Hds) as [Hs Hds'].
  split; [done|]. split; [by eapply (decides_ok (O := O))|]. split; [|done].
  by eapply bounded_steps.
Qed.

Lemma bounded_reconciles {K : Kube} r r' :
  rtc bounded_reconcile r r' → reconciler_bounded r →
  rtc ledger_step (r_Ledger r) (r_Ledger r') ∧ reconciler_bounded r'.
Proof.
  induction 1 as [r|r r1 r2 H1 _ IH]; intros Hr; [done|].
  destruct (bounded_reconcile_steps _ _ H1 Hr) as [Hs1 Hr1]. destruct (IH Hr1) as [Hs2 Hr2].
  split; [by etrans|done].
Qed.

Lemma reachable_bounded {K : Kube} r r' :
  r_Ledger r = New → Forall detector_bounded (r_Detectors r) → rtc bounded_reconcile r r' →
  reconciler_bounded r'.
Proof.
  intros Hl Hds Hs. apply (bounded_reconciles r r' Hs).
  split; [|split]; rewrite ?Hl; [apply ledger_ok_New|apply bounded_New|done].
Qed.

(** ** Properties *)

(** C14: no amount ever wraps.  When the controller starts with an empty ledger
    and every answer of the cluster stays in range, any sequence of
    reconciliations, whatever the pods, profiles, orders and decisions,
    changes the ledger by operations of its contract only; so every reserved
    amount stays between 0 and 2^61, and what is available is always the exact
    difference of the three amounts. *)
Theorem reconciles_never_wrap {K : Kube} r r' :
  r_Ledger r = New → Forall detector_bounded (r_Detectors r) → rtc bounded_reconcile r r' →
  rtc ledger_step New (r_Ledger r') ∧
  ∀ k n res, findEntry (r_Ledger r') k = Some n →
    0 ≤ (reserved n)⟦res⟧ ≤ amount_bound ∧
    available n res = (allocatable n)⟦res⟧ - (used n)⟦res⟧ - (reserved n)⟦res⟧.
Proof.
  intros Hr Hds Hs. destruct (bounded_reconciles r r' Hs) as [Hst (_ & Hb & _)].
  { split; [|split]; rewrite ?Hr; [apply ledger_ok_New|apply bounded_New|done]. }
  rewrite Hr in Hst. split; [done|]. intros k n res Hn.
  pose proof (bounded_find _ _ _ Hb Hn) as He. split; [|by apply available_exact].
  apply amounts_bounded_get, He.
Qed.

(** ** Witness *)

Definition one_node_cluster : Env :=
  cluster (gated_pod Hour) ["WaitForNodeReady"] [arrived_node] Hour.

Lemma one_node_bounded : env_bounded fresh_reconciler one_node_cluster.
Proof.
  assert (node_bounded arrived_node) as Hn by (unfold node_bounded; decide_true).
  split.
  - intros ns [= <-]. by apply Forall_singleton.
  - intros ns H. cbn in H. injection H as <-. constructor.
  - intros ps k res [= <-]. unfold used_on. done.
  - intros pn profile [= <-]. split; [constructor|]. intros pod [= <-].
    change (nonneg (demand_of (gated_pod Hour) (profile_with ["WaitForNodeReady"]))).
    decide_true.
Qed.

Lemma reconciles_never_wrap_witness :
  let r := (Reconcile (O := order_forward) one_node_cluster fresh_reconciler).1.1 in
  rtc bounded_reconcile fresh_reconciler r ∧ rtc ledger_step New (r_Ledger r).
Proof.
  intros r. assert (rtc bounded_reconcile fresh_reconciler r) as H.
  { apply rtc_once, (bounded_reconcile_intro order_forward);
      [apply arrived_valid|apply one_node_bounded]. }
  split; [exact H|].
  exact (proj1 (reconciles_never_wrap fresh_reconciler r eq_refl (Forall_nil_2 _) H)).
Defined.
