(* ===== verification/Capacity.v ===== *)
(** * Capacity across pods

    Each release compares one pod with what the ledger says is left on a node;
    the reservations carry what earlier releases took from one rebuild to the
    next.  Put together: as long as a node stays in the rebuilds, all the pods
    the rules ever sent to it fit on it side by side, next to what already
    runs there. *)

From stdpp Require Import relations.
From S2P Require Import Prelude GoStrings GoTime Kube Scheduling Ledger LedgerFit Reservations.
From S2P Require Import Rules Inflight Templates Status Release Sync Rebuild Reconcile.
From S2P Require Import Decisions Safety Bounds.

Section reserving.
Context {K : Kube}.

(** ** What an evaluation leaves reserved *)

(** On the entry [t], [l'] has at least [q] more reserved than [l]. *)
Definition reserves (t : string) (q : gmap string Z) (l l' : NodeLedger) : Prop :=
  ∀ res, (reserved_at l t)⟦res⟧ + q⟦res⟧ ≤ (reserved_at l' t)⟦res⟧.

Lemma getZ_empty res : (∅ : gmap string Z)⟦res⟧ = 0.
Proof. done. Qed.

Lemma reserves_refl t l : reserves t ∅ l l.
Proof. intros res. rewrite getZ_empty. lia. Qed.

Lemma reserves_trans t q l1 l2 l3 :
  reserves t ∅ l1 l2 → reserves t q l2 l3 → reserves t q l1 l3.
Proof.
  intros H1 H2 res. specialize (H1 res). specialize (H2 res). rewrite getZ_empty in H1. lia.
Qed.

Lemma reserves_trans_r t q l1 l2 l3 :
  reserves t q l1 l2 → reserves t ∅ l2 l3 → reserves t q l1 l3.
Proof.
  intros H1 H2 res. specialize (H1 res). specialize (H2 res). rewrite getZ_empty in H2. lia.
Qed.

Lemma nonneg_get q res : nonneg q → 0 ≤ q⟦res⟧.
Proof. intros H. unfold getZ. destruct (q !! res) as [x|] eqn:E; [|done]. exact (H res x E). Qed.

Lemma reserves_weaken t q l l' : nonneg q → reserves t q l l' → reserves t ∅ l l'.
Proof.
  intros Hq H res. specialize (H res). pose proof (nonneg_get q res Hq). rewrite getZ_empty. lia.
Qed.

Lemma reserve_at_reserved l k n demand t :
  ledger_bounded l → findEntry l k = Some n → fits n demand → nonneg demand →
  reserves t (if decide (k = t) then demand else ∅) l (reserve_at l k demand).
Proof.
  intros Hl Hn Hf Hd res. unfold reserve_at, reserved_at. rewrite Hn.
  case_decide as Hk.
  - subst t. rewrite (findEntry_write_same _ _ _ _ Hn), Hn.
    unfold set_reserved. cbn [reserved]. rewrite getZ_map_upd.
    pose proof (bounded_find _ _ _ Hl Hn) as He. destruct He as (Ha & Hu & Hr).
    pose proof (amounts_bounded_get _ res Hr) as Hrr. unfold getZ at 2.
    destruct (demand !! res) as [q|] eqn:Hq; [|cbn; lia]. cbn [default].
    specialize (Hd res q Hq). specialize (Hf res q Hq). cbn in Hd, Hf.
    rewrite available_exact in Hf by done.
    pose proof (amounts_bounded_get _ res Ha). pose proof (amounts_bounded_get _ res Hu).
    rewrite add64_exact; [cbn; lia|]. unfold amount_bound in *. int64_lia.
  - rewrite findEntry_write_other by done. rewrite getZ_empty. lia.
Qed.

(** A rule that names a node has reserved the demand there. *)
Lemma Evaluate_reserves {O : MapOrder} name rule pod l profile v l1 :
  Registry !! name = Some rule → ledger_wf l →
  rule_Evaluate rule O pod l profile = (v, l1) →
  v_nodeName v = "" ∨ l1 = reserve_at l (v_nodeName v) (demand_of pod profile).
Proof.
  intros Hr Hwf. unfold demand_of.
  destruct (Registry_Evaluate _ _ Hr) as [->| ->];
    rewrite ?WaitForNodeReady_cases, ?WaitForWorkloadPacking_cases by done;
    destruct (map_empty _); try (intros [= <- <-]; by left).
  - destruct (FindFit _ _ _) as [[k [|]]|e]; intros [= <- <-]; [by left|by right|by left].
  - destruct (FindFitExisting _ _ _) as [k|e]; intros [= <- <-]; [by right|by left].
Qed.

(** What one evaluation keeps and adds. *)
Lemma Evaluate_step {O : MapOrder} name rule pod l profile v l1 :
  Registry !! name = Some rule → ledger_ok l → ledger_bounded l →
  nonneg (demand_of pod profile) → rule_Evaluate rule O pod l profile = (v, l1) →
  ledger_ok l1 ∧ ledger_bounded l1 ∧ (∀ t, reserves t ∅ l l1) ∧
  (v_nodeName v ≠ "" → reserves (v_nodeName v) (demand_of pod profile) l l1).
Proof.
  intros Hr Hok Hb Hd Hv.
  pose proof (Evaluate_ok _ _ _ _ _ _ _ Hr Hok Hv) as Hok1.
  pose proof (Evaluate_reserves _ _ _ _ _ _ _ Hr (ledger_ok_wf _ Hok) Hv) as Hres.
  destruct (Evaluate_effect _ _ _ _ _ _ _ Hr (ledger_ok_wf _ Hok) Hv) as [He Hname].
  split; [done|]. split; [|split].
  - destruct He as [->|(k & n & Hn & Hf & ->)]; [done|].
    eapply bounded_steps; [by eapply reserve_at_steps|done].
  - intros t. destruct He as [->|(k & n & Hn & Hf & ->)]; [apply reserves_refl|].
    eapply (reserves_weaken t (if decide (k = t) then demand_of pod profile else ∅));
      [by case_decide|by eapply reserve_at_reserved].
  - intros Hne. destruct Hres as [?| ->]; [done|].
    destruct Hname as [?|(n & Hn & Hf & _)]; [done|].
    pose proof (reserve_at_reserved l (v_nodeName v) n (demand_of pod profile) (v_nodeName v) Hb)
      as H. rewrite decide_True in H by done. apply H; [|done..].
    by apply (findEntry_of_side l false), Hn; apply (ledger_ok_wf _ Hok).
Qed.

(** The rules together: nothing is given back, and the node they name has the
    demand reserved. *)
Lemma rules_run_reserves {O : MapOrder} pod profile i refs t0 l l' o :
  rules_run pod profile i refs t0 l l' o → ledger_ok l → ledger_bounded l →
  nonneg (demand_of pod profile) →
  (∀ t, reserves t ∅ l l') ∧
  ∀ target, o = RulesRelease target → target = t0 ∨ reserves target (demand_of pod profile) l l'.
Proof.
  intros Hrun Hok Hb Hd. revert Hok Hb.
  induction Hrun as [i t0 l|i ref refs t0 l l' o Hr Hrun IH
    |i ref refs t0 l l1 l' o rule v Hr Hv Hrel Hrun IH|i ref refs t0 l l1 rule v Hr Hv Hrel];
    intros Hok Hb.
  - split; [intros; apply reserves_refl|]. intros target [= ->]. by left.
  - by apply IH.
  - destruct (Evaluate_step (O := sub_order _ _) _ _ _ _ _ _ _ Hr Hok Hb Hd Hv)
      as (Hok1 & Hb1 & Hmono & Hname).
    destruct (IH Hok1 Hb1) as [IH1 IH2].
    split; [intros t; by eapply reserves_trans|]. intros target Ho.
    destruct (IH2 target Ho) as [->|H]; [|right; by eapply reserves_trans].
    case_bool_decide as He; [by left|]. right. eapply reserves_trans_r; [by apply Hname|apply IH1].
  - destruct (Evaluate_step (O := sub_order _ _) _ _ _ _ _ _ _ Hr Hok Hb Hd Hv)
      as (_ & _ & Hmono & _).
    split; [exact Hmono|done].
Qed.
End reserving.

Section calls.
Context {K : Kube}.

(** ** The calls *)

(** The node stays in the rebuild: the lists succeed, and the node is listed,
    not being deleted, and has the resources the profile asks for. *)
Definition keeps (t : string) (env : Env) : Prop :=
  ∃ nodeList podList, env_ListNodes env = Ok nodeList ∧ env_ListPods env = Ok podList ∧
    ∀ pn profile, env_GetProfile env pn = Ok profile → is_Some (find_node profile nodeList t).

(** One call with its decision, on answers in range that keep the node. *)
Definition call (t : string) (run : MapOrder * Env) (r : Reconciler) (d : decision)
    (r' : Reconciler) : Prop :=
  let '(order, env) := run in
  nodes_valid env ∧ env_bounded r env ∧ keeps t env ∧
  ∃ es res s, @Reconcile K order env r = (r', es, res) ∧ @decides K order env r d r' s ∧
    patches es = decision_patches d.

(** What a decision takes from the node: the demand of the pod it sends there. *)
Definition grant (t : string) (env : Env) (d : decision) : gmap string Z :=
  match d with
  | ReleasePod pod _ target =>
      if bool_decide (target = t) then
        match slookup (pod_Labels pod) LabelProfile ≫= λ pn,
                match env_GetProfile env pn with Ok p => Some p | Err _ => None end with
        | Some profile => demand_of pod profile
        | None => ∅
        end
      else ∅
  | _ => ∅
  end.

(** A sequence of calls, with what they took from the node, the last first. *)
Inductive history (t : string) (r0 : Reconciler) : list (gmap string Z) → Reconciler → Prop :=
  | h_start : history t r0 [] r0
  | h_call run grants r d r' :
      history t r0 grants r → call t run r d r' →
      history t r0 (grant t run.2 d :: grants) r'.

Definition taken (grants : list (gmap string Z)) (res : string) : Z :=
  sum_list_Z ((λ g, g⟦res⟧) <$> grants).

(** ** One call *)

Lemma rebuild_reserves {O : MapOrder} env r pod pn profile r1 t :
  ledger_ok (r_Ledger r) → nodes_valid env → keeps t env → synced env r pod pn profile r1 →
  ∃ nodeList podList node, env_ListNodes env = Ok nodeList ∧ env_ListPods env = Ok podList ∧
    find_node profile nodeList t = Some node ∧
    nodes (r_Ledger r1) !! t = Some (rebuilt_node podList (r_Ledger r) node) ∧
    reserves t ∅ (r_Ledger r) (r_Ledger r1).
Proof.
  intros Hok Hv (nodeList & podList & Hn & Hp & Hfind) Hsy.
  destruct (synced_lists _ _ _ _ _ _ Hsy) as (nodeList' & podList' & found & Hn' & Hp' & Hl1).
  assert (nodeList' = nodeList ∧ podList' = podList) as [-> ->] by (split; congruence).
  destruct (Hfind pn profile) as [node Hnode]; [apply Hsy|].
  destruct (Hv _ Hn) as [_ Hnd].
  destruct (rebuilt_lookup profile pod (r_Ledger r) nodeList podList found
    (proj2 (ledger_ok_wf _ Hok)) Hnd) as (Hnodes & _).
  specialize (Hnodes t). rewrite <- Hl1, Hnode in Hnodes. cbn in Hnodes.
  exists nodeList, podList, node. split_and!; try done. intros res.
  unfold reserved_at at 2, findEntry. rewrite Hnodes. cbn [rebuilt_node reserved].
  apply find_node_Some in Hnode as (_ & -> & _). rewrite getZ_empty. lia.
Qed.

Lemma synced_bounded {O : MapOrder} env r pod pn profile r1 :
  env_bounded r env → synced env r pod pn profile r1 → reconciler_bounded r →
  ledger_bounded (r_Ledger r1) ∧ nonneg (demand_of pod profile).
Proof.
  intros He ((Hpod & _) & Hp & es & E) (_ & Hb & Hds). split.
  - eapply bounded_steps; [|done].
    pose proof (syncLedger_steps env profile pod r pn He Hp Hb Hds) as H. rewrite E in H. apply H.
  - by apply (eb_profile _ _ He _ _ Hp).
Qed.

(** Nothing is given back on the node, and what a decision takes is reserved. *)
Lemma call_reserves t run r d r' :
  t ≠ "" → reconciler_bounded r → call t run r d r' →
  reconciler_bounded r' ∧ reserves t (grant t run.2 d) (r_Ledger r) (r_Ledger r').
Proof.
  destruct run as [order env]. intros Ht Hr (Hv & He & Hk & es & res & s & E & Hd & _). cbn [snd].
  pose proof (bounded_reconcile_steps r (@Reconcile K order env r).1.1) as Hstep.
  destruct Hstep as [_ Hr']; [by apply bounded_reconcile_intro|done|]. rewrite E in Hr'.
  split; [exact Hr'|]. pose proof Hr as (Hok & _).
  assert (∀ pod reason, grant t env (ReleasePod pod reason "") = ∅) as Hnone.
  { intros. unfold grant. by rewrite bool_decide_false by congruence. }
  assert (∀ pod pn profile r1, synced env r pod pn profile r1 →
    reserves t ∅ (r_Ledger r) (r_Ledger r1)) as Hsync.
  { intros pod pn profile r1 Hsy.
    destruct (@rebuild_reserves order _ _ _ _ _ _ t Hok Hv Hk Hsy) as (ns & ps & n & Hsame).
    apply Hsame. }
  destruct Hd as [| | | | |pod pn profile r1 es' e Hg Hp Hs|? ? ? ? Hsy|? ? ? ? Hsy
    |pod pn profile r1 l' rule Hsy ? Hrun|pod pn profile r1 l' target Hsy ? Hrun];
    cbn [r_Ledger set_Ledger]; rewrite ?Hnone; try apply reserves_refl; try (by eapply Hsync).
  - exfalso. destruct Hk as (ns & ps & Hns & Hps & _).
    rewrite syncLedger_run, Hns, Hps in Hs.
    destruct (detect_chain _ _ _) as [[ds es2] [found active]]. discriminate Hs.
  - destruct (@synced_bounded order _ _ _ _ _ _ He Hsy Hr) as [Hb1 Hd].
    pose proof (@synced_ok K order _ _ _ _ _ _ Hv Hsy Hok) as Hok1.
    destruct (rules_run_reserves _ _ _ _ _ _ _ _ Hrun Hok1 Hb1 Hd) as [H1 _].
    eapply reserves_trans; [by eapply Hsync|apply H1].
  - destruct (@synced_bounded order _ _ _ _ _ _ He Hsy Hr) as [Hb1 Hd].
    pose proof (@synced_ok K order _ _ _ _ _ _ Hv Hsy Hok) as Hok1.
    destruct (rules_run_reserves _ _ _ _ _ _ _ _ Hrun Hok1 Hb1 Hd) as [H1 H2].
    eapply reserves_trans; [by eapply Hsync|]. unfold grant.
    case_bool_decide as Htt; [subst target|apply H1].
    destruct Hsy as ((_ & _ & Hlab) & Hprof & _). rewrite Hlab. cbn. rewrite Hprof.
    by destruct (H2 t eq_refl) as [?|?].
Qed.

(** Along a history, what was taken stays reserved. *)
Lemma history_reserved t r0 grants r :
  t ≠ "" → reconciler_bounded r0 → history t r0 grants r →
  reconciler_bounded r ∧ ∀ res, taken grants res ≤ (reserved_at (r_Ledger r) t)⟦res⟧.
Proof.
  intros Ht H0 Hh. induction Hh as [|run grants r d r' _ [Hr IH] Hc].
  - split; [done|]. intros res. unfold reserved_at.
    destruct (findEntry (r_Ledger r0) t) as [n|] eqn:E; [|done].
    destruct H0 as (_ & Hb & _). destruct (bounded_find _ _ _ Hb E) as (_ & _ & Hres).
    apply (amounts_bounded_get _ res Hres).
  - destruct (call_reserves t run r d r' Ht Hr Hc) as [Hr' Hres]. split; [done|].
    intros res. specialize (IH res). specialize (Hres res). unfold taken in *. cbn. lia.
Qed.
End calls.

(** ** Property *)

(** C3: released pods fit side by side.  From an empty ledger, take any
    reconciliations on answers in range, while nodes come and go; from any
    point on, take any sequence of them that keeps one node in the rebuild, of
    any pods and profiles.  Whenever the rules send one more pod
    to the node, then for every resource that pod demands, what the listed
    pods on the node request, what all the pods sent there since that point demand, and
    what this one demands are together at most what the node can allocate.  So
    pods that were sent to the node but are not bound yet are never forgotten. *)
Theorem released_pods_fit {K : Kube} t ri r0 grants r run pod reason r' :
  t ≠ "" → r_Ledger ri = New → Forall detector_bounded (r_Detectors ri) →
  rtc bounded_reconcile ri r0 →
  history t r0 grants r → call t run r (ReleasePod pod reason t) r' →
  ∃ pn profile nodeList podList node,
    gated run.2 pod pn ∧ env_GetProfile run.2 pn = Ok profile ∧
    env_ListNodes run.2 = Ok nodeList ∧ env_ListPods run.2 = Ok podList ∧
    node ∈ nodeList ∧ node_Name node = t ∧
    grant t run.2 (ReleasePod pod reason t) = demand_of pod profile ∧
    ∀ res q, demand_of pod profile !! res = Some q →
      used_on podList t res + taken grants res + q ≤ (MilliValue <$> node_Allocatable node)⟦res⟧.
Proof.
  intros Ht Hl Hds Hrun0 Hh Hc.
  assert (reconciler_bounded r0) as H0 by (by eapply reachable_bounded).
  destruct (history_reserved t r0 grants r Ht H0 Hh) as [Hr Htaken].
  destruct run as [order env]. destruct Hc as (Hv & He & Hk & es & res & s & _ & Hd & _). cbn [snd].
  inversion Hd as [| | | | | | | | |pod0 pn profile r1 l' target Hsy Hev Hrun]; subst; try done.
  pose proof (@synced_ok K order _ _ _ _ _ _ Hv Hsy (proj1 Hr)) as Hok1.
  destruct (@synced_bounded K order _ _ _ _ _ _ He Hsy Hr) as [Hb1 Hnn].
  destruct (@rebuild_reserves K order _ _ _ _ _ _ t (proj1 Hr) Hv Hk Hsy)
    as (nodeList & podList & node & Hns & Hps & Hfind & Hnode & _).
  destruct (rules_run_target _ _ _ _ _ _ _ _ Hrun Hok1) as [?|(n & Hn & _ & Hf)]; [done|].
  rewrite Hnode in Hn. injection Hn as <-. specialize (Hf Hnn).
  pose proof Hsy as (Hg & Hprof & _). pose proof Hg as (_ & _ & Hlab).
  apply find_node_Some in Hfind as (Hin & Hname & _).
  exists pn, profile, nodeList, podList, node. split_and!; try done.
  { unfold grant. rewrite bool_decide_true by done. rewrite Hlab. cbn. by rewrite Hprof. }
  intros x q Hq. specialize (Hf x q Hq). specialize (Htaken x). cbn beta in Hf.
  pose proof (Hb1 false t _ Hnode) as Hbn. rewrite available_exact in Hf by done.
  cbn [rebuilt_node allocatable used reserved] in Hf. rewrite usage_of_get, Hname in Hf.
  rewrite wrap64_id in Hf; [lia|].
  pose proof (eb_pods _ _ He _ t x Hps) as Hu. unfold amount_bound in Hu. int64_lia.
Qed.

(** ** Witness *)

(** A release can be read off the patch. *)
Lemma patch_decision {K : Kube} d pod reason t :
  decision_patches d = [(pod, released_pod pod t reason)] →
  hasKompaktGates pod = true → slookup (pod_Annotations pod) AnnotationNode = None →
  d = ReleasePod pod reason t.
Proof.
  assert (AnnotationNode ≠ AnnotationHeldBy ∧ AnnotationReason ≠ AnnotationHeldBy ∧
    AnnotationReason ≠ AnnotationNode) as (Hne1 & Hne2 & Hne3) by done.
  intros Hd Hg Hnone. destruct d as [|e| |pod' rule|pod' reason' target]; try done;
    cbn [decision_patches] in Hd.
  - unfold annotated_pod in Hd. destruct (_ && _); [done|].
    injection Hd as -> Hp. exfalso.
    apply (f_equal hasKompaktGates) in Hp. rewrite released_no_gates in Hp.
    unfold hasKompaktGates in *. cbn in Hp. congruence.
  - injection Hd as -> Hp. apply (f_equal pod_Annotations) in Hp.
    pose proof (f_equal (λ a, slookup a AnnotationReason) Hp) as Hr.
    pose proof (f_equal (λ a, slookup a AnnotationNode) Hp) as Hn. cbn beta in Hr, Hn.
    rewrite !released_annotations in Hr. rewrite !released_annotations in Hn.
    rewrite !(decide_False (P := AnnotationReason = AnnotationHeldBy)) in Hr by done.
    rewrite !(decide_False (P := AnnotationReason = AnnotationNode ∧ _)) in Hr
      by (by intros [? _]).
    rewrite !(decide_True (P := AnnotationReason = AnnotationReason)) in Hr by done.
    injection Hr as ->.
    rewrite !(decide_False (P := AnnotationNode = AnnotationHeldBy)) in Hn by done.
    rewrite !(decide_False (P := AnnotationNode = AnnotationReason)) in Hn by done.
    rewrite Hnone in Hn. f_equal.
    assert (∀ s, ¬ (AnnotationNode = AnnotationNode ∧ s ≠ "") → s = "") as Hempty.
    { intros s Hs. destruct (decide (s = "")); [done|]. by destruct Hs. }
    case_decide as H1; case_decide as H2; try congruence. by rewrite (Hempty _ H1), (Hempty _ H2).
Qed.

Definition named_pod (name : string) : Pod (K := kube_milli) := {|
  pod_Name := name; pod_Namespace := "default";
  pod_Labels := pod_Labels (gated_pod Hour); pod_Annotations := None;
  pod_CreationTimestamp := Hour; pod_Containers := pod_Containers (gated_pod Hour);
  pod_Tolerations := []; pod_NodeSelector := None;
  pod_SchedulingGates := pod_SchedulingGates (gated_pod Hour);
  pod_Affinity := None; pod_NodeName := ""; pod_Phase := "Pending" |}.

Definition arrived_run (name : string) : MapOrder * Env (K := kube_milli) :=
  (order_forward, cluster (named_pod name) ["WaitForNodeReady"] [arrived_node] Hour).

Definition after (run : MapOrder * Env (K := kube_milli)) (r : Reconciler) : Reconciler :=
  (Reconcile (O := run.1) run.2 r).1.1.

Lemma arrived_call name r :
  r_APIReader r = None →
  patches (Reconcile (O := order_forward) (arrived_run name).2 r).1.2 =
    [(named_pod name, released_pod (named_pod name) "n1" "capacity")] →
  call "n1" (arrived_run name) r (ReleasePod (named_pod name) "capacity" "n1")
    (after (arrived_run name) r).
Proof.
  intros Hr Hp. unfold after, arrived_run in *. cbn [fst snd] in *.
  set (env := cluster (named_pod name) _ _ _) in *. split_and!.
  - apply arrived_valid.
  - destruct one_node_bounded as [H1 H2 _ H4]. split; [exact H1| | |].
    + intros ns. unfold reader_of. rewrite Hr. intros H. apply (H2 ns H).
    + intros ps k res [= <-]. unfold used_on. done.
    + intros pn profile Hpr. destruct (H4 pn profile Hpr) as [Ht Hd]. split; [exact Ht|].
      intros pod [= <-]. exact (Hd (gated_pod Hour) eq_refl).
  - eexists _, _. split; [reflexivity|]. split; [reflexivity|]. intros pn profile [= <-].
    exists arrived_node. reflexivity.
  - destruct (@Reconcile_run kube_milli order_forward env r) as (r' & es & d & s & E & Hd & Hpd & _).
    rewrite E in *. cbn [fst snd] in *. exists es, (decision_result env d), s.
    assert (d = ReleasePod (named_pod name) "capacity" "n1") as ->.
    { apply patch_decision; [congruence|reflexivity|reflexivity]. }
    split; [done|]. split; [exact Hd|exact Hpd].
Qed.

Lemma released_pods_fit_witness :
  let r1 := after (arrived_run "p") fresh_reconciler in
  history "n1" fresh_reconciler
    [grant "n1" (arrived_run "p").2 (ReleasePod (named_pod "p") "capacity" "n1")] r1 ∧
  grant "n1" (arrived_run "q").2 (ReleasePod (named_pod "q") "capacity" "n1") =
    demand_of (named_pod "q") (profile_with ["WaitForNodeReady"]).
Proof.
  intros r1.
  assert (call "n1" (arrived_run "p") fresh_reconciler
    (ReleasePod (named_pod "p") "capacity" "n1") r1) as H1.
  { apply arrived_call; [reflexivity|].
    vm_cast_no_check (@eq_refl _ [(named_pod "p", released_pod (named_pod "p") "n1" "capacity")]). }
  assert (call "n1" (arrived_run "q") r1
    (ReleasePod (named_pod "q") "capacity" "n1") (after (arrived_run "q") r1)) as H2.
  { apply arrived_call.
    - vm_cast_no_check (@eq_refl (option ClientReader) None).
    - vm_cast_no_check (@eq_refl _ [(named_pod "q", released_pod (named_pod "q") "n1" "capacity")]). }
  assert (history "n1" fresh_reconciler
    [grant "n1" (arrived_run "p").2 (ReleasePod (named_pod "p") "capacity" "n1")] r1) as Hh.
  { eapply h_call; [apply h_start|exact H1]. }
  split; [exact Hh|].
  destruct (released_pods_fit "n1" fresh_reconciler fresh_reconciler _ r1 (arrived_run "q")
    (named_pod "q") "capacity" _ ltac:(discriminate) eq_refl (Forall_nil_2 _)
    (rtc_refl _ _) Hh H2)
    as (pn & profile & nodeList & podList & node & _ & Hp & _ & _ & _ & _ & Hg & _).
  injection Hp as <-. exact Hg.
Defined.
