(* ===== verification/Lifecycle.v ===== *)
(** * The life of a held pod

    Reconciliations of one pod after another: the controller is called again
    when it asks to be or when it failed, each time finding the pod as the API
    server holds it after the previous patch.  However the rules, the ledger
    and the detectors decide, and whatever fails on the way, this ends with
    the pod released. *)

From S2P Require Import Prelude GoStrings GoTime Kube Scheduling Ledger LedgerFit Reservations.
From S2P Require Import Rules Inflight Templates Status Release Sync Rebuild Reconcile.
From S2P Require Import Decisions Safety.

Section lifecycle.
Context {K : Kube}.

(** ** The loop *)

(** What a reconciliation finds, with the pod as the API server holds it. *)
Definition with_pod (env : Env) (pod : Pod) : Env := {|
  env_GetPod := Ok pod; env_GetProfile := env_GetProfile env;
  env_ListNodes := env_ListNodes env; env_ListPods := env_ListPods env;
  env_ListPodsByProfile := env_ListPodsByProfile env; env_Reader := env_Reader env;
  env_Patch := env_Patch env; env_UpdateStatus := env_UpdateStatus env;
  env_now := env_now env |}.

(** The API server's pod after a list of patches, those it refuses left out. *)
Definition patched (env : Env) (pod : Pod) (ps : list (Pod * Pod)) : Pod :=
  foldl (λ p '(from, to), match env_Patch env from to with None => to | Some _ => p end) pod ps.

(** The controller is called again after a delay, or after an error. *)
Definition requeues (res : ctrl_result) : bool :=
  match res with
  | (_, Some _) => true
  | (delay, None) => 0 <? delay
  end.

Definition reconcile_pod (run : MapOrder * Env) (pod : Pod) (r : Reconciler) :
  Pod * Reconciler * ctrl_result :=
  let '(order, env) := run in
  let '(r', es, res) := @Reconcile K order (with_pod env pod) r in
  (patched env pod (patches es), r', res).

(** The calls for a pod, until one of them does not ask for another. *)
Fixpoint control_loop (runs : list (MapOrder * Env)) (pod : Pod) (r : Reconciler) :
  Pod * Reconciler * bool :=
  match runs with
  | [] => (pod, r, false)
  | run :: runs =>
      let '(pod, r, res) := reconcile_pod run pod r in
      if requeues res then control_loop runs pod r else (pod, r, true)
  end.

(** ** One call *)

(** What a held pod keeps: the gates, the labels, the creation and the mark
    of priority. *)
Definition same_hold (pod pod' : Pod) : Prop :=
  pod_SchedulingGates pod' = pod_SchedulingGates pod ∧ pod_Labels pod' = pod_Labels pod ∧
  pod_CreationTimestamp pod' = pod_CreationTimestamp pod.

#[global] Instance same_hold_refl : Reflexive same_hold.
Proof. by intros pod. Qed.

#[global] Instance same_hold_trans : Transitive same_hold.
Proof. intros p1 p2 p3 (H1 & H2 & H3) (H1' & H2' & H3'). split_and!; congruence. Qed.

(** Kompakt's gates are gone, the others are there. *)
Definition let_go (pod pod' : Pod) : Prop :=
  pod_SchedulingGates pod' =
    List.filter (λ g, negb (kompakt_gate g)) (pod_SchedulingGates pod).

Lemma released_let_go pod target reason : let_go pod (released_pod pod target reason).
Proof.
  unfold let_go. rewrite <- remaining_gates_filter. unfold released_pod. by case_bool_decide.
Qed.

Lemma annotated_same pod key value p :
  annotated_pod pod key value = Some p → same_hold pod p.
Proof. unfold annotated_pod. destruct (_ && _); [done|]. by intros [= <-]. Qed.

(** A pod that waits for Kompakt. *)
Definition held_by_kompakt (pn : string) (pod : Pod) : Prop :=
  hasKompaktGates pod = true ∧ slookup (pod_Labels pod) LabelProfile = Some pn.

Lemma held_same pn pod pod' : same_hold pod pod' → held_by_kompakt pn pod → held_by_kompakt pn pod'.
Proof.
  intros (Hg & Hl & _) [H1 H2]. unfold held_by_kompakt, hasKompaktGates in *. by rewrite Hg, Hl.
Qed.

(** The cluster can be read for the profile, and takes patches. *)
Definition healthy (env : Env) (pn : string) (profile : PackingProfile) : Prop :=
  env_GetProfile env pn = Ok profile ∧
  is_Ok (env_ListNodes env) = true ∧ is_Ok (env_ListPods env) = true ∧
  ∀ from to, env_Patch env from to = None.

(** A call on a held pod releases it and is the last, or keeps it held and
    asks for another one. *)
Lemma reconcile_pod_cases O env pod pn r :
  held_by_kompakt pn pod →
  let '(pod', _, res) := reconcile_pod (O, env) pod r in
  (requeues res = false ∧ let_go pod pod') ∨
  (requeues res = true ∧ same_hold pod pod' ∧
   ∀ profile, healthy env pn profile → ¬ overdue env pod profile).
Proof.
  intros [Hgate Hlab]. unfold reconcile_pod.
  assert (gated (with_pod env pod) pod pn) as Hg by (by split_and!).
  destruct (@Reconcile_run K O (with_pod env pod) r) as (r' & es & d & s & -> & Hd & -> & _).
  assert (∀ profile, healthy env pn profile → overdue env pod profile →
    ∃ reason, d = ReleasePod pod reason "") as Hover.
  { intros profile (Hp & Hn & Hps & _) Ho.
    destruct (@overdue_decision K O (with_pod env pod) r pod pn profile d r' s Hg Hp Hn Hps Ho Hd)
      as (reason & _ & ->). eauto. }
  assert (∀ reason target, d = ReleasePod pod reason target →
    let pod' := patched env pod (decision_patches d) in
    (requeues (decision_result (with_pod env pod) d) = false ∧ let_go pod pod') ∨
    (requeues (decision_result (with_pod env pod) d) = true ∧ same_hold pod pod' ∧
     ∀ profile, healthy env pn profile → ¬ overdue env pod profile)) as Hrelease.
  { intros reason target ->. cbn. destruct (env_Patch env pod _) as [e|] eqn:Hpatch.
    - right. split; [done|]. split; [done|]. intros profile (_ & _ & _ & Hok).
      by rewrite Hok in Hpatch.
    - left. split; [done|]. apply released_let_go. }
  assert (∀ d', (∀ reason, d' ≠ ReleasePod pod reason "") → d = d' →
    ∀ profile, healthy env pn profile → ¬ overdue env pod profile) as Hnot.
  { intros d' Hne -> profile Hh Ho. destruct (Hover profile Hh Ho) as [reason H].
    by eapply Hne. }
  pose proof Hg as (Hpod & _).
  destruct Hd as [? Hgp|? Hgp|? Hgp Hx|pod' pn' ? Hg'|pod' pn' ? Hg'
    |pod' pn' profile' r2 ? ? Hg'|pod' pn' profile' r2 (Hg' & _)|pod' pn' profile' r2 (Hg' & _)
    |pod' pn' profile' r2 l' rule (Hg' & _)|pod' pn' profile' r2 l' target (Hg' & _)];
    try (by exfalso; congruence);
    try (destruct (gated_det _ _ _ _ _ Hg Hg') as [-> ->]);
    try (by eapply Hrelease).
  - exfalso. destruct Hx; congruence.
  - right. split; [done|]. split; [done|]. eapply Hnot; [|done]; done.
  - right. split; [done|]. split; [done|]. eapply Hnot; [|done]; done.
  - right. split; [done|]. split; [|eapply Hnot; [|done]; done]. cbn [decision_patches].
    destruct (annotated_pod pod AnnotationHeldBy rule) as [p|] eqn:Ha; [|done].
    cbn. destruct (env_Patch env pod p); [done|]. by eapply annotated_same.
Qed.
End lifecycle.

Section loop.
Context {K : Kube}.

Lemma let_go_same pod1 pod2 pod3 : same_hold pod1 pod2 → let_go pod2 pod3 → let_go pod1 pod3.
Proof. intros (Hg & _) H. unfold let_go in *. by rewrite H, Hg. Qed.

Lemma let_go_ungated pod pod' : let_go pod pod' → hasKompaktGates pod' = false.
Proof.
  intros H. unfold hasKompaktGates. rewrite H, <- remaining_gates_filter.
  apply remaining_gates_none.
Qed.

(** The loop ends with the pod released, or leaves it held. *)
Lemma control_loop_cases runs pod pn r :
  held_by_kompakt pn pod →
  let '(pod', _, fin) := control_loop runs pod r in
  if fin then let_go pod pod' else same_hold pod pod'.
Proof.
  revert pod r. induction runs as [|[order env] runs IH]; intros pod r Hp; [done|].
  cbn [control_loop]. pose proof (reconcile_pod_cases order env pod pn r Hp) as H.
  destruct (reconcile_pod (order, env) pod r) as [[pod1 r1] res].
  destruct H as [[-> Hgo]|(-> & Hs & _)]; [done|].
  specialize (IH pod1 r1 (held_same pn _ _ Hs Hp)).
  destruct (control_loop runs pod1 r1) as [[pod' r'] [|]].
  - by eapply let_go_same.
  - by etrans.
Qed.

(** It ends at the latest with a healthy call on an overdue pod. *)
Lemma control_loop_ends runs i order env profile pod pn r :
  held_by_kompakt pn pod → runs !! i = Some (order, env) → healthy env pn profile →
  (∀ pod', same_hold pod pod' → overdue env pod' profile) →
  (control_loop runs pod r).2 = true.
Proof.
  revert runs pod r. induction i as [|i IH]; intros [|[ord1 env1] runs] pod r Hp Hi Hh Ho;
    try done; cbn [control_loop];
    pose proof (reconcile_pod_cases ord1 env1 pod pn r Hp) as H;
    destruct (reconcile_pod (ord1, env1) pod r) as [[pod1 r1] res];
    destruct H as [[-> _]|(-> & Hs & Hnot)]; try done.
  - injection Hi as -> ->. destruct (Hnot profile Hh). by apply Ho.
  - apply IH; [by eapply held_same|done..|]. intros pod' Hs'. apply Ho. by etrans.
Qed.
(** Calls after the last one are not made. *)
Lemma control_loop_prefix runs runs' pod r :
  (control_loop runs pod r).2 = true →
  control_loop (runs ++ runs') pod r = control_loop runs pod r.
Proof.
  revert pod r. induction runs as [|run runs IH]; intros pod r; [done|]. cbn [control_loop app].
  destruct (reconcile_pod run pod r) as [[pod1 r1] res]. destruct (requeues res); [apply IH|done].
Qed.
End loop.

(** ** Properties *)

(** C11: holding terminates.  Take any sequence of calls for a held pod, in
    which reads and patches may fail and anything else may happen, as long as
    one call reads its clock more than the profile's timeout after the pod's
    creation, finds the cluster readable and its patch accepted.  Then the
    calls end: some call up to that one releases the pod and asks for no
    other; the pod has lost exactly the gates of Kompakt. *)
Theorem holding_terminates {K : Kube} runs i order env profile pod pn r :
  held_by_kompakt pn pod → pod_CreationTimestamp pod ≠ 0 →
  runs !! i = Some (order, env) → healthy env pn profile →
  in_int64 (timeout_of profile) → timeout_of profile < max_int64 →
  timeout_of profile < env_now env "isTimedOut" 0%nat - pod_CreationTimestamp pod →
  let res := control_loop runs pod r in
  res.2 = true ∧ let_go pod res.1.1 ∧ hasKompaktGates res.1.1 = false ∧
  res = control_loop (take (S i) runs) pod r.
Proof.
  intros Hp Hc Hi Hh Hint Hmax Hlate.
  pose proof (control_loop_cases runs pod pn r Hp) as Hcases.
  assert (∀ runs', runs' !! i = Some (order, env) → (control_loop runs' pod r).2 = true) as Hend.
  { intros runs' Hi'. eapply control_loop_ends; [done..|]. intros pod' (_ & _ & Hcr). right.
    rewrite Hcr. by split_and!. }
  assert (control_loop runs pod r = control_loop (take (S i) runs) pod r) as Htake.
  { rewrite <- (take_drop (S i) runs) at 1. apply control_loop_prefix, Hend.
    by rewrite lookup_take_lt by lia. }
  specialize (Hend runs Hi). cbv zeta. split; [done|].
  destruct (control_loop runs pod r) as [[pod' r'] fin]. cbn in Hend. subst fin.
  split; [done|]. split; [by eapply let_go_ungated|done].
Qed.

(** C28: the number of calls is bounded by the timeout.  On a cluster that can
    always be read and takes patches, with calls a second apart from the pod's
    creation on, a profile whose timeout is [n] whole seconds or less holds a
    pod for at most [n + 2] calls. *)
Theorem holding_bound {K : Kube} runs profile pod pn r n :
  held_by_kompakt pn pod → pod_CreationTimestamp pod ≠ 0 →
  (∀ j order env, runs !! j = Some (order, env) →
     healthy env pn profile ∧
     pod_CreationTimestamp pod + Z.of_nat j * Second ≤ env_now env "isTimedOut" 0%nat) →
  in_int64 (timeout_of profile) → timeout_of profile < max_int64 →
  timeout_of profile ≤ Z.of_nat n * Second → (n + 2 ≤ length runs)%nat →
  (control_loop runs pod r).2 = true ∧
  control_loop runs pod r = control_loop (take (n + 2) runs) pod r.
Proof.
  intros Hp Hc Hruns Hint Hmax Hn Hlen.
  assert (∃ order env, runs !! (n + 1)%nat = Some (order, env)) as (order & env & Hi).
  { destruct (lookup_lt_is_Some_2 runs (n + 1)%nat) as [[order env] H]; [lia|]. eauto. }
  destruct (Hruns _ _ _ Hi) as [Hh Hpace].
  assert (∀ runs', runs' !! (n + 1)%nat = Some (order, env) →
    (control_loop runs' pod r).2 = true) as Hend.
  { intros runs' Hi'. eapply control_loop_ends; [done..|]. intros pod' (_ & _ & Hcr).
    right. rewrite Hcr. split_and!; [done..|]. unfold Second, Millisecond, Microsecond, Nanosecond in *. lia. }
  split; [by apply Hend|].
  rewrite <- (take_drop (n + 2) runs) at 1. apply control_loop_prefix.
  apply Hend. rewrite lookup_take_lt by lia. done.
Qed.

(** ** Witnesses *)

(** Calls each half hour from the creation on; the profile waits for packing
    on a cluster without nodes, with the default of three minutes. *)
Definition hopeless_run (n : Z) : MapOrder * Env (K := kube_milli) :=
  (order_forward, cluster (gated_pod Hour) ["WaitForWorkloadPacking"] [] (Hour + n * 30 * Minute)).

Lemma hopeless_healthy n :
  healthy (hopeless_run n).2 "p" (profile_with ["WaitForWorkloadPacking"]).
Proof. by split_and!. Qed.

Lemma three_minutes : timeout_of (profile_with ["WaitForWorkloadPacking"]) = 3 * Minute.
Proof. vm_compute. reflexivity. Qed.

Lemma gated_pod_held created : held_by_kompakt "p" (gated_pod created).
Proof. by split. Qed.

Lemma holding_terminates_witness :
  let res := control_loop (hopeless_run <$> [0; 1; 2]) (gated_pod Hour) fresh_reconciler in
  res.2 = true ∧ hasKompaktGates res.1.1 = false.
Proof.
  intros res.
  destruct (holding_terminates (hopeless_run <$> [0; 1; 2]) 1 order_forward
    (hopeless_run 1).2 (profile_with ["WaitForWorkloadPacking"]) (gated_pod Hour) "p"
    fresh_reconciler (gated_pod_held Hour)) as (Hf & _ & Hg & _).
  - discriminate.
  - reflexivity.
  - apply hopeless_healthy.
  - rewrite three_minutes. decide_true.
  - rewrite three_minutes. reflexivity.
  - rewrite three_minutes. reflexivity.
  - split; [exact Hf|exact Hg].
Defined.

Lemma holding_bound_witness :
  (control_loop (hopeless_run <$> seqZ 0 200) (gated_pod Hour) fresh_reconciler).2 = true.
Proof.
  refine (proj1 (holding_bound (hopeless_run <$> seqZ 0 200)
    (profile_with ["WaitForWorkloadPacking"]) (gated_pod Hour) "p" fresh_reconciler 180
    (gated_pod_held Hour) _ _ _ _ _ _)).
  - discriminate.
  - intros j order env Hj. rewrite list_lookup_fmap in Hj.
    apply fmap_Some in Hj as (n & Hn & E). apply lookup_seqZ in Hn as [-> _].
    injection E as -> ->. split; [apply hopeless_healthy|]. cbn [env_now cluster gated_pod
      pod_CreationTimestamp]. unfold Minute, Second, Millisecond, Microsecond, Nanosecond. lia.
  - rewrite three_minutes. decide_true.
  - rewrite three_minutes. reflexivity.
  - rewrite three_minutes. discriminate.
  - rewrite length_fmap, length_seqZ. lia.
Defined.
