(* ===== verification/Cluster.v ===== *)
(** * The cluster as a transition system

    Users create pods through the admission webhook and edit them, the
    controller reconciles them, other controllers remove their own gates, the
    scheduler binds pods without gates, the manager restarts, and pods, nodes
    and profiles come and go, in any order.  The controller reads from a cache,
    so the pod it decides on may be any earlier version of the pod, even of a
    deleted one with the same name; its patches are merged into what the API
    server holds by then.  Users may take the gates away by hand, as
    [docs/guides/troubleshooting.md], [docs/getting-started/uninstall.md] and
    [docs/operations/runbooks.md] tell them to; the system remembers which pods
    that happened to.  The invariant relates what Kompakt wrote on a pod to
    where the pod can run. *)

From stdpp Require Import relations.
From S2P Require Import Prelude GoStrings GoTime Kube Scheduling Ledger LedgerFit Reservations.
From S2P Require Import Rules Inflight Templates Status Release Sync Rebuild Reconcile.
From S2P Require Import Decisions Safety Webhook Lifecycle.

(** ** Pods *)

#[local] Instance NodeSelector_eq_dec : EqDecision NodeSelector.
Proof. solve_decision. Defined.

Section pods.
Context {K : Kube}.

(** What the scheduler and the kubelet write. *)
Definition set_NodeName (p : Pod) (nodeName : string) : Pod := {|
  pod_Name := pod_Name p; pod_Namespace := pod_Namespace p; pod_Labels := pod_Labels p;
  pod_Annotations := pod_Annotations p; pod_CreationTimestamp := pod_CreationTimestamp p;
  pod_Containers := pod_Containers p; pod_Tolerations := pod_Tolerations p;
  pod_NodeSelector := pod_NodeSelector p; pod_SchedulingGates := pod_SchedulingGates p;
  pod_Affinity := pod_Affinity p; pod_NodeName := nodeName; pod_Phase := pod_Phase p |}.

Definition set_Phase (p : Pod) (phase : string) : Pod := {|
  pod_Name := pod_Name p; pod_Namespace := pod_Namespace p; pod_Labels := pod_Labels p;
  pod_Annotations := pod_Annotations p; pod_CreationTimestamp := pod_CreationTimestamp p;
  pod_Containers := pod_Containers p; pod_Tolerations := pod_Tolerations p;
  pod_NodeSelector := pod_NodeSelector p; pod_SchedulingGates := pod_SchedulingGates p;
  pod_Affinity := pod_Affinity p; pod_NodeName := pod_NodeName p; pod_Phase := phase |}.

Definition pod_key (p : Pod) : string * string := (pod_Namespace p, pod_Name p).

(** What Kompakt expects of those who write pods: they leave its trace, node
    and reason to it.  Everything else is theirs: the gates and the annotation
    of the holding rule too. *)
Definition kompakt_annotations : list string :=
  [AnnotationTraceID; AnnotationNode; AnnotationReason].

Definition user_pod (p : Pod) : Prop :=
  ∀ k, k ∈ kompakt_annotations → slookup (pod_Annotations p) k = None.

(** The API server takes no new pod that has both gates and a node. *)
Definition placeable (p : Pod) : Prop := pod_SchedulingGates p ≠ [] → pod_NodeName p = "".

Definition release_reasons : list string := ["profile_not_found"; "priority"; "timeout"; "capacity"].

(** A merge patch holds the difference of two pods; the API server merges it
    into the pod it has.  Annotations merge key by key; the list of gates and
    the one of affinity terms are replaced as a whole; what the patch does not
    name stays. *)
Record merged (from to cur cur' : Pod) : Prop := {
  mg_annotations k : slookup (pod_Annotations cur') k =
    if decide (slookup (pod_Annotations to) k = slookup (pod_Annotations from) k)
    then slookup (pod_Annotations cur) k else slookup (pod_Annotations to) k;
  mg_gates_same : pod_SchedulingGates to = pod_SchedulingGates from →
    pod_SchedulingGates cur' = pod_SchedulingGates cur;
  mg_gates : pod_SchedulingGates to ≠ pod_SchedulingGates from →
    pod_SchedulingGates cur' = pod_SchedulingGates to;
  mg_affinity_same : required to = required from → required cur' = required cur;
  mg_affinity : required to ≠ required from → required cur' = required to;
  mg_key : pod_key cur' = pod_key cur;
  mg_NodeName : pod_NodeName cur' = pod_NodeName cur
}.

(** A patch that the API server refuses changes nothing; an update may remove
    gates but not add any. *)
Definition after_patch (env : Env) (cur cur' : Pod) (p : Pod * Pod) : Prop :=
  match env_Patch env p.1 p.2 with
  | Some _ => cur' = cur
  | None => merged p.1 p.2 cur cur' ∧
      pod_SchedulingGates cur' `sublist_of` pod_SchedulingGates cur
  end.

Inductive after_patches (env : Env) : Pod → list (Pod * Pod) → Pod → Prop :=
  | ap_none cur : after_patches env cur [] cur
  | ap_patch cur cur1 cur2 p ps :
      after_patch env cur cur1 p → after_patches env cur1 ps cur2 →
      after_patches env cur (p :: ps) cur2.

(** Merged into the version it was made from, a patch gives the pod it was
    made for. *)
Lemma merged_current p p' :
  pod_key p' = pod_key p → pod_NodeName p' = pod_NodeName p → merged p p' p p'.
Proof. intros Hk Hn. split; try done. intros k. by case_decide. Qed.

Lemma merged_current_inv p p' q k :
  merged p p' p q → slookup (pod_Annotations q) k = slookup (pod_Annotations p') k ∧
  pod_SchedulingGates q = pod_SchedulingGates p' ∧ required q = required p'.
Proof.
  intros [Ha Hg1 Hg2 Hf1 Hf2 _ _]. split_and!.
  - rewrite Ha. by case_decide.
  - destruct (decide (pod_SchedulingGates p' = pod_SchedulingGates p)) as [E|E];
      [by rewrite Hg1, E|by apply Hg2].
  - destruct (decide (required p' = required p)) as [E|E]; [by rewrite Hf1, E|by apply Hf2].
Qed.
End pods.

(** ** The system *)

Section cluster.
Context {K : Kube}.
Context (expr_holds field_holds : NodeSelectorRequirement → Node → Prop).
Context (Unmarshal : string → result Pod) (Marshal : Pod → result string)
  (Quote : string → string).

(** [c_seen] holds every version of a pod there ever was.  [c_manual] holds the
    keys of the pods from which someone other than Kompakt took its last gate
    since they were created; no part of the program reads either. *)
Record Cluster := {
  c_pods : gmap (string * string) Pod;
  c_seen : list (string * string * Pod);
  c_manual : gset (string * string);
  c_nodes : list Node;
  c_profiles : gmap string PackingProfile;
  c_reconciler : Reconciler
}.

Definition store_with (manual : gset (string * string)) (c : Cluster) (key : string * string)
    (pod : Pod) : Cluster := {|
  c_pods := <[key := pod]> (c_pods c); c_seen := (key, pod) :: c_seen c; c_manual := manual;
  c_nodes := c_nodes c; c_profiles := c_profiles c; c_reconciler := c_reconciler c |}.

Definition store (c : Cluster) : string * string → Pod → Cluster := store_with (c_manual c) c.

Definition with_reconciler (c : Cluster) (r : Reconciler) : Cluster := {|
  c_pods := c_pods c; c_seen := c_seen c; c_manual := c_manual c; c_nodes := c_nodes c;
  c_profiles := c_profiles c; c_reconciler := r |}.

(** A new pod lost no gate yet. *)
Definition created (c : Cluster) (pod : Pod) : Cluster :=
  store_with (c_manual c ∖ {[pod_key pod]}) c (pod_key pod) pod.

(** An update by someone other than Kompakt, as the API server allows it:
    gates go and never come, the node stays what it is, and affinity gets
    tighter.  Labels, tolerations, the selector and all other annotations may
    change in any way. *)
Record user_edit (p p' : Pod) : Prop := {
  ue_key : pod_key p' = pod_key p;
  ue_NodeName : pod_NodeName p' = pod_NodeName p;
  ue_gates : pod_SchedulingGates p' `sublist_of` pod_SchedulingGates p;
  ue_affinity n : affinity_admits expr_holds field_holds p' n →
    affinity_admits expr_holds field_holds p n;
  ue_annotations k : k ∈ kompakt_annotations →
    slookup (pod_Annotations p') k = slookup (pod_Annotations p) k
}.

Definition edited (c : Cluster) (key : string * string) (pod pod' : Pod) : Cluster :=
  store_with (if hasKompaktGates pod && negb (hasKompaktGates pod')
              then {[key]} ∪ c_manual c else c_manual c) c key pod'.

(** A read of the API server succeeds with what is stored, or fails; it fails
    as not found only when nothing is stored. *)
Definition read_of {T} (stored : option T) (r : result T) : Prop :=
  match r with
  | Ok a => stored = Some a
  | Err e => err_NotFound e = true → stored = None
  end.

(** What a reconciliation of a pod reads from the cache: some version of the
    pod, or an error, and some list of nodes; profiles and pods can be
    anything. *)
Definition cached_reads (c : Cluster) (key : string * string) (env : Env) : Prop :=
  (∀ p, env_GetPod env = Ok p → (key, p) ∈ c_seen c) ∧
  (∀ ns, env_ListNodes env = Ok ns → nodes_named ns ∧ NoDup (node_Name <$> ns)).

(** The pod the API server stores for a request: what the webhook made of it,
    or the request itself when the webhook cannot be reached (its failure
    policy is to ignore that). *)
Definition stored_pod (c : Cluster) (raw : string) (pod' : Pod) : Prop :=
  Unmarshal raw = Ok pod' ∨
  ∃ get now uuid, (∀ pn, read_of (c_profiles c !! pn) (get pn)) ∧
    match (Handle Unmarshal Marshal Quote uuid get now raw).2 with
    | Allowed _ => Unmarshal raw = Ok pod'
    | Patched _ patched => Unmarshal patched = Ok pod'
    | Errored _ | Denied _ => False
    end.

(** The scheduler binds a pod without gates to a node its affinity admits. *)
Definition binds (c : Cluster) (key : string * string) (pod : Pod) (node : Node) : Prop :=
  c_pods c !! key = Some pod ∧ pod_SchedulingGates pod = [] ∧ pod_NodeName pod = "" ∧
  node ∈ c_nodes c ∧ affinity_admits expr_holds field_holds pod node.

Inductive cluster_step : Cluster → Cluster → Prop :=
  | cs_create c raw pod pod' :
      Unmarshal raw = Ok pod → user_pod pod → c_pods c !! pod_key pod' = None →
      stored_pod c raw pod' → placeable pod' → cluster_step c (created c pod')
  | cs_edit c key pod pod' :
      c_pods c !! key = Some pod → user_edit pod pod' →
      cluster_step c (edited c key pod pod')
  | cs_reconcile c key order env r' es res pod pod' :
      cached_reads c key env → @Reconcile K order env (c_reconciler c) = (r', es, res) →
      c_pods c !! key = Some pod → after_patches env pod (patches es) pod' →
      cluster_step c (with_reconciler (store c key pod') r')
  | cs_reconcile_gone c key order env r' es res :
      cached_reads c key env → @Reconcile K order env (c_reconciler c) = (r', es, res) →
      c_pods c !! key = None → Forall (λ p, is_Some (env_Patch env p.1 p.2)) (patches es) →
      cluster_step c (with_reconciler c r')
  | cs_restart c r :
      r_Ledger r = New → cluster_step c (with_reconciler c r)
  | cs_bind c key pod node :
      binds c key pod node → cluster_step c (store c key (set_NodeName pod (node_Name node)))
  | cs_phase c key pod phase :
      c_pods c !! key = Some pod → cluster_step c (store c key (set_Phase pod phase))
  | cs_delete c key :
      cluster_step c {|
        c_pods := delete key (c_pods c); c_seen := c_seen c; c_manual := c_manual c;
        c_nodes := c_nodes c; c_profiles := c_profiles c; c_reconciler := c_reconciler c |}
  | cs_environment c ns profiles :
      cluster_step c {|
        c_pods := c_pods c; c_seen := c_seen c; c_manual := c_manual c; c_nodes := ns;
        c_profiles := profiles; c_reconciler := c_reconciler c |}.

(** ** The invariant *)

(** A gated pod runs nowhere and has no target and no reason; and a target is
    what the affinity asks for. *)
Record pod_inv (p : Pod) : Prop := {
  pi_gated : hasKompaktGates p = true → pod_NodeName p = "" ∧
    slookup (pod_Annotations p) AnnotationNode = None ∧
    slookup (pod_Annotations p) AnnotationReason = None;
  pi_target t n : slookup (pod_Annotations p) AnnotationNode = Some t →
    affinity_admits expr_holds field_holds p n → expr_holds (hostname_req t) n
}.

Definition has_reason (p : Pod) : Prop :=
  ∃ reason, reason ∈ release_reasons ∧ slookup (pod_Annotations p) AnnotationReason = Some reason.

(** A pod the webhook gated has lost the gates with a recorded reason, or by
    hand. *)
Definition accounted (manual : gset (string * string)) (key : string * string) (p : Pod) : Prop :=
  hasKompaktGates p = false → is_Some (slookup (pod_Annotations p) AnnotationTraceID) →
  has_reason p ∨ key ∈ manual.

(** Every version of every pod satisfies the one, the current ones both. *)
Definition cluster_inv (c : Cluster) : Prop :=
  (∀ key p, c_pods c !! key = Some p → (key, p) ∈ c_seen c ∧ accounted (c_manual c) key p) ∧
  (∀ key p, (key, p) ∈ c_seen c → pod_inv p) ∧ ledger_ok (r_Ledger (c_reconciler c)).

(** ** What a step does to a pod *)

Lemma gated_gates p : hasKompaktGates p = true → pod_SchedulingGates p ≠ [].
Proof. unfold hasKompaktGates. by destruct (pod_SchedulingGates p). Qed.

Lemma gated_sublist p p' :
  pod_SchedulingGates p' `sublist_of` pod_SchedulingGates p →
  hasKompaktGates p' = true → hasKompaktGates p = true.
Proof.
  unfold hasKompaktGates. rewrite !has_gate_spec. intros Hs (g & Hg & Hk).
  exists g. split; [|done]. eapply elem_of_submseteq; [exact Hg|by apply sublist_submseteq].
Qed.

Lemma pod_inv_edit p p' : user_edit p p' → pod_inv p → pod_inv p'.
Proof.
  intros [_ Hn Hg Ha Hk] [H1 H2].
  assert (∀ k, k ∈ [AnnotationNode; AnnotationReason] →
    slookup (pod_Annotations p') k = slookup (pod_Annotations p) k) as Hk'
    by (intros k Hin; apply Hk; by right).
  split.
  - intros Hgate%(gated_sublist _ _ Hg). rewrite Hn, !Hk' by set_solver. by apply H1.
  - intros t n. rewrite Hk' by set_solver. intros Ht Hadm. apply H2; auto.
Qed.

Lemma accounted_edit manual key p p' :
  user_edit p p' → accounted manual key p →
  accounted (if hasKompaktGates p && negb (hasKompaktGates p') then {[key]} ∪ manual else manual)
    key p'.
Proof.
  intros [_ _ _ _ Hk] Hacc Hno. rewrite Hno. cbn [negb]. rewrite andb_true_r.
  destruct (hasKompaktGates p) eqn:Hp; [intros _; right; set_solver|].
  rewrite Hk by (left). intros Ht. destruct (Hacc Hp Ht) as [(reason & Hr & Hann)|Hm]; [left|by right].
  exists reason. split; [done|]. rewrite Hk; [done|]. by do 2 right; left.
Qed.

Lemma pod_inv_user p : user_pod p → placeable p → pod_inv p.
Proof.
  intros Hu Hp. unfold user_pod, kompakt_annotations in Hu. split.
  - intros Hg%gated_gates. rewrite !Hu by set_solver. split_and!; [by apply Hp|done..].
  - intros t n. rewrite Hu by set_solver. done.
Qed.

Lemma gated_by_annotations p traceID gates k :
  k ≠ AnnotationTraceID →
  slookup (pod_Annotations (gated_by p traceID gates)) k = slookup (pod_Annotations p) k.
Proof.
  intros Hk. unfold gated_by. cbn [pod_Annotations set_SchedulingGates set_Annotations].
  by rewrite slookup_sinsert, decide_False.
Qed.

Lemma pod_inv_gated_by p traceID gates :
  user_pod p → placeable (gated_by p traceID gates) → pod_inv (gated_by p traceID gates).
Proof.
  intros Hu Hp. unfold user_pod, kompakt_annotations in Hu. split.
  - intros Hg%gated_gates. rewrite !gated_by_annotations, !Hu by (done || set_solver).
    split_and!; [by apply Hp|done..].
  - intros t n. rewrite gated_by_annotations, Hu by (done || set_solver). done.
Qed.

Lemma gated_by_gated p traceID gates :
  gates ≠ [] → Forall (λ g, kompakt_gate g = true) gates →
  hasKompaktGates (gated_by p traceID gates) = true.
Proof.
  intros Hne Hk. unfold hasKompaktGates. cbn. apply has_gate_spec.
  destruct gates as [|g gates]; [done|]. apply Forall_cons in Hk as [Hg _].
  exists g. split; [|done]. apply elem_of_app. right. left.
Qed.

(** A target always changes the affinity. *)
Lemma released_pins p target reason :
  target ≠ "" → required (released_pod p target reason) ≠ required p.
Proof.
  intros Ht. unfold released_pod. rewrite bool_decide_false by done. cbn [negb].
  unfold required. cbn [pod_Affinity set_Affinity set_SchedulingGates set_Annotations pin_affinity].
  destruct (pod_Affinity p) as [[[[[[[|t ts]]|]]|]]|]; cbn; try done.
  intros [= E _]. apply (f_equal (length ∘ term_MatchExpressions)) in E. cbn in E.
  rewrite length_app in E. cbn in E. lia.
Qed.

(** A pinned pod is only admitted by nodes with the hostname, whatever
    affinity it had. *)
Lemma pinned_hostname p target reason n :
  target ≠ "" → affinity_admits expr_holds field_holds (released_pod p target reason) n →
  expr_holds (hostname_req target) n.
Proof.
  intros Ht. unfold released_pod. rewrite bool_decide_false by done. cbn [negb].
  unfold affinity_admits, required.
  cbn [pod_Affinity set_Affinity set_SchedulingGates set_Annotations pin_affinity].
  destruct (pod_Affinity p) as [[[[[[[|t ts]]|]]|]]|]; cbn; try by intros ?%single_term_admits.
  rewrite <- fmap_cons. intros (t' & (t0 & -> & _)%list_elem_of_fmap & _ & He & _).
  cbn [term_MatchExpressions add_expression] in He.
  apply Forall_app in He as [_ He]. by rewrite Forall_singleton in He.
Qed.

(** A release of a gated version takes the gates of Kompakt, records the reason
    and pins the target, whatever the pod has become. *)
Lemma released_no_gate from cur cur' target reason :
  hasKompaktGates from = true → merged from (released_pod from target reason) cur cur' →
  hasKompaktGates cur' = false.
Proof.
  intros Hg Hm. pose proof (released_no_gates from target reason) as Hn.
  unfold hasKompaktGates in *. rewrite (mg_gates _ _ _ _ Hm); [exact Hn|].
  intros E. rewrite E in Hn. congruence.
Qed.

Lemma released_reason from cur cur' target reason :
  slookup (pod_Annotations from) AnnotationReason = None →
  merged from (released_pod from target reason) cur cur' →
  slookup (pod_Annotations cur') AnnotationReason = Some reason.
Proof.
  intros Hreason Hm. rewrite (mg_annotations _ _ _ _ Hm), Hreason, released_annotations.
  rewrite (decide_False (P := AnnotationReason = AnnotationHeldBy)) by done.
  rewrite (decide_False (P := AnnotationReason = AnnotationNode ∧ _)) by (by intros [? _]).
  rewrite (decide_True (P := AnnotationReason = AnnotationReason)) by done. by case_decide.
Qed.

Lemma pod_inv_released from cur cur' target reason :
  pod_inv from → hasKompaktGates from = true →
  merged from (released_pod from target reason) cur cur' → pod_inv cur → pod_inv cur'.
Proof.
  intros Hfrom Hg Hm Hcur. destruct (pi_gated _ Hfrom Hg) as (_ & Hnode & Hreason).
  split; [pose proof (released_no_gate _ _ _ _ _ Hg Hm); congruence|].
  intros t n. rewrite (mg_annotations _ _ _ _ Hm), Hnode, released_annotations.
  rewrite (decide_False (P := AnnotationNode = AnnotationHeldBy)) by done.
  destruct (decide (target = "")) as [->|Ht].
  - rewrite (decide_False (P := AnnotationNode = AnnotationNode ∧ _)) by (by intros [_ ?]).
    rewrite (decide_False (P := AnnotationNode = AnnotationReason)) by done.
    rewrite decide_True by done. intros Ht. unfold affinity_admits.
    rewrite (mg_affinity_same _ _ _ _ Hm) by done. by apply (pi_target _ Hcur).
  - rewrite (decide_True (P := AnnotationNode = AnnotationNode ∧ _)) by done.
    rewrite decide_False by done. intros [= <-] Hadm.
    apply (pinned_hostname from _ reason n Ht). unfold affinity_admits in *.
    rewrite <- (mg_affinity _ _ _ _ Hm); [exact Hadm|]. by apply released_pins.
Qed.

(** A patch of the holding rule leaves alone what the invariant is about. *)
Lemma annotated_keeps from cur cur' rule p :
  annotated_pod from AnnotationHeldBy rule = Some p → merged from p cur cur' →
  (∀ k, k ≠ AnnotationHeldBy →
     slookup (pod_Annotations cur') k = slookup (pod_Annotations cur) k) ∧
  hasKompaktGates cur' = hasKompaktGates cur ∧ required cur' = required cur ∧
  pod_NodeName cur' = pod_NodeName cur.
Proof.
  unfold annotated_pod. destruct (_ && _); [done|].
  intros [= <-] [Hann Hgates _ Hsame _ _ Hnn].
  split_and!; [|unfold hasKompaktGates; by rewrite Hgates|by apply Hsame|done].
  intros k Hk. rewrite Hann. cbn [pod_Annotations set_Annotations].
  rewrite slookup_sinsert, (decide_False (P := AnnotationHeldBy = k)) by done. by rewrite decide_True.
Qed.

Lemma pod_inv_annotated from cur cur' rule p :
  annotated_pod from AnnotationHeldBy rule = Some p → merged from p cur cur' →
  pod_inv cur → pod_inv cur'.
Proof.
  intros Ha Hm [H1 H2]. destruct (annotated_keeps _ _ _ _ _ Ha Hm) as (Hk & Hg & Haff & Hn).
  split; unfold affinity_admits in *; rewrite ?Hg, ?Hn, ?Haff, !Hk by done; done.
Qed.

Lemma accounted_annotated manual key from cur cur' rule p :
  annotated_pod from AnnotationHeldBy rule = Some p → merged from p cur cur' →
  accounted manual key cur → accounted manual key cur'.
Proof.
  intros Ha Hm H. destruct (annotated_keeps _ _ _ _ _ Ha Hm) as (Hk & Hg & _).
  unfold accounted, has_reason in *. by rewrite Hg, !Hk by done.
Qed.

(** The reasons of the decisions. *)
Lemma decides_reason {O : MapOrder} env r d r' s pod reason target :
  decides env r d r' s → d = ReleasePod pod reason target →
  hasKompaktGates pod = true ∧ env_GetPod env = Ok pod ∧ reason ∈ release_reasons.
Proof.
  intros Hd E. unfold release_reasons.
  destruct Hd as [| | |pod' pn e (Hp & Hg & _)| | |pod' pn profile r1 ((Hp & Hg & _) & _)
    |pod' pn profile r1 ((Hp & Hg & _) & _)| |pod' pn profile r1 l' t' ((Hp & Hg & _) & _)];
    try done; injection E as -> <- <-; split_and!; try done; decide_true.
Qed.

Lemma pod_inv_reconcile {O : MapOrder} manual key env r r' es res cur cur' :
  Reconcile env r = (r', es, res) → (∀ p, env_GetPod env = Ok p → pod_inv p) →
  pod_inv cur → accounted manual key cur → after_patches env cur (patches es) cur' →
  pod_inv cur' ∧ accounted manual key cur'.
Proof.
  intros E Hread Hcur Hacc Hap. destruct (Reconcile_run env r) as (r1 & es1 & d & s & E1 & Hd & Hp & _).
  rewrite E in E1. injection E1 as <- <- _. rewrite Hp in Hap.
  assert (∀ p p', after_patches env cur [(p, p')] cur' → after_patch env cur cur' (p, p')) as Hone.
  { intros p p' H. inversion_clear H as [|? ? ? ? ? H1 H2]. by inversion H2; subst. }
  destruct d as [|e| |pod' rule|pod' reason target]; cbn [decision_patches] in Hap;
    try (inversion Hap; by subst).
  - destruct (annotated_pod pod' AnnotationHeldBy rule) as [p'|] eqn:Ha; [|by inversion Hap; subst].
    apply Hone in Hap. unfold after_patch in Hap. cbn in Hap.
    destruct (env_Patch env pod' p'); [by subst|]. destruct Hap as [Hm _].
    split; [by eapply pod_inv_annotated|by eapply accounted_annotated].
  - destruct (decides_reason _ _ _ _ _ _ _ _ Hd eq_refl) as (Hg & Hp' & Hr).
    apply Hone in Hap. unfold after_patch in Hap. cbn in Hap.
    destruct (env_Patch env pod' _); [by subst|]. destruct Hap as [Hm _].
    specialize (Hread _ Hp'). split; [eapply pod_inv_released; [exact Hread|exact Hg|exact Hm|exact Hcur]|].
    intros _ _. left. exists reason. split; [done|].
    destruct (pi_gated _ Hread Hg) as (_ & _ & Hno). by eapply released_reason.
Qed.

(** What the webhook makes of a request. *)
Lemma stored_pod_inv manual key c raw pod pod' :
  (∀ p r, Marshal p = Ok r → Unmarshal r = Ok p) →
  Unmarshal raw = Ok pod → user_pod pod → stored_pod c raw pod' → placeable pod' →
  pod_inv pod' ∧ accounted manual key pod'.
Proof.
  intros Hcodec Hraw Huser Hst Hpl.
  assert (Ok pod = Ok pod' → pod_inv pod' ∧ accounted manual key pod') as Hid.
  { intros [= <-]. split; [by apply pod_inv_user|]. intros _ [x Hx].
    rewrite Huser in Hx; [done|left]. }
  destruct Hst as [Hsame|(get & now & uuid & _ & Hres)]; [apply Hid; congruence|].
  unfold Handle in Hres. rewrite Hraw in Hres.
  destruct (bool_decide _); [by apply Hid|].
  destruct (slookup (pod_Labels pod) LabelProfile) as [pn|]; [|by apply Hid].
  destruct (Resolve Quote get pn) as [profile|]; [|done].
  destruct (build_gates (spec_Rules (profile_Spec profile))) as [|g gs] eqn:Hgates;
    [by apply Hid|].
  cbn [length Nat.eqb] in Hres. destruct (Marshal _) as [wire|] eqn:Hm; [|done].
  cbn [snd] in Hres. rewrite (Hcodec _ _ Hm) in Hres. injection Hres as <-.
  split; [by apply pod_inv_gated_by|]. intros Hno.
  rewrite gated_by_gated in Hno; [done..|]. rewrite <- Hgates. apply build_gates_kompakt.
Qed.

Lemma store_with_inv manual c key pod :
  cluster_inv c → (∀ k, k ≠ key → k ∈ c_manual c → k ∈ manual) →
  pod_inv pod → accounted manual key pod → cluster_inv (store_with manual c key pod).
Proof.
  intros (Hcur & Hseen & Hl) Hm Hpod Hacc. split_and!; cbn; [| |done].
  - intros k p [[<- <-]|[Hne Hk]]%lookup_insert_Some; [by split; [left|]|].
    destruct (Hcur _ _ Hk) as [Hin Ha]. split; [by right|].
    intros Hg Ht. destruct (Ha Hg Ht) as [?|?]; [by left|right; by apply Hm].
  - intros k p [[= _ ->]|Hin]%elem_of_cons; [done|by eapply Hseen].
Qed.

Lemma store_inv c key pod :
  cluster_inv c → pod_inv pod → accounted (c_manual c) key pod → cluster_inv (store c key pod).
Proof. intros Hc. by apply store_with_inv. Qed.

Lemma with_reconciler_inv c r :
  cluster_inv c → ledger_ok (r_Ledger r) → cluster_inv (with_reconciler c r).
Proof. by intros (Hcur & Hseen & _) Hl. Qed.

Lemma Reconcile_ok_ledger {O : MapOrder} c key env r' es res :
  cluster_inv c → cached_reads c key env → Reconcile env (c_reconciler c) = (r', es, res) →
  ledger_ok (r_Ledger r').
Proof.
  intros (_ & _ & Hl) [_ Hnodes] E.
  destruct (Reconcile_run env (c_reconciler c)) as (r1 & es1 & d & s & E1 & Hd & _).
  rewrite E in E1. injection E1 as <- _ _. by eapply decides_ok.
Qed.

Lemma cluster_step_inv c c' :
  (∀ p r, Marshal p = Ok r → Unmarshal r = Ok p) →
  cluster_step c c' → cluster_inv c → cluster_inv c'.
Proof.
  intros Hcodec Hs Hinv. pose proof Hinv as (Hcur & Hseen & Hl).
  assert (∀ key p, c_pods c !! key = Some p → pod_inv p ∧ accounted (c_manual c) key p) as Hpods
    by (intros key p [? ?]%Hcur; eauto).
  destruct Hs as [c raw pod pod' Hraw Hu _ Hst Hpl|c key pod pod' Hp He
    |c key order env r' es res pod pod' Hr E Hp Hap|c key order env r' es res Hr E Hp _|c r Hr
    |c key pod node (Hp & Hg & _)|c key pod phase Hp|c key|c ns profiles].
  - destruct (stored_pod_inv (c_manual c ∖ {[pod_key pod']}) (pod_key pod') _ _ _ _
      Hcodec Hraw Hu Hst Hpl). apply store_with_inv; [done|set_solver|done..].
  - destruct (Hpods _ _ Hp). apply store_with_inv; [done| |by eapply pod_inv_edit|by apply accounted_edit].
    intros k _. destruct (_ && _); set_solver.
  - apply with_reconciler_inv; [|by eapply (@Reconcile_ok_ledger order)].
    destruct (Hpods _ _ Hp). destruct (@pod_inv_reconcile order (c_manual c) key _ _ _ _ _ _ _ E
      (λ p Hget, Hseen key p (proj1 Hr p Hget)) ltac:(done) ltac:(done) Hap). by apply store_inv.
  - apply with_reconciler_inv; [done|]. by eapply (@Reconcile_ok_ledger order).
  - apply with_reconciler_inv; [done|]. rewrite Hr. apply ledger_ok_New.
  - destruct (Hpods _ _ Hp) as [[H1 H2] Ha]. apply store_inv; [done| |exact Ha].
    split; [|exact H2]. intros Hgated%gated_gates. by cbn in Hgated.
  - destruct (Hpods _ _ Hp) as [[H1 H2] Ha]. apply store_inv; [done| |exact Ha].
    split; [exact H1|exact H2].
  - split_and!; [|done..]. cbn. intros k p [_ Hk]%lookup_delete_Some. by apply Hcur.
  - done.
Qed.
End cluster.

(** ** A release decided on an old version *)

(** A patch names no version of the pod.  When a pod was deleted and another
    one of its name was created, a release decided on the old pod removes the
    gates of the new one, those of other controllers included, and no rule of
    the API server stands in its way. *)
Lemma stale_release_drops_gates {K : Kube} from cur cur' target reason :
  pod_SchedulingGates from ≠ [] → Forall (λ g, kompakt_gate g = true) (pod_SchedulingGates from) →
  merged from (released_pod from target reason) cur cur' →
  pod_SchedulingGates cur' = [] ∧ pod_SchedulingGates cur' `sublist_of` pod_SchedulingGates cur.
Proof.
  intros Hne Hk Hm.
  assert (pod_SchedulingGates (released_pod from target reason) = []) as Hno.
  { unfold released_pod. case_bool_decide; by apply remaining_gates_kompakt. }
  assert (pod_SchedulingGates cur' = []) as ->; [|by split; [|apply sublist_nil_l]].
  rewrite <- Hno. apply (mg_gates _ _ _ _ Hm). by rewrite Hno.
Qed.

(** ** Properties *)

(** The operator [In] of a requirement, as Kubernetes documents it. *)
Definition In_documented {K : Kube} (expr_holds : NodeSelectorRequirement → Node → Prop) : Prop :=
  ∀ key values n, expr_holds {| req_Key := key; req_Operator := "In"; req_Values := values |} n ↔
    ∃ v, slookup (node_Labels n) key = Some v ∧ v ∈ values.

(** C4: pods run where they were released to.  Start from a cluster without
    pods and let anything of [cluster_step] happen in any order: users create
    pods through the webhook or past it, and edit them as the API server
    allows, except for the annotations of the trace, the node and the reason,
    which they leave to Kompakt; they and other controllers remove gates, those
    of Kompakt included; Kompakt reconciles on cached reads that may be old or
    fail, its patches are merged into the pods or refused, and it restarts; the
    scheduler binds pods without gates to nodes their affinity admits; nodes and
    profiles change.  When the scheduler binds a pod with a trace of the
    webhook, a reconciliation has recorded one of the four reasons on it, or
    someone has taken its last gate of Kompakt by hand since it was created;
    and when Kompakt recorded a node on it, the node it is bound to has that
    name as its hostname label, even if stale reads made Kompakt release it
    twice to different nodes.  No pod with a gate of Kompakt is ever on a node,
    and the ledger stays well formed. *)
Theorem bound_where_released {K : Kube} expr_holds field_holds Unmarshal Marshal Quote c0 c :
  (∀ p r, Marshal p = Ok r → Unmarshal r = Ok p) → In_documented expr_holds →
  c_pods c0 = ∅ → c_seen c0 = [] → r_Ledger (c_reconciler c0) = New →
  rtc (cluster_step expr_holds field_holds Unmarshal Marshal Quote) c0 c →
  ledger_ok (r_Ledger (c_reconciler c)) ∧
  (∀ key pod, c_pods c !! key = Some pod → hasKompaktGates pod = true → pod_NodeName pod = "") ∧
  ∀ key pod node, binds expr_holds field_holds c key pod node →
    (is_Some (slookup (pod_Annotations pod) AnnotationTraceID) →
      (∃ reason, reason ∈ release_reasons ∧
        slookup (pod_Annotations pod) AnnotationReason = Some reason) ∨
      key ∈ c_manual c) ∧
    ∀ target, slookup (pod_Annotations pod) AnnotationNode = Some target →
      slookup (node_Labels node) "kubernetes.io/hostname" = Some target.
Proof.
  intros Hcodec Hin Hp Hseen Hl Hs.
  assert (cluster_inv expr_holds field_holds c) as (Hcur & Hpods & Hok).
  { assert (cluster_inv expr_holds field_holds c0) as H0.
    { split_and!; [by rewrite Hp| |rewrite Hl; apply ledger_ok_New].
      intros key p. rewrite Hseen. by intros ?%not_elem_of_nil. }
    clear Hp Hseen Hl. induction Hs as [|c1 c2 c3 H1 _ IH]; [done|].
    apply IH. by eapply cluster_step_inv. }
  split; [done|]. split.
  - intros key pod [Hk _]%Hcur Hg. by destruct (Hpods _ _ Hk) as [[? _] _].
  - intros key pod node (Hk & Hg & _ & _ & Hadm). destruct (Hcur _ _ Hk) as [Hk' Ha].
    split; [apply Ha; unfold hasKompaktGates; by rewrite Hg|].
    intros target Ht. pose proof (pi_target _ _ _ (Hpods _ _ Hk') _ _ Ht Hadm) as Hh.
    apply Hin in Hh as (v & Hv & ->%list_elem_of_singleton). done.
Qed.

(** ** Witness *)

Definition hosted_node : Node (K := kube_milli) := {|
  node_Name := "n1"; node_Labels := Some {["kubernetes.io/hostname" := "n1"]};
  node_CreationTimestamp := Hour; node_DeletionTimestamp := None; node_Taints := [];
  node_Allocatable := {["cpu" := 4000 : Quantity (Kube := kube_milli)]};
  node_Conditions := [] |}.

Definition requested_pod : Pod (K := kube_milli) := set_SchedulingGates (gated_pod Hour) [].

Definition admitted_pod : Pod (K := kube_milli) :=
  gated_by requested_pod "12345678" [{| gate_Name := "kompakt.io/wait-for-node-ready" |}].

Definition start_cluster : Cluster (K := kube_milli) := {|
  c_pods := ∅; c_seen := []; c_manual := ∅; c_nodes := [hosted_node];
  c_profiles := {["p" := profile_with ["WaitForNodeReady"]]};
  c_reconciler := fresh_reconciler |}.

#[local] Instance NodeAffinity_eq_dec : EqDecision NodeAffinity.
Proof. solve_decision. Defined.
#[local] Instance Affinity_eq_dec : EqDecision Affinity.
Proof. solve_decision. Defined.
#[local] Instance Container_eq_dec : EqDecision (Container (K := kube_milli)).
Proof.
  intros [r1] [r2]. destruct (decide (r1 = r2 :> gmap string Z)) as [->|H]; [by left|right; congruence].
Defined.
#[local] Instance Pod_eq_dec : EqDecision (Pod (K := kube_milli)).
Proof. solve_decision. Defined.

Definition toy_Unmarshal (raw : string) : result (Pod (K := kube_milli)) :=
  if bool_decide (raw = "requested") then Ok requested_pod
  else if bool_decide (raw = "admitted") then Ok admitted_pod
  else Err (errors_New "unexpected end of JSON input").

Definition toy_Marshal (p : Pod (K := kube_milli)) : result string :=
  if decide (p = admitted_pod) then Ok "admitted" else Err (errors_New "unsupported value").

Lemma toy_codec p r : toy_Marshal p = Ok r → toy_Unmarshal r = Ok p.
Proof. unfold toy_Marshal. case_decide as H; [|done]. intros [= <-]. by rewrite H. Qed.

Definition toy_step := cluster_step in_holds (λ _ _, False) toy_Unmarshal toy_Marshal (λ s, s).

Definition pod_p : string * string := ("default", "p").

Definition admitted_cluster : Cluster (K := kube_milli) :=
  created start_cluster admitted_pod.

Definition read_profile (pn : string) : result PackingProfile :=
  match c_profiles start_cluster !! pn with
  | Some p => Ok p
  | None => Err {| err_NotFound := true; err_Error := "not found" |}
  end.

Lemma read_profile_of pn : read_of (c_profiles start_cluster !! pn) (read_profile pn).
Proof. unfold read_profile. by destruct (c_profiles start_cluster !! pn). Qed.

Definition admitted_env : Env (K := kube_milli) := {|
  env_GetPod := Ok admitted_pod; env_GetProfile := read_profile;
  env_ListNodes := Ok [hosted_node]; env_ListPods := Ok [admitted_pod];
  env_ListPodsByProfile _ := Ok [admitted_pod]; env_Reader _ := example_reader [];
  env_Patch _ _ := None; env_UpdateStatus _ := None; env_now _ _ := Hour |}.

Definition released_cluster : Cluster (K := kube_milli) :=
  with_reconciler (store admitted_cluster pod_p (released_pod admitted_pod "n1" "capacity"))
    (Reconcile (O := order_forward) admitted_env fresh_reconciler).1.1.

Lemma toy_Handle M :
  M admitted_pod = Ok "admitted" →
  (Handle toy_Unmarshal M (λ s, s) "12345678" read_profile (λ _ _, Hour) "requested").2 =
  Patched "requested" "admitted".
Proof.
  intros HM.
  transitivity (match M admitted_pod with
    | Err _ => ([], Errored 500)
    | Ok p => (webhook_metrics (K := kube_milli) (λ _ _, Hour) "gate", Patched "requested" p)
    end.2); [reflexivity|by rewrite HM].
Qed.

Lemma toy_admission : toy_step start_cluster admitted_cluster.
Proof.
  apply (cs_create in_holds (λ _ _, False) toy_Unmarshal toy_Marshal (λ s, s) start_cluster
    "requested" requested_pod admitted_pod); [reflexivity|done|reflexivity| |done].
  right. exists read_profile, (λ _ _, Hour), "12345678". split; [exact read_profile_of|].
  assert ((Handle toy_Unmarshal toy_Marshal (λ s, s) "12345678" read_profile (λ _ _, Hour)
    "requested").2 = Patched "requested" "admitted") as ->; [|reflexivity].
  apply (toy_Handle toy_Marshal). unfold toy_Marshal. by rewrite decide_True.
Qed.

Lemma hosted_ok : nodes_named [hosted_node] ∧ NoDup (node_Name <$> [hosted_node]).
Proof.
  split.
  - apply Forall_singleton. done.
  - apply NoDup_singleton.
Qed.

Lemma toy_release : toy_step admitted_cluster released_cluster.
Proof.
  assert (patches (Reconcile (O := order_forward) admitted_env fresh_reconciler).1.2 =
    [(admitted_pod, released_pod admitted_pod "n1" "capacity")]) as Hp.
  { vm_cast_no_check (@eq_refl _ [(admitted_pod, released_pod admitted_pod "n1" "capacity")]). }
  destruct (Reconcile (O := order_forward) admitted_env fresh_reconciler) as [[r' es] res] eqn:E.
  unfold released_cluster. rewrite E. cbn [fst snd] in *.
  eapply (cs_reconcile _ _ _ _ _ admitted_cluster pod_p order_forward admitted_env);
    [|exact E|reflexivity|].
  - split; [intros p [= <-]; left|]. intros ns Hns.
    assert (ns = [hosted_node]) as -> by (by injection Hns). exact hosted_ok.
  - rewrite Hp. eapply ap_patch; [|apply ap_none]. split; [by apply merged_current|].
    apply sublist_nil_l.
Qed.

Lemma toy_bindable :
  binds in_holds (λ _ _, False) released_cluster pod_p
    (released_pod admitted_pod "n1" "capacity") hosted_node.
Proof.
  split_and!; [|reflexivity|reflexivity|left|].
  - apply lookup_insert_eq.
  - apply pin_affinity_admits; [done|done|]. split; [done|]. exists "n1".
    split; [reflexivity|left].
Qed.

Lemma bound_where_released_witness :
  rtc toy_step start_cluster released_cluster ∧
  binds in_holds (λ _ _, False) released_cluster pod_p
    (released_pod admitted_pod "n1" "capacity") hosted_node ∧
  slookup (node_Labels hosted_node) "kubernetes.io/hostname" = Some "n1".
Proof.
  assert (rtc toy_step start_cluster released_cluster) as Hs.
  { eapply rtc_l; [exact toy_admission|]. apply rtc_once, toy_release. }
  split; [exact Hs|]. split; [exact toy_bindable|].
  destruct (bound_where_released in_holds (λ _ _, False) toy_Unmarshal toy_Marshal (λ s, s)
    start_cluster released_cluster) as (_ & _ & H).
  - exact toy_codec.
  - by intros k vs n.
  - reflexivity.
  - reflexivity.
  - reflexivity.
  - exact Hs.
  - apply (H pod_p (released_pod admitted_pod "n1" "capacity") hosted_node toy_bindable).
    reflexivity.
Defined.

(** A pod freed by hand, as the guides say: the scheduler may bind it, with no
    reason recorded. *)
Definition freed_pod : Pod (K := kube_milli) := set_SchedulingGates admitted_pod [].

Example freed_by_hand :
  toy_step admitted_cluster (edited admitted_cluster pod_p admitted_pod freed_pod) ∧
  binds in_holds (λ _ _, False) (edited admitted_cluster pod_p admitted_pod freed_pod) pod_p
    freed_pod hosted_node ∧
  slookup (pod_Annotations freed_pod) AnnotationReason = None ∧
  pod_p ∈ c_manual (edited admitted_cluster pod_p admitted_pod freed_pod).
Proof.
  split_and!.
  - apply cs_edit; [reflexivity|]. split; [done|done|apply sublist_nil_l|done|done].
  - split_and!; [apply lookup_insert_eq|reflexivity|reflexivity|left|exact I].
  - reflexivity.
  - change (pod_p ∈ {[pod_p]} ∪ c_manual admitted_cluster). set_solver.
Qed.
