(* ===== verification/Certgen.v ===== *)
(** * Webhook certificates

    [internal/certgen/provisioner.go]: the generation of the webhook's
    certificates, the test that decides on reuse or renewal, the upsert of the
    secret, the files on disk and the patch of the webhook configuration.

    The cryptography, PEM and the API server are interfaces: classes of
    operations with the laws the code relies on.  The disk is a map from paths
    to contents; a failing write may leave the old file or any content. *)

From Stdlib Require Import String Ascii.
From S2P Require Import Prelude GoStrings GoTime GoPath.

(** ** Interfaces *)

(** The fields of [x509.Certificate] the code sets or reads; [pkix.Name] is
    its common name and organization. *)
Record Certificate := {
  crt_SerialNumber : Z;
  crt_CommonName : string;
  crt_Organization : list string;
  crt_DNSNames : list string;
  crt_NotBefore : Z;
  crt_NotAfter : Z;
  crt_KeyUsage : Z;
  crt_ExtKeyUsage : list Z;
  crt_IsCA : bool;
  crt_BasicConstraintsValid : bool
}.

Definition KeyUsageDigitalSignature : Z := 1.
Definition KeyUsageKeyEncipherment : Z := 4.
Definition KeyUsageCertSign : Z := 32.
Definition KeyUsageCRLSign : Z := 64.
Definition ExtKeyUsageServerAuth : Z := 1.

(** Certificates carry whole seconds. *)
Definition Truncate_Second (t : Z) : Z := t - t mod Second.

(** [crypto/ecdsa], [crypto/x509], [crypto/tls] and [encoding/pem].  [chains]
    is the verification of a certificate against one root. *)
Class Crypto := {
  PrivateKey : Type;
  PublicKey : Type;
  Public : PrivateKey → PublicKey;
  CreateCertificate (template parent : Certificate) : PublicKey → PrivateKey → result string;
  ParseCertificate : string → result Certificate;
  MarshalECPrivateKey : PrivateKey → result string;
  pem_Encode (ty bytes : string) : string;
  pem_Decode : string → option (string * string);
  X509KeyPair (certPEM keyPEM : string) : result (string * list string);
  chains (root leaf : string) : bool;

  pem_Decode_Encode ty bytes : pem_Decode (pem_Encode ty bytes) = Some (ty, bytes);
  pem_Decode_empty : pem_Decode "" = None;
  ParseCertificate_Create template parent pub key der :
    CreateCertificate template parent pub key = Ok der →
    ∃ crt, ParseCertificate der = Ok crt ∧
      crt_DNSNames crt = crt_DNSNames template ∧
      crt_IsCA crt = crt_IsCA template ∧
      crt_KeyUsage crt = crt_KeyUsage template ∧
      crt_NotBefore crt = Truncate_Second (crt_NotBefore template) ∧
      crt_NotAfter crt = Truncate_Second (crt_NotAfter template);
  X509KeyPair_created template parent key signer der keyDER :
    CreateCertificate template parent (Public key) signer = Ok der →
    MarshalECPrivateKey key = Ok keyDER →
    X509KeyPair (pem_Encode "CERTIFICATE" der) (pem_Encode "EC PRIVATE KEY" keyDER) =
      Ok (der, []);
  chains_created rootTemplate root template key caKey rootDER leafDER :
    CreateCertificate rootTemplate rootTemplate (Public caKey) caKey = Ok rootDER →
    ParseCertificate rootDER = Ok root →
    crt_IsCA root = true → Z.testbit (crt_KeyUsage root) 5 = true →
    CreateCertificate template root (Public key) caKey = Ok leafDER →
    chains rootDER leafDER = true
}.

Record Secret := {
  sec_Name : string;
  sec_Namespace : string;
  sec_Type : string;
  sec_Data : gmap string string
}.

Record MutatingWebhook := { mw_Name : string; mw_CABundle : string }.

Record MutatingWebhookConfiguration := {
  mwc_Name : string;
  mwc_Webhooks : list MutatingWebhook
}.

(** The API server: the objects it stores and the calls the provisioner makes.
    A call that fails may have taken effect, as when its response is lost. *)
Class Api := {
  api_state : Type;
  secret_at : api_state → string → string → option Secret;
  webhooks_at : api_state → string → option MutatingWebhookConfiguration;
  Secrets_Get (ns name : string) : api_state → api_state * result Secret;
  Secrets_Create (ns : string) (s : Secret) : api_state → api_state * option goerror;
  Secrets_Update (ns : string) (s : Secret) : api_state → api_state * option goerror;
  Webhooks_Get (name : string) : api_state → api_state * result MutatingWebhookConfiguration;
  Webhooks_Update (c : MutatingWebhookConfiguration) : api_state → api_state * option goerror;

  Secrets_Get_frame ns name w w' r : Secrets_Get ns name w = (w', r) →
    (∀ ns' n, secret_at w' ns' n = secret_at w ns' n) ∧
    (∀ n, webhooks_at w' n = webhooks_at w n);
  Secrets_Get_Ok ns name w w' s : Secrets_Get ns name w = (w', Ok s) →
    secret_at w ns name = Some s ∧ sec_Name s = name ∧ sec_Namespace s = ns;
  Secrets_Get_NotFound ns name w w' e : Secrets_Get ns name w = (w', Err e) →
    err_NotFound e = true → secret_at w ns name = None;
  Secrets_Create_frame ns s w w' r : Secrets_Create ns s w = (w', r) →
    (∀ ns' n, (ns', n) ≠ (ns, sec_Name s) → secret_at w' ns' n = secret_at w ns' n) ∧
    (∀ n, webhooks_at w' n = webhooks_at w n);
  Secrets_Create_Ok ns s w w' : Secrets_Create ns s w = (w', None) →
    secret_at w' ns (sec_Name s) = Some s;
  Secrets_Update_frame ns s w w' r : Secrets_Update ns s w = (w', r) →
    (∀ ns' n, (ns', n) ≠ (ns, sec_Name s) → secret_at w' ns' n = secret_at w ns' n) ∧
    (∀ n, webhooks_at w' n = webhooks_at w n);
  Secrets_Update_Ok ns s w w' : Secrets_Update ns s w = (w', None) →
    secret_at w' ns (sec_Name s) = Some s;
  Webhooks_Get_frame name w w' r : Webhooks_Get name w = (w', r) →
    (∀ ns n, secret_at w' ns n = secret_at w ns n) ∧
    (∀ n, webhooks_at w' n = webhooks_at w n);
  Webhooks_Get_Ok name w w' c : Webhooks_Get name w = (w', Ok c) →
    webhooks_at w name = Some c ∧ mwc_Name c = name;
  Webhooks_Update_frame c w w' r : Webhooks_Update c w = (w', r) →
    (∀ ns n, secret_at w' ns n = secret_at w ns n) ∧
    (∀ n, n ≠ mwc_Name c → webhooks_at w' n = webhooks_at w n);
  Webhooks_Update_Ok c w w' : Webhooks_Update c w = (w', None) →
    webhooks_at w' (mwc_Name c) = Some c
}.

(** ** The provisioner *)

Section certgen.
Context {C : Crypto} {A : Api}.

Definition caLifetime : Z := 10 * 365 * 24 * Hour.
Definition certLifetime : Z := 365 * 24 * Hour.
Definition checkInterval : Z := 12 * Hour.

(** The constant 0.80, rounded to a double. *)
Definition rotateAt : float64 := float_div (float_of_Z 4) (float_of_Z 5).

Record Config := {
  cfg_Namespace : string;
  cfg_ServiceName : string;
  cfg_SecretName : string;
  cfg_WebhookConfigName : string;
  cfg_CertDir : string
}.

(** What one run finds outside: the clock, the random source, and the disk's
    failures; a write that fails may leave some content behind. *)
Record CertEnv := {
  ce_now : Clock;
  ce_GenerateKey : string → result PrivateKey;
  ce_rand_Int : string → result Z;
  ce_MkdirAll : string → option goerror;
  ce_WriteFile : string → option (goerror * option string);
  ce_ReadFile : string → option goerror
}.

(** The API server and the disk of the replica that runs. *)
Record Host := { h_api : api_state; h_disk : gmap string string }.

Definition P (T : Type) : Type := Host → Host * T.

#[global] Instance P_ret : MRet P := λ T a h, (h, a).
#[global] Instance P_bind : MBind P := λ T U f m h, let '(h1, a) := m h in f a h1.

Definition call {T} (f : api_state → api_state * T) : P T := λ h,
  let '(w, r) := f (h_api h) in ({| h_api := w; h_disk := h_disk h |}, r).

(** [fmt.Errorf("prefix: %w", err)]: the wrapped error keeps its kind. *)
Definition Errorf (prefix : string) (e : goerror) : goerror :=
  GoError (err_NotFound e) (prefix +:+ ": " +:+ err_Error e).

(** [if err != nil { return ... }], with and without a wrapped error. *)
Definition try (prefix : string) (m : P (option goerror)) (k : P (option goerror)) :
  P (option goerror) :=
  err ← m;
  match err with
  | Some e => mret (Some (Errorf prefix e))
  | None => k
  end.

Definition rbind {T U} (r : result T) (wrap : goerror → goerror) (k : T → result U) :
  result U :=
  match r with Ok a => k a | Err e => Err (wrap e) end.

Definition randomSerial (env : CertEnv) (tag : string) : result Z :=
  rbind (ce_rand_Int env tag) (Errorf "generate serial") Ok.

(** ** Generation *)

Definition ca_template (serviceName : string) (serial now1 now2 : Z) : Certificate := {|
  crt_SerialNumber := serial;
  crt_CommonName := serviceName +:+ "-ca"; crt_Organization := ["kompakt"];
  crt_DNSNames := [];
  crt_NotBefore := now1; crt_NotAfter := time_Add now2 caLifetime;
  crt_KeyUsage := Z.lor KeyUsageCertSign KeyUsageCRLSign; crt_ExtKeyUsage := [];
  crt_IsCA := true; crt_BasicConstraintsValid := true |}.

Definition dns_names (serviceName namespace : string) : list string :=
  [serviceName; serviceName +:+ "." +:+ namespace +:+ ".svc";
   serviceName +:+ "." +:+ namespace +:+ ".svc.cluster.local"].

Definition server_template (serviceName namespace : string) (serial now1 now2 : Z) :
  Certificate := {|
  crt_SerialNumber := serial;
  crt_CommonName := nth 1 (dns_names serviceName namespace) ""; crt_Organization := [];
  crt_DNSNames := dns_names serviceName namespace;
  crt_NotBefore := now1; crt_NotAfter := time_Add now2 certLifetime;
  crt_KeyUsage := Z.lor KeyUsageDigitalSignature KeyUsageKeyEncipherment;
  crt_ExtKeyUsage := [ExtKeyUsageServerAuth];
  crt_IsCA := false; crt_BasicConstraintsValid := false |}.

Record pems := { caPEM : string; certPEM : string; keyPEM : string }.

Definition GenerateCerts (env : CertEnv) (serviceName namespace : string) : result pems :=
  rbind (ce_GenerateKey env "ca") (Errorf "generate CA key") (λ caKey,
  rbind (randomSerial env "ca") id (λ caSerial,
  let caTemplate := ca_template serviceName caSerial
                      (ce_now env "caNotBefore" 0%nat) (ce_now env "caNotAfter" 0%nat) in
  rbind (CreateCertificate caTemplate caTemplate (Public caKey) caKey)
    (Errorf "create CA cert") (λ caDER,
  rbind (ParseCertificate caDER) (Errorf "parse CA cert") (λ caCert,
  rbind (ce_GenerateKey env "server") (Errorf "generate server key") (λ serverKey,
  rbind (randomSerial env "server") id (λ serverSerial,
  let serverTemplate := server_template serviceName namespace serverSerial
                      (ce_now env "certNotBefore" 0%nat) (ce_now env "certNotAfter" 0%nat) in
  rbind (CreateCertificate serverTemplate caCert (Public serverKey) caKey)
    (Errorf "create server cert") (λ serverDER,
  rbind (MarshalECPrivateKey serverKey) (Errorf "marshal server key") (λ keyDER,
  Ok {| caPEM := pem_Encode "CERTIFICATE" caDER;
        certPEM := pem_Encode "CERTIFICATE" serverDER;
        keyPEM := pem_Encode "EC PRIVATE KEY" keyDER |})))))))).

(** ** Validity *)

(** [m[k]] on a map to byte slices. *)
Definition data_get (m : gmap string string) (k : string) : string := default "" (m !! k).

Fixpoint san_match (names : list string) (expectedDNS : string) : bool :=
  match names with
  | [] => false
  | dns :: names => if bool_decide (dns = expectedDNS) then true else san_match names expectedDNS
  end.

Definition renewAt (cert : Certificate) : Z :=
  let lifetime := time_Sub (crt_NotAfter cert) (crt_NotBefore cert) in
  time_Add (crt_NotBefore cert) (float_trunc (float_mul (float_of_Z lifetime) rotateAt)).

Definition certsValid (cfg : Config) (now : Z) (secret : Secret) : bool :=
  let certPEM := data_get (sec_Data secret) "tls.crt" in
  if bool_decide (certPEM = "") || bool_decide (data_get (sec_Data secret) "tls.key" = "")
     || bool_decide (data_get (sec_Data secret) "ca.crt" = "") then false
  else
    match pem_Decode certPEM with
    | None => false
    | Some (_, block) =>
        match ParseCertificate block with
        | Err _ => false
        | Ok cert =>
            let expectedDNS := cfg_ServiceName cfg +:+ "." +:+ cfg_Namespace cfg +:+ ".svc" in
            if san_match (crt_DNSNames cert) expectedDNS
            then time_Before now (renewAt cert)
            else false
        end
    end.

(** ** The disk *)

Definition certPath (cfg : Config) : string := filepath_Join (cfg_CertDir cfg) "tls.crt".
Definition keyPath (cfg : Config) : string := filepath_Join (cfg_CertDir cfg) "tls.key".

Definition os_WriteFile (env : CertEnv) (path content : string) : P (option goerror) := λ h,
  match ce_WriteFile env path with
  | None => ({| h_api := h_api h; h_disk := <[path := content]> (h_disk h) |}, None)
  | Some (e, None) => (h, Some e)
  | Some (e, Some torn) =>
      ({| h_api := h_api h; h_disk := <[path := torn]> (h_disk h) |}, Some e)
  end.

Definition os_ReadFile (env : CertEnv) (path : string) (disk : gmap string string) :
  result string :=
  match ce_ReadFile env path with
  | Some e => Err e
  | None => match disk !! path with
            | Some content => Ok content
            | None => Err (errors_New "no such file or directory")
            end
  end.

Definition writeFiles (cfg : Config) (env : CertEnv) (certPEM keyPEM : string) :
  P (option goerror) :=
  match ce_MkdirAll env (cfg_CertDir cfg) with
  | Some e => mret (Some e)
  | None =>
      err ← os_WriteFile env (certPath cfg) certPEM;
      match err with
      | Some e => mret (Some e)
      | None => os_WriteFile env (keyPath cfg) keyPEM
      end
  end.

(** ** The secret and the webhook configuration *)

Definition new_secret (cfg : Config) (p : pems) : Secret := {|
  sec_Name := cfg_SecretName cfg; sec_Namespace := cfg_Namespace cfg;
  sec_Type := "kubernetes.io/tls";
  sec_Data := {["tls.crt" := certPEM p; "tls.key" := keyPEM p; "ca.crt" := caPEM p]} |}.

Definition upsertSecret (cfg : Config) (p : pems) : P (option goerror) :=
  let secret := new_secret cfg p in
  res ← call (Secrets_Get (cfg_Namespace cfg) (cfg_SecretName cfg));
  match res with
  | Err e =>
      if err_NotFound e then call (Secrets_Create (cfg_Namespace cfg) secret)
      else mret (Some e)
  | Ok existing =>
      call (Secrets_Update (cfg_Namespace cfg)
        {| sec_Name := sec_Name existing; sec_Namespace := sec_Namespace existing;
           sec_Type := sec_Type existing; sec_Data := sec_Data secret |})
  end.

Definition set_bundles (caPEM : string) (mwc : MutatingWebhookConfiguration) :
  MutatingWebhookConfiguration := {|
  mwc_Name := mwc_Name mwc;
  mwc_Webhooks := (λ w, {| mw_Name := mw_Name w; mw_CABundle := caPEM |}) <$> mwc_Webhooks mwc |}.

Definition patchWebhookCABundle (cfg : Config) (caPEM : string) : P (option goerror) :=
  res ← call (Webhooks_Get (cfg_WebhookConfigName cfg));
  match res with
  | Err e => mret (Some (Errorf "get webhook config" e))
  | Ok mwc => call (Webhooks_Update (set_bundles caPEM mwc))
  end.

(** ** Provisioning *)

Definition provision (cfg : Config) (env : CertEnv) : P (option goerror) :=
  match GenerateCerts env (cfg_ServiceName cfg) (cfg_Namespace cfg) with
  | Err e => mret (Some (Errorf "generate certs" e))
  | Ok p =>
      try "upsert secret" (upsertSecret cfg p)
        (try "write cert files" (writeFiles cfg env (certPEM p) (keyPEM p))
          (try "patch webhook caBundle" (patchWebhookCABundle cfg (caPEM p)) (mret None)))
  end.

Definition ensureCerts (cfg : Config) (env : CertEnv) : P (option goerror) :=
  res ← call (Secrets_Get (cfg_Namespace cfg) (cfg_SecretName cfg));
  match res with
  | Err e =>
      if err_NotFound e then provision cfg env else mret (Some (Errorf "get secret" e))
  | Ok secret =>
      if negb (certsValid cfg (ce_now env "certsValid" 0%nat) secret) then provision cfg env
      else try "write cert files"
             (writeFiles cfg env (data_get (sec_Data secret) "tls.crt")
                (data_get (sec_Data secret) "tls.key"))
             (mret None)
  end.

(** What the select of [Start] receives: a tick, with what the run finds, or
    the end of the context. *)
Inductive start_event :=
  | CtxDone
  | Tick (env : CertEnv).

(** [Start] on the events of its select; [None] as long as it runs.  A failed
    check is only logged. *)
Fixpoint Start (cfg : Config) (events : list start_event) : P (option (option goerror)) :=
  match events with
  | [] => mret None
  | CtxDone :: _ => mret (Some None)
  | Tick env :: events => ensureCerts cfg env;; Start cfg events
  end.

(** ** Readiness *)

Definition ReadyzCheck (Format : Z → string) (cfg : Config) (env : CertEnv)
    (disk : gmap string string) : option goerror :=
  match os_ReadFile env (certPath cfg) disk with
  | Err e => Some (Errorf "cert file not found" e)
  | Ok certPEM =>
      match os_ReadFile env (keyPath cfg) disk with
      | Err e => Some (Errorf "key file not found" e)
      | Ok keyPEM =>
          match X509KeyPair certPEM keyPEM with
          | Err e => Some (Errorf "invalid cert/key pair" e)
          | Ok (der, _) =>
              match ParseCertificate der with
              | Err e => Some (Errorf "cannot parse cert" e)
              | Ok leaf =>
                  if time_After (ce_now env "readyz" 0%nat) (crt_NotAfter leaf)
                  then Some (errors_New ("cert expired at " +:+ Format (crt_NotAfter leaf)))
                  else None
              end
          end
      end
  end.
End certgen.

Definition NeedLeaderElection : bool := false.

(** The namespace: the service account's file, the environment, a constant. *)
Definition DetectNamespace (ReadFile : string → result string) (Getenv : string → string) :
  string :=
  let fallback :=
    let ns := Getenv "POD_NAMESPACE" in
    if negb (bool_decide (ns = "")) then ns else "kompakt-system" in
  match ReadFile "/var/run/secrets/kubernetes.io/serviceaccount/namespace" with
  | Ok data => if negb (bool_decide (data = "")) then data else fallback
  | Err _ => fallback
  end.
