(* ===== verification/CertInstances.v ===== *)
(** * Instances of the certificate interfaces

    A cryptography and an API server that satisfy the laws of [Certgen]: they
    show that the laws are consistent, and the examples run on them.  The
    cryptography signs only certificates of the shapes Kompakt asks for and
    writes their numbers in binary; the API server is a pair of maps that
    always answers, but refuses webhook updates when told to. *)

From Stdlib Require Import String Ascii.
From S2P Require Import Prelude GoStrings GoTime GoPath Certgen.

(** ** A binary code for lists of integers *)

Fixpoint bits (p : positive) : string :=
  match p with
  | xH => "."
  | xO p => String "0" (bits p)
  | xI p => String "1" (bits p)
  end.

(** The number at the front of a string, and the rest. *)
Fixpoint unbits (s : string) : option (positive * string) :=
  match s with
  | String "." s => Some (xH, s)
  | String "0" s => '(p, r) ← unbits s; Some (xO p, r)
  | String "1" s => '(p, r) ← unbits s; Some (xI p, r)
  | _ => None
  end.

Lemma unbits_bits p s : unbits (bits p +:+ s) = Some (p, s).
Proof. induction p as [p IH|p IH|]; cbn; by rewrite ?IH. Qed.

Definition code (zs : list Z) : string := bits (encode zs).
Definition uncode (s : string) : option (list Z) :=
  '(p, _) ← unbits s; decode p.

Lemma uncode_code zs : uncode (code zs) = Some zs.
Proof.
  unfold uncode, code.
  assert (bits (encode zs) = bits (encode zs) +:+ "") as -> by (by induction (encode zs); cbn; f_equal).
  rewrite unbits_bits. cbn. apply decode_encode.
Qed.

(** ** Cryptography *)

(** A certificate is its kind (1 for a CA), its dates, its public key and the
    key that signed it. *)
Definition toy_certificate (ca nb na : Z) : Certificate := {|
  crt_SerialNumber := 0; crt_CommonName := ""; crt_Organization := [];
  crt_DNSNames := if ca =? 1 then [] else dns_names "kompakt-controller" "kompakt-system";
  crt_NotBefore := nb; crt_NotAfter := na;
  crt_KeyUsage := if ca =? 1 then 96 else 5; crt_ExtKeyUsage := [];
  crt_IsCA := ca =? 1; crt_BasicConstraintsValid := ca =? 1 |}.

Definition toy_Create (template parent : Certificate) (pub key : Z) : result string :=
  let ca := if crt_IsCA template then 1 else 0 in
  let nb := Truncate_Second (crt_NotBefore template) in
  let na := Truncate_Second (crt_NotAfter template) in
  if bool_decide (crt_DNSNames template = crt_DNSNames (toy_certificate ca nb na))
     && (crt_KeyUsage template =? crt_KeyUsage (toy_certificate ca nb na))
  then Ok (code [ca; nb; na; pub; key]) else Err (errors_New "unsupported").

Definition toy_Parse (der : string) : result Certificate :=
  match uncode der with
  | Some [ca; nb; na; pub; key] => Ok (toy_certificate ca nb na)
  | _ => Err (errors_New "malformed certificate")
  end.

Definition toy_Encode (ty bytes : string) : string := bits (encode ty) +:+ bytes.
Definition toy_Decode (s : string) : option (string * string) :=
  '(p, bytes) ← unbits s; ty ← decode p; Some (ty, bytes).

Definition toy_KeyPair (cert key : string) : result (string * list string) :=
  match toy_Decode cert, toy_Decode key with
  | Some (_, der), Some (_, k) =>
      match uncode der, uncode k with
      | Some [_; _; _; pub; _], Some [k] =>
          if pub =? k then Ok (der, []) else Err (errors_New "key mismatch")
      | _, _ => Err (errors_New "malformed")
      end
  | _, _ => Err (errors_New "no PEM data")
  end.

Definition toy_chains (root leaf : string) : bool :=
  match uncode root, uncode leaf with
  | Some [_; _; _; pub; _], Some [_; _; _; _; key] => pub =? key
  | _, _ => false
  end.

Lemma toy_Decode_Encode ty b : toy_Decode (toy_Encode ty b) = Some (ty, b).
Proof. unfold toy_Decode, toy_Encode. rewrite unbits_bits. cbn [mbind option_bind]. by rewrite decode_encode. Qed.

Lemma toy_Create_Ok t p pub key der :
  toy_Create t p pub key = Ok der →
  let ca := if crt_IsCA t then 1 else 0 in
  let nb := Truncate_Second (crt_NotBefore t) in
  let na := Truncate_Second (crt_NotAfter t) in
  der = code [ca; nb; na; pub; key] ∧
  crt_DNSNames (toy_certificate ca nb na) = crt_DNSNames t ∧
  crt_KeyUsage (toy_certificate ca nb na) = crt_KeyUsage t.
Proof.
  unfold toy_Create. cbv zeta. destruct (_ && _) eqn:E; [|done]. intros [= <-].
  apply andb_prop in E as [Hd%bool_decide_eq_true Hk%Z.eqb_eq]. done.
Qed.

#[global, program] Instance toy_crypto : Crypto := {|
  PrivateKey := Z; PublicKey := Z; Public k := k;
  CreateCertificate := toy_Create;
  ParseCertificate := toy_Parse;
  MarshalECPrivateKey k := Ok (code [k]);
  pem_Encode := toy_Encode; pem_Decode := toy_Decode;
  X509KeyPair := toy_KeyPair; chains := toy_chains |}.
Next Obligation. apply toy_Decode_Encode. Qed.
Next Obligation. done. Qed.
Next Obligation.
  intros t p pub key der (-> & Hd & Hk)%toy_Create_Ok. unfold toy_Parse. rewrite uncode_code.
  eexists. split; [done|]. split_and!; try done. cbn. by destruct (crt_IsCA t).
Qed.
Next Obligation.
  intros t p key signer der kder (-> & _)%toy_Create_Ok [= <-]. unfold toy_KeyPair.
  by rewrite !toy_Decode_Encode, !uncode_code, Z.eqb_refl.
Qed.
Next Obligation.
  intros rt root t key caKey rder lder (-> & _)%toy_Create_Ok _ _ _ (-> & _)%toy_Create_Ok.
  unfold toy_chains. by rewrite !uncode_code, Z.eqb_refl.
Qed.

(** ** The API server *)

Record toy_state := {
  toy_secrets : gmap (string * string) Secret;
  toy_webhooks : gmap string MutatingWebhookConfiguration;
  toy_refuses : bool
}.

Definition not_found : goerror := GoError true "not found".

Definition toy_put_secret (ns : string) (s : Secret) (w : toy_state) : toy_state := {|
  toy_secrets := <[(ns, sec_Name s) := s]> (toy_secrets w);
  toy_webhooks := toy_webhooks w; toy_refuses := toy_refuses w |}.

Definition toy_get_secret (ns name : string) (w : toy_state) : result Secret :=
  match toy_secrets w !! (ns, name) with
  | Some s => if bool_decide (sec_Name s = name) && bool_decide (sec_Namespace s = ns)
              then Ok s else Err (errors_New "corrupted")
  | None => Err not_found
  end.

Definition toy_get_webhooks (name : string) (w : toy_state) :
  result MutatingWebhookConfiguration :=
  match toy_webhooks w !! name with
  | Some c => if bool_decide (mwc_Name c = name) then Ok c else Err (errors_New "corrupted")
  | None => Err not_found
  end.

Definition toy_update_webhooks (c : MutatingWebhookConfiguration) (w : toy_state) :
  toy_state * option goerror :=
  if toy_refuses w then (w, Some (errors_New "conflict"))
  else ({| toy_secrets := toy_secrets w;
           toy_webhooks := <[mwc_Name c := c]> (toy_webhooks w);
           toy_refuses := false |}, None).

Lemma toy_put_secret_frame ns s w w' (r : option goerror) :
  (toy_put_secret ns s w, @None goerror) = (w', r) →
  (∀ ns' n, (ns', n) ≠ (ns, sec_Name s) → toy_secrets w' !! (ns', n) = toy_secrets w !! (ns', n)) ∧
  (∀ n, toy_webhooks w' !! n = toy_webhooks w !! n).
Proof. intros [= <- <-]. split; [|done]. intros ns' n Hne. cbn. by rewrite lookup_insert_ne. Qed.

Lemma toy_put_secret_Ok ns s w w' :
  (toy_put_secret ns s w, @None goerror) = (w', None) →
  toy_secrets w' !! (ns, sec_Name s) = Some s.
Proof. intros [= <-]. cbn. by rewrite lookup_insert_eq. Qed.

#[global, program] Instance toy_api : Api := {|
  api_state := toy_state;
  secret_at w ns n := toy_secrets w !! (ns, n);
  webhooks_at w n := toy_webhooks w !! n;
  Secrets_Get ns name w := (w, toy_get_secret ns name w);
  Secrets_Create ns s w := (toy_put_secret ns s w, None);
  Secrets_Update ns s w := (toy_put_secret ns s w, None);
  Webhooks_Get name w := (w, toy_get_webhooks name w);
  Webhooks_Update := toy_update_webhooks |}.
Next Obligation. by intros ns n w w' r [= <- <-]. Qed.
Next Obligation.
  unfold toy_get_secret. intros ns n w w' s [= <- H].
  destruct (toy_secrets w !! (ns, n)) as [s'|]; [|done].
  destruct (_ && _) eqn:E; [|done]. injection H as ->.
  by apply andb_prop in E as [?%bool_decide_eq_true ?%bool_decide_eq_true].
Qed.
Next Obligation.
  unfold toy_get_secret. intros ns n w w' e [= <- H] He. repeat case_match; by simplify_eq.
Qed.
Next Obligation. exact toy_put_secret_frame. Qed.
Next Obligation. exact toy_put_secret_Ok. Qed.
Next Obligation. exact toy_put_secret_frame. Qed.
Next Obligation. exact toy_put_secret_Ok. Qed.
Next Obligation. by intros n w w' r [= <- <-]. Qed.
Next Obligation.
  unfold toy_get_webhooks. intros n w w' c [= <- H].
  destruct (toy_webhooks w !! n) as [c'|]; [|done].
  case_bool_decide; [|done]. injection H as ->. done.
Qed.
Next Obligation.
  unfold toy_update_webhooks. intros c w w' r H. destruct (toy_refuses w); injection H as <- <-.
  - done.
  - split; [done|]. intros n Hn. cbn. by rewrite lookup_insert_ne.
Qed.
Next Obligation.
  unfold toy_update_webhooks. intros c w w' H. destruct (toy_refuses w); [done|].
  injection H as <-. cbn. by rewrite lookup_insert_eq.
Qed.

(** ** A deployment *)

Definition kompakt_config : Config := {|
  cfg_Namespace := "kompakt-system"; cfg_ServiceName := "kompakt-controller";
  cfg_SecretName := "kompakt-webhook-certs"; cfg_WebhookConfigName := "kompakt-webhook";
  cfg_CertDir := "/certs" |}.

(** A run at a time, with its keys, on a disk without failures. *)
Definition run_at (now caKey serverKey : Z) : CertEnv (C := toy_crypto) := {|
  ce_now _ _ := now;
  ce_GenerateKey tag :=
    Ok (if decide (tag = "ca") then caKey else serverKey) : result (PrivateKey (Crypto := toy_crypto));
  ce_rand_Int _ := Ok 7;
  ce_MkdirAll _ := None; ce_WriteFile _ := None; ce_ReadFile _ := None |}.

(** No secret yet, and a configuration with two webhooks. *)
Definition installed (refuses : bool) : toy_state := {|
  toy_secrets := ∅;
  toy_webhooks := {["kompakt-webhook" := {| mwc_Name := "kompakt-webhook";
    mwc_Webhooks := [{| mw_Name := "a"; mw_CABundle := "" |};
                     {| mw_Name := "b"; mw_CABundle := "" |}] |}]};
  toy_refuses := refuses |}.

Definition fresh_host (refuses : bool) : Host (A := toy_api) := {|
  h_api := installed refuses : api_state (Api := toy_api); h_disk := ∅ |}.
