(* ===== verification/CertSafety.v ===== *)
(** * What the certificate provisioner achieves

    The theorems on [internal/certgen]: what a successful run publishes, when
    the certificates are renewed, that a renewed certificate is the one the
    API server trusts, and what a failed patch leaves.  [Replicas] has several
    replicas. *)

From Stdlib Require Import String Ascii.
From S2P Require Import Prelude GoStrings GoTime GoPath Certgen CertInstances.

Definition Day : Z := 24 * Hour.

Section steps.
Context {C : Crypto} {A : Api}.

(** ** Observations *)

Definition stored (cfg : Config) (w : api_state) : option Secret :=
  secret_at w (cfg_Namespace cfg) (cfg_SecretName cfg).

Definition configured (cfg : Config) (w : api_state) : option MutatingWebhookConfiguration :=
  webhooks_at w (cfg_WebhookConfigName cfg).

(** Every webhook of the configuration has this CA bundle. *)
Definition bundles_are (ca : string) (mwc : MutatingWebhookConfiguration) : Prop :=
  Forall (λ w, mw_CABundle w = ca) (mwc_Webhooks mwc).

(** The secret holds these certificates. *)
Definition holds (s : Secret) (p : pems) : Prop :=
  data_get (sec_Data s) "tls.crt" = certPEM p ∧
  data_get (sec_Data s) "tls.key" = keyPEM p ∧
  data_get (sec_Data s) "ca.crt" = caPEM p.

(** The files the webhook server reads. *)
Definition serves (cfg : Config) (disk : gmap string string) (cert key : string) : Prop :=
  disk !! certPath cfg = Some cert ∧ disk !! keyPath cfg = Some key.

(** A client with this CA bundle accepts this certificate. *)
Definition trusts (ca cert : string) : Prop :=
  ∃ ty1 ty2 root leaf, pem_Decode ca = Some (ty1, root) ∧ pem_Decode cert = Some (ty2, leaf) ∧
    chains root leaf = true.

Lemma data_get_new_secret cfg p : holds (new_secret cfg p) p.
Proof. by split_and!. Qed.

Lemma certPath_ne_keyPath cfg : certPath cfg ≠ keyPath cfg.
Proof.
  apply (filepath_Join_ne _ _ _ "t" "y"); try done.
  - by exists "tls.cr".
  - by exists "tls.ke".
Qed.

(** ** The steps of a run *)

Lemma call_run {T} (f : api_state → api_state * T) h :
  call f h = ({| h_api := (f (h_api h)).1; h_disk := h_disk h |}, (f (h_api h)).2).
Proof. unfold call. by destruct (f (h_api h)). Qed.

Lemma upsertSecret_frame cfg p h h' r :
  upsertSecret cfg p h = (h', r) →
  h_disk h' = h_disk h ∧ ∀ n, webhooks_at (h_api h') n = webhooks_at (h_api h) n.
Proof.
  unfold upsertSecret, mbind, P_bind. rewrite call_run.
  destruct (Secrets_Get _ _ (h_api h)) as [w [s|e]] eqn:E; cbn [fst snd];
    pose proof (proj2 (Secrets_Get_frame _ _ _ _ _ E)) as Hw.
  - rewrite call_run. cbn [h_api h_disk].
    destruct (Secrets_Update _ _ w) as [w2 r2] eqn:E2. intros [= <- <-]. cbn.
    split; [done|]. intros n. by rewrite (proj2 (Secrets_Update_frame _ _ _ _ _ E2)), Hw.
  - destruct (err_NotFound e); [|intros [= <- <-]; done].
    rewrite call_run. cbn [h_api h_disk].
    destruct (Secrets_Create _ _ w) as [w2 r2] eqn:E2. intros [= <- <-]. cbn.
    split; [done|]. intros n. by rewrite (proj2 (Secrets_Create_frame _ _ _ _ _ E2)), Hw.
Qed.

Lemma upsertSecret_ok cfg p h h' :
  upsertSecret cfg p h = (h', None) →
  ∃ s, stored cfg (h_api h') = Some s ∧ holds s p.
Proof.
  unfold upsertSecret, mbind, P_bind, stored. rewrite call_run.
  destruct (Secrets_Get _ _ (h_api h)) as [w [s|e]] eqn:E; cbn [fst snd].
  - rewrite call_run. cbn [h_api h_disk].
    destruct (Secrets_Update _ _ w) as [w2 r2] eqn:E2. intros [= <- ->]. cbn [h_api].
    destruct (Secrets_Get_Ok _ _ _ _ _ E) as (_ & Hn & _).
    apply Secrets_Update_Ok in E2. cbn [sec_Name] in E2. rewrite Hn in E2.
    eexists. split; [exact E2|]. apply (data_get_new_secret cfg p).
  - destruct (err_NotFound e); [|done]. rewrite call_run. cbn [h_api h_disk].
    destruct (Secrets_Create _ _ w) as [w2 r2] eqn:E2. intros [= <- ->]. cbn [h_api].
    apply Secrets_Create_Ok in E2. eexists. split; [exact E2|]. apply data_get_new_secret.
Qed.

Lemma writeFiles_frame cfg env cert key h h' r :
  writeFiles cfg env cert key h = (h', r) → h_api h' = h_api h.
Proof.
  unfold writeFiles, mbind, P_bind, mret, P_ret, os_WriteFile.
  intros H. repeat case_match; simplify_eq; done.
Qed.

Lemma writeFiles_ok cfg env cert key h h' :
  writeFiles cfg env cert key h = (h', None) → serves cfg (h_disk h') cert key.
Proof.
  unfold writeFiles, mbind, P_bind, mret, P_ret, os_WriteFile, serves.
  pose proof (certPath_ne_keyPath cfg) as Hne.
  destruct (ce_MkdirAll _ _); [done|].
  destruct (ce_WriteFile env (certPath cfg)) as [[e [?|]]|]; [done..|].
  destruct (ce_WriteFile env (keyPath cfg)) as [[e [?|]]|]; [done..|].
  intros [= <-]. cbn [h_disk]. rewrite lookup_insert_eq, lookup_insert_ne by done.
  by rewrite lookup_insert_eq.
Qed.

Lemma patch_frame cfg ca h h' r :
  patchWebhookCABundle cfg ca h = (h', r) →
  h_disk h' = h_disk h ∧ ∀ ns n, secret_at (h_api h') ns n = secret_at (h_api h) ns n.
Proof.
  unfold patchWebhookCABundle, mbind, P_bind, mret, P_ret. rewrite call_run.
  destruct (Webhooks_Get _ (h_api h)) as [w [c|e]] eqn:E; cbn [fst snd];
    pose proof (proj1 (Webhooks_Get_frame _ _ _ _ E)) as Hs; [|by intros [= <- <-]].
  rewrite call_run. cbn [h_api h_disk]. destruct (Webhooks_Update _ w) as [w2 r2] eqn:E2.
  intros [= <- <-]. cbn. split; [done|]. intros ns n.
  by rewrite (proj1 (Webhooks_Update_frame _ _ _ _ E2)), Hs.
Qed.

Lemma patch_ok cfg ca h h' :
  patchWebhookCABundle cfg ca h = (h', None) →
  ∃ mwc, configured cfg (h_api h') = Some mwc ∧ bundles_are ca mwc.
Proof.
  unfold patchWebhookCABundle, mbind, P_bind, mret, P_ret, configured. rewrite call_run.
  destruct (Webhooks_Get _ (h_api h)) as [w [c|e]] eqn:E; cbn [fst snd]; [|done].
  rewrite call_run. cbn [h_api h_disk]. destruct (Webhooks_Update _ w) as [w2 r2] eqn:E2.
  intros [= <- ->]. cbn [h_api]. destruct (Webhooks_Get_Ok _ _ _ _ E) as [_ Hn].
  apply Webhooks_Update_Ok in E2. cbn [set_bundles mwc_Name] in E2. rewrite Hn in E2.
  eexists. split; [exact E2|]. unfold bundles_are, set_bundles. cbn.
  apply Forall_fmap, Forall_true. done.
Qed.

Lemma try_None prefix m k h h' :
  try prefix m k h = (h', None) → ∃ h1, m h = (h1, None) ∧ k h1 = (h', None).
Proof.
  unfold try, mbind, P_bind, mret, P_ret. destruct (m h) as [h1 [e|]]; [done|]. eauto.
Qed.

Lemma provision_ok cfg env h h' :
  provision cfg env h = (h', None) →
  ∃ p s mwc, GenerateCerts env (cfg_ServiceName cfg) (cfg_Namespace cfg) = Ok p ∧
    stored cfg (h_api h') = Some s ∧ holds s p ∧
    configured cfg (h_api h') = Some mwc ∧ bundles_are (caPEM p) mwc ∧
    serves cfg (h_disk h') (certPEM p) (keyPEM p).
Proof.
  unfold provision. destruct (GenerateCerts _ _ _) as [p|e]; [|done].
  intros (h1 & Hu & (h2 & Hw & (h3 & Hp & [= <-])%try_None)%try_None)%try_None.
  destruct (upsertSecret_ok _ _ _ _ Hu) as (s & Hs & Hh).
  destruct (patch_frame _ _ _ _ _ Hp) as [Hd Hsec].
  destruct (patch_ok _ _ _ _ Hp) as (mwc & Hc & Hb).
  exists p, s, mwc. split_and!; try done.
  - unfold stored. rewrite Hsec, (writeFiles_frame _ _ _ _ _ _ _ Hw). done.
  - rewrite Hd. by eapply writeFiles_ok.
Qed.

(** A run that finds valid certificates writes files only. *)
Lemma ensureCerts_valid cfg env s h h' r :
  stored cfg (h_api h) = Some s → certsValid cfg (ce_now env "certsValid" 0%nat) s = true →
  ensureCerts cfg env h = (h', r) →
  stored cfg (h_api h') = Some s ∧
  (∀ n, webhooks_at (h_api h') n = webhooks_at (h_api h) n) ∧
  (r = None → serves cfg (h_disk h')
     (data_get (sec_Data s) "tls.crt") (data_get (sec_Data s) "tls.key")).
Proof.
  unfold stored, ensureCerts. intros Hs Hv. unfold mbind at 1, P_bind at 1. rewrite call_run.
  destruct (Secrets_Get _ _ (h_api h)) as [w [s'|e]] eqn:E; cbn [fst snd];
    destruct (Secrets_Get_frame _ _ _ _ _ E) as [Hsec Hweb].
  - destruct (Secrets_Get_Ok _ _ _ _ _ E) as (Hs' & _).
    assert (s' = s) as -> by congruence. rewrite Hv. cbn [negb].
    unfold try, mbind, P_bind, mret, P_ret.
    destruct (writeFiles _ _ _ _ _) as [h2 [e|]] eqn:Hw; intros [= <- <-];
      rewrite (writeFiles_frame _ _ _ _ _ _ _ Hw); cbn [h_api]; rewrite Hsec;
      (split; [done|]; split; [done|]); [done|]. intros _. by eapply writeFiles_ok.
  - destruct (err_NotFound e) eqn:He.
    + pose proof (Secrets_Get_NotFound _ _ _ _ _ E He). congruence.
    + intros [= <- <-]. cbn. by rewrite Hsec.
Qed.
(** What a check decides on. *)
Lemma ensureCerts_cases cfg env h h' r :
  ensureCerts cfg env h = (h', r) →
  (∃ s, stored cfg (h_api h) = Some s ∧ certsValid cfg (ce_now env "certsValid" 0%nat) s = true) ∨
  ((∀ s, stored cfg (h_api h) = Some s →
     certsValid cfg (ce_now env "certsValid" 0%nat) s = false) ∧
   ∃ h1, provision cfg env h1 = (h', r) ∧ h_disk h1 = h_disk h) ∨
  ∃ e, r = Some (Errorf "get secret" e).
Proof.
  unfold stored, ensureCerts, mbind at 1, P_bind at 1. rewrite call_run.
  destruct (Secrets_Get _ _ (h_api h)) as [w [s|e]] eqn:E; cbn [fst snd].
  - destruct (Secrets_Get_Ok _ _ _ _ _ E) as (Hs & _).
    destruct (certsValid _ _ s) eqn:Hv; cbn [negb]; intros H; [left; eauto|right; left].
    split; [intros s0 Hs0; by simplify_eq|]. by eexists.
  - destruct (err_NotFound e) eqn:He; intros H; right; [left|right].
    + rewrite (Secrets_Get_NotFound _ _ _ _ _ E He). split; [done|]. by eexists.
    + injection H as _ <-. by eexists.
Qed.
(** A check without an error leaves the certificate of the secret on disk. *)
Lemma ensureCerts_serves cfg env h h' :
  ensureCerts cfg env h = (h', None) →
  ∃ s, stored cfg (h_api h') = Some s ∧
    serves cfg (h_disk h') (data_get (sec_Data s) "tls.crt") (data_get (sec_Data s) "tls.key").
Proof.
  intros H. destruct (ensureCerts_cases _ _ _ _ _ H) as [(s & Hs & Hv)|[[_ (h1 & Hp & _)]|[? ?]]];
    [| |done].
  - destruct (ensureCerts_valid _ _ _ _ _ _ Hs Hv H) as (Hs' & _ & Hd). exists s. auto.
  - destruct (provision_ok _ _ _ _ Hp) as (p & s & mwc & _ & Hs & (Hc & Hk & _) & _ & _ & Hd).
    exists s. by rewrite Hc, Hk.
Qed.
End steps.

(** ** What is generated *)

Section generation.
Context {C : Crypto} {A : Api}.

Lemma rbind_Ok {T U} (r : result T) wrap (k : T → result U) u :
  rbind r wrap k = Ok u → ∃ a, r = Ok a ∧ k a = Ok u.
Proof. destruct r; [eauto|done]. Qed.

(** The readings of the clock that date the server certificate. *)
Definition dated (env : CertEnv) (nb na : Z) : Prop :=
  ce_now env "certNotBefore" 0%nat = nb ∧ ce_now env "certNotAfter" 0%nat = na ∧
  nb ≤ na < nb + Second.

(** What the code relies on of a generated set of certificates. *)
Record generated (cfg : Config) (env : CertEnv) (p : pems) : Prop := {
  gen_cert : ∃ der keyDER crt,
    certPEM p = pem_Encode "CERTIFICATE" der ∧
    keyPEM p = pem_Encode "EC PRIVATE KEY" keyDER ∧
    X509KeyPair (certPEM p) (keyPEM p) = Ok (der, []) ∧
    ParseCertificate der = Ok crt ∧
    crt_DNSNames crt = dns_names (cfg_ServiceName cfg) (cfg_Namespace cfg) ∧
    crt_NotBefore crt = Truncate_Second (ce_now env "certNotBefore" 0%nat) ∧
    crt_NotAfter crt = Truncate_Second (ce_now env "certNotAfter" 0%nat + certLifetime);
  gen_trust : trusts (caPEM p) (certPEM p);
  gen_ca : ∃ der, caPEM p = pem_Encode "CERTIFICATE" der
}.

Lemma GenerateCerts_generated cfg env p :
  GenerateCerts env (cfg_ServiceName cfg) (cfg_Namespace cfg) = Ok p → generated cfg env p.
Proof.
  unfold GenerateCerts.
  intros (caKey & _ & (caSerial & _ & H)%rbind_Ok)%rbind_Ok. cbv zeta in H.
  apply rbind_Ok in H as (caDER & Hca & (caCert & Hparse & H)%rbind_Ok).
  apply rbind_Ok in H as (key & _ & (serial & _ & H)%rbind_Ok). cbv zeta in H.
  apply rbind_Ok in H as (der & Hder & (keyDER & Hkey & H)%rbind_Ok). injection H as <-.
  destruct (ParseCertificate_Create _ _ _ _ _ Hca) as (ca' & Hca' & _ & HisCA & Hku & _).
  assert (ca' = caCert) as -> by congruence.
  destruct (ParseCertificate_Create _ _ _ _ _ Hder) as (crt & Hcrt & Hdns & _ & _ & Hnb & Hna).
  split; cbn [caPEM certPEM keyPEM].
  - exists der, keyDER, crt. split_and!; try done. by eapply X509KeyPair_created.
  - unfold trusts. rewrite !pem_Decode_Encode. do 4 eexists. split_and!; [done..|].
    eapply chains_created; [exact Hca|exact Hparse| | |exact Hder]; [by rewrite HisCA|].
    by rewrite Hku.
  - by eexists.
Qed.

Lemma pem_nonempty ty b : pem_Encode ty b ≠ "".
Proof. intros E. pose proof (pem_Decode_Encode ty b) as H. by rewrite E, pem_Decode_empty in H. Qed.

Lemma san_match_spec names dns : san_match names dns = true ↔ dns ∈ names.
Proof.
  induction names as [|n names IH]; cbn; [by rewrite elem_of_nil|].
  rewrite elem_of_cons. case_bool_decide; [subst; tauto|]. rewrite IH. naive_solver.
Qed.

(** A secret with generated certificates is valid up to the renewal. *)
Lemma generated_valid cfg env p s now :
  generated cfg env p → holds s p →
  ∃ crt, crt_NotBefore crt = Truncate_Second (ce_now env "certNotBefore" 0%nat) ∧
    crt_NotAfter crt = Truncate_Second (ce_now env "certNotAfter" 0%nat + certLifetime) ∧
    certsValid cfg now s = (now <? renewAt crt).
Proof.
  intros [(der & keyDER & crt & Hc & Hk & _ & Hparse & Hdns & Hnb & Hna) _ (ca & Hca)]
    (Hs1 & Hs2 & Hs3).
  exists crt. split_and!; [done..|]. unfold certsValid.
  rewrite Hs1, Hs2, Hs3, Hc, Hk, Hca, !(bool_decide_false (_ = "")) by apply pem_nonempty.
  cbn [orb]. rewrite pem_Decode_Encode, Hparse, (proj2 (san_match_spec _ _)); [done|].
  rewrite Hdns. unfold dns_names. right. left.
Qed.

(** The renewal is due after 80 percent of the lifetime, to the second. *)
Lemma renewAt_bounds crt nb na :
  crt_NotBefore crt = Truncate_Second nb → crt_NotAfter crt = Truncate_Second (na + certLifetime) →
  nb ≤ na < nb + Second →
  Truncate_Second nb + 292 * Day ≤ renewAt crt ≤ Truncate_Second nb + 292 * Day + Second.
Proof.
  intros Hnb Hna Hle. unfold renewAt. rewrite Hnb, Hna. unfold time_Add.
  assert (Truncate_Second (na + certLifetime) - Truncate_Second nb = certLifetime ∨
    Truncate_Second (na + certLifetime) - Truncate_Second nb = certLifetime + Second) as H.
  { unfold Truncate_Second. change certLifetime with (31536000 * Second).
    assert (0 < Second) as HS by done.
    rewrite Z_mod_plus_full. pose proof (Z.div_mod nb Second ltac:(lia)).
    pose proof (Z.div_mod na Second ltac:(lia)).
    pose proof (Z.mod_pos_bound nb Second HS). pose proof (Z.mod_pos_bound na Second HS).
    assert (na / Second = nb / Second ∨ na / Second = nb / Second + 1) as [E|E] by nia;
      rewrite E in *; lia. }
  rewrite time_Sub_exact by (destruct H as [-> | ->]; decide_true).
  destruct H as [-> | ->].
  - assert (float_trunc (float_mul (float_of_Z certLifetime) rotateAt) = 292 * Day) as ->
      by (vm_compute; reflexivity). lia.
  - assert (292 * Day ≤ float_trunc (float_mul (float_of_Z (certLifetime + Second)) rotateAt)
      ≤ 292 * Day + Second) by (split; vm_compute; discriminate). lia.
Qed.

(** Inside the renewal window nothing but the disk changes. *)
Lemma Start_valid cfg s h events h' r :
  stored cfg (h_api h) = Some s →
  (∀ env, Tick env ∈ events → certsValid cfg (ce_now env "certsValid" 0%nat) s = true) →
  Start cfg events h = (h', r) →
  stored cfg (h_api h') = Some s ∧ ∀ n, webhooks_at (h_api h') n = webhooks_at (h_api h) n.
Proof.
  revert h. induction events as [|[|env] events IH]; intros h Hs Hv; cbn [Start].
  - by intros [= <- <-].
  - by intros [= <- <-].
  - unfold mbind, P_bind. destruct (ensureCerts cfg env h) as [h1 r1] eqn:E. intros HS.
    destruct (ensureCerts_valid _ _ _ _ _ _ Hs (Hv env ltac:(left)) E) as (Hs1 & Hw1 & _).
    destruct (IH h1 Hs1) as [Hs' Hw']; [|done|].
    + intros env' Hin. apply Hv. by right.
    + split; [done|]. intros n. by rewrite Hw'.
Qed.
End generation.

(** ** Properties *)

Section properties.
Context {C : Crypto} {A : Api}.

(** C19: what a successful check leaves.  When [ensureCerts] reports no error,
    the secret is stored, and the disk holds the certificate and the key of
    that secret.  Either the secret was there and valid, and the webhook
    configuration is as before; or it was missing or not valid, it now holds
    newly generated certificates, and every webhook of the configuration has
    the new CA bundle. *)
Theorem ensureCerts_publishes cfg env h h' :
  ensureCerts cfg env h = (h', None) →
  ∃ s, stored cfg (h_api h') = Some s ∧
    serves cfg (h_disk h') (data_get (sec_Data s) "tls.crt") (data_get (sec_Data s) "tls.key") ∧
    ((stored cfg (h_api h) = Some s ∧
      certsValid cfg (ce_now env "certsValid" 0%nat) s = true ∧
      configured cfg (h_api h') = configured cfg (h_api h)) ∨
     ((∀ s0, stored cfg (h_api h) = Some s0 →
         certsValid cfg (ce_now env "certsValid" 0%nat) s0 = false) ∧
      ∃ p mwc, GenerateCerts env (cfg_ServiceName cfg) (cfg_Namespace cfg) = Ok p ∧
        holds s p ∧ configured cfg (h_api h') = Some mwc ∧ bundles_are (caPEM p) mwc)).
Proof.
  intros H. destruct (ensureCerts_cases _ _ _ _ _ H) as [(s & Hs & Hv)|[[Hnv (h1 & Hp & _)]|[? ?]]]; [| |done].
  - destruct (ensureCerts_valid _ _ _ _ _ _ Hs Hv H) as (Hs' & Hw & Hd).
    exists s. split; [done|]. split; [by apply Hd|]. left. split_and!; [done..|]. apply Hw.
  - destruct (provision_ok _ _ _ _ Hp) as (p & s & mwc & Hg & Hs & Hh & Hc & Hb & Hd).
    exists s. split; [done|]. pose proof Hh as (-> & -> & _). split; [done|]. right.
    split; [done|]. by exists p, mwc.
Qed.

(** C22: renewal at 80 percent.  Certificates dated within one second are
    accepted for the 292 days that are 80 percent of their year, and are
    renewed by any check that reads its clock a second or more after that. *)
Theorem renewed_at_eighty_percent cfg env p s nb na now :
  GenerateCerts env (cfg_ServiceName cfg) (cfg_Namespace cfg) = Ok p → holds s p →
  dated env nb na →
  (now < Truncate_Second nb + 292 * Day → certsValid cfg now s = true) ∧
  (Truncate_Second nb + 292 * Day + Second ≤ now → certsValid cfg now s = false).
Proof.
  intros Hg%GenerateCerts_generated Hs (Hnb & Hna & Hle).
  destruct (generated_valid _ _ _ _ now Hg Hs) as (crt & Hb & Ha & ->).
  rewrite Hnb in Hb. rewrite Hna in Ha. pose proof (renewAt_bounds _ _ _ Hb Ha Hle).
  split; intros ?; [apply Z.ltb_lt|apply Z.ltb_ge]; lia.
Qed.

(** C20: a renewed certificate is served and trusted.  After a successful
    check that found no valid secret, the certificate on the disk chains to
    the CA bundle of every webhook, and the replica is ready for as long as
    its files can be read and the year has not passed. *)
Theorem renewed_certs_serve cfg env h h' :
  ensureCerts cfg env h = (h', None) →
  (∀ s, stored cfg (h_api h) = Some s → certsValid cfg (ce_now env "certsValid" 0%nat) s = false) →
  ∃ cert mwc, h_disk h' !! certPath cfg = Some cert ∧ configured cfg (h_api h') = Some mwc ∧
    Forall (λ w, trusts (mw_CABundle w) cert) (mwc_Webhooks mwc) ∧
    ∀ Format env', ce_ReadFile env' (certPath cfg) = None → ce_ReadFile env' (keyPath cfg) = None →
      ReadyzCheck Format cfg env' (h_disk h') = None ↔
      ce_now env' "readyz" 0%nat ≤ Truncate_Second (ce_now env "certNotAfter" 0%nat + certLifetime).
Proof.
  intros H Hnv. destruct (ensureCerts_cases _ _ _ _ _ H) as [(s & Hs & Hv)|[[_ (h1 & Hp & _)]|[? ?]]]; [| |done].
  { by rewrite (Hnv s Hs) in Hv. }
  destruct (provision_ok _ _ _ _ Hp) as (p & s & mwc & Hg & _ & _ & Hc & Hb & Hd1 & Hd2).
  apply GenerateCerts_generated in Hg as
    [(der & keyDER & crt & _ & _ & Hpair & Hparse & _ & _ & Hna) Ht _].
  exists (certPEM p), mwc. split_and!; [done..| |].
  - eapply Forall_impl; [exact Hb|]. by intros w ->.
  - intros Format env' Hr1 Hr2. unfold ReadyzCheck, os_ReadFile.
    rewrite Hr1, Hr2, Hd1, Hd2, Hpair, Hparse, Hna. unfold time_After.
    destruct (Z.ltb_spec (Truncate_Second (ce_now env "certNotAfter" 0%nat + certLifetime))
      (ce_now env' "readyz" 0%nat)); split; done || lia.
Qed.

(** C39: a failed patch is not retried.  When new certificates were stored
    and written but the patch of the webhook configuration failed,
    provisioning reports the error; but every later check within the renewal
    window, on any event and with any failures of the disk, takes the stored
    certificates for good and leaves the webhook configuration as it is. *)
Theorem failed_patch_not_retried cfg env p nb na h0 h1 h2 h3 e events h' r :
  GenerateCerts env (cfg_ServiceName cfg) (cfg_Namespace cfg) = Ok p → dated env nb na →
  upsertSecret cfg p h0 = (h1, None) →
  writeFiles cfg env (certPEM p) (keyPEM p) h1 = (h2, None) →
  patchWebhookCABundle cfg (caPEM p) h2 = (h3, Some e) →
  (∀ env', Tick env' ∈ events →
     ce_now env' "certsValid" 0%nat < Truncate_Second nb + 292 * Day) →
  Start cfg events h3 = (h', r) →
  provision cfg env h0 = (h3, Some (Errorf "patch webhook caBundle" e)) ∧
  configured cfg (h_api h') = configured cfg (h_api h3).
Proof.
  intros Hg (Hnb & Hna & Hle) Hu Hw Hp Hev HS. split.
  { unfold provision, try, mbind, P_bind. by rewrite Hg, Hu, Hw, Hp. }
  destruct (upsertSecret_ok _ _ _ _ Hu) as (s & Hs & Hh).
  assert (stored cfg (h_api h3) = Some s) as Hs3.
  { unfold stored. rewrite (proj2 (patch_frame _ _ _ _ _ Hp)).
    by rewrite (writeFiles_frame _ _ _ _ _ _ _ Hw). }
  apply GenerateCerts_generated in Hg.
  refine (proj2 (Start_valid _ _ _ _ _ _ Hs3 _ HS) _).
  intros env' Hin%Hev. destruct (generated_valid _ _ _ _ (ce_now env' "certsValid" 0%nat) Hg Hh)
    as (crt & Hb & Ha & ->).
  rewrite Hnb in Hb. rewrite Hna in Ha. pose proof (renewAt_bounds _ _ _ Hb Ha Hle).
  apply Z.ltb_lt. lia.
Qed.

End properties.

(** ** Witnesses *)

(** A check at day 1000 and what it leaves. *)
Definition first_check (refuses : bool) : Host * option goerror :=
  ensureCerts kompakt_config (run_at (1000 * Day) 1 2) (fresh_host refuses).

Definition pems_of (caKey serverKey : Z) : pems :=
  match GenerateCerts (run_at (1000 * Day) caKey serverKey) "kompakt-controller" "kompakt-system" with
  | Ok p => p
  | Err _ => {| caPEM := ""; certPEM := ""; keyPEM := "" |}
  end.

Lemma pems_of_12 :
  GenerateCerts (run_at (1000 * Day) 1 2) "kompakt-controller" "kompakt-system" = Ok (pems_of 1 2).
Proof. vm_compute. reflexivity. Qed.

Lemma run_None (m : Host * option goerror) : m.2 = None → m = (m.1, None).
Proof. destruct m as [h r]. cbn. by intros ->. Qed.

Lemma first_check_None : first_check false = ((first_check false).1, None).
Proof. apply run_None. vm_compute. reflexivity. Qed.

Lemma nothing_stored refuses s :
  stored kompakt_config (h_api (fresh_host refuses)) = Some s →
  certsValid kompakt_config (ce_now (run_at (1000 * Day) 1 2) "certsValid" 0%nat) s = false.
Proof. done. Qed.

Lemma dated_12 : dated (run_at (1000 * Day) 1 2) (1000 * Day) (1000 * Day).
Proof. split_and!; done. Qed.

Lemma ensureCerts_publishes_witness :
  ∃ s, stored kompakt_config (h_api (first_check false).1) = Some s ∧
    serves kompakt_config (h_disk (first_check false).1)
      (data_get (sec_Data s) "tls.crt") (data_get (sec_Data s) "tls.key").
Proof.
  destruct (ensureCerts_publishes kompakt_config (run_at (1000 * Day) 1 2) (fresh_host false)
    (first_check false).1 first_check_None) as (s & Hs & Hd & _).
  exists s. split; [exact Hs|exact Hd].
Defined.

Lemma renewed_at_eighty_percent_witness :
  certsValid kompakt_config (1291 * Day) (new_secret kompakt_config (pems_of 1 2)) = true ∧
  certsValid kompakt_config (1293 * Day) (new_secret kompakt_config (pems_of 1 2)) = false.
Proof.
  pose proof (λ now, renewed_at_eighty_percent kompakt_config (run_at (1000 * Day) 1 2)
    (pems_of 1 2) (new_secret kompakt_config (pems_of 1 2)) (1000 * Day) (1000 * Day) now
    pems_of_12 (data_get_new_secret kompakt_config (pems_of 1 2)) dated_12) as H.
  split.
  - apply (proj1 (H _)). vm_compute. reflexivity.
  - apply (proj2 (H _)). vm_compute. discriminate.
Defined.

Lemma renewed_certs_serve_witness :
  ∃ cert mwc, h_disk (first_check false).1 !! certPath kompakt_config = Some cert ∧
    configured kompakt_config (h_api (first_check false).1) = Some mwc ∧
    Forall (λ w, trusts (mw_CABundle w) cert) (mwc_Webhooks mwc).
Proof.
  destruct (renewed_certs_serve kompakt_config (run_at (1000 * Day) 1 2) (fresh_host false)
    (first_check false).1 first_check_None (nothing_stored false))
    as (cert & mwc & Hd & Hc & Ht & _).
  exists cert, mwc. split; [exact Hd|]. split; [exact Hc|exact Ht].
Defined.

Lemma failed_patch_not_retried_witness :
  let '(h1, _) := upsertSecret kompakt_config (pems_of 1 2) (fresh_host true) in
  let '(h2, _) := writeFiles kompakt_config (run_at (1000 * Day) 1 2)
    (certPEM (pems_of 1 2)) (keyPEM (pems_of 1 2)) h1 in
  let '(h3, _) := patchWebhookCABundle kompakt_config (caPEM (pems_of 1 2)) h2 in
  let '(h', _) := Start kompakt_config
    [Tick (run_at (1100 * Day) 3 4); Tick (run_at (1200 * Day) 5 6); CtxDone] h3 in
  configured kompakt_config (h_api h') = configured kompakt_config (h_api h3).
Proof.
  destruct (upsertSecret kompakt_config (pems_of 1 2) (fresh_host true)) as [h1 r1] eqn:E1.
  assert (r1 = None) as ->.
  { apply (f_equal snd) in E1. cbn [snd] in E1. rewrite <- E1. vm_compute. reflexivity. }
  destruct (writeFiles _ _ _ _ h1) as [h2 r2] eqn:E2.
  assert (r2 = None) as ->.
  { apply (f_equal snd) in E2. cbn [snd] in E2. rewrite <- E2. reflexivity. }
  destruct (patchWebhookCABundle _ _ h2) as [h3 r3] eqn:E3.
  assert (r3 = Some (errors_New "conflict")) as ->.
  { apply (f_equal snd) in E3. cbn [snd] in E3. rewrite <- E3.
    assert (h_api h2 = h_api h1) as Ha by exact (writeFiles_frame _ _ _ _ _ _ _ E2).
    unfold patchWebhookCABundle, mbind, P_bind. rewrite call_run, Ha.
    apply (f_equal fst) in E1. cbn [fst] in E1. rewrite <- E1. vm_compute. reflexivity. }
  destruct (Start _ _ h3) as [h' r'] eqn:E4.
  refine (proj2 (failed_patch_not_retried kompakt_config (run_at (1000 * Day) 1 2) (pems_of 1 2)
    (1000 * Day) (1000 * Day) (fresh_host true) h1 h2 h3 (errors_New "conflict")
    _ h' r' pems_of_12 dated_12 E1 E2 E3 _ E4)).
  intros env' Hin. rewrite !elem_of_cons in Hin.
  destruct Hin as [[= ->]|[[= ->]|[|Hin]]]; [reflexivity..|discriminate|].
  by apply not_elem_of_nil in Hin.
Defined.
