(* ===== verification/Replicas.v ===== *)
(** * Replicas of the certificate provisioner

    Every replica checks the certificates at its start and on its ticker, on
    one shared secret and webhook configuration.  As long as checks do not
    overlap and none stops half way through a renewal, the replicas agree;
    [replicas_diverge] and [CertSafety.failed_patch_not_retried] are what
    happens otherwise. *)

From stdpp Require Import relations.
From S2P Require Import Prelude GoStrings GoTime GoPath Certgen CertInstances CertSafety.

Section replicas.
Context {C : Crypto} {A : Api} (cfg : Config).

(** The API server and the disk of each replica. *)
Record Fleet := {
  fl_api : api_state;
  fl_disks : nat → gmap string string
}.

Definition host_of (f : Fleet) (i : nat) : Host :=
  {| h_api := fl_api f; h_disk := fl_disks f i |}.

Definition set_disk (f : Fleet) (i : nat) (disk : gmap string string) : nat → gmap string string :=
  λ j, if decide (j = i) then disk else fl_disks f j.

(** A check by one replica, from start to end. *)
Definition fleet_check (i : nat) (env : CertEnv) (f : Fleet) : Fleet * option goerror :=
  let '(h, r) := ensureCerts cfg env (host_of f i) in
  ({| fl_api := h_api h; fl_disks := set_disk f i (h_disk h) |}, r).

(** The secret would pass a check. *)
Definition accepted (now : Z) (w : api_state) : Prop :=
  ∃ s, stored cfg w = Some s ∧ certsValid cfg now s = true.

(** Checks in any order, with any clock; they may fail as long as they do not
    renew.  A replica that restarts has a new disk. *)
Inductive fleet_step (f : Fleet) : Fleet → Prop :=
  | fs_check i env :
      (fleet_check i env f).2 = None ∨ accepted (ce_now env "certsValid" 0%nat) (fl_api f) →
      fleet_step f (fleet_check i env f).1
  | fs_restart i disk :
      fleet_step f {| fl_api := fl_api f; fl_disks := set_disk f i disk |}.

(** Every webhook has a CA bundle that this secret's certificate chains to. *)
Definition trusted (w : api_state) (s : Secret) : Prop :=
  ∃ mwc, configured cfg w = Some mwc ∧
    Forall (λ hook, trusts (mw_CABundle hook) (data_get (sec_Data s) "tls.crt"))
      (mwc_Webhooks mwc).

(** A secret that any check accepts is trusted. *)
Definition agreed (w : api_state) : Prop :=
  ∀ s now, stored cfg w = Some s → certsValid cfg now s = true → trusted w s.

(** A check that succeeds serves what is stored, and it is trusted. *)
Lemma ensureCerts_agrees env h h' :
  ensureCerts cfg env h = (h', None) → agreed (h_api h) →
  ∃ s, stored cfg (h_api h') = Some s ∧ trusted (h_api h') s ∧
    serves cfg (h_disk h') (data_get (sec_Data s) "tls.crt") (data_get (sec_Data s) "tls.key").
Proof.
  intros H Ha. destruct (ensureCerts_cases _ _ _ _ _ H) as [(s & Hs & Hv)|[[_ (h1 & Hp & _)]|[? ?]]];
    [| |done].
  - destruct (ensureCerts_valid _ _ _ _ _ _ Hs Hv H) as (Hs' & Hw & Hd).
    exists s. split; [done|]. split; [|by apply Hd].
    destruct (Ha s _ Hs Hv) as (mwc & Hc & Ht). exists mwc. split; [|done].
    unfold configured. by rewrite Hw.
  - destruct (provision_ok _ _ _ _ Hp) as (p & s & mwc & Hg & Hs & (Hc & Hk & _) & Hmwc & Hb & Hd).
    apply GenerateCerts_generated in Hg as [_ Ht _].
    exists s. split; [done|]. rewrite Hc, Hk. split; [|done]. exists mwc. split; [done|].
    rewrite Hc. eapply Forall_impl; [exact Hb|]. by intros hook ->.
Qed.

Lemma fleet_step_agreed f f' : fleet_step f f' → agreed (fl_api f) → agreed (fl_api f').
Proof.
  intros Hs Ha. destruct Hs as [i env Hr|i disk]; [|done]. unfold fleet_check in *.
  destruct (ensureCerts cfg env (host_of f i)) as [h' r] eqn:E. cbn [fst snd fl_api] in *.
  destruct Hr as [->|(s & Hst & Hv)].
  - destruct (ensureCerts_agrees _ _ _ E Ha) as (s & Hst & Ht & _).
    intros s' now Hs' _. by assert (s' = s) as -> by congruence.
  - destruct (ensureCerts_valid _ _ _ _ _ _ (Hst : stored cfg (h_api (host_of f i)) = _) Hv E) as (Hst' & Hw & _).
    intros s' now Hs' Hv'. assert (s' = s) as -> by congruence.
    destruct (Ha s now Hst Hv') as (mwc & Hc & Ht). exists mwc. split; [|done].
    unfold configured. rewrite Hw. exact Hc.
Qed.

(** Checks by any replicas in any order that read their clock before [until],
    whatever fails, and restarts with any disk.  A check that accepts the
    secret makes one call to the API server, so checks that overlap are
    covered: they come in the order of those calls. *)
Inductive window_step (until : Z) (f : Fleet) : Fleet → Prop :=
  | ws_check i env :
      ce_now env "certsValid" 0%nat < until → window_step until f (fleet_check i env f).1
  | ws_restart i disk :
      window_step until f {| fl_api := fl_api f; fl_disks := set_disk f i disk |}.

(** What a check of an accepted secret does to the fleet. *)
Lemma fleet_check_valid i env f s :
  stored cfg (fl_api f) = Some s → certsValid cfg (ce_now env "certsValid" 0%nat) s = true →
  let '(f', r) := fleet_check i env f in
  stored cfg (fl_api f') = Some s ∧ configured cfg (fl_api f') = configured cfg (fl_api f) ∧
  (r = None → serves cfg (fl_disks f' i) (data_get (sec_Data s) "tls.crt")
                (data_get (sec_Data s) "tls.key")).
Proof.
  intros Hs Hv. unfold fleet_check.
  destruct (ensureCerts cfg env (host_of f i)) as [h r] eqn:E.
  destruct (ensureCerts_valid _ _ _ _ _ _ (Hs : stored cfg (h_api (host_of f i)) = _) Hv E) as (Hs' & Hw & Hd).
  cbn [fl_api fl_disks]. unfold set_disk. rewrite decide_True by done.
  split_and!; [done|apply Hw|done].
Qed.

Lemma window_steps_valid until f f' s :
  (∀ now, now < until → certsValid cfg now s = true) →
  rtc (window_step until) f f' → stored cfg (fl_api f) = Some s →
  stored cfg (fl_api f') = Some s ∧ configured cfg (fl_api f') = configured cfg (fl_api f).
Proof.
  intros Hv. induction 1 as [|f1 f2 f3 H1 _ IH]; [done|]. intros Hs.
  assert (stored cfg (fl_api f2) = Some s ∧
    configured cfg (fl_api f2) = configured cfg (fl_api f1)) as [Hs2 Hc2].
  { destruct H1 as [i env Hnow|i disk]; [|done].
    pose proof (fleet_check_valid i env f1 s Hs (Hv _ Hnow)) as H.
    destruct (fleet_check i env f1) as [f2 r]. by destruct H as (? & ? & _). }
  destruct (IH Hs2) as [? ?]. by split; [|congruence].
Qed.
End replicas.

(** C21: replicas that take turns agree.  Start where no stored secret would
    pass a check unless the webhooks trust its certificate, as before the
    first start.  Let any replicas check in any order, one at a time, restart
    with any disk, and fail while the stored secret needs no renewal.  Then
    every check that reports success leaves on its replica's disk the
    certificate and the key of the one stored secret, and every webhook's CA
    bundle trusts that certificate. *)
Theorem sequential_replicas_agree {C : Crypto} {A : Api} cfg f0 f i env f' :
  agreed cfg (fl_api f0) → rtc (fleet_step cfg) f0 f →
  fleet_check cfg i env f = (f', None) →
  ∃ s, stored cfg (fl_api f') = Some s ∧ trusted cfg (fl_api f') s ∧
    serves cfg (fl_disks f' i) (data_get (sec_Data s) "tls.crt") (data_get (sec_Data s) "tls.key").
Proof.
  intros H0 Hs Hc. assert (agreed cfg (fl_api f)) as Ha.
  { clear Hc. induction Hs as [|f1 f2 f3 H1 _ IH]; [done|].
    apply IH. by eapply fleet_step_agreed. }
  unfold fleet_check in Hc. destruct (ensureCerts cfg env (host_of f i)) as [h' r] eqn:E.
  injection Hc as <- ->. destruct (ensureCerts_agrees cfg env _ _ E Ha) as (s & Hst & Ht & Hd).
  exists s. split; [done|]. split; [done|]. cbn [fl_disks]. unfold set_disk.
  by rewrite decide_True.
Qed.

(** C40: two replicas can disagree for a renewal period.  Every replica runs
    the provisioner.  When replica [a] stores its certificates, [b] then
    replaces them and patches the webhooks, and [a] patches last, every one of
    these calls succeeds, and whatever is written to the disks in between, the
    secret then holds the certificates of [b] while the webhooks have the CA
    bundle of [a].  This stays so through any sequence of checks by any
    replicas that read their clock less than 292 days after the certificates
    of [b] were made, restarts included: none renews the secret or patches the
    webhooks, and each one that succeeds leaves its replica serving the
    certificate of [b]. *)
Theorem replicas_diverge {C : Crypto} {A : Api} cfg env pa pb nb na ha ha1 ha2 ha3 hb hb1 hb2 hb3
    f0 f :
  GenerateCerts env (cfg_ServiceName cfg) (cfg_Namespace cfg) = Ok pb → dated env nb na →
  upsertSecret cfg pa ha = (ha1, None) →
  h_api hb = h_api ha1 → upsertSecret cfg pb hb = (hb1, None) →
  h_api hb2 = h_api hb1 → patchWebhookCABundle cfg (caPEM pb) hb2 = (hb3, None) →
  h_api ha2 = h_api hb3 → patchWebhookCABundle cfg (caPEM pa) ha2 = (ha3, None) →
  fl_api f0 = h_api ha3 → rtc (window_step cfg (Truncate_Second nb + 292 * Day)) f0 f →
  (∃ s, stored cfg (fl_api f) = Some s ∧ holds s pb) ∧
  (∃ mwc, configured cfg (fl_api f) = Some mwc ∧ bundles_are (caPEM pa) mwc) ∧
  ∀ i env' f', ce_now env' "certsValid" 0%nat < Truncate_Second nb + 292 * Day →
    fleet_check cfg i env' f = (f', None) →
    serves cfg (fl_disks f' i) (certPEM pb) (keyPEM pb).
Proof.
  intros Hg (Hnb & Hna & Hle) _ _ Hu Hb2 Hpb Ha2 Hpa Hf Hs.
  destruct (upsertSecret_ok _ _ _ _ Hu) as (s & Hst & Hholds).
  destruct (patch_ok _ _ _ _ Hpa) as (mwc & Hc & Hb).
  assert (stored cfg (fl_api f0) = Some s) as Hs0.
  { unfold stored. by rewrite Hf, (proj2 (patch_frame _ _ _ _ _ Hpa)), Ha2,
      (proj2 (patch_frame _ _ _ _ _ Hpb)), Hb2. }
  assert (∀ now, now < Truncate_Second nb + 292 * Day → certsValid cfg now s = true) as Hv.
  { intros now Hnow. apply GenerateCerts_generated in Hg.
    destruct (generated_valid _ _ _ _ now Hg Hholds) as (crt & Hb' & Ha' & ->).
    rewrite Hnb in Hb'. rewrite Hna in Ha'. pose proof (renewAt_bounds _ _ _ Hb' Ha' Hle).
    apply Z.ltb_lt. lia. }
  destruct (window_steps_valid _ _ _ _ _ Hv Hs Hs0) as [Hs' Hc'].
  split; [by exists s|]. split.
  - exists mwc. split; [|done]. by rewrite Hc', Hf.
  - intros i env' f' Hnow E. pose proof (fleet_check_valid cfg i env' f s Hs' (Hv _ Hnow)) as H.
    rewrite E in H. destruct Hholds as (<- & <- & _). by apply H.
Qed.

(** ** Witnesses *)

(** Two replicas start one after the other. *)
Definition new_fleet : Fleet := {| fl_api := installed false; fl_disks _ := ∅ |}.

Definition first_started : Fleet :=
  (fleet_check kompakt_config 0 (run_at (1000 * Day) 1 2) new_fleet).1.

Definition both_started : Fleet * option goerror :=
  fleet_check kompakt_config 1 (run_at (1100 * Day) 3 4) first_started.

Lemma sequential_replicas_agree_witness :
  rtc (fleet_step kompakt_config) new_fleet first_started ∧
  ∃ s, stored kompakt_config (fl_api both_started.1) = Some s ∧
    trusted kompakt_config (fl_api both_started.1) s.
Proof.
  assert (rtc (fleet_step kompakt_config) new_fleet first_started) as Hs.
  { apply rtc_once, fs_check. left. vm_compute. reflexivity. }
  split; [exact Hs|].
  destruct (sequential_replicas_agree kompakt_config new_fleet first_started 1
    (run_at (1100 * Day) 3 4) both_started.1) as (s & Hst & Ht & _).
  - intros s now H. discriminate H.
  - exact Hs.
  - assert (both_started.2 = None) as H by (vm_compute; reflexivity).
    unfold both_started in *. rewrite <- H. apply surjective_pairing.
  - exists s. split; [exact Hst|exact Ht].
Defined.

(** Two replicas that start at the same time, and the state after both. *)
Definition replica (caKey serverKey : Z) (w : api_state) (d : gmap string string) :
  Host * option goerror :=
  upsertSecret kompakt_config (pems_of caKey serverKey) {| h_api := w; h_disk := d |}.

Definition replica_patch (caKey serverKey : Z) (w : api_state) (d : gmap string string) :
  Host * option goerror :=
  patchWebhookCABundle kompakt_config (caPEM (pems_of caKey serverKey))
    {| h_api := w; h_disk := d |}.

Definition replica_a : Host := (replica 1 2 (installed false) ∅).1.
Definition replica_b : Host := (replica 3 4 (h_api replica_a) ∅).1.
Definition patched_b : Host := (replica_patch 3 4 (h_api replica_b) ∅).1.
Definition patched_a : Host := (replica_patch 1 2 (h_api patched_b) ∅).1.

(** Replica 0 checks, replica 1 restarts and checks. *)
Definition diverged : Fleet := {| fl_api := h_api patched_a; fl_disks _ := ∅ |}.

Definition diverged_checked : Fleet :=
  (fleet_check kompakt_config 0 (run_at (1100 * Day) 5 6) diverged).1.

Definition diverged_restarted : Fleet :=
  {| fl_api := fl_api diverged_checked; fl_disks := set_disk diverged_checked 1 ∅ |}.

Definition diverged_again : Fleet * option goerror :=
  fleet_check kompakt_config 1 (run_at (1200 * Day) 7 8) diverged_restarted.

Lemma diverged_steps :
  rtc (window_step kompakt_config (Truncate_Second (1000 * Day) + 292 * Day)) diverged
    diverged_restarted.
Proof.
  apply (rtc_l _ _ diverged_checked); [|apply rtc_once].
  - unfold diverged_checked. apply ws_check. vm_compute. reflexivity.
  - unfold diverged_restarted. apply ws_restart.
Qed.

Lemma run_to (m : Host * option goerror) h : m.2 = None → h = m.1 → m = (h, None).
Proof. intros H ->. by apply run_None. Qed.

Lemma replicas_diverge_witness :
  rtc (window_step kompakt_config (Truncate_Second (1000 * Day) + 292 * Day)) diverged
    diverged_restarted ∧
  (∃ s, stored kompakt_config (fl_api diverged_restarted) = Some s ∧ holds s (pems_of 3 4)) ∧
  (∃ mwc, configured kompakt_config (fl_api diverged_restarted) = Some mwc ∧
     bundles_are (caPEM (pems_of 1 2)) mwc) ∧
  serves kompakt_config (fl_disks diverged_again.1 1) (certPEM (pems_of 3 4)) (keyPEM (pems_of 3 4)).
Proof.
  split; [exact diverged_steps|].
  assert (GenerateCerts (run_at (1000 * Day) 3 4) "kompakt-controller" "kompakt-system" =
    Ok (pems_of 3 4)) as Hg by (vm_compute; reflexivity).
  assert (dated (run_at (1000 * Day) 3 4) (1000 * Day) (1000 * Day)) as Hd
    by (split_and!; done).
  destruct (replicas_diverge (C := toy_crypto) (A := toy_api) kompakt_config
    (run_at (1000 * Day) 3 4) (pems_of 1 2) (pems_of 3 4) (1000 * Day) (1000 * Day)
    (fresh_host false) replica_a
    {| h_api := h_api patched_b; h_disk := ∅ |} patched_a
    {| h_api := h_api replica_a; h_disk := ∅ |} replica_b
    {| h_api := h_api replica_b; h_disk := ∅ |} patched_b
    diverged diverged_restarted Hg Hd) as (Hs & Hb & Hserve).
  - apply run_to; [vm_compute|unfold replica_a, replica]; reflexivity.
  - unfold h_api at 1. reflexivity.
  - apply run_to; [vm_compute|unfold replica_b, replica]; reflexivity.
  - unfold h_api at 1. reflexivity.
  - apply run_to; [vm_compute|unfold patched_b, replica_patch]; reflexivity.
  - unfold h_api at 1. reflexivity.
  - apply run_to; [vm_compute|unfold patched_a, replica_patch]; reflexivity.
  - unfold diverged, fl_api. reflexivity.
  - exact diverged_steps.
  - split; [exact Hs|]. split; [exact Hb|].
    apply (Hserve 1%nat (run_at (1200 * Day) 7 8)); [vm_compute; reflexivity|].
    assert (diverged_again.2 = None) as H by (vm_compute; reflexivity).
    unfold diverged_again in *. rewrite <- H. apply surjective_pairing.
Defined.

(** In that state the certificate that is served is not trusted. *)
Example diverged_not_trusted :
  chains (match pem_Decode (caPEM (pems_of 1 2)) with Some (_, b) => b | None => "" end)
    (match pem_Decode (certPEM (pems_of 3 4)) with Some (_, b) => b | None => "" end) = false.
Proof. vm_compute. reflexivity. Qed.
