(* ===== verification/Manager.v ===== *)
(** * Starting the manager

    [cmd/manager/main.go] and [SetupWithManager] of the controller: the order
    in which the process provisions its certificates, builds the manager and
    registers the checks, the webhook and the controller, and when it exits.
    Each call into a library succeeds or fails as [MainEnv] says; what the
    code hands to the library is recorded in the manager. *)

From stdpp Require Import relations.
From S2P Require Import Prelude GoStrings GoTime Kube Scheduling Ledger LedgerFit Reservations.
From S2P Require Import Rules Inflight Templates Status Release Sync Rebuild Reconcile.
From S2P Require Import Decisions Safety Bounds GoPath Certgen CertInstances CertSafety.

Section manager.
Context {K : Kube} {C : Crypto} {A : Api}.

(** ** SetupWithManager *)

(** The objects an event may carry. *)
Inductive client_object :=
  | ObjPod (pod : Pod)
  | ObjOther.

(** The predicate of [WithEventFilter]. *)
Definition event_filter (obj : client_object) : bool :=
  match obj with
  | ObjPod pod => hasKompaktGates pod
  | ObjOther => false
  end.

(** What [SetupWithManager] hands to the builder. *)
Record controller_setup := {
  ctl_MaxConcurrentReconciles : Z;
  ctl_For : string;
  ctl_EventFilter : client_object → bool;
  ctl_Reconciler : Reconciler
}.

Definition setup_controller (r : Reconciler) : controller_setup := {|
  ctl_MaxConcurrentReconciles := 1; ctl_For := "Pod";
  ctl_EventFilter := event_filter; ctl_Reconciler := r |}.

(** ** The manager *)

(** The options and what was registered: health and readiness checks (the
    latter with the provisioner that answers), runnables, webhook handlers
    (with the reader of their resolver) and controllers. *)
Record Manager := {
  mgr_Port : Z;
  mgr_CertDir : string;
  mgr_MetricsBindAddress : string;
  mgr_HealthProbeBindAddress : string;
  mgr_LeaderElection : bool;
  mgr_LeaderElectionID : string;
  mgr_Healthz : list string;
  mgr_Readyz : list (string * Config);
  mgr_Runnables : list Config;
  mgr_Handlers : list (string * ClientReader);
  mgr_Controllers : list controller_setup
}.

Definition certDir : string := "/tmp/k8s-webhook-server/serving-certs".

Definition NewManager (leaderElect : bool) : Manager := {|
  mgr_Port := 9443; mgr_CertDir := certDir;
  mgr_MetricsBindAddress := ":8080"; mgr_HealthProbeBindAddress := ":8081";
  mgr_LeaderElection := leaderElect; mgr_LeaderElectionID := "kompakt.leader.election";
  mgr_Healthz := []; mgr_Readyz := []; mgr_Runnables := []; mgr_Handlers := [];
  mgr_Controllers := [] |}.

Definition register (m : Manager) (healthz : list string) (readyz : list (string * Config))
    (runnables : list Config) (handlers : list (string * ClientReader))
    (controllers : list controller_setup) : Manager := {|
  mgr_Port := mgr_Port m; mgr_CertDir := mgr_CertDir m;
  mgr_MetricsBindAddress := mgr_MetricsBindAddress m;
  mgr_HealthProbeBindAddress := mgr_HealthProbeBindAddress m;
  mgr_LeaderElection := mgr_LeaderElection m;
  mgr_LeaderElectionID := mgr_LeaderElectionID m;
  mgr_Healthz := mgr_Healthz m ++ healthz; mgr_Readyz := mgr_Readyz m ++ readyz;
  mgr_Runnables := mgr_Runnables m ++ runnables;
  mgr_Handlers := mgr_Handlers m ++ handlers;
  mgr_Controllers := mgr_Controllers m ++ controllers |}.

(** What the process finds: its flag, its files and environment, the
    outcome of each library call, and the certificate
    run. *)
Record MainEnv := {
  me_leaderElect : bool;
  me_ReadFile : string → result string;
  me_Getenv : string → string;
  me_call : string → option goerror;
  me_certs : CertEnv
}.

Definition main_config (env : MainEnv) : Config := {|
  cfg_Namespace := DetectNamespace (me_ReadFile env) (me_Getenv env);
  cfg_ServiceName := "kompakt-controller";
  cfg_SecretName := "kompakt-webhook-certs";
  cfg_WebhookConfigName := "kompakt-webhook";
  cfg_CertDir := certDir |}.

(** The detectors, the earliest signal first. *)
Definition main_detectors : list Detector :=
  [DetectorClusterAutoscaler;
   DetectorGOATScaler {| EventMaxAge := 0; NoStockDetected := false |};
   DetectorNotReady].

(** The ledger starts empty; [mgr.GetAPIReader()] is the reader of the
    detectors. *)
Definition main_reconciler : Reconciler := {|
  r_APIReader := Some DirectReader; r_Ledger := New;
  r_Detectors := main_detectors; r_activeDetectors := [] |}.

(** The process exits with status 1 and a message, before or after the
    manager ran, or it runs to its end. *)
Inductive main_outcome :=
  | Exit (msg : string)
  | Ran (m : Manager) (err : option string).

(** [if err := call; err != nil { log; os.Exit(1) }] *)
Definition check_call (env : MainEnv) (call msg : string) (k : main_outcome) : main_outcome :=
  match me_call env call with
  | Some _ => Exit msg
  | None => k
  end.

(** From the manager on. *)
Definition main_manager (env : MainEnv) : main_outcome :=
  let cfg := main_config env in
  check_call env "NewManager" "unable to create manager"
  (let m := NewManager (me_leaderElect env) in
   check_call env "AddHealthzCheck" "unable to set up health check"
   (let m := register m ["healthz"] [] [] [] [] in
    check_call env "AddReadyzCheck" "unable to set up ready check"
    (let m := register m [] [("readyz", cfg)] [] [] [] in
     check_call env "Add" "unable to register cert provisioner"
     (let m := register m [] [] [cfg] [] [] in
      let m := register m [] [] [] [("/mutate-v1-pod", DirectReader)] [] in
      check_call env "SetupWithManager" "unable to set up controller"
      (let m := register m [] [] [] [] [setup_controller main_reconciler] in
       Ran m (match me_call env "Start" with
              | Some _ => Some "manager exited with error"
              | None => None
              end)))))).

Definition main (env : MainEnv) (h : Host) : Host * main_outcome :=
  match me_call env "GetConfigOrDie", me_call env "NewForConfig" with
  | Some _, _ => (h, Exit "unable to get kubeconfig")
  | None, Some _ => (h, Exit "unable to create typed client")
  | None, None =>
      match ensureCerts (main_config env) (me_certs env) h with
      | (h, Some _) => (h, Exit "unable to provision webhook certs")
      | (h, None) => (h, main_manager env)
      end
  end.
End manager.

(** ** What has been registered *)

Section started.
Context {K : Kube} {C : Crypto} {A : Api}.

Definition started_manager (env : MainEnv) : Manager := {|
  mgr_Port := 9443; mgr_CertDir := certDir;
  mgr_MetricsBindAddress := ":8080"; mgr_HealthProbeBindAddress := ":8081";
  mgr_LeaderElection := me_leaderElect env; mgr_LeaderElectionID := "kompakt.leader.election";
  mgr_Healthz := ["healthz"]; mgr_Readyz := [("readyz", main_config env)];
  mgr_Runnables := [main_config env];
  mgr_Handlers := [("/mutate-v1-pod", DirectReader)];
  mgr_Controllers := [setup_controller main_reconciler] |}.

Lemma check_call_Ran env call msg k m err :
  check_call env call msg k = Ran m err → me_call env call = None ∧ k = Ran m err.
Proof. unfold check_call. by destruct (me_call env call). Qed.

Lemma check_call_Exit env call msg k msg' :
  check_call env call msg k = Exit msg' →
  (∃ e, me_call env call = Some e) ∨ k = Exit msg'.
Proof. unfold check_call. destruct (me_call env call); eauto. Qed.

Lemma main_manager_Ran env m err : main_manager env = Ran m err → m = started_manager env.
Proof.
  unfold main_manager. intros H.
  do 5 (apply check_call_Ran in H as [_ H]). by injection H as <- _.
Qed.

Lemma main_manager_Exit env msg :
  main_manager env = Exit msg → ∃ call e, me_call env call = Some e.
Proof.
  unfold main_manager. intros H.
  do 5 (apply check_call_Exit in H as [[e He]|H]; [by eauto|]). done.
Qed.

Lemma main_reconciler_bounded : reconciler_bounded main_reconciler.
Proof.
  split; [apply ledger_ok_New|]. split; [apply bounded_New|].
  cbn. by repeat constructor.
Qed.

End started.

(** A start on a fresh cluster. *)
Definition fresh_start : MainEnv (C := toy_crypto) := {|
  me_leaderElect := false;
  me_ReadFile _ := Err (errors_New "no such file"); me_Getenv _ := "";
  me_call _ := None;
  me_certs := run_at (1000 * Day) 1 2 |}.

Example fresh_start_runs :
  (main (K := kube_milli) fresh_start (fresh_host false)).2 = Ran (started_manager fresh_start) None.
Proof.
  unfold main. cbn [me_call fresh_start].
  destruct (ensureCerts _ _ _) as [h' r] eqn:E.
  assert (r = None) as ->; [|done].
  apply (f_equal snd) in E. cbn [snd] in E. rewrite <- E. vm_compute. reflexivity.
Qed.
